(* ===== verification/_CoqProject ===== *)
-Q . S2P
Prelude.v
HostApi.v
Templates.v
Absl.v
Json.v
Bytes.v
Base64.v
BasicAuth.v
SharedData.v
Bucket.v
RateLimit.v
TokenBucket.v
OpaCache.v
OpaPlugin.v
OpaFlow.v
GrpcLogging.v
Expressions.v
AttributeGen.v
ResponseFlags.v
Context.v
NodeInfo.v
NodeBuffers.v
Stats.v
StatsFlow.v
StatsConfig.v
StatsExpressions.v
ExpressionClients.v
StatsTags.v
StatsRequests.v
StatsNames.v
StatsDefaults.v
StatsWhole.v
