(* ===== verification/Prelude.v ===== *)
(** * The Istio Ecosystem Wasm extensions, verified

    A library that models the C++ extensions of this repository and proves what
    makes them correct.  This file is its root: it documents the development,
    and holds what the other files share.

    ** The program

    [src/extensions/] has a plugin per directory.  Each is compiled to a Wasm
    module that a proxy loads, in one VM per worker thread, and calls back on
    events: [onConfigure] when it is (re)configured, [onTick] on a timer,
    [onRequestHeaders] and [onLog] for a request, [onDone] before it is
    destroyed, and the callbacks of the calls it made.  Within a VM the callbacks
    run one after the other on the state of a [PluginRootContext]; the VMs of a
    proxy share only the host's key-value store.  Everything else that a plugin
    reads or does is a call of the proxy-wasm API.

    ** How it is modelled

    - The API is the signature [HostApi.HostCall] of calls with their answers; a
      C++ function that calls it is a program ([prog], below): a tree that is
      [Ret]urned, waits for the answer to a call ([Vis]), is undefined behaviour
      ([UB]) or has run out of fuel ([OutOfFuel]).  [traces] runs a program
      against every sequence of answers, [run] against one host, given as a
      state machine; [run_traces] relates the two.  The object is passed in and
      out: [ctx] is [*this], and keeps what was assigned before an early return.
    - A C++ function that does not call the host is a Rocq function, with
      [option] when it can be undefined ([None]): Base64, the result cache, the
      JSON helpers.
    - [uint64_t] is [Z] with its wrap-around written out ([+64], [-64], [*64]);
      a conversion to a narrower type is explicit ([u32], [i32]).  [size_t] is
      32 bits wide, as in Wasm.  A member or a local without initialiser is an
      [option] whose [None] is the indeterminate value, and reading it is [UB].
    - A [std::string] is a [string]; Base64 and the shared data look at its
      bytes ([Bytes]).  Maps and sets are stdpp's [gmap] and [gset]; a
      [std::list] is a list of numbered nodes, the number being the iterator.

    ** The files

    - [Prelude] (here): integers, programs and their semantics, tactics.
    - [HostApi]: the calls, the messages of [grpc_logging/log.proto], and the
      observers of a trace.
    - [Templates]: [scaffold/plugin.{h,cc}] and [src/example/plugin.{h,cc}].
    - [Absl]: the absl string functions the source calls, as a class with laws
      ([AbslStrings], [AbslLaws]) and a reference implementation.
    - [Json]: [common/wasm/json_util.{h,cc}], over a class for nlohmann::json.
    - [Bytes]: bytes of strings and little-endian words.
    - [Base64]: [common/wasm/base64.h].
    - [BasicAuth]: [basic_auth/plugin.{h,cc}].
    - [SharedData]: the documented behaviour of the shared store as a class over
      hosts ([SharedStore]), and a host that has it ([store_host]).
    - [Bucket]: [local_rate_limit/bucket.cc] and [plugin.{h,cc}].
    - [RateLimit]: the VMs that run [Bucket]'s handlers, interleaved between any
      two host calls.
    - [TokenBucket]: the token bucket that [Bucket]'s handlers refine when they do
      not interrupt each other.
    - [OpaCache]: [open_policy_agent/cache.{h,cc}].
    - [OpaPlugin]: [open_policy_agent/plugin.{h,cc}].
    - [OpaFlow]: its handlers over its whole life, with several calls in flight.
    - [GrpcLogging]: [grpc_logging/plugin.{h,cc}].
    - [Expressions]: the host's table of compiled expressions, against which
      [AttributeGen] and [StatsExpressions] prove their plugins.
    - [AttributeGen]: [attributegen/plugin.{h,cc}] and its [config.proto].
    - [ResponseFlags]: [common/util.{h,cc}].
    - [Context]: [common/context.{h,cc}]: the information on a request and its
      peer that the host's properties give.
    - [NodeInfo]: [common/node_info_generated.h], the tables, builders and
      verifiers that flatbuffers generates, over its library; and the extractors of
      [common/context.cc] again, at the level of the buffers they build.
    - [NodeBuffers]: that these buffers hold the records of [Context].
    - [Stats]: [stats/plugin.{h,cc}], what happens to streams: dimensions, reports
      with the cache of metrics, the queue of the ticks.
    - [StatsFlow]: what its reports do to the byte counters.
    - [StatsConfig]: [stats/plugin.{h,cc}], configuration, and the plugin's life
      from its constructor on; accesses in range, pointers in the queue.
    - [StatsExpressions]: its host expressions.
    - [ExpressionClients]: what a plugin promises to others that share the host's
      expressions, as a class with [AttributeGen] and [Stats] as instances.
    - [StatsTags]: what an entry of its configuration does to the tags of metrics.
    - [StatsRequests]: how often its reports record a request.
    - [StatsNames]: the names of its metrics, and the tags read back from them.
    - [StatsDefaults]: what a configuration without overrides makes and counts.
    - [StatsWhole]: what a configuration declares, and that it is what it makes.

    Definitions have the names of the functions, members and constants they
    model.  A loop is a [Fixpoint] beside its function ([getToken_loop],
    [refill_loop], [send_loop], [decode_loop], [record_all], [tick_all], ...).
    The parts of [Stats] fit together as in the source: a callback of a stream
    changes its [RequestInfo], the queue of the root, or both; [onLog] and
    [onTick] call [report], which calls [Context] to populate the request,
    [map] to fill the dimensions that the configuration of [StatsConfig] sized,
    and the statistics that it made.

    ** What is proved

    - The rate limit.  Over every interleaving of the VMs, how many tokens are
      taken, how often the bucket is refilled and how many requests pass without
      a token ([RateLimit.rate_bound]); tokens are conserved between refills, a
      single VM never lets a request through without one, a request is refused
      only when the bucket is empty, and the shared data stays well formed.  For
      one VM, how many requests a bucket and a configuration serve, what a
      refill does, and what [getToken] decides on any answers.  When the handlers of
      the VMs follow one another they refine an abstract token bucket
      ([TokenBucket.handlers_refine_bucket]), and a request that is tried again after
      every tick waits for one interval at most.
    - Basic authentication.  The decision and the reply for every rule store and
      request, also when a rule has no path pattern, which a configuration can bring
      about ([BasicAuth.empty_path_undefined]); the store invariant, also when a configuration fails half way;
      configuring is safe on every text; ports and wildcards; a configured
      credential is accepted.
    - Base64.  The round trip, with and without padding; the decoder is total
      and accepts exactly the canonical encodings.
    - Open Policy Agent.  The cache refines a least-recently-used list while its
      keys fit in an [int], and what happens when they do not; the check fails
      closed; the callback replies once; a decision is remembered until it
      expires; and over every history, with any number of calls in flight, no
      request is let through without an answer of the policy server that permits
      its key ([OpaFlow.permission_from_server]).
    - gRPC logging.  No entry is lost, repeated or reordered while the plugin
      runs; calls in flight are counted; the end is signalled once; and the two
      cases where [onDone] does not do what it should.
    - Attribute generation.  Host expressions are a resource that is neither
      leaked nor used after it is deleted; what each phase sets; a configuration
      is taken whole or not at all.
    - Response flags are read back from their spelling.
    - Context.  Without the fallback the host header has no effect; what is
      populated is computed once; text is sanitized in one pass; the workload
      label is read back; when the peer's node is there.
    - Node information.  The buffers that the extractors build read back, through the
      generated accessors, as the records that [Context] computes, over every host
      ([NodeBuffers.node_buffers_refine_records]); each field has a place of its own;
      what the verifier accepts has no null key, so that the lookup of a label is
      defined on it.
    - Stats, reporting.  The cache of metrics makes no difference to what is
      recorded, until the plugin is configured again; nothing of a report is left in the dimensions of the next; every
      request is counted once, at its end; every byte of TCP is recorded once, and
      all are when a stream has ended.
    - Stats, names.  The tags of a metric are read back from its name, and different
      dimensions name different metrics, when no value holds a separator; a value
      that does forges the tags after it, and the client's host header can be one.
    - Stats, life.  Whatever the configuration, no access to the vector of
      dimensions is out of range; no pointer in the queue dangles when the host
      sends nothing after the log of a stream but its destruction; expressions
      are neither leaked nor deleted twice, and all that are evaluated are live
      when the plugin is configured once, but not when it is configured again;
      what an entry of the configuration does to each tag; that the metrics are
      those that the configuration as a whole declares, each with its value and its tags,
      for every document and whatever expressions the host rejects, when an entry
      fails half way too ([StatsWhole.configuration_as_declared]); and what a rejected configuration
      leaves unassigned.
    - Stats, by default.  A configuration without overrides makes exactly the
      standard metrics, with the first of the standard labels; and from the plugin's
      construction on, the counter of requests counts the requests.
    - Shared expressions.  Plugins of both kinds, with any number of roots over one
      table, neither leak expressions nor delete each other's, and evaluate live ones
      only, but for the integer values of metrics after a second configuration.
    - JSON.  A value is there exactly when the detail is [OK].

    ** Bounds and fuel

    [refill_loop] is the one loop without a bound in the source.  It has fuel,
    and any positive fuel is enough when no other VM writes in between
    ([Bucket.refillToken_spec]); the interleaved system of [RateLimit] starts
    each tick with an arbitrary fuel, and its theorems hold for all of them.
    [getToken_loop] recurses on the 20 tries of the source.  [sanitize_loop] has
    as fuel the length of the text, which is enough ([Context.sanitizeBytes_spec]).
    The 20 of
    [ResponseFlags.to_string] are the digits of the largest [uint64_t].  The
    other loops recurse on the list they go through.

    ** What is assumed of other code

    Third-party code is a class or a parameter, never a definition:
    [NlohmannJson] (parser, printer, conversion of a [double]), [AbslStrings],
    [Protobuf] and [ConfigParser] (JSON to messages), [Flatbuffers] (lookup in a
    sorted table, the root of a buffer, one character of UTF-8), [AbslTime]
    (durations), the standard library's [std_hash] and the order in which it goes
    through an unordered map ([UnorderedMap]: a permutation of the entries that
    their set determines), and the host.  Laws are named hypotheses of the theorems that
    need them.  [SharedStore] supposes that a key never has the same version
    twice; the versions of the real host are 32 bits wide, so this holds for
    2^32 writes.  [FlatBufferLibrary] is what the generated code calls of flatbuffers,
    and [FlatBufferLaws] that an offset is new and not 0, that what is laid out is read
    back and stays, and that [std::sort] sees a sequence only through its comparison;
    the order in which C++ evaluates two arguments is a parameter ([key_first]).
    [NodeBuffers.Reference] is a library that has these laws.  [NamingHost] supposes that a metric name always resolves to the
    same id.  [SharedStore] also supposes a clock that does not go back.  A call to the
    host is atomic.

    ** What is not modelled

    - Log lines, which nothing depends on.
    - The bytes of the binary schema ([common/node_info_bfbs_generated.h]), and
      [nodeInfoSchema], which returns them.
    - The Zig demo, and the Go and C++ tests. *)

From stdpp Require Import base tactics numbers list strings gmap.
From Stdlib Require Import ZArith Lia Ascii.

(** ** Machine integers *)

Declare Scope wasm_scope.
Delimit Scope wasm_scope with wasm.
Local Open Scope Z_scope.

(** An unsigned [w]-bit integer is the [Z] below [2 ^ w] that its bits denote. *)
Definition wrap (w x : Z) : Z := x mod 2 ^ w.

Definition u8 (x : Z) : Z := wrap 8 x.
Definition u32 (x : Z) : Z := wrap 32 x.
Definition u64 (x : Z) : Z := wrap 64 x.

(** Two's complement reading of the low [w] bits. *)
Definition signed (w x : Z) : Z :=
  let m := wrap w x in if m <? 2 ^ (w - 1) then m else m - 2 ^ w.

Definition i32 (x : Z) : Z := signed 32 x.
Definition i64 (x : Z) : Z := signed 64 x.

Definition is_u (w x : Z) : Prop := 0 <= x < 2 ^ w.

#[export] Instance is_u_dec w x : Decision (is_u w x).
Proof. unfold is_u. apply _. Defined.

Notation "x +64 y" := (u64 (x + y)) (at level 50, left associativity) : wasm_scope.
Notation "x -64 y" := (u64 (x - y)) (at level 50, left associativity) : wasm_scope.
Notation "x *64 y" := (u64 (x * y)) (at level 40, left associativity) : wasm_scope.

Lemma wrap_bound w x : 0 <= w -> 0 <= wrap w x < 2 ^ w.
Proof. intros. unfold wrap. apply Z.mod_pos_bound. lia. Qed.

Lemma wrap_id w x : is_u w x -> wrap w x = x.
Proof. intros. unfold wrap. by apply Z.mod_small. Qed.

Lemma u64_bound x : 0 <= u64 x < 2 ^ 64.
Proof. by apply wrap_bound. Qed.

Lemma u64_id x : 0 <= x < 2 ^ 64 -> u64 x = x.
Proof. intros. by apply wrap_id. Qed.

Lemma u64_le x : 0 <= x -> u64 x <= x.
Proof. intros. unfold u64, wrap. by apply Z.mod_le. Qed.

Lemma u64_idemp x : u64 (u64 x) = u64 x.
Proof. apply u64_id, u64_bound. Qed.

Lemma u64_add_l x y : u64 (u64 x + y) = u64 (x + y).
Proof. unfold u64, wrap. apply Zplus_mod_idemp_l. Qed.

Lemma u64_add_r x y : u64 (x + u64 y) = u64 (x + y).
Proof. unfold u64, wrap. apply Zplus_mod_idemp_r. Qed.

Lemma u32_bound x : 0 <= u32 x < 2 ^ 32.
Proof. by apply wrap_bound. Qed.

Lemma u32_id x : 0 <= x < 2 ^ 32 -> u32 x = x.
Proof. intros. by apply wrap_id. Qed.

Lemma i32_id x : - 2 ^ 31 <= x < 2 ^ 31 -> i32 x = x.
Proof.
  intros Hx. unfold i32, signed, wrap. simpl Z.sub. case_match eqn:E.
  - apply Z.ltb_lt in E. destruct (decide (0 <= x)).
    + apply Z.mod_small. lia.
    + rewrite <- (Z.mod_add x 1) in E |- * by lia. rewrite Z.mod_small in * by lia. lia.
  - apply Z.ltb_ge in E. destruct (decide (0 <= x)).
    + rewrite Z.mod_small in * by lia. lia.
    + rewrite <- (Z.mod_add x 1) by lia. rewrite Z.mod_small by lia. lia.
Qed.

(** Concatenation reduces on a known first string. *)
#[global] Arguments String.append !_ _ : simpl nomatch.

Create HintDb wasm.
Create Rewrite HintDb wasm_rw.
#[export] Hint Resolve u64_bound u32_bound u64_id u32_id : wasm.
#[export] Hint Rewrite u64_idemp u64_add_l u64_add_r : wasm_rw.

(** ** Handlers as programs over an effect signature

    A handler of the source is a program that asks the host for something,
    continues with the answer, and ends in a value.  [UB] is the undefined
    behaviour of C++ (a null or dangling dereference, an indeterminate read),
    [OutOfFuel] the end of the fuel given to a [while (true)]. *)
Inductive prog (E : Type -> Type) (A : Type) : Type :=
| Ret (a : A)
| Vis {X : Type} (e : E X) (k : X -> prog E A)
| UB (why : string)
| OutOfFuel.

Arguments Ret {_ _} _.
Arguments Vis {_ _ _} _ _.
Arguments UB {_ _} _.
Arguments OutOfFuel {_ _}.

Fixpoint prog_bind {E A B} (f : A -> prog E B) (m : prog E A) : prog E B :=
  match m with
  | Ret a => f a
  | Vis e k => Vis e (fun x => prog_bind f (k x))
  | UB why => UB why
  | OutOfFuel => OutOfFuel
  end.

#[export] Instance prog_mret E : MRet (prog E) := fun A a => Ret a.
#[export] Instance prog_mbind E : MBind (prog E) := fun A B f m => prog_bind f m.

(** One call to the host. *)
Definition trigger {E X} (e : E X) : prog E X := Vis e Ret.

(** What a program did: each call with the host's answer, oldest first. *)
Inductive event (E : Type -> Type) : Type :=
| Ev {X : Type} (e : E X) (x : X).
Arguments Ev {_ _} _ _.

Inductive outcome (A : Type) : Type :=
| Done (a : A)
| Undefined (why : string)
| NoFuel.
Arguments Done {_} _.
Arguments Undefined {_} _.
Arguments NoFuel {_}.

(** *** Against every host: [traces m tr o] says that some sequence of answers
    makes [m] perform the calls [tr] and end in [o]. *)
Fixpoint traces {E A} (m : prog E A) (tr : list (event E)) (o : outcome A) : Prop :=
  match m with
  | Ret a => tr = [] /\ o = Done a
  | @Vis _ _ X e k => exists (x : X) tr', tr = Ev e x :: tr' /\ traces (k x) tr' o
  | UB why => tr = [] /\ o = Undefined why
  | OutOfFuel => tr = [] /\ o = NoFuel
  end.

(** *** Against one host: a handler answers each call from a host state. *)
Definition handler (E : Type -> Type) (S : Type) : Type :=
  forall X : Type, E X -> S -> X * S.

Record exec (E : Type -> Type) (S A : Type) := Exec {
  result : outcome A;
  final : S;
  trace : list (event E)
}.
Arguments Exec {_ _ _} _ _ _.
Arguments result {_ _ _} _.
Arguments final {_ _ _} _.
Arguments trace {_ _ _} _.

Fixpoint run {E S A} (h : handler E S) (m : prog E A) (s : S) : exec E S A :=
  match m with
  | Ret a => Exec (Done a) s []
  | Vis e k =>
      let '(x, s') := h _ e s in
      let r := run h (k x) s' in
      Exec (result r) (final r) (Ev e x :: trace r)
  | UB why => Exec (Undefined why) s []
  | OutOfFuel => Exec NoFuel s []
  end.

Section prog_facts.
Context {E : Type -> Type}.

Lemma bind_ret {A B} (a : A) (f : A -> prog E B) : mret a ≫= f = f a.
Proof. reflexivity. Qed.

Lemma bind_trigger {X B} (e : E X) (f : X -> prog E B) : trigger e ≫= f = Vis e f.
Proof. reflexivity. Qed.

Lemma run_bind {S A B} (h : handler E S) (m : prog E A) (f : A -> prog E B) s :
  run h (m ≫= f) s =
  match result (run h m s) with
  | Done a =>
      let r := run h (f a) (final (run h m s)) in
      Exec (result r) (final r) (trace (run h m s) ++ trace r)
  | Undefined why => Exec (Undefined why) (final (run h m s)) (trace (run h m s))
  | NoFuel => Exec NoFuel (final (run h m s)) (trace (run h m s))
  end.
Proof.
  unfold mbind, prog_mbind. revert s.
  induction m as [a|X e k IH|why|]; intros s; simpl; try done.
  - by destruct (run h (f a) s).
  - destruct (h X e s) as [x s']. rewrite IH.
    by destruct (result (run h (k x) s')).
Qed.

(** A host run is one of the traces. *)
Lemma run_traces {S A} (h : handler E S) (m : prog E A) s :
  traces m (trace (run h m s)) (result (run h m s)).
Proof.
  revert s. induction m as [a|X e k IH|why|]; intros s; simpl; try done.
  destruct (h X e s) as [x s'] eqn:Hx; simpl.
  exists x, (trace (run h (k x) s')). split; [done|]. apply IH.
Qed.

Lemma run_done_traces {S A} (h : handler E S) (m : prog E A) s a :
  result (run h m s) = Done a -> traces m (trace (run h m s)) (Done a).
Proof. intros <-. apply run_traces. Qed.

Lemma traces_bind {A B} (m : prog E A) (f : A -> prog E B) tr o :
  traces (m ≫= f) tr o ->
  (exists a tr1 tr2, tr = tr1 ++ tr2 /\ traces m tr1 (Done a) /\ traces (f a) tr2 o)
  \/ (exists why, traces m tr (Undefined why) /\ o = Undefined why)
  \/ (traces m tr NoFuel /\ o = NoFuel).
Proof.
  unfold mbind, prog_mbind. revert tr.
  induction m as [a|X e k IH|why|]; intros tr; simpl.
  - intros H. left. exists a, [], tr. eauto.
  - intros (x & tr' & -> & H).
    destruct (IH x tr' H) as [(a & t1 & t2 & -> & H1 & H2)|[(why & H1 & ->)|[H1 ->]]].
    + left. exists a, (Ev e x :: t1), t2. eauto 10.
    + right; left. exists why. eauto 10.
    + right; right. eauto 10.
  - intros [-> ->]. right; left. eauto.
  - intros [-> ->]. right; right. eauto.
Qed.

Lemma traces_bind_done {A B} (m : prog E A) (f : A -> prog E B) tr b :
  traces (m ≫= f) tr (Done b) ->
  exists a tr1 tr2, tr = tr1 ++ tr2 /\ traces m tr1 (Done a) /\ traces (f a) tr2 (Done b).
Proof. by intros [H|[(why & _ & ?)|[_ ?]]]%traces_bind. Qed.

(** A program is safe when no answers lead it into undefined behaviour. *)
Definition no_ub {A} (m : prog E A) : Prop :=
  forall tr why, ~ traces m tr (Undefined why).

Lemma no_ub_ret {A} (a : A) : no_ub (mret a : prog E A).
Proof. intros tr why [_ H]. done. Qed.

Lemma no_ub_vis {A X} (e : E X) (k : X -> prog E A) :
  (forall x, no_ub (k x)) -> no_ub (Vis e k).
Proof. intros H tr why (x & tr' & _ & Ht). by eapply H. Qed.

Lemma no_ub_bind {A B} (m : prog E A) (f : A -> prog E B) :
  no_ub m -> (forall a, no_ub (f a)) -> no_ub (m ≫= f).
Proof.
  intros Hm Hf tr why Ht.
  destruct (traces_bind _ _ _ _ Ht) as [(a & t1 & t2 & -> & H1 & H2)|[(w & H1 & _)|[_ ?]]].
  - by eapply Hf.
  - by eapply Hm.
  - done.
Qed.

(** Two programs are equivalent when every host runs them alike. *)
#[global] Instance prog_equiv A : Equiv (prog E A) :=
  fun m1 m2 => forall S (h : handler E S) s, run h m1 s = run h m2 s.

#[global] Instance prog_equivalence A : Equivalence (≡@{prog E A}).
Proof.
  split.
  - intros m S h s. done.
  - intros m1 m2 H S h s. symmetry. apply H.
  - intros m1 m2 m3 H1 H2 S h s. rewrite H1. apply H2.
Qed.

#[global] Instance prog_bind_proper A B :
  Proper (pointwise_relation A (≡) ==> (≡) ==> (≡)) (@mbind (prog E) _ A B).
Proof.
  intros f1 f2 Hf m1 m2 Hm S h s. rewrite !run_bind, (Hm S h s).
  destruct (result (run h m2 s)); [|done..]. by rewrite (Hf _ S h _).
Qed.

Lemma bind_assoc {A B C} (m : prog E A) (f : A -> prog E B) (g : B -> prog E C) :
  (m ≫= f) ≫= g ≡ m ≫= (fun a => f a ≫= g).
Proof.
  intros S h s. rewrite !run_bind. destruct (result (run h m s)); simpl; try done.
  rewrite run_bind. destruct (result (run h (f a) _)); simpl; try done.
  by rewrite app_assoc.
Qed.

Lemma bind_ret_r {A} (m : prog E A) : m ≫= mret ≡ m.
Proof.
  intros S h s. rewrite run_bind. destruct (run h m s) as [[a|w|] s' t]; simpl; try done.
  by rewrite app_nil_r.
Qed.
Lemma vis_equiv {A X} (e : E X) (k1 k2 : X -> prog E A) :
  (forall x, k1 x ≡ k2 x) -> Vis e k1 ≡ Vis e k2.
Proof. intros Hk S h s. simpl. destruct (h X e s) as [x s']. by rewrite (Hk x S h s'). Qed.

(** Whatever the host answers, what the program returns satisfies [Q]. *)
Fixpoint returns {A} (Q : A -> Prop) (m : prog E A) : Prop :=
  match m with
  | Ret a => Q a
  | Vis e k => forall x, returns Q (k x)
  | UB _ | OutOfFuel => True
  end.

Lemma returns_traces {A} (Q : A -> Prop) (m : prog E A) tr a :
  returns Q m -> traces m tr (Done a) -> Q a.
Proof.
  revert tr. induction m as [b|X e k IH|why|]; intros tr; simpl; try by intros _ [_ ?].
  - by intros HQ [_ [= ->]].
  - intros HQ (x & tr' & _ & Ht). eauto.
Qed.

Lemma returns_mono {A} (P Q : A -> Prop) (m : prog E A) :
  (forall a, P a -> Q a) -> returns P m -> returns Q m.
Proof. intros HPQ. induction m; simpl; auto. Qed.

Lemma returns_true {A} (m : prog E A) : returns (fun _ => True) m.
Proof. induction m; simpl; auto. Qed.

Lemma returns_impl {A} (P : Prop) (Q : A -> Prop) (m : prog E A) :
  (P -> returns Q m) -> returns (fun a => P -> Q a) m.
Proof. induction m; simpl; auto. Qed.

Lemma returns_bind {A B} (P : A -> Prop) (Q : B -> Prop) (m : prog E A) (f : A -> prog E B) :
  returns P m -> (forall a, P a -> returns Q (f a)) -> returns Q (m ≫= f).
Proof. unfold mbind, prog_mbind. intros Hm Hf. induction m; simpl in *; auto. Qed.

(** The same, and the only undefined behaviour is of the kinds in [U]. *)
Fixpoint ensures {A} (U : string -> Prop) (Q : A -> Prop) (m : prog E A) : Prop :=
  match m with
  | Ret a => Q a
  | Vis e k => forall x, ensures U Q (k x)
  | UB why => U why
  | OutOfFuel => True
  end.

Lemma ensures_undefined {A} (U : string -> Prop) (Q : A -> Prop) (m : prog E A) tr why :
  ensures U Q m -> traces m tr (Undefined why) -> U why.
Proof.
  revert tr. induction m as [b|X e k IH|w|]; intros tr; simpl; try by intros _ [_ ?].
  - intros HQ (x & tr' & _ & Ht). eauto.
  - by intros HU [_ [= ->]].
Qed.

Lemma ensures_mono {A} (U V : string -> Prop) (P Q : A -> Prop) (m : prog E A) :
  (forall w, U w -> V w) -> (forall a, P a -> Q a) -> ensures U P m -> ensures V Q m.
Proof. intros HUV HPQ. induction m; simpl; auto. Qed.

Lemma ensures_returns {A} (U : string -> Prop) (P Q : A -> Prop) (m : prog E A) :
  ensures U P m -> returns Q m -> ensures U (fun a => P a /\ Q a) m.
Proof. induction m; simpl; auto. Qed.

Lemma returns_ensures {A} (U : string -> Prop) (Q : A -> Prop) (m : prog E A) :
  ensures U Q m -> returns Q m.
Proof. induction m; simpl; auto. Qed.

Lemma ensures_bind {A B} (U : string -> Prop) (P : A -> Prop) (Q : B -> Prop)
    (m : prog E A) (f : A -> prog E B) :
  ensures U P m -> (forall a, P a -> ensures U Q (f a)) -> ensures U Q (m ≫= f).
Proof. unfold mbind, prog_mbind. intros Hm Hf. induction m; simpl in *; auto. Qed.

Lemma ensures_any {A B} (U : string -> Prop) (Q : B -> Prop) (m : prog E A) (f : A -> prog E B) :
  ensures U (fun _ => True) m -> (forall a, ensures U Q (f a)) -> ensures U Q (m ≫= f).
Proof. intros Hm Hf. eapply ensures_bind; [exact Hm|]. auto. Qed.

(** Whatever the host answers, every call satisfies [P]. *)
Fixpoint calls {A} (P : forall X, E X -> Prop) (m : prog E A) : Prop :=
  match m with
  | Vis e k => P _ e /\ forall x, calls P (k x)
  | _ => True
  end.

Definition called (P : forall X, E X -> Prop) (ev : event E) : Prop :=
  match ev with Ev e _ => P _ e end.

Lemma calls_traces {A} (P : forall X, E X -> Prop) (m : prog E A) tr o :
  calls P m -> traces m tr o -> Forall (called P) tr.
Proof.
  revert tr. induction m as [a|X e k IH|why|]; intros tr; simpl; try by intros _ [-> _].
  intros [He Hk] (x & tr' & -> & Ht). constructor; [done|]. by eapply IH.
Qed.

Lemma calls_returns_bind {A B} (P : forall X, E X -> Prop) (Q : A -> Prop) (m : prog E A)
    (g : A -> prog E B) :
  calls P m -> returns Q m -> (forall a, Q a -> calls P (g a)) -> calls P (m ≫= g).
Proof.
  unfold mbind, prog_mbind. intros Hm Hq Hg. induction m as [a|X e k IH|why|]; simpl in *; auto.
  destruct Hm. auto.
Qed.

Lemma calls_bind {A B} (P : forall X, E X -> Prop) (m : prog E A) (g : A -> prog E B) :
  calls P m -> (forall a, calls P (g a)) -> calls P (m ≫= g).
Proof. intros Hm Hg. eapply calls_returns_bind; [exact Hm|apply returns_true|auto]. Qed.

(** Whatever the host answers, the program makes no call that [f] observes. *)
Fixpoint never {A B} (f : event E -> option B) (m : prog E A) : Prop :=
  match m with
  | Vis e k => forall x, f (Ev e x) = None /\ never f (k x)
  | _ => True
  end.

Lemma never_traces {A B} (f : event E -> option B) (m : prog E A) tr o :
  never f m -> traces m tr o -> omap f tr = [].
Proof.
  revert tr. induction m as [a|X e k IH|why|]; intros tr; simpl; try by intros _ [-> _].
  intros Hm (x & tr' & -> & Ht). destruct (Hm x) as [Hx Hk]. simpl. rewrite Hx. by eapply IH.
Qed.

Lemma never_bind {A B C} (f : event E -> option C) (m : prog E A) (g : A -> prog E B) :
  never f m -> (forall a, never f (g a)) -> never f (m ≫= g).
Proof.
  unfold mbind, prog_mbind. intros Hm Hg. induction m as [a|X e k IH|why|]; simpl in *; auto.
  intros x. destruct (Hm x). auto.
Qed.

Lemma never_ret {A B} (f : event E -> option B) (a : A) : never f (mret a).
Proof. done. Qed.

Lemma never_trigger {X B} (f : event E -> option B) (e : E X) :
  (forall x, f (Ev e x) = None) -> never f (trigger e).
Proof. simpl. auto. Qed.

Lemma returns_run {S A} (Q : A -> Prop) (h : handler E S) (m : prog E A) s a :
  returns Q m -> result (run h m s) = Done a -> Q a.
Proof. intros HQ Hr. eapply returns_traces; [exact HQ|]. eapply run_done_traces. exact Hr. Qed.
End prog_facts.

#[export] Hint Resolve no_ub_ret no_ub_vis no_ub_bind : wasm.

(** The same against one host. *)
Definition runs {E S A} (h : handler E S) (Q : A -> Prop) (m : prog E A) : Prop :=
  forall s a, result (run h m s) = Done a -> Q a.

Section runs.
Context {E : Type -> Type} {S : Type} (h : handler E S).

Lemma returns_runs {A} (Q : A -> Prop) (m : prog E A) : returns Q m -> runs h Q m.
Proof. intros HQ s a. by apply returns_run. Qed.

Lemma runs_ret {A} (Q : A -> Prop) a : Q a -> runs h Q (mret a).
Proof. by intros HQ s b [= <-]. Qed.

Lemma runs_bind {A B} (P : A -> Prop) (Q : B -> Prop) (m : prog E A) (f : A -> prog E B) :
  runs h P m -> (forall a, P a -> runs h Q (f a)) -> runs h Q (m ≫= f).
Proof.
  intros Hm Hf s b. rewrite run_bind. destruct (result (run h m s)) as [a| |] eqn:Ha; [|done..].
  simpl. apply Hf. by eapply Hm.
Qed.
End runs.

(** Follow a program's calls. *)
Ltac never_tac :=
  repeat first
    [ done
    | apply never_bind; [|intros ?]
    | apply never_trigger; intros ?; reflexivity
    | match goal with |- never _ (if ?b then _ else _) => destruct b end
    | match goal with |- never _ (match ?x with _ => _ end) => destruct x end ].

(** The value of a run that is known to be done, for examples. *)
Definition is_done {A} (o : outcome A) : bool := match o with Done _ => true | _ => false end.
Definition done_or {A} (a : A) (o : outcome A) : A := match o with Done b => b | _ => a end.

Lemma is_done_or {A} (a : A) (o : outcome A) : is_done o = true -> o = Done (done_or a o).
Proof. by destruct o. Qed.

(** Undefined behaviour that is not of some kinds. *)
Definition other_than (kinds : list string) (why : string) : Prop := bool_decide (why ∈ kinds) = false.

(** Go through a program whose results do not matter. *)
Ltac ensures_tac :=
  repeat first
    [ done
    | apply ensures_any; [|intros ?]
    | match goal with |- ensures _ _ (UB _) => by vm_compute end
    | match goal with |- ensures _ _ (trigger _) => by intros ? end
    | match goal with |- ensures _ _ (if ?b then _ else _) => destruct b end
    | match goal with |- ensures _ _ (match ?x with _ => _ end) => destruct x end ].

Ltac calls_tac :=
  repeat first
    [ done
    | apply calls_bind; [|intros ?]
    | match goal with |- calls _ (trigger _) => split; [exact I|done] end
    | match goal with |- calls _ (if ?b then _ else _) => destruct b end
    | match goal with |- calls _ (match ?x with _ => _ end) => destruct x end ].

(** What the calls and the result of a run satisfy together. *)
Definition runs_with {E S A} (h : handler E S) (Q : list (event E) -> A -> Prop) (m : prog E A) : Prop :=
  forall s a, result (run h m s) = Done a -> Q (trace (run h m s)) a.

Section runs_with.
Context {E : Type -> Type} {S : Type} (h : handler E S).

Lemma runs_with_ret {A} (Q : list (event E) -> A -> Prop) a : Q [] a -> runs_with h Q (mret a).
Proof. by intros HQ s b [= <-]. Qed.

Lemma runs_with_bind {A B} (P : list (event E) -> A -> Prop) (Q : list (event E) -> B -> Prop)
    (m : prog E A) (f : A -> prog E B) :
  runs_with h P m -> (forall t a, P t a -> runs_with h (fun t' => Q (t ++ t')) (f a)) ->
  runs_with h Q (m ≫= f).
Proof.
  intros Hm Hf s b. rewrite run_bind. destruct (result (run h m s)) as [a| |] eqn:Ha; [|done..].
  simpl. intros Hb. apply (Hf _ a (Hm _ _ Ha) _ _ Hb).
Qed.

Lemma runs_with_mono {A} (P Q : list (event E) -> A -> Prop) (m : prog E A) :
  (forall t a, P t a -> Q t a) -> runs_with h P m -> runs_with h Q m.
Proof. intros HPQ Hm s a Ha. apply HPQ, Hm, Ha. Qed.

Lemma runs_with_traces {A} (Q : list (event E) -> A -> Prop) (m : prog E A) :
  (forall t a, traces m t (Done a) -> Q t a) -> runs_with h Q m.
Proof. intros HQ s a Ha. apply HQ. by apply run_done_traces. Qed.
End runs_with.

(** ** Record update

    [r <| f := v |>] is [r] with the field [f] changed.  A record has it once it
    is an instance of [Fields], which spells out its fields. *)
Class Fields (R : Type) := fields : R -> R.
Class Field {R T : Type} (f : R -> T) := set_field : T -> R -> R.
#[global] Hint Mode Field ! ! ! : typeclass_instances.

Ltac field_setter f :=
  lazymatch type of f with
  | ?R -> _ =>
      let e := constr:(_ : Fields R) in
      let e := eval hnf in e in
      let e := lazymatch eval pattern f in e with ?g _ => g end in
      let e := eval cbv beta in (fun v r => e (fun _ => v) r) in
      exact e
  end.
#[export] Hint Extern 1 (Field ?f) => field_setter f : typeclass_instances.
Arguments set_field {_ _} _ {_} _ _ /.
Notation "r <| f := v |>" := (set_field f v r)
  (at level 1, left associativity, f at level 9, v at level 99).

(** ** Deciding a property of all small integers by evaluation *)

Definition all_below (n : Z) (f : Z -> bool) : bool :=
  forallb (fun i => f (Z.of_nat i)) (seq 0 (Z.to_nat n)).

Lemma all_below_spec n f :
  all_below n f = true -> forall x, 0 <= x < n -> f x = true.
Proof.
  intros H x Hx. unfold all_below in H. rewrite forallb_forall in H.
  rewrite <- (Z2Nat.id x) by lia. apply H, in_seq. lia.
Qed.

Lemma all_below2_spec n m f :
  all_below n (fun x => all_below m (f x)) = true ->
  forall x y, 0 <= x < n -> 0 <= y < m -> f x y = true.
Proof.
  intros H x y Hx Hy. apply (all_below_spec m (f x)); [|done].
  by apply (all_below_spec n (fun x => all_below m (f x))).
Qed.

Lemma all_below3_spec n m k f :
  all_below n (fun x => all_below m (fun y => all_below k (f x y))) = true ->
  forall x y z, 0 <= x < n -> 0 <= y < m -> 0 <= z < k -> f x y z = true.
Proof.
  intros H x y z Hx Hy Hz. apply (all_below_spec k (f x y)); [|done].
  by apply (all_below2_spec n m (fun x y => all_below k (f x y))).
Qed.

(** Prove an equation between integer expressions over bounded variables by
    checking every value: the bounds [Hx : 0 <= x < n], ... are hypotheses. *)
Ltac by_values n x Hx :=
  apply Z.eqb_eq; revert x Hx; apply (all_below_spec n); vm_compute; reflexivity.
Ltac by_values2 n m x y Hx Hy :=
  apply Z.eqb_eq; revert x y Hx Hy; apply (all_below2_spec n m); vm_compute; reflexivity.
Ltac by_values3 n m k x y z Hx Hy Hz :=
  apply Z.eqb_eq; revert x y z Hx Hy Hz; apply (all_below3_spec n m k); vm_compute; reflexivity.

(** ** The elements of a list before the first that is not well formed *)

Fixpoint take_ok {X} (ok : X -> bool) (l : list X) : list X :=
  match l with
  | [] => []
  | x :: l => if ok x then x :: take_ok ok l else []
  end.

Lemma take_all {X} (ok : X -> bool) l : forallb ok l = true -> take_ok ok l = l.
Proof.
  induction l as [|x l IH]; [done|]. cbn [forallb take_ok]. intros [-> Hl]%andb_true_iff. by rewrite IH.
Qed.

(** ** Induction over lists three and four elements at a time *)

Lemma list_ind3 {A} (P : list A -> Prop) :
  P [] -> (forall a, P [a]) -> (forall a b, P [a; b]) ->
  (forall a b c l, P l -> P (a :: b :: c :: l)) -> forall l, P l.
Proof.
  intros H0 H1 H2 H3. fix IH 1. intros [|a [|b [|c l]]]; [done..|]. apply H3, IH.
Qed.

Lemma list_ind4 {A} (P : list A -> Prop) :
  P [] -> (forall a, P [a]) -> (forall a b, P [a; b]) -> (forall a b c, P [a; b; c]) ->
  (forall a b c d l, P l -> P (a :: b :: c :: d :: l)) -> forall l, P l.
Proof.
  intros H0 H1 H2 H3 H4. fix IH 1. intros [|a [|b [|c [|d l]]]]; [done..|]. apply H4, IH.
Qed.

(** ** The order of strings *)

Lemma string_compare_trans a b c r :
  r <> Eq -> String.compare a b = r -> String.compare b c = r -> String.compare a c = r.
Proof.
  intros Hr. revert b c. induction a as [|x a IH]; intros [|y b] [|z c]; simpl; try congruence.
  unfold Ascii.compare. intros Hab Hbc.
  destruct (N.compare_spec (Ascii.N_of_ascii x) (Ascii.N_of_ascii y)) as [E|E|E],
    (N.compare_spec (Ascii.N_of_ascii y) (Ascii.N_of_ascii z)) as [E'|E'|E']; try congruence.
  - rewrite E, E', N.compare_refl. by eapply IH.
  - rewrite E. by rewrite (proj2 (N.compare_lt_iff _ _) E').
  - rewrite E. by rewrite (proj2 (N.compare_gt_iff _ _) E').
  - rewrite <- E'. by rewrite (proj2 (N.compare_lt_iff _ _) E).
  - by rewrite (proj2 (N.compare_lt_iff _ _) (N.lt_trans _ _ _ E E')).
  - rewrite <- E'. by rewrite (proj2 (N.compare_gt_iff _ _) E).
  - by rewrite (proj2 (N.compare_gt_iff _ _) (N.lt_trans _ _ _ E' E)).
Qed.

Lemma string_leb_trans a b c : String.leb a b = true -> String.leb b c = true -> String.leb a c = true.
Proof.
  unfold String.leb. destruct (String.compare a b) eqn:Hab; [|intros _|done];
    [apply String.compare_eq_iff in Hab as ->; done|].
  destruct (String.compare b c) eqn:Hbc; [|intros _|done];
    [apply String.compare_eq_iff in Hbc as <-; by rewrite Hab|].
  by rewrite (string_compare_trans a b c Lt).
Qed.
