(* ===== verification/HostApi.v ===== *)
(** * The proxy-wasm host, as the extensions see it

    The extensions run inside a proxy and reach everything outside their own
    objects through the proxy-wasm API.  That API is not part of the repository:
    here it is a signature of calls ([HostCall]) whose answers are unknown, so a
    handler of the source becomes a [prog HostCall] and a theorem holds either
    for every sequence of answers ([traces]) or for every host state machine
    that obeys named laws ([run]).  The file also has the messages of
    [log.proto], which cross that boundary, and the observers that read the
    calls of one kind off a trace.  Log lines ([LOG_WARN], ...) are left out:
    nothing the extensions compute depends on them. *)

From stdpp Require Import base tactics numbers list strings gmap.
From Stdlib Require Import ZArith Lia.
From S2P Require Import Prelude.
Local Open Scope Z_scope.

(** ** Result and status codes of the API *)

(** The two codes the source tests for, and every other one. *)
Inductive WasmResult := Ok | CasMismatch | OtherResult (code : Z).
#[export] Instance WasmResult_eq_dec : EqDecision WasmResult.
Proof. solve_decision. Defined.

Inductive FilterHeadersStatus := Continue | StopIteration.
#[export] Instance FilterHeadersStatus_eq_dec : EqDecision FilterHeadersStatus.
Proof. solve_decision. Defined.

Inductive FilterStatus := StreamContinue | StreamStopIteration.

Inductive HeaderMapType := RequestHeaders | ResponseHeaders.
Inductive BufferType := PluginConfiguration | HttpCallResponseBody.

Inductive MetricType := Counter | Gauge | Histogram.
#[export] Instance MetricType_eq_dec : EqDecision MetricType.
Proof. solve_decision. Defined.

(** ** Messages of [extensions/grpc_logging/log.proto] *)

Module LogMessages.

(** A protobuf [Timestamp] or [Duration]: seconds and nanoseconds. *)
Record SecondsNanos := { seconds : Z; nanos : Z }.

Record LogEntry := {
  source_address : string;
  destination_address : string;
  destination_workload : string;
  destination_namespace : string;
  host : string;
  path : string;
  user_agent : string;
  referer : string;
  request_id : string;
  response_code : Z;
  timestamp : SecondsNanos;
  latency : SecondsNanos
}.

Record WriteLogRequest := { log_entries : list LogEntry }.

End LogMessages.

Abbreviation WriteLogRequest := LogMessages.WriteLogRequest.

Abbreviation header_list := (list (string * string)).

(** ** The calls *)
Inductive HostCall : Type -> Type :=
(* Properties: [None] is "not found", in which case the caller's variable keeps
   its value. *)
| GetString (path : list string) : HostCall (option string)
| GetInt64 (path : list string) : HostCall (option Z)
| GetUint64 (path : list string) : HostCall (option Z)
| GetBool (path : list string) : HostCall (option bool)
| GetPairs (path : list string) : HostCall (option header_list)
| SetFilterState (key value : string) : HostCall unit
(* Headers and buffers: [None] is a null [WasmDataPtr]. *)
| GetHeader (map : HeaderMapType) (key : string) : HostCall (option string)
| AddResponseHeader (key value : string) : HostCall unit
| GetBuffer (type : BufferType) (start size : Z) : HostCall (option string)
(* Stream control. *)
| SendLocalResponse (code : Z) (body details : string) (headers : header_list) : HostCall unit
| ContinueRequest : HostCall unit
| GetContext (id : Z) : HostCall bool
| SetEffectiveContext (id : Z) : HostCall unit
(* Time. *)
| GetCurrentTimeNanoseconds : HostCall Z
| SetTickPeriodMilliseconds (ms : Z) : HostCall unit
(* Data shared between VMs, with a compare-and-swap version. *)
| GetSharedData (key : string) : HostCall (WasmResult * (string * Z))
| SetSharedData (key value : string) (cas : Z) : HostCall WasmResult
(* Calls out of the proxy. *)
| HttpCall (cluster : string) (headers : header_list) (body : string)
           (trailers : header_list) (timeout_ms : Z) : HostCall WasmResult
| GrpcSimpleCall (service_config service_name method_name : string)
           (initial_metadata : header_list) (message : WriteLogRequest)
           (timeout_ms : Z) : HostCall WasmResult
| ProxyDone : HostCall unit
(* Metrics. *)
| ResolveMetric (name : string) (fields : list string) : HostCall Z
(* [Metric::resolveFullName] *)
| ResolveFullName (type : MetricType) (name : string) : HostCall Z
| RecordMetric (id value : Z) : HostCall unit
| IncrementMetric (id offset : Z) : HostCall unit
(* CEL expressions compiled by the host. *)
| CreateExpression (expr : string) : HostCall (WasmResult * Z)
| ExprDelete (token : Z) : HostCall unit
| EvaluateString (token : Z) : HostCall (option string)
| EvaluateInt (token : Z) : HostCall (option Z)
(* [proxy_call_foreign_function]: result code and the bytes written to [out]. *)
| CallForeignFunction (name argument : string) : HostCall (WasmResult * string).

Abbreviation host_prog := (prog HostCall).
Abbreviation host_event := (event HostCall).

(** [p->...] on a pointer the host returned. *)
Definition deref {A} (p : option A) : host_prog A :=
  match p with
  | Some a => mret a
  | None => UB "null pointer dereference"
  end.

(** [getValue(path, &var)] on a variable whose value is [old]. *)
Definition getValueOr {A} (call : HostCall (option A)) (old : A) : host_prog A :=
  r ← trigger call; mret (default old r).

(** ** Reading a trace *)

Definition local_response (ev : host_event) : option (Z * string * string * header_list) :=
  match ev with
  | Ev (SendLocalResponse c b d h) _ => Some (c, b, d, h)
  | _ => None
  end.

Definition is_continue (ev : host_event) : option unit :=
  match ev with Ev ContinueRequest _ => Some tt | _ => None end.

Definition is_proxy_done (ev : host_event) : option unit :=
  match ev with Ev ProxyDone _ => Some tt | _ => None end.

Definition increment_of (ev : host_event) : option (Z * Z) :=
  match ev with Ev (IncrementMetric i n) _ => Some (i, n) | _ => None end.

Definition record_of (ev : host_event) : option (Z * Z) :=
  match ev with Ev (RecordMetric i v) _ => Some (i, v) | _ => None end.

Definition clock_of (ev : host_event) : option Z :=
  match ev with Ev GetCurrentTimeNanoseconds now => Some now | _ => None end.

Definition filter_state_of (ev : host_event) : option (string * string) :=
  match ev with Ev (SetFilterState k v) _ => Some (k, v) | _ => None end.

(** A gRPC call the host accepted. *)
Definition grpc_sent (ev : host_event) : option WriteLogRequest :=
  match ev with
  | Ev (GrpcSimpleCall _ _ _ _ m _) r => if decide (r = Ok) then Some m else None
  | _ => None
  end.

Abbreviation observe f tr := (omap f (tr : list host_event)).

Abbreviation local_responses tr := (observe local_response tr).
Abbreviation continued tr := (observe is_continue tr).

Lemma omap_cons {A B} (f : A -> option B) x l :
  omap f (x :: l) = match f x with Some y => y :: omap f l | None => omap f l end.
Proof. reflexivity. Qed.

(** ** Hosts with fixed answers *)

(** The request headers do not change while a handler runs, and an absent header
    reads as the empty string. *)
Class HeaderHost {S} (h : handler HostCall S) (headers : string -> string) : Prop :=
  header_answer s key : h _ (GetHeader RequestHeaders key) s = (Some (headers key), s).

(** A host that finds nothing, accepts every call and never changes. *)
Definition quiet_answer {X} (e : HostCall X) : X :=
  match e with
  | GetString _ => None
  | GetInt64 _ => None
  | GetUint64 _ => None
  | GetBool _ => None
  | GetPairs _ => None
  | SetFilterState _ _ => tt
  | GetHeader _ _ => Some ""
  | AddResponseHeader _ _ => tt
  | GetBuffer _ _ _ => Some ""
  | SendLocalResponse _ _ _ _ => tt
  | ContinueRequest => tt
  | GetContext _ => true
  | SetEffectiveContext _ => tt
  | GetCurrentTimeNanoseconds => 0
  | SetTickPeriodMilliseconds _ => tt
  | GetSharedData _ => (OtherResult 1, ("", 0))
  | SetSharedData _ _ _ => Ok
  | HttpCall _ _ _ _ _ => Ok
  | GrpcSimpleCall _ _ _ _ _ _ => Ok
  | ProxyDone => tt
  | ResolveMetric _ _ => 0
  | ResolveFullName _ _ => 0
  | RecordMetric _ _ => tt
  | IncrementMetric _ _ => tt
  | CreateExpression _ => (Ok, 0)
  | ExprDelete _ => tt
  | EvaluateString _ => None
  | EvaluateInt _ => None
  | CallForeignFunction _ _ => (Ok, "")
  end.

(** The quiet host, with given request headers and plugin configuration. *)
Definition static_host (headers : string -> string) (configuration : string) : handler HostCall unit :=
  fun X e s =>
    match e in HostCall X return X * unit with
    | GetHeader RequestHeaders key => (Some (headers key), s)
    | GetBuffer PluginConfiguration _ _ => (Some configuration, s)
    | e => (quiet_answer e, s)
    end.

#[export] Instance static_host_headers headers configuration :
  HeaderHost (static_host headers configuration) headers.
Proof. intros s key. reflexivity. Qed.
