(* ===== verification/Templates.v ===== *)
(** * The templates: [extensions/scaffold/] and [example/]

    Two plugins to start from.  The scaffold accepts its configuration and does
    nothing else; the example adds a header to every response.  Their roots have
    no members. *)

From stdpp Require Import base list strings.
From S2P Require Import Prelude HostApi.
Local Open Scope wasm_scope.

Module Scaffold.
Definition onConfigure (size : Z) : host_prog bool := mret true.
End Scaffold.

Module Example.
Definition onConfigure (size : Z) : host_prog bool := mret true.

Definition onResponseHeaders (headers : Z) (end_of_stream : bool) : host_prog FilterHeadersStatus :=
  _ ← trigger (AddResponseHeader "X-Wasm-custom" "foo"); mret Continue.

(** The responses of a history, one after the other. *)
Fixpoint handle_responses (responses : list (Z * bool)) : host_prog (list FilterHeadersStatus) :=
  match responses with
  | [] => mret []
  | (headers, end_of_stream) :: responses =>
      status ← onResponseHeaders headers end_of_stream;
      statuses ← handle_responses responses;
      mret (status :: statuses)
  end.

Definition added_header (ev : host_event) : option (string * string) :=
  match ev with Ev (AddResponseHeader k v) _ => Some (k, v) | _ => None end.

(** Every response gets the header, once, and goes on. *)
Lemma every_response_marked {S} (h : handler HostCall S) responses s :
  let r := run h (handle_responses responses) s in
  result r = Done (replicate (length responses) Continue) /\
  observe added_header (trace r) = replicate (length responses) ("X-Wasm-custom", "foo").
Proof.
  revert s. induction responses as [|[n e] responses IH]; intros s; [done|]. cbn [handle_responses].
  cbn -[omap]. destruct (h _ _ s) as [x s1]. rewrite run_bind. destruct (IH s1) as [-> Ht].
  cbn -[omap]. rewrite app_nil_r, omap_cons. cbn -[omap]. by rewrite Ht.
Qed.
End Example.
