(* ===== verification/Absl.v ===== *)
(** * The string functions the extensions call

    [absl] is a third-party library, so the functions of it that the source
    uses are the operations of a class, with their documented meaning as its
    laws; [absl_reference] is an implementation, which shows the laws can hold
    and lets the components run on concrete strings.  The [std::string_view]
    functions are the language's and are defined here. *)

From stdpp Require Import base tactics numbers list strings gmap.
From Stdlib Require Import ZArith Lia Ascii.
From S2P Require Import Prelude.
Local Open Scope Z_scope.


(** ** The operations and their laws *)

Class AbslStrings := {
  StartsWith : string -> string -> bool;
  EndsWith : string -> string -> bool;
  StripPrefix : string -> string -> string;
  StrContains : string -> string -> bool;
  StrSplit : string -> ascii -> list string;
  SimpleAtoi64 : string -> option Z;
  SimpleAtoiU64 : string -> option Z;
  (** What a conversion that fails leaves in its output, which is unspecified. *)
  SimpleAtoiU64_failed : string -> Z;
  AsciiStrToLower : string -> string
}.

(** Does character [c] occur in [s]? *)
Fixpoint has_char (c : ascii) (s : string) : bool :=
  match s with
  | EmptyString => false
  | String c' s' => if decide (c = c') then true else has_char c s'
  end.

Fixpoint join (c : ascii) (l : list string) : string :=
  match l with
  | [] => EmptyString
  | [s] => s
  | s :: l' => s +:+ String c (join c l')
  end.

Class AbslLaws (A : AbslStrings) : Prop := {
  starts_with_iff s p : StartsWith s p = true <-> exists t, s = p +:+ t;
  ends_with_iff s p : EndsWith s p = true <-> exists t, s = t +:+ p;
  strip_prefix_eq p t : StripPrefix (p +:+ t) p = t;
  str_contains_iff s t : StrContains s t = true <-> exists a b, s = a +:+ t +:+ b;
  str_split_join s c : join c (StrSplit s c) = s;
  str_split_pieces s c : Forall (fun p => has_char c p = false) (StrSplit s c);
  str_split_nonempty s c : StrSplit s c <> [];
  simple_atoi_u64_bound s n : SimpleAtoiU64 s = Some n -> 0 <= n < 2 ^ 64
}.

(** ** [std::string] and [std::string_view] *)

(** [s.substr(0, n)] for [n <= s.size()]. *)
Fixpoint substr_take (n : nat) (s : string) : string :=
  match n, s with
  | S n', String c s' => String c (substr_take n' s')
  | _, _ => EmptyString
  end.

(** [s.substr(n)] for [n <= s.size()]. *)
Fixpoint substr_drop (n : nat) (s : string) : string :=
  match n with
  | O => s
  | S n' => match s with
            | EmptyString => EmptyString
            | String _ s' => substr_drop n' s'
            end
  end.

(** [s.rfind(c)]: [None] is [npos]. *)
Fixpoint rfind (c : ascii) (s : string) : option nat :=
  match s with
  | EmptyString => None
  | String c' s' =>
      match rfind c s' with
      | Some i => Some (S i)
      | None => if decide (c = c') then Some 0%nat else None
      end
  end.

(** ** Lemmas on strings *)

Lemma app_nil_r_s s : s +:+ EmptyString = s.
Proof. induction s; simpl; congruence. Qed.

Lemma app_assoc_s s t u : s +:+ t +:+ u = (s +:+ t) +:+ u.
Proof. induction s; simpl; congruence. Qed.

Lemma app_length_s s t : String.length (s +:+ t) = (String.length s + String.length t)%nat.
Proof. induction s; simpl; congruence. Qed.

Lemma app_inj_l s t u : s +:+ t = s +:+ u -> t = u.
Proof. induction s; simpl; [done|]. intros [= H]. auto. Qed.

Lemma substr_take_app s t : substr_take (String.length s) (s +:+ t) = s.
Proof. induction s as [|c s IH]; simpl; [by destruct t|]. by rewrite IH. Qed.

Lemma substr_drop_app s t : substr_drop (String.length s) (s +:+ t) = t.
Proof. by induction s. Qed.

Lemma substr_split n s : substr_take n s +:+ substr_drop n s = s.
Proof. revert s. induction n as [|n IH]; intros [|c s]; simpl; try done. by rewrite IH. Qed.

Lemma substr_take_length n s :
  (n <= String.length s)%nat -> String.length (substr_take n s) = n.
Proof. revert s. induction n as [|n IH]; intros [|c s]; simpl; try lia. intros. rewrite IH; lia. Qed.

Lemma substr_drop_length n s : String.length (substr_drop n s) = (String.length s - n)%nat.
Proof. revert s. induction n as [|n IH]; intros [|c s]; simpl; try lia. apply IH. Qed.

Lemma rfind_None c s : rfind c s = None <-> has_char c s = false.
Proof.
  induction s as [|c' s IH]; simpl; [done|].
  destruct (rfind c s); case_decide; try done; intuition discriminate.
Qed.

Lemma rfind_Some c s i :
  rfind c s = Some i ->
  s = substr_take i s +:+ String c (substr_drop (S i) s) /\
  has_char c (substr_drop (S i) s) = false.
Proof.
  revert i. induction s as [|c' s IH]; intros i; [done|]. simpl rfind.
  destruct (rfind c s) as [j|] eqn:E.
  - intros [= <-]. destruct (IH j eq_refl) as [H1 H2]. split; [|done].
    cbn [substr_take String.append]. f_equal. exact H1.
  - case_decide; [|done]. intros [= <-]. subst c'. split; [done|]. by apply rfind_None.
Qed.

(** The last occurrence is unique. *)
Lemma rfind_last c s t :
  has_char c t = false -> rfind c (s +:+ String c t) = Some (String.length s).
Proof.
  intros Ht. induction s as [|d s IH]; simpl.
  - apply rfind_None in Ht. rewrite Ht. by rewrite decide_True.
  - by rewrite IH.
Qed.

Lemma rfind_app c s t : has_char c t = false -> rfind c (s +:+ t) = rfind c s.
Proof.
  intros Ht. apply rfind_None in Ht. induction s as [|d s IH]; simpl; [done|]. by rewrite IH.
Qed.

Lemma rfind_lt c s i : rfind c s = Some i -> (i < String.length s)%nat.
Proof.
  revert i. induction s as [|d s IH]; intros i; simpl; [done|].
  destruct (rfind c s) as [j|].
  - intros [= <-]. specialize (IH j eq_refl). lia.
  - case_decide; [|done]. intros [= <-]. lia.
Qed.

Lemma has_char_app c s t : has_char c (s +:+ t) = has_char c s || has_char c t.
Proof. induction s; simpl; [done|]. by case_decide. Qed.

Lemma has_char_cons c s : has_char c (String c s) = true.
Proof. simpl. by rewrite decide_True. Qed.

(** The text before the first [c] is unique. *)
Lemma before_first c s t u v :
  has_char c s = false -> has_char c t = false ->
  s +:+ String c u = t +:+ String c v -> s = t /\ u = v.
Proof.
  revert t. induction s as [|d s IH]; intros [|e t]; cbn [has_char String.append];
    intros Hs Ht Heq; injection Heq.
  - done.
  - intros _ <-. by rewrite decide_True in Ht.
  - intros _ ->. by rewrite decide_True in Hs.
  - intros Hst <-. repeat case_decide; try done. by destruct (IH t) as [-> ->].
Qed.

Lemma join_inj c l1 l2 :
  l1 <> [] -> l2 <> [] ->
  Forall (fun s => has_char c s = false) l1 -> Forall (fun s => has_char c s = false) l2 ->
  join c l1 = join c l2 -> l1 = l2.
Proof.
  intros Hn1 Hn2 H1. revert l2 Hn1 Hn2.
  induction H1 as [|s l1 Hs H1 IH]; intros l2 Hn1 Hn2 H2; [done|].
  destruct H2 as [|t l2 Ht H2]; [done|]. clear Hn1 Hn2.
  destruct l1 as [|s' l1], l2 as [|t' l2]; intros H.
  - cbn in H. by subst.
  - change (s = t +:+ String c (join c (t' :: l2))) in H. subst.
    by rewrite has_char_app, has_char_cons, orb_true_r in Hs.
  - change (s +:+ String c (join c (s' :: l1)) = t) in H. subst.
    by rewrite has_char_app, has_char_cons, orb_true_r in Ht.
  - change (s +:+ String c (join c (s' :: l1)) = t +:+ String c (join c (t' :: l2))) in H.
    apply before_first in H as [-> H]; [|done..]. f_equal. by apply IH.
Qed.

(** Splitting at [c] undoes joining with it. *)
Lemma str_split_of_join `{A : AbslStrings} `{!AbslLaws A} c l :
  l <> [] -> Forall (fun s => has_char c s = false) l -> StrSplit (join c l) c = l.
Proof.
  intros Hn Hl. apply (join_inj c); [apply str_split_nonempty|done|apply str_split_pieces|done|].
  apply str_split_join.
Qed.

(** ** An implementation of the interface *)

Fixpoint is_prefix (p s : string) : bool :=
  match p, s with
  | EmptyString, _ => true
  | String c p', String d s' => if decide (c = d) then is_prefix p' s' else false
  | _, _ => false
  end.

Fixpoint is_suffix (p s : string) : bool :=
  if decide (p = s) then true
  else match s with EmptyString => false | String _ s' => is_suffix p s' end.

Fixpoint is_infix (t s : string) : bool :=
  if is_prefix t s then true
  else match s with EmptyString => false | String _ s' => is_infix t s' end.

Fixpoint split_on (c : ascii) (s : string) : list string :=
  match s with
  | EmptyString => [EmptyString]
  | String d s' =>
      if decide (c = d) then EmptyString :: split_on c s'
      else match split_on c s' with
           | p :: ps => String d p :: ps
           | [] => [String d EmptyString]
           end
  end.

(** Decimal digits, at least one, below [bound]. *)
Fixpoint digits_value (s : string) (acc : Z) : option Z :=
  match s with
  | EmptyString => Some acc
  | String c s' =>
      let d := Z.of_N (N_of_ascii c) - 48 in
      if decide (0 <= d <= 9) then digits_value s' (10 * acc + d) else None
  end.

Definition atoi_u64 (s : string) : option Z :=
  match s with
  | EmptyString => None
  | _ => v ← digits_value s 0; if decide (0 <= v < 2 ^ 64) then Some v else None
  end.

Definition atoi_i64 (s : string) : option Z :=
  match s with
  | String "-"%char s' =>
      match s' with
      | EmptyString => None
      | _ => v ← digits_value s' 0; if decide (- 2 ^ 63 <= - v < 2 ^ 63) then Some (- v) else None
      end
  | EmptyString => None
  | _ => v ← digits_value s 0; if decide (- 2 ^ 63 <= v < 2 ^ 63) then Some v else None
  end.

Definition lower_char (c : ascii) : ascii :=
  let n := N_of_ascii c in
  if decide (65 <= n <= 90)%N then ascii_of_N (n + 32) else c.

Fixpoint lower (s : string) : string :=
  match s with
  | EmptyString => EmptyString
  | String c s' => String (lower_char c) (lower s')
  end.

Definition absl_reference : AbslStrings := {|
  StartsWith s p := is_prefix p s;
  EndsWith s p := is_suffix p s;
  StripPrefix s p := if is_prefix p s then substr_drop (String.length p) s else s;
  StrContains s t := is_infix t s;
  StrSplit s c := split_on c s;
  SimpleAtoi64 := atoi_i64;
  SimpleAtoiU64 := atoi_u64;
  SimpleAtoiU64_failed _ := 0;
  AsciiStrToLower := lower
|}.

Lemma is_prefix_iff p s : is_prefix p s = true <-> exists t, s = p +:+ t.
Proof.
  revert s. induction p as [|c p IH]; intros s; simpl; [naive_solver|].
  destruct s as [|d s]; simpl; [split; [done|by intros [t ?]]|].
  case_decide as Hd; [|split; [done|intros [t [= ? ?]]; congruence]].
  rewrite IH. subst. split; intros [t Ht]; exists t; congruence.
Qed.

Lemma is_suffix_iff p s : is_suffix p s = true <-> exists t, s = t +:+ p.
Proof.
  induction s as [|c s IH]; simpl; case_decide as Hd; subst.
  - split; [by exists EmptyString|done].
  - split; [done|]. intros [[|d t] Ht]; simpl in Ht; congruence.
  - split; [by exists EmptyString|done].
  - rewrite IH. split; intros [t Ht].
    + exists (String c t). simpl. congruence.
    + destruct t as [|d t]; simpl in Ht; [congruence|]. exists t. congruence.
Qed.

Lemma is_infix_iff t s : is_infix t s = true <-> exists a b, s = a +:+ t +:+ b.
Proof.
  induction s as [|c s IH]; simpl;
    (destruct (is_prefix t _) eqn:E;
     [apply is_prefix_iff in E as [b Hb]; split; [intros _; by exists EmptyString, b|done]|]).
  - split; [done|]. intros ([|d a] & b & H); [|done].
    assert (is_prefix t EmptyString = true) by (apply is_prefix_iff; by exists b). congruence.
  - rewrite IH. split; intros (a & b & H).
    + exists (String c a), b. simpl. congruence.
    + destruct a as [|d a]; simpl in H.
      * assert (is_prefix t (String c s) = true) by (apply is_prefix_iff; by exists b). congruence.
      * exists a, b. congruence.
Qed.

Lemma split_on_nonempty c s : split_on c s <> [].
Proof. destruct s; simpl; [done|]. case_decide; [done|]. by case_match. Qed.

Lemma split_on_join c s : join c (split_on c s) = s.
Proof.
  induction s as [|d s IH]; simpl; [done|]. pose proof (split_on_nonempty c s) as Hn.
  case_decide; subst.
  - destruct (split_on d s); [done|]. simpl in *. by rewrite IH.
  - destruct (split_on c s) as [|p ps]; [done|]. destruct ps; simpl in *; congruence.
Qed.

Lemma split_on_pieces c s : Forall (fun p => has_char c p = false) (split_on c s).
Proof.
  induction s as [|d s IH]; simpl; [by repeat constructor|]. case_decide as Hd; [by constructor|].
  destruct (split_on c s) as [|p ps]; decompose_Forall_hyps;
    repeat constructor; simpl; rewrite ?decide_False by done; done.
Qed.

#[export] Instance absl_reference_laws : AbslLaws absl_reference.
Proof.
  split; simpl.
  - intros s p. apply is_prefix_iff.
  - intros s p. apply is_suffix_iff.
  - intros p t. rewrite (proj2 (is_prefix_iff p (p +:+ t))) by eauto. apply substr_drop_app.
  - intros s t. apply is_infix_iff.
  - intros s c. apply split_on_join.
  - intros s c. apply split_on_pieces.
  - intros s c. apply split_on_nonempty.
  - intros s n. unfold atoi_u64. destruct s; [done|].
    destruct (digits_value _ _); simpl; [|done]. case_decide; naive_solver.
Qed.
