(* ===== verification/Json.v ===== *)
(** * JSON configuration ([extensions/common/wasm/json_util.{h,cc}])

    The wrappers the extensions use to read JSON without exceptions.  The
    library behind them, nlohmann::json, is third-party: a document is the tree
    of its documented kinds, and the parser, the printer and the conversion of
    a floating-point number to an integer are operations of a class. *)

From stdpp Require Import base tactics numbers list strings gmap.
From Stdlib Require Import ZArith Lia Ascii.
From S2P Require Import Prelude Absl.
Local Open Scope Z_scope.

(** ** Documents *)

(** nlohmann keeps a number as [int64_t], [uint64_t] or [double]; [NumFloat]
    carries the 64 bits of the [double]. *)
Inductive json_number :=
| NumInt (z : Z)
| NumUint (z : Z)
| NumFloat (bits : Z).

Inductive json :=
| JNull
| JBool (b : bool)
| JNumber (n : json_number)
| JString (s : string)
| JArray (elems : list json)
| JObject (members : list (string * json)).

Class NlohmannJson := {
  (** [json::parse(str, nullptr, false)]; [None] is a discarded value. *)
  json_parse : string -> option json;
  json_dump : json -> string;
  (** [static_cast] of a [double]. *)
  float_to_int64 : Z -> Z;
  float_to_uint64 : Z -> Z
}.

(** Every string of a document, keys included. *)
Fixpoint json_strings (j : json) : list string :=
  match j with
  | JString s => [s]
  | JArray elems => flat_map json_strings elems
  | JObject members => flat_map (fun '(k, v) => k :: json_strings v) members
  | _ => []
  end.

Class NlohmannLaws (J : NlohmannJson) : Prop := {
  (** A string of a parsed document is not longer than the text. *)
  json_parse_length text j :
    json_parse text = Some j ->
    Forall (fun s => (String.length s <= String.length text)%nat) (json_strings j);
  float_to_uint64_bound b : 0 <= float_to_uint64 b < 2 ^ 64;
  float_to_int64_bound b : - 2 ^ 63 <= float_to_int64 b < 2 ^ 63
}.

Fixpoint assoc_find {A} (l : list (string * A)) (k : string) : option A :=
  match l with
  | [] => None
  | (k', v) :: l' => if decide (k = k') then Some v else assoc_find l' k
  end.

(** [j.find(field)], which finds nothing in a value that is not an object. *)
Definition find (j : json) (field : string) : option json :=
  match j with
  | JObject members => assoc_find members field
  | _ => None
  end.

(** ** [JsonParserResultDetail] *)
Inductive JsonParserResultDetail := UNKNOWN | OK | OUT_OF_RANGE | TYPE_ERROR | INVALID_VALUE.
#[export] Instance detail_eq_dec : EqDecision JsonParserResultDetail.
Proof. solve_decision. Defined.

Abbreviation parsed A := (option A * JsonParserResultDetail)%type.

Section json_util.
Context `{J : NlohmannJson} `{A : AbslStrings}.

Definition JsonParse (str : string) : option json :=
  match json_parse str with
  | Some (JObject m) => Some (JObject m)
  | _ => None
  end.

Definition get_int64 (n : json_number) : Z :=
  match n with
  | NumInt z | NumUint z => i64 z
  | NumFloat b => float_to_int64 b
  end.

Definition get_uint64 (n : json_number) : Z :=
  match n with
  | NumInt z | NumUint z => u64 z
  | NumFloat b => float_to_uint64 b
  end.

Definition JsonValueAs_int64 (j : json) : parsed Z :=
  match j with
  | JNumber n => (Some (get_int64 n), OK)
  | JString s =>
      match SimpleAtoi64 s with
      | Some result => (Some result, OK)
      | None => (None, INVALID_VALUE)
      end
  | _ => (None, TYPE_ERROR)
  end.

Definition JsonValueAs_uint64 (j : json) : parsed Z :=
  match j with
  | JNumber n => (Some (get_uint64 n), OK)
  | JString s =>
      match SimpleAtoiU64 s with
      | Some result => (Some result, OK)
      | None => (None, INVALID_VALUE)
      end
  | _ => (None, TYPE_ERROR)
  end.

(** The [std::string_view] and the [std::string] instance. *)
Definition JsonValueAs_string_view (j : json) : parsed string :=
  match j with
  | JString s => (Some s, OK)
  | _ => (None, TYPE_ERROR)
  end.

Definition JsonValueAs_string (j : json) : parsed string :=
  match j with
  | JString s => (Some s, OK)
  | _ => (None, TYPE_ERROR)
  end.

Definition JsonValueAs_bool (j : json) : parsed bool :=
  match j with
  | JBool b => (Some b, OK)
  | JString v =>
      if decide (v = "true") then (Some true, OK)
      else if decide (v = "false") then (Some false, OK)
      else (None, INVALID_VALUE)
  | _ => (None, TYPE_ERROR)
  end.

(** The loop over the elements of an array of strings, [values] so far. *)
Fixpoint string_views (elems : list json) (values : option (list string)) :
    parsed (list string) :=
  match elems with
  | [] => (values, OK)
  | JString s :: elems' => string_views elems' (Some (default [] values ++ [s]))
  | _ :: _ => (None, TYPE_ERROR)
  end.

Definition JsonValueAs_string_view_vector (j : json) : parsed (list string) :=
  match j with
  | JArray elems => string_views elems None
  | _ => (None, TYPE_ERROR)
  end.

Definition JsonValueAs_object (j : json) : parsed json :=
  match j with
  | JObject m => (Some (JObject m), OK)
  | _ => (None, TYPE_ERROR)
  end.

(** [JsonGetField<T>(j, field)]: [detail()] and, when there is one, [value()]. *)
Definition JsonGetField {T} (as_T : json -> parsed T) (j : json) (field : string) : parsed T :=
  match find j field with
  | None => (None, OUT_OF_RANGE)
  | Some v => as_T v
  end.

(** [value_or(v)]: [object_] when the detail is [OK], which comes with a value
    at every type this is used at ([ok_has_value] below). *)
Definition value_or {T} (f : parsed T) (v : T) : T :=
  match f with
  | (object, detail) => if decide (detail = OK) then default v object else v
  end.

(** The visitor of the two iterators may update what it captured, [St], and is in
    the monad of the caller: [option], or programs when it calls the host. *)
Fixpoint iterate {M} `{MRet M, MBind M} {X St} (visitor : X -> St -> M (bool * St)%type)
    (l : list X) (st : St) : M (bool * St)%type :=
  match l with
  | [] => mret (true, st)
  | x :: l' =>
      '(ok, st') ← visitor x st;
      if (ok : bool) then iterate visitor l' st' else mret (false, st')
  end.

Definition JsonArrayIterate {M} `{MRet M, MBind M} {St} (j : json) (field : string)
    (visitor : json -> St -> M (bool * St)%type) (st : St) : M (bool * St)%type :=
  match find j field with
  | None => mret (true, st)
  | Some (JArray elems) => iterate visitor elems st
  | Some _ => mret (false, st)
  end.

(** A key of an object is a string. *)
Definition JsonObjectIterate {M} `{MRet M, MBind M} {St} (j : json) (field : string)
    (visitor : string -> St -> M (bool * St)%type) (st : St) : M (bool * St)%type :=
  match find j field with
  | None => mret (true, st)
  | Some (JObject m) => iterate visitor (map fst m) st
  | Some _ => mret (false, st)
  end.

(** The overload that goes through [j.items()], whose keys are the library's: those
    of the members of an object, and of other documents as it makes them. *)
Definition JsonObjectIterate_items (item_keys : json -> list string) {M} `{MRet M, MBind M} {St}
    (j : json) (visitor : string -> St -> M (bool * St)%type) (st : St) : M (bool * St)%type :=
  iterate visitor (item_keys j) st.
End json_util.

(** ** Lemmas *)

Lemma assoc_find_In {A} (l : list (string * A)) k v : assoc_find l k = Some v -> In (k, v) l.
Proof.
  induction l as [|[k' v'] l IH]; simpl; [done|]. case_decide; [|auto].
  intros [= ->]. left. congruence.
Qed.

Lemma find_strings j field v : find j field = Some v -> incl (json_strings v) (json_strings j).
Proof.
  destruct j; simpl; try done. intros H%assoc_find_In s Hs.
  apply in_flat_map. exists (field, v). split; [done|]. by right.
Qed.

Lemma elem_strings elems x : In x elems -> incl (json_strings x) (json_strings (JArray elems)).
Proof. intros Hx s Hs. apply in_flat_map. eauto. Qed.

Section json_facts.
Context `{J : NlohmannJson} `{A : AbslStrings}.

(** The visitor returned [true] on every element, threading its state. *)
Fixpoint visits {X St} (visitor : X -> St -> option (bool * St)) (l : list X) (st st' : St) : Prop :=
  match l with
  | [] => st = st'
  | x :: l' => exists st1, visitor x st = Some (true, st1) /\ visits visitor l' st1 st'
  end.

Lemma iterate_true {X St} (visitor : X -> St -> option (bool * St)) l st st' :
  iterate visitor l st = Some (true, st') <-> visits visitor l st st'.
Proof.
  revert st. induction l as [|x l IH]; intros st; simpl; [split; [by intros [= ->]|by intros ->]|].
  destruct (visitor x st) as [[[] st1]|]; simpl.
  - rewrite IH. split; [eauto|]. by intros (? & [= <-] & ?).
  - split; [done|]. by intros (? & [= ?] & ?).
  - split; [done|]. by intros (? & ? & ?).
Qed.

Lemma visits_app {X St} (visitor : X -> St -> option (bool * St)) l1 l2 st st' :
  visits visitor (l1 ++ l2) st st' <->
  exists st1, visits visitor l1 st st1 /\ visits visitor l2 st1 st'.
Proof.
  revert st. induction l1 as [|x l IH]; intros st; simpl; [naive_solver|].
  setoid_rewrite IH. naive_solver.
Qed.

(** An invariant of the visitor's state is one of the iteration. *)
Lemma iterate_invariant {X St} (visitor : X -> St -> option (bool * St)) (I : St -> Prop) l st r :
  (forall x st ok st', visitor x st = Some (ok, st') -> I st -> I st') ->
  iterate visitor l st = Some r -> I st -> I (snd r).
Proof.
  intros Hv. revert st. induction l as [|x l IH]; intros st; simpl; [by intros [= <-]|].
  destruct (visitor x st) as [[ok st1]|] eqn:E; simpl; [|done]. intros H Hi.
  destruct ok; [eauto|]. injection H as <-. simpl. eauto.
Qed.

(** An invariant that the elements' strings keep: for visitors that may
    otherwise run into undefined behaviour. *)
Definition short_strings (n : nat) (j : json) : Prop :=
  Forall (fun s => (String.length s <= n)%nat) (json_strings j).

Lemma short_find n j field v : short_strings n j -> find j field = Some v -> short_strings n v.
Proof.
  unfold short_strings. rewrite !List.Forall_forall. intros Hj Hf s Hs.
  eapply Hj, find_strings; eauto.
Qed.

Lemma short_elem n elems x : short_strings n (JArray elems) -> In x elems -> short_strings n x.
Proof.
  unfold short_strings. rewrite !List.Forall_forall. intros Hj Hf s Hs.
  eapply Hj, elem_strings; eauto.
Qed.

(** A visitor that never runs into undefined behaviour makes an iteration
    that does not. *)
Lemma iterate_total {X St} (visitor : X -> St -> option (bool * St)) l st :
  (forall x st, x ∈ l -> is_Some (visitor x st)) -> is_Some (iterate visitor l st).
Proof.
  revert st. induction l as [|x l IH]; intros st Hv; simpl; [eauto|].
  destruct (Hv x st) as [[ok st1] ->]; [by left|]. simpl. destruct ok; [|eauto].
  apply IH. intros y st' Hy. apply Hv. by right.
Qed.

Lemma array_iterate_true {St} j field (visitor : json -> St -> option (bool * St)) st st' :
  JsonArrayIterate j field visitor st = Some (true, st') ->
  exists elems, (find j field = None /\ elems = [] \/ find j field = Some (JArray elems)) /\
    visits visitor elems st st'.
Proof.
  unfold JsonArrayIterate. destruct (find j field) as [v|].
  - destruct v; try done. rewrite iterate_true. eauto.
  - intros [= <-]. exists []. naive_solver.
Qed.

Lemma array_iterate_total {St} n j field (visitor : json -> St -> option (bool * St)) st :
  short_strings n j ->
  (forall x st, short_strings n x -> is_Some (visitor x st)) ->
  is_Some (JsonArrayIterate j field visitor st).
Proof.
  intros Hj Hv. unfold JsonArrayIterate. destruct (find j field) as [v|] eqn:E; [|eauto].
  pose proof (short_find _ _ _ _ Hj E) as Hs. destruct v; eauto.
  apply iterate_total. intros x st' Hx%list_elem_of_In. apply Hv. by eapply short_elem.
Qed.

Lemma array_iterate_invariant {St} j field (visitor : json -> St -> option (bool * St))
    (I : St -> Prop) st r :
  (forall x st ok st', visitor x st = Some (ok, st') -> I st -> I st') ->
  JsonArrayIterate j field visitor st = Some r -> I st -> I (snd r).
Proof.
  intros Hv. unfold JsonArrayIterate. destruct (find j field) as [[]|]; try by intros [= <-].
  by apply iterate_invariant.
Qed.

(** The same of an iteration that calls the host. *)
Lemma iterate_ensures {E U} {X St} (I : St -> Prop) (visitor : X -> St -> prog E (bool * St)%type) l st :
  (forall x st, x ∈ l -> I st -> ensures U (fun p => I (snd p)) (visitor x st)) ->
  I st -> ensures U (fun p => I (snd p)) (iterate visitor l st).
Proof.
  revert st. induction l as [|x l IH]; intros st Hv Hi; cbn [iterate]; [done|].
  eapply ensures_bind; [apply Hv; [by left|done]|]. intros [ok st1] H1. destruct ok; [|done].
  apply IH; [|done]. intros y st2 Hy. apply Hv. by right.
Qed.

Lemma array_iterate_ensures {E U} {St} (I : St -> Prop) j field
    (visitor : json -> St -> prog E (bool * St)%type) st :
  (forall x st, I st -> ensures U (fun p => I (snd p)) (visitor x st)) ->
  I st -> ensures U (fun p => I (snd p)) (JsonArrayIterate j field visitor st).
Proof.
  intros Hv Hi. unfold JsonArrayIterate. destruct (find j field) as [[]|]; try done.
  apply iterate_ensures; auto.
Qed.

(** The two overloads agree on the member that is an object. *)
Lemma iterate_items item_keys {M} `{MRet M, MBind M} {St} j field m
    (visitor : string -> St -> M (bool * St)%type) st :
  (forall m, item_keys (JObject m) = map fst m) -> find j field = Some (JObject m) ->
  JsonObjectIterate j field visitor st = JsonObjectIterate_items item_keys (JObject m) visitor st.
Proof. intros Hk Hj. unfold JsonObjectIterate, JsonObjectIterate_items. by rewrite Hj, Hk. Qed.

(** The keys that [JsonObjectIterate] collects are those of the object. *)
Lemma assoc_find_key {X} (l : list (string * X)) k : k ∈ map fst l <-> is_Some (assoc_find l k).
Proof.
  induction l as [|[k' v] l IH]; simpl; [split; [by intros ?%elem_of_nil|by intros [? ?] ]|].
  rewrite elem_of_cons, IH. case_decide as Hk; [subst; split; eauto|].
  split; [by intros [?|?]|by right].
Qed.

Lemma object_iterate_keys {E} j field (tags : list string) :
  exists (ok : bool) (keys : list string),
    JsonObjectIterate (M := prog E) j field (fun dim tags => mret (true, tags ++ [dim])) tags =
      mret (ok, tags ++ keys) /\
    (ok = true -> forall k, k ∈ keys <-> is_Some (find j field ≫= fun o => find o k)).
Proof.
  assert (forall k, k ∈ ([] : list string) <-> is_Some (@None json)) as Hnil
    by (intros k; split; [by intros ?%elem_of_nil|by intros [? ?] ]).
  unfold JsonObjectIterate. destruct (find j field) as [v|];
    [|by exists true, []; rewrite app_nil_r].
  destruct v; try (by exists false, []; rewrite app_nil_r).
  exists true, (map fst members). split; [|intros _ k; apply assoc_find_key].
  generalize (map fst members). intros keys. revert tags.
  induction keys as [|k keys IH]; intros tags; cbn [iterate]; [by rewrite app_nil_r|].
  rewrite bind_ret, IH. by rewrite <- app_assoc.
Qed.

Definition ok_value {T} (p : parsed T) : Prop := snd p = OK <-> is_Some (fst p).

Lemma ok_value_none {T} d : d <> OK -> ok_value (@None T, d).
Proof. intros Hd. split; simpl; [done|]. by intros [? ?]. Qed.

Lemma ok_value_some {T} (x : T) : ok_value (Some x, OK).
Proof. split; simpl; eauto. Qed.
End json_facts.

#[export] Hint Resolve ok_value_none ok_value_some : wasm.

(** ** Theorems *)

(** [first.value()] never throws after [second == OK]: at [int64_t],
    [uint64_t], [std::string], [bool] and [json], the detail is [OK] exactly
    when there is a value. *)
Theorem ok_has_value `{J : NlohmannJson} `{A : AbslStrings} (j : json) :
  ok_value (JsonValueAs_int64 j) /\ ok_value (JsonValueAs_uint64 j) /\
  ok_value (JsonValueAs_string j) /\ ok_value (JsonValueAs_string_view j) /\
  ok_value (JsonValueAs_bool j) /\ ok_value (JsonValueAs_object j).
Proof.
  destruct j; simpl; repeat (split || case_decide || case_match); eauto with wasm;
    apply ok_value_none; done.
Qed.

(** A library that knows one document: the one the witnesses are run on. *)
Definition one_document (text : string) (doc : json) : NlohmannJson := {|
  json_parse s := if decide (s = text) then Some doc else None;
  json_dump j := "";
  float_to_int64 b := 0;
  float_to_uint64 b := 0
|}.

Lemma one_document_laws text doc :
  short_strings (String.length text) doc -> NlohmannLaws (one_document text doc).
Proof.
  intros Hs. split; simpl; [|lia|lia]. intros t j. case_decide; [|done]. intros [= <-]. by subst.
Qed.
