(* ===== verification/Bytes.v ===== *)
(** * Bytes and words

    A [std::string] is also a sequence of bytes, and the shared data of the rate
    limiter is the little-endian image of a [uint64_t]
    ([reinterpret_cast<const char *>(&x)]).  Both views are here, for [Base64]
    and [Bucket]. *)

From stdpp Require Import base tactics numbers list strings gmap.
From Stdlib Require Import ZArith Lia Ascii.
From S2P Require Import Prelude.
Local Open Scope Z_scope.

(** ** Bytes of a string *)

Definition byte_of_ascii (c : ascii) : Z := Z.of_N (N_of_ascii c).
Definition ascii_of_byte (b : Z) : ascii := ascii_of_N (Z.to_N (u8 b)).

Fixpoint bytes_of_string (s : string) : list Z :=
  match s with
  | EmptyString => []
  | String c s' => byte_of_ascii c :: bytes_of_string s'
  end.

Fixpoint string_of_bytes (l : list Z) : string :=
  match l with
  | [] => EmptyString
  | b :: l' => String (ascii_of_byte b) (string_of_bytes l')
  end.

Definition is_byte (b : Z) : Prop := 0 <= b < 256.

(** ** Little-endian words *)

Fixpoint le_split (n : nat) (x : Z) : list Z :=
  match n with
  | O => []
  | S n' => x mod 256 :: le_split n' (x / 256)
  end.

Fixpoint le_combine (l : list Z) : Z :=
  match l with
  | [] => 0
  | b :: l' => b + 256 * le_combine l'
  end.

(** [{reinterpret_cast<const char *>(&x), sizeof(x)}] for a [uint64_t x]. *)
Definition le64_encode (x : Z) : string := string_of_bytes (le_split 8 x).

(** [*reinterpret_cast<const uint64_t *>(data)]; [None] reads past the end. *)
Definition le64_decode (data : string) : option Z :=
  if decide (8 <= String.length data)%nat
  then Some (le_combine (take 8 (bytes_of_string data))) else None.

(** ** Lemmas *)

Lemma byte_of_ascii_bound c : is_byte (byte_of_ascii c).
Proof. unfold is_byte, byte_of_ascii. pose proof (N_ascii_bounded c). lia. Qed.

Lemma bytes_of_string_bytes s : Forall is_byte (bytes_of_string s).
Proof. induction s; simpl; [done|]. constructor; [apply byte_of_ascii_bound|done]. Qed.

Lemma string_of_bytes_of_string s : string_of_bytes (bytes_of_string s) = s.
Proof.
  induction s as [|c s IH]; simpl; [done|]. rewrite IH. f_equal.
  unfold ascii_of_byte. pose proof (byte_of_ascii_bound c) as Hb.
  unfold u8. rewrite wrap_id by done. unfold byte_of_ascii.
  by rewrite N2Z.id, ascii_N_embedding.
Qed.

Lemma bytes_of_string_of_bytes l : Forall is_byte l -> bytes_of_string (string_of_bytes l) = l.
Proof.
  induction 1 as [|b l Hb _ IH]; simpl; [done|]. rewrite IH. f_equal.
  unfold byte_of_ascii, ascii_of_byte, u8. rewrite wrap_id by done.
  unfold is_byte in Hb. rewrite N_ascii_embedding by lia. lia.
Qed.

Lemma bytes_of_string_length s : length (bytes_of_string s) = String.length s.
Proof. induction s; simpl; auto. Qed.

Lemma string_of_bytes_nonempty l : l <> [] -> string_of_bytes l <> EmptyString.
Proof. by destruct l. Qed.

Lemma bytes_of_string_nonempty s : s <> EmptyString -> bytes_of_string s <> [].
Proof. by destruct s. Qed.


Lemma le_split_bytes n x : Forall is_byte (le_split n x).
Proof.
  revert x. induction n as [|n IH]; intros x; simpl; [constructor|].
  constructor; [by apply Z.mod_pos_bound|apply IH].
Qed.

Lemma le_split_length n x : length (le_split n x) = n.
Proof. revert x. induction n as [|n IH]; intros x; simpl; auto. Qed.

Lemma le_combine_split n x : 0 <= x < 256 ^ Z.of_nat n -> le_combine (le_split n x) = x.
Proof.
  revert x. induction n as [|n IH]; intros x Hx; simpl.
  - change (256 ^ Z.of_nat 0) with 1 in Hx. lia.
  - rewrite Nat2Z.inj_succ, Z.pow_succ_r in Hx by lia. rewrite IH.
    + pose proof (Z.div_mod x 256). lia.
    + split; [apply Z.div_pos; lia|apply Z.div_lt_upper_bound; lia].
Qed.

Lemma string_of_bytes_length l : String.length (string_of_bytes l) = length l.
Proof. induction l; simpl; auto. Qed.

Lemma le64_decode_encode x : 0 <= x < 2 ^ 64 -> le64_decode (le64_encode x) = Some x.
Proof.
  intros Hx. unfold le64_decode, le64_encode.
  rewrite string_of_bytes_length, le_split_length, decide_True by lia.
  rewrite bytes_of_string_of_bytes by apply le_split_bytes.
  rewrite take_ge by (rewrite le_split_length; lia).
  by rewrite le_combine_split by (change (256 ^ Z.of_nat 8) with (2 ^ 64); lia).
Qed.

#[export] Hint Rewrite le64_decode_encode using lia : wasm_rw.

Lemma le64_encode_inj x y :
  0 <= x < 2 ^ 64 -> 0 <= y < 2 ^ 64 -> le64_encode x = le64_encode y -> x = y.
Proof.
  intros Hx Hy H. apply (f_equal le64_decode) in H.
  rewrite !le64_decode_encode in H by done. congruence.
Qed.
