(* ===== verification/Base64.v ===== *)
(** * Base64 ([extensions/common/wasm/base64.h])

    The encoder and the decoder, character by character as the source runs
    them.  A [char] is the [Z] in [0, 256) of its bits; a [std::string] is a
    Rocq [string] at the interface and the list of its bytes inside the loops.
    [None] marks undefined behaviour: a read outside a table or a string,
    [back()] of an empty string, or a failing [ASSERT]. *)

From stdpp Require Import base tactics numbers list strings gmap.
From Stdlib Require Import ZArith Lia Ascii.
From S2P Require Import Prelude Bytes.
Local Open Scope Z_scope.

(** ** The tables *)

Definition CHAR_TABLE : list Z :=
  bytes_of_string "ABCDEFGHIJKLMNOPQRSTUVWXYZabcdefghijklmnopqrstuvwxyz0123456789+/".

Definition REVERSE_LOOKUP_TABLE : list Z := [
    64; 64; 64; 64; 64; 64; 64; 64; 64; 64; 64; 64; 64; 64; 64; 64; 64; 64; 64; 64; 64; 64; 64; 64;
    64; 64; 64; 64; 64; 64; 64; 64; 64; 64; 64; 64; 64; 64; 64; 64; 64; 64; 64; 62; 64; 64; 64; 63;
    52; 53; 54; 55; 56; 57; 58; 59; 60; 61; 64; 64; 64; 64; 64; 64; 64; 0;  1;  2;  3;  4;  5;  6;
    7;  8;  9;  10; 11; 12; 13; 14; 15; 16; 17; 18; 19; 20; 21; 22; 23; 24; 25; 64; 64; 64; 64; 64;
    64; 26; 27; 28; 29; 30; 31; 32; 33; 34; 35; 36; 37; 38; 39; 40; 41; 42; 43; 44; 45; 46; 47; 48;
    49; 50; 51; 64; 64; 64; 64; 64; 64; 64; 64; 64; 64; 64; 64; 64; 64; 64; 64; 64; 64; 64; 64; 64;
    64; 64; 64; 64; 64; 64; 64; 64; 64; 64; 64; 64; 64; 64; 64; 64; 64; 64; 64; 64; 64; 64; 64; 64;
    64; 64; 64; 64; 64; 64; 64; 64; 64; 64; 64; 64; 64; 64; 64; 64; 64; 64; 64; 64; 64; 64; 64; 64;
    64; 64; 64; 64; 64; 64; 64; 64; 64; 64; 64; 64; 64; 64; 64; 64; 64; 64; 64; 64; 64; 64; 64; 64;
    64; 64; 64; 64; 64; 64; 64; 64; 64; 64; 64; 64; 64; 64; 64; 64; 64; 64; 64; 64; 64; 64; 64; 64;
    64; 64; 64; 64; 64; 64; 64; 64; 64; 64; 64; 64; 64; 64; 64; 64].

(** [table[i]]: [None] outside the table. *)
Definition table_at (table : list Z) (i : Z) : option Z :=
  if decide (0 <= i) then table !! Z.to_nat i else None.

(** [ret.back() |= v] *)
Fixpoint back_or (ret : list Z) (v : Z) : option (list Z) :=
  match ret with
  | [] => None
  | [b] => Some [Z.lor b v]
  | b :: ret' => l ← back_or ret' v; Some (b :: l)
  end.

(** ** Decoding *)

(** One character that is not the last: [false] rejects the input. *)
Definition decodeBase (cur_char pos : Z) (ret : list Z) : option (bool * list Z) :=
  c ← table_at REVERSE_LOOKUP_TABLE cur_char;
  if c =? 64 then Some (false, ret)
  else match pos mod 4 with
       | 0 => Some (true, ret ++ [u8 (Z.shiftl c 2)])
       | 1 => ret' ← back_or ret (Z.shiftr c 4); Some (true, ret' ++ [u8 (Z.shiftl c 4)])
       | 2 => ret' ← back_or ret (Z.shiftr c 2); Some (true, ret' ++ [u8 (Z.shiftl c 6)])
       | _ => ret' ← back_or ret c; Some (true, ret')
       end.

(** The last character: its unused bits must be zero. *)
Definition decodeLast (cur_char pos : Z) (ret : list Z) : option (bool * list Z) :=
  c ← table_at REVERSE_LOOKUP_TABLE cur_char;
  if c =? 64 then Some (false, ret)
  else match pos mod 4 with
       | 0 => Some (false, ret)
       | 1 => ret' ← back_or ret (Z.shiftr c 4); Some (Z.land c 15 =? 0, ret')
       | 2 => ret' ← back_or ret (Z.shiftr c 2); Some (Z.land c 3 =? 0, ret')
       | _ => ret' ← back_or ret c; Some (true, ret')
       end.

(** [for (i = 0; i < last; ++i)]: [input] is what is left from index [i] on. *)
Fixpoint decode_loop (input : list Z) (i last : Z) (ret : list Z) : option (bool * list Z) :=
  if i <? last then
    match input with
    | [] => None
    | c :: input' =>
        '(ok, ret') ← decodeBase c i ret;
        if (ok : bool) then decode_loop input' (i + 1) last ret' else Some (false, ret')
    end
  else Some (true, ret).

(** The number of characters left once at most two trailing [=] are dropped. *)
Definition unpadded_length (input : list Z) : Z :=
  let n := Z.of_nat (length input) in
  if decide (table_at input (n - 1) = Some 61) then
    let n := n - 1 in
    if decide (0 < n /\ table_at input (n - 1) = Some 61) then n - 1 else n
  else n.

(** No string of a 32-bit memory is so long that [n + 3] wraps around. *)
Definition decoded_length (n : Z) : Z :=
  let max_length := (n + 3) / 4 * 3 in
  let max_length := if n mod 4 =? 3 then max_length - 1 else max_length in
  if n mod 4 =? 2 then max_length - 2 else max_length.

Definition decode_bytes (input : list Z) : option (list Z) :=
  if decide (input = []) then Some []
  else
    let n := unpadded_length input in
    (* [size_t] is 32 bits wide in the Wasm module. *)
    let last := u32 (n - 1) in
    let max_length := decoded_length n in
    '(ok, ret) ← decode_loop input 0 last [];
    if (ok : bool) then
      c ← table_at input last;
      '(ok, ret) ← decodeLast c last ret;
      if (ok : bool) then
        if decide (Z.of_nat (length ret) = max_length) then Some ret else None
      else Some []
    else Some [].

Definition decodeWithoutPadding (input : string) : option string :=
  r ← decode_bytes (bytes_of_string input); Some (string_of_bytes r).

(** ** Encoding *)

(** [char_table[i]], every index being below 64 ([encode_indices] below). *)
Definition char_at (i : Z) : Z := default 0 (table_at CHAR_TABLE i).

Definition encodeBase (cur_char pos next_c : Z) (ret : list Z) : Z * list Z :=
  match pos mod 3 with
  | 0 => (Z.shiftl (Z.land cur_char 3) 4,
          ret ++ [char_at (Z.shiftr cur_char 2)])
  | 1 => (Z.shiftl (Z.land cur_char 15) 2,
          ret ++ [char_at (Z.lor next_c (Z.shiftr cur_char 4))])
  | _ => (0,
          ret ++ [char_at (Z.lor next_c (Z.shiftr cur_char 6));
                  char_at (Z.land cur_char 63)])
  end.

Definition encodeLast (pos last_char : Z) (ret : list Z) (add_padding : bool) : list Z :=
  match pos mod 3 with
  | 1 => ret ++ [char_at last_char] ++ (if add_padding then [61; 61] else [])
  | 2 => ret ++ [char_at last_char] ++ (if add_padding then [61] else [])
  | _ => ret
  end.

Fixpoint encode_loop (input : list Z) (pos next_c : Z) (ret : list Z) : Z * Z * list Z :=
  match input with
  | [] => (pos, next_c, ret)
  | c :: input' =>
      let '(next_c', ret') := encodeBase c pos next_c ret in
      encode_loop input' (pos + 1) next_c' ret'
  end.

Definition encode_bytes (input : list Z) (add_padding : bool) : list Z :=
  let '(pos, next_c, ret) := encode_loop input 0 0 [] in
  encodeLast pos next_c ret add_padding.

Definition encode (input : string) (add_padding : bool) : string :=
  string_of_bytes (encode_bytes (bytes_of_string input) add_padding).

(** ** Groups: what the loops compute three bytes, or four characters, at a time *)

Definition sextet1 (a : Z) : Z := Z.shiftr a 2.
Definition sextet2 (a b : Z) : Z := Z.lor (Z.shiftl (Z.land a 3) 4) (Z.shiftr b 4).
Definition sextet3 (b c : Z) : Z := Z.lor (Z.shiftl (Z.land b 15) 2) (Z.shiftr c 6).
Definition sextet4 (c : Z) : Z := Z.land c 63.

(** The table indices the encoder looks up for a byte string, without padding. *)
Fixpoint sextets (l : list Z) : list Z :=
  match l with
  | [] => []
  | [a] => [sextet1 a; sextet2 a 0]
  | [a; b] => [sextet1 a; sextet2 a b; sextet3 b 0]
  | a :: b :: c :: l' => sextet1 a :: sextet2 a b :: sextet3 b c :: sextet4 c :: sextets l'
  end.

Definition byte1 (p q : Z) : Z := Z.lor (u8 (Z.shiftl p 2)) (Z.shiftr q 4).
Definition byte2 (q r : Z) : Z := Z.lor (u8 (Z.shiftl q 4)) (Z.shiftr r 2).
Definition byte3 (r s : Z) : Z := Z.lor (u8 (Z.shiftl r 6)) s.

(** The bytes that a nonempty list of sextets spells, when it spells some. *)
Fixpoint unsextets (l : list Z) : option (list Z) :=
  match l with
  | [] => None
  | [_] => None
  | [p; q] => if Z.land q 15 =? 0 then Some [byte1 p q] else None
  | [p; q; r] => if Z.land r 3 =? 0 then Some [byte1 p q; byte2 q r] else None
  | [p; q; r; s] => Some [byte1 p q; byte2 q r; byte3 r s]
  | p :: q :: r :: s :: l' => l ← unsextets l'; Some (byte1 p q :: byte2 q r :: byte3 r s :: l)
  end.

Definition padding (len : Z) : list Z :=
  match len mod 3 with 1 => [61; 61] | 2 => [61] | _ => [] end.

Definition is_sextet (x : Z) : Prop := 0 <= x < 64.

Definition sextet_of_char (c : Z) : option Z :=
  v ← table_at REVERSE_LOOKUP_TABLE c; if v =? 64 then None else Some v.

(** *** Facts about single sextets and bytes, by evaluation *)

Lemma land_low x k : 0 <= k -> Z.land x (2 ^ k - 1) = x mod 2 ^ k.
Proof. intros. rewrite <- Z.land_ones by done. f_equal. rewrite Z.ones_equiv. lia. Qed.

Lemma land3_bound x : 0 <= Z.land x 3 < 4.
Proof. change 3 with (2 ^ 2 - 1). rewrite land_low by done. by apply Z.mod_pos_bound. Qed.

Lemma shiftr_bound x k n : 0 <= k -> 0 <= x < n * 2 ^ k -> 0 <= Z.shiftr x k < n.
Proof.
  intros Hk Hx. rewrite Z.shiftr_div_pow2 by done.
  split; [apply Z.div_pos; lia|apply Z.div_lt_upper_bound; lia].
Qed.

Lemma byte1_sextets a b : is_byte a -> is_byte b -> byte1 (sextet1 a) (sextet2 a b) = a.
Proof.
  intros Ha Hb. unfold sextet2. pose proof (shiftr_bound b 4 16 ltac:(lia) Hb) as Hy.
  generalize dependent (Z.shiftr b 4). clear b Hb. intros y Hy.
  by_values2 256 16 a y Ha Hy.
Qed.

Lemma byte2_sextets a b c :
  is_byte b -> is_byte c -> byte2 (sextet2 a b) (sextet3 b c) = b.
Proof.
  intros Hb Hc. unfold sextet2, sextet3.
  pose proof (land3_bound a) as Hx. pose proof (shiftr_bound c 6 4 ltac:(lia) Hc) as Hy.
  generalize dependent (Z.land a 3). generalize dependent (Z.shiftr c 6). clear Hc.
  intros y Hy x Hx. by_values3 4 256 4 x b y Hx Hb Hy.
Qed.

Lemma byte3_sextets b c : is_byte c -> byte3 (sextet3 b c) (sextet4 c) = c.
Proof.
  intros Hc. unfold sextet3. assert (0 <= Z.land b 15 < 16) as Hx.
  { change 15 with (2 ^ 4 - 1). rewrite land_low by done. by apply Z.mod_pos_bound. }
  generalize dependent (Z.land b 15). intros x Hx. by_values2 16 256 x c Hx Hc.
Qed.

Lemma sextet1_bytes p q : is_sextet p -> is_sextet q -> sextet1 (byte1 p q) = p.
Proof.
  intros Hp Hq. by_values2 64 64 p q Hp Hq.
Qed.

Lemma sextet2_bytes p q r :
  is_sextet p -> is_sextet q -> is_sextet r -> sextet2 (byte1 p q) (byte2 q r) = q.
Proof.
  intros Hp Hq Hr. unfold sextet2.
  assert (Z.land (byte1 p q) 3 = Z.shiftr q 4) as -> by by_values2 64 64 p q Hp Hq.
  assert (Z.shiftr (byte2 q r) 4 = Z.land q 15) as -> by by_values2 64 64 q r Hq Hr.
  by_values 64 q Hq.
Qed.

Lemma sextet3_bytes q r s :
  is_sextet q -> is_sextet r -> is_sextet s -> sextet3 (byte2 q r) (byte3 r s) = r.
Proof.
  intros Hq Hr Hs. unfold sextet3.
  assert (Z.land (byte2 q r) 15 = Z.shiftr r 2) as -> by by_values2 64 64 q r Hq Hr.
  assert (Z.shiftr (byte3 r s) 6 = Z.land r 3) as -> by by_values2 64 64 r s Hr Hs.
  by_values 64 r Hr.
Qed.

Lemma sextet4_bytes r s : is_sextet r -> is_sextet s -> sextet4 (byte3 r s) = s.
Proof.
  intros Hr Hs. by_values2 64 64 r s Hr Hs.
Qed.

Lemma sextet2_last p q :
  is_sextet p -> is_sextet q -> Z.land q 15 = 0 -> sextet2 (byte1 p q) 0 = q.
Proof.
  intros Hp Hq Hz. apply Z.eqb_eq in Hz.
  enough (negb (Z.land q 15 =? 0) || (sextet2 (byte1 p q) 0 =? q) = true) as H.
  { rewrite Hz in H. simpl in H. by apply Z.eqb_eq. }
  clear Hz. revert p q Hp Hq.
  apply (all_below2_spec 64 64 (fun p q =>
    negb (Z.land q 15 =? 0) || (sextet2 (byte1 p q) 0 =? q))).
  vm_compute. reflexivity.
Qed.

Lemma sextet3_last q r :
  is_sextet q -> is_sextet r -> Z.land r 3 = 0 -> sextet3 (byte2 q r) 0 = r.
Proof.
  intros Hq Hr Hz. apply Z.eqb_eq in Hz.
  enough (negb (Z.land r 3 =? 0) || (sextet3 (byte2 q r) 0 =? r) = true) as H.
  { rewrite Hz in H. simpl in H. by apply Z.eqb_eq. }
  clear Hz. revert q r Hq Hr.
  apply (all_below2_spec 64 64 (fun q r =>
    negb (Z.land r 3 =? 0) || (sextet3 (byte2 q r) 0 =? r))).
  vm_compute. reflexivity.
Qed.

Lemma sextet_char x : is_sextet x -> sextet_of_char (char_at x) = Some x.
Proof.
  intros Hx.
  enough (bool_decide (sextet_of_char (char_at x) = Some x) = true)
    by (by eapply bool_decide_eq_true_1).
  revert x Hx.
  apply (all_below_spec 64 (fun x => bool_decide (sextet_of_char (char_at x) = Some x))).
  vm_compute. reflexivity.
Qed.

Lemma char_sextet c x : is_byte c -> sextet_of_char c = Some x -> is_sextet x /\ char_at x = c.
Proof.
  intros Hc Hx.
  enough (match sextet_of_char c with
          | Some x => bool_decide (is_sextet x /\ char_at x = c)
          | None => true
          end = true) as H.
  { rewrite Hx in H. by apply bool_decide_eq_true_1 in H. }
  clear x Hx. revert c Hc.
  apply (all_below_spec 256 (fun c => match sextet_of_char c with
          | Some x => bool_decide (is_sextet x /\ char_at x = c)
          | None => true
          end)).
  vm_compute. reflexivity.
Qed.

Lemma reverse_table_total c : is_byte c -> is_Some (table_at REVERSE_LOOKUP_TABLE c).
Proof.
  intros Hc. unfold table_at, is_byte in *. rewrite decide_True by lia.
  apply lookup_lt_is_Some. change (length REVERSE_LOOKUP_TABLE) with 256%nat. lia.
Qed.

Lemma char_at_byte x : is_sextet x -> is_byte (char_at x).
Proof.
  intros Hx. enough (bool_decide (is_u 8 (char_at x)) = true) by (by eapply bool_decide_eq_true_1).
  revert x Hx. apply (all_below_spec 64). vm_compute. reflexivity.
Qed.

Lemma char_not_padding x : is_sextet x -> char_at x <> 61.
Proof.
  intros Hx H. assert (negb (char_at x =? 61) = true) as Hn.
  { clear H. revert x Hx. apply (all_below_spec 64 (fun x => negb (char_at x =? 61))).
    vm_compute. reflexivity. }
  rewrite H in Hn. done.
Qed.

(** *** The encoder computes [sextets] *)

Lemma encode_loop_groups l pos ret :
  pos mod 3 = 0 ->
  exists next_c pre,
    encode_loop l pos 0 ret = (pos + Z.of_nat (length l), next_c, ret ++ pre) /\
    forall pad, encodeLast (pos + Z.of_nat (length l)) next_c (ret ++ pre) pad =
      ret ++ map char_at (sextets l) ++ (if pad then padding (pos + Z.of_nat (length l)) else []).
Proof.
  revert pos ret. induction l as [|a|a b|a b c l IH] using list_ind3; intros pos ret Hp.
  - exists 0, []. rewrite Z.add_0_r, app_nil_r. split; [done|]. intros pad.
    unfold encodeLast, padding. rewrite Hp. by destruct pad; rewrite app_nil_r.
  - exists (Z.shiftl (Z.land a 3) 4), [char_at (Z.shiftr a 2)]. simpl length.
    assert ((pos + 1) mod 3 = 1) as Hp1 by (Z.div_mod_to_equations; lia).
    split; [simpl; unfold encodeBase; by rewrite Hp|]. intros pad.
    unfold encodeLast, padding, sextets, sextet1, sextet2. change (Z.of_nat 1) with 1 in *; change (Z.of_nat 2) with 2 in *. rewrite Hp1.
    rewrite Z.lor_0_r. rewrite <- app_assoc. by destruct pad.
  - exists (Z.shiftl (Z.land b 15) 2), [char_at (sextet1 a); char_at (sextet2 a b)]. simpl length.
    assert ((pos + 1) mod 3 = 1) as Hp1 by (Z.div_mod_to_equations; lia).
    assert ((pos + 2) mod 3 = 2) as Hp2 by (Z.div_mod_to_equations; lia).
    split.
    + simpl. unfold encodeBase. rewrite Hp, Hp1. rewrite <- app_assoc.
      by replace (pos + 1 + 1) with (pos + 2) by lia.
    + intros pad. unfold encodeLast, padding, sextets, sextet3. change (Z.of_nat 1) with 1 in *; change (Z.of_nat 2) with 2 in *. rewrite Hp2.
      rewrite Z.lor_0_r, <- app_assoc. by destruct pad.
  - assert ((pos + 1) mod 3 = 1) as Hp1 by (Z.div_mod_to_equations; lia).
    assert ((pos + 2) mod 3 = 2) as Hp2 by (Z.div_mod_to_equations; lia).
    assert ((pos + 3) mod 3 = 0) as Hp3 by (Z.div_mod_to_equations; lia).
    set (g := map char_at [sextet1 a; sextet2 a b; sextet3 b c; sextet4 c]).
    destruct (IH (pos + 3) (ret ++ g) Hp3) as (n & pre & Hloop & Hlast).
    exists n, (g ++ pre).
    replace (pos + Z.of_nat (length (a :: b :: c :: l))) with (pos + 3 + Z.of_nat (length l))
      by (simpl length; lia).
    rewrite app_assoc. split.
    + rewrite <- Hloop. simpl. unfold encodeBase at 1. rewrite Hp. simpl.
      unfold encodeBase at 1. rewrite Hp1. simpl. unfold encodeBase at 1.
      replace (pos + 1 + 1) with (pos + 2) by lia. rewrite Hp2.
      replace (pos + 2 + 1) with (pos + 3) by lia. by rewrite <- !app_assoc.
    + intros pad. rewrite Hlast. by rewrite <- !app_assoc.
Qed.

Lemma encode_bytes_sextets l pad :
  encode_bytes l pad =
  map char_at (sextets l) ++ (if pad then padding (Z.of_nat (length l)) else []).
Proof.
  unfold encode_bytes.
  destruct (encode_loop_groups l 0 [] eq_refl) as (n & pre & -> & Hlast). apply Hlast.
Qed.

(** *** The decoder computes [unsextets] *)

(** The loop and the last character together, on the characters left. *)
Fixpoint decode_rest (cs : list Z) (i : Z) (ret : list Z) : option (bool * list Z) :=
  match cs with
  | [] => None
  | [c] => decodeLast c i ret
  | c :: cs' =>
      '(ok, ret') ← decodeBase c i ret;
      if (ok : bool) then decode_rest cs' (i + 1) ret' else Some (false, ret')
  end.

Lemma back_or_app ret b v : back_or (ret ++ [b]) v = Some (ret ++ [Z.lor b v]).
Proof.
  induction ret as [|x ret IH]; [done|]. simpl. rewrite IH. simpl. by destruct ret.
Qed.

Lemma sextet_of_char_Some c v :
  sextet_of_char c = Some v -> table_at REVERSE_LOOKUP_TABLE c = Some v /\ (v =? 64) = false.
Proof.
  unfold sextet_of_char. destruct (table_at _ c) as [w|]; simpl; [|done].
  destruct (w =? 64) eqn:E; [done|]. intros [= ->]. done.
Qed.

Lemma sextet_of_char_None c :
  is_byte c -> sextet_of_char c = None -> table_at REVERSE_LOOKUP_TABLE c = Some 64.
Proof.
  intros Hc. unfold sextet_of_char. destruct (reverse_table_total c Hc) as [w ->]. simpl.
  destruct (w =? 64) eqn:E; [|done]. apply Z.eqb_eq in E. by subst.
Qed.

Lemma decode_invalid c i ret :
  is_byte c -> sextet_of_char c = None ->
  decodeBase c i ret = Some (false, ret) /\ decodeLast c i ret = Some (false, ret).
Proof.
  intros Hc Hn. unfold decodeBase, decodeLast. by rewrite (sextet_of_char_None c Hc Hn).
Qed.

Lemma decode_step c i ret v k :
  sextet_of_char c = Some v -> i mod 4 = k ->
  decodeBase c i ret =
    match k with
    | 0 => Some (true, ret ++ [u8 (Z.shiftl v 2)])
    | 1 => ret' ← back_or ret (Z.shiftr v 4); Some (true, ret' ++ [u8 (Z.shiftl v 4)])
    | 2 => ret' ← back_or ret (Z.shiftr v 2); Some (true, ret' ++ [u8 (Z.shiftl v 6)])
    | _ => ret' ← back_or ret v; Some (true, ret')
    end
  /\ decodeLast c i ret =
    match k with
    | 0 => Some (false, ret)
    | 1 => ret' ← back_or ret (Z.shiftr v 4); Some (Z.land v 15 =? 0, ret')
    | 2 => ret' ← back_or ret (Z.shiftr v 2); Some (Z.land v 3 =? 0, ret')
    | _ => ret' ← back_or ret v; Some (true, ret')
    end.
Proof.
  intros Hc <-. destruct (sextet_of_char_Some c v Hc) as [Ht Hv].
  unfold decodeBase, decodeLast. by rewrite Ht; simpl; rewrite Hv.
Qed.

(** What the decoder does with the characters left, at the start of a group. *)
Definition rest_spec (cs : list Z) (i : Z) (ret : list Z) : Prop :=
  match mapM sextet_of_char cs ≫= unsextets with
  | Some r => decode_rest cs i ret = Some (true, ret ++ r)
  | None => exists ret', decode_rest cs i ret = Some (false, ret')
  end.

#[local] Arguments decode_rest : simpl never.

Lemma decode_rest_cons c c' cs i ret :
  decode_rest (c :: c' :: cs) i ret =
  '(ok, ret') ← decodeBase c i ret;
  if (ok : bool) then decode_rest (c' :: cs) (i + 1) ret' else Some (false, ret').
Proof. reflexivity. Qed.

Lemma decode_rest_invalid c cs i ret :
  is_byte c -> sextet_of_char c = None -> decode_rest (c :: cs) i ret = Some (false, ret).
Proof.
  intros Hc Hn. destruct (decode_invalid c i ret Hc Hn) as [H1 H2].
  destruct cs as [|c' cs]; [exact H2|]. by rewrite decode_rest_cons, H1.
Qed.

Lemma decode_rest_group p q r s c cs i ret vp vq vr vs :
  i mod 4 = 0 -> sextet_of_char p = Some vp -> sextet_of_char q = Some vq ->
  sextet_of_char r = Some vr -> sextet_of_char s = Some vs ->
  decode_rest (p :: q :: r :: s :: c :: cs) i ret =
  decode_rest (c :: cs) (i + 4) (ret ++ [byte1 vp vq; byte2 vq vr; byte3 vr vs]).
Proof.
  intros Hi Hp Hq Hr Hs.
  assert ((i + 1) mod 4 = 1) as H1 by (Z.div_mod_to_equations; lia).
  assert ((i + 1 + 1) mod 4 = 2) as H2 by (Z.div_mod_to_equations; lia).
  assert ((i + 1 + 1 + 1) mod 4 = 3) as H3 by (Z.div_mod_to_equations; lia).
  rewrite decode_rest_cons, (proj1 (decode_step _ _ _ _ _ Hp Hi)). simpl mbind.
  rewrite decode_rest_cons, (proj1 (decode_step _ _ _ _ _ Hq H1)), back_or_app. simpl mbind.
  rewrite decode_rest_cons, (proj1 (decode_step _ _ _ _ _ Hr H2)), back_or_app. simpl mbind.
  rewrite decode_rest_cons, (proj1 (decode_step _ _ _ _ _ Hs H3)), back_or_app. simpl mbind.
  rewrite <- !app_assoc. by replace (i + 1 + 1 + 1 + 1) with (i + 4) by lia.
Qed.

Lemma decodeBase_valid c i ret v :
  sextet_of_char c = Some v -> i mod 4 = 0 \/ ret <> [] ->
  exists ret', decodeBase c i ret = Some (true, ret') /\ ret' <> [].
Proof.
  intros Hc Hr. rewrite (proj1 (decode_step c i ret v _ Hc eq_refl)).
  assert (ret <> [] -> exists l b, ret = l ++ [b]) as Hlast.
  { intros Hn. destruct ret as [|b l _] using rev_ind; [done|]. eauto. }
  pose proof (Z.mod_pos_bound i 4 eq_refl).
  destruct (decide (i mod 4 = 0)) as [Hz|Hz].
  { rewrite Hz. eexists; split; [done|]. by destruct ret. }
  destruct Hr as [|Hr]; [done|]. destruct (Hlast Hr) as (l & b & ->).
  assert (i mod 4 = 1 \/ i mod 4 = 2 \/ i mod 4 = 3) as [E|[E|E]] by lia; rewrite E;
    rewrite back_or_app; simpl; eexists; (split; [done|]); by destruct l.
Qed.

Lemma decode_rest_reject cs i ret :
  Forall is_byte cs -> mapM sextet_of_char cs = None -> i mod 4 = 0 \/ ret <> [] ->
  exists ret', decode_rest cs i ret = Some (false, ret').
Proof.
  revert i ret. induction cs as [|c cs IH]; intros i ret Hcs Hm Hr; [done|].
  apply Forall_cons in Hcs as [Hc Hcs]. simpl in Hm.
  destruct (sextet_of_char c) as [v|] eqn:Hv.
  2: { exists ret. by apply decode_rest_invalid. }
  simpl in Hm. destruct (mapM sextet_of_char cs) eqn:Hm'; [done|].
  destruct cs as [|c' cs]; [done|].
  destruct (decodeBase_valid c i ret v Hv Hr) as (ret' & Hd & Hn).
  rewrite decode_rest_cons, Hd. simpl. apply IH; auto.
Qed.

(** Move past the characters whose sextets are known, then decode the last one. *)
Ltac decode_steps :=
  repeat match goal with
  | H : sextet_of_char ?c = Some ?v, Hi : ?i mod 4 = ?k |- context [decodeBase ?c ?i ?ret] =>
      rewrite (proj1 (decode_step c i ret v k H Hi)), ?back_or_app; simpl
  | H : sextet_of_char ?c = Some ?v, Hi : ?i mod 4 = ?k |- context [decode_rest [?c] ?i ?ret] =>
      change (decode_rest [c] i ret) with (decodeLast c i ret);
      rewrite (proj2 (decode_step c i ret v k H Hi)), ?back_or_app; simpl
  | _ => rewrite decode_rest_cons
  end.

Lemma decode_rest_accept cs i ret vs :
  i mod 4 = 0 -> cs <> [] -> mapM sextet_of_char cs = Some vs ->
  match unsextets vs with
  | Some r => decode_rest cs i ret = Some (true, ret ++ r)
  | None => exists ret', decode_rest cs i ret = Some (false, ret')
  end.
Proof.
  revert i ret vs. induction cs as [|p|p q|p q r|p q r s cs IH] using list_ind4;
    intros i ret vs Hi Hne Hm; [done|..]; simpl in Hm;
    repeat match type of Hm with
    | context [sextet_of_char ?c] => destruct (sextet_of_char c) eqn:?; simpl in Hm; [|done]
    end;
    assert ((i + 1) mod 4 = 1) as H1 by (Z.div_mod_to_equations; lia);
    assert ((i + 1 + 1) mod 4 = 2) as H2 by (Z.div_mod_to_equations; lia);
    assert ((i + 1 + 1 + 1) mod 4 = 3) as H3 by (Z.div_mod_to_equations; lia).
  - injection Hm as <-. simpl. exists ret. decode_steps. done.
  - injection Hm as <-. simpl. decode_steps. destruct (Z.land _ _ =? 0); rewrite <- ?app_assoc; eauto.
  - injection Hm as <-. simpl. decode_steps. destruct (Z.land _ _ =? 0); rewrite <- ?app_assoc; eauto.
  - destruct cs as [|c cs]; simpl in Hm.
    + injection Hm as <-. simpl. decode_steps. by rewrite <- !app_assoc.
    + destruct (sextet_of_char c) as [v|] eqn:Hc; simpl in Hm; [|done].
      destruct (mapM sextet_of_char cs) as [vs'|] eqn:Hcs; simpl in Hm; [|done].
      injection Hm as <-.
      erewrite decode_rest_group by eassumption.
      assert ((i + 4) mod 4 = 0) as H4 by (Z.div_mod_to_equations; lia).
      assert (mapM sextet_of_char (c :: cs) = Some (v :: vs')) as Hm
        by (simpl; rewrite Hc; simpl; by rewrite Hcs).
      specialize (IH _ (ret ++ [byte1 z z0; byte2 z0 z1; byte3 z1 z2]) _ H4 ltac:(done) Hm).
      change (unsextets (z :: z0 :: z1 :: z2 :: v :: vs')) with
        (l ← unsextets (v :: vs'); Some (byte1 z z0 :: byte2 z0 z1 :: byte3 z1 z2 :: l)).
      destruct (unsextets (v :: vs')); simpl; [|done]. rewrite IH. by rewrite <- app_assoc.
Qed.

Lemma decode_rest_spec cs i ret :
  i mod 4 = 0 -> Forall is_byte cs -> cs <> [] -> rest_spec cs i ret.
Proof.
  intros Hi Hcs Hne. unfold rest_spec. destruct (mapM sextet_of_char cs) as [vs|] eqn:Hm; simpl.
  - by apply decode_rest_accept.
  - apply decode_rest_reject; auto.
Qed.

(** *** [sextets] and [unsextets] are inverse *)

Lemma lor_bound x y n : 0 <= n -> 0 <= x < 2 ^ n -> 0 <= y < 2 ^ n -> 0 <= Z.lor x y < 2 ^ n.
Proof.
  intros Hn Hx Hy. assert (0 <= Z.lor x y) as H0 by (apply Z.lor_nonneg; lia).
  split; [done|]. destruct (decide (x = 0)) as [Ex|Ex]; [subst; rewrite Z.lor_0_l; lia|].
  destruct (decide (y = 0)) as [Ey|Ey]; [subst; rewrite Z.lor_0_r; lia|].
  destruct (decide (Z.lor x y = 0)) as [->|Hne]; [by apply Z.pow_pos_nonneg|].
  apply Z.log2_lt_pow2; [lia|]. rewrite Z.log2_lor by lia.
  assert (Z.log2 x < n) by (apply Z.log2_lt_pow2; lia).
  assert (Z.log2 y < n) by (apply Z.log2_lt_pow2; lia). lia.
Qed.

Lemma byte_bounds p q :
  is_sextet p -> is_sextet q ->
  is_byte (byte1 p q) /\ is_byte (byte2 p q) /\ is_byte (byte3 p q).
Proof.
  intros Hp Hq. pose proof (wrap_bound 8) as Hw. unfold is_byte, is_sextet in *.
  change 256 with (2 ^ 8).
  assert (forall k, 0 <= k -> 0 <= Z.shiftr q k < 2 ^ 8) as Hs.
  { intros k Hk. split; [apply Z.shiftr_nonneg; lia|]. rewrite Z.shiftr_div_pow2 by done.
    apply Z.div_lt_upper_bound; [lia|]. pose proof (Z.pow_pos_nonneg 2 k). nia. }
  split; [|split]; apply lor_bound; (apply Hw || apply Hs || lia); lia.
Qed.

Lemma sextet_bounds a b :
  is_byte a -> is_byte b ->
  is_sextet (sextet1 a) /\ is_sextet (sextet2 a b) /\ is_sextet (sextet3 a b) /\ is_sextet (sextet4 a).
Proof.
  intros Ha Hb.
  assert (forall x, 0 <= Z.land x 15 < 16 /\ 0 <= Z.land x 63 < 64) as Hl.
  { intros x. change 15 with (2 ^ 4 - 1). change 63 with (2 ^ 6 - 1).
    rewrite !land_low by done. split; by apply Z.mod_pos_bound. }
  unfold is_sextet. change 64 with (2 ^ 6).
  split; [by apply (shiftr_bound a 2 64)|]. split; [|split; [|apply Hl]].
  - apply lor_bound; [done| |]. 
    + rewrite Z.shiftl_mul_pow2 by done. pose proof (land3_bound a). lia.
    + pose proof (shiftr_bound b 4 16 ltac:(done) Hb). lia.
  - apply lor_bound; [done| |].
    + rewrite Z.shiftl_mul_pow2 by done. pose proof (Hl a). lia.
    + pose proof (shiftr_bound b 6 4 ltac:(done) Hb). lia.
Qed.

Lemma sextets_nonempty l : l <> [] -> exists x y l', sextets l = x :: y :: l'.
Proof. destruct l as [|a [|b [|c l]]]; simpl; eauto. done. Qed.

Lemma unsextets_group p q r s l :
  l <> [] ->
  unsextets (p :: q :: r :: s :: l) =
  (l' ← unsextets l; Some (byte1 p q :: byte2 q r :: byte3 r s :: l')).
Proof. by destruct l. Qed.

Lemma unsextets_sextets l : Forall is_byte l -> l <> [] -> unsextets (sextets l) = Some l.
Proof.
  induction l as [|a|a b|a b c l IH] using list_ind3; intros Hl Hne; [done|..];
    decompose_Forall_hyps.
  - clear Hne. simpl. rewrite byte1_sextets by done. unfold sextet2.
    change (Z.shiftr 0 4) with 0. rewrite Z.lor_0_r.
    by assert (Z.land (Z.shiftl (Z.land a 3) 4) 15 = 0) as -> by by_values 256 a H.
  - clear Hne. simpl. rewrite byte1_sextets, byte2_sextets by done. unfold sextet3.
    change (Z.shiftr 0 6) with 0. rewrite Z.lor_0_r.
    by assert (Z.land (Z.shiftl (Z.land b 15) 2) 3 = 0) as -> by by_values 256 b H0.
  - simpl. rewrite byte1_sextets, byte2_sextets, byte3_sextets by done.
    destruct l as [|d l]; [done|].
    destruct (sextets_nonempty (d :: l)) as (x & y & l' & Hx); [done|].
    rewrite IH by done. rewrite Hx. done.
Qed.

(** The bytes of decoded groups are bytes. *)
Ltac prove_bytes :=
  repeat (apply Forall_cons; split; [by apply byte_bounds|]); try apply Forall_nil_2.

Lemma sextets_unsextets vs r :
  Forall is_sextet vs -> unsextets vs = Some r -> sextets r = vs /\ Forall is_byte r /\ r <> [].
Proof.
  revert r. induction vs as [|p|p q|p q r|p q r s vs IH] using list_ind4;
    intros l Hvs Hl; [done|done|..]; decompose_Forall_hyps.
  - simpl in Hl. case_match eqn:E; simplify_eq. apply Z.eqb_eq in E. simpl.
    rewrite sextet1_bytes, sextet2_last by done. split; [done|].
    split; [|done]. prove_bytes.
  - simpl in Hl. case_match eqn:E; simplify_eq. apply Z.eqb_eq in E. simpl.
    rewrite sextet1_bytes, sextet2_bytes, sextet3_last by done. split; [done|].
    split; [|done]. prove_bytes.
  - destruct vs as [|v vs].
    + simpl in Hl. simplify_eq. simpl.
      rewrite sextet1_bytes, sextet2_bytes, sextet3_bytes, sextet4_bytes by done.
      split; [done|]. split; [|done]. prove_bytes.
    + change (unsextets (p :: q :: r :: s :: v :: vs) = Some l) in Hl.
      rewrite unsextets_group in Hl by done.
      destruct (unsextets (v :: vs)) as [l'|] eqn:E; simpl in Hl; simplify_eq.
      destruct (IH l') as (IH1 & IH2 & IH3); [done..|]. simpl.
      rewrite sextet1_bytes, sextet2_bytes, sextet3_bytes, sextet4_bytes, IH1 by done.
      split; [done|]. split; [|done]. prove_bytes. done.
Qed.

Lemma unsextets_length vs r :
  unsextets vs = Some r -> Z.of_nat (length r) = decoded_length (Z.of_nat (length vs)).
Proof.
  revert r. induction vs as [|p|p q|p q r|p q r s vs IH] using list_ind4;
    intros l Hl; [done|done|..].
  - simpl in Hl. case_match; simplify_eq. done.
  - simpl in Hl. case_match; simplify_eq. done.
  - destruct vs as [|v vs]; [simpl in Hl; simplify_eq; done|].
    rewrite unsextets_group in Hl by done.
    destruct (unsextets (v :: vs)) as [l'|] eqn:E; simpl in Hl; simplify_eq.
    specialize (IH l' eq_refl). simpl length in *. revert IH.
    set (n := length vs). unfold decoded_length.
    replace (Z.of_nat (S (S (S (S (S n)))))) with (Z.of_nat (S n) + 1 * 4) by lia.
    rewrite Z.mod_add by lia. replace (Z.of_nat (S n) + 1 * 4 + 3) with (Z.of_nat (S n) + 3 + 1 * 4) by lia.
    rewrite Z.div_add by lia.
    destruct (Z.of_nat (S n) mod 4 =? 3), (Z.of_nat (S n) mod 4 =? 2); lia.
Qed.

(** *** Padding *)

Lemma table_at_app_last l c : table_at (l ++ [c]) (Z.of_nat (length l)) = Some c.
Proof.
  unfold table_at. rewrite decide_True, Nat2Z.id by lia. by apply list_lookup_middle.
Qed.

(** The characters that are left once at most two trailing [=] are dropped. *)
Definition strip_padding (l : list Z) : list Z := take (Z.to_nat (unpadded_length l)) l.

Lemma unpadded_bound l : 0 <= unpadded_length l <= Z.of_nat (length l).
Proof.
  unfold unpadded_length. case_decide as H1; [case_decide as H2|]; [|split; [|lia]..|lia].
  - lia.
  - destruct l; [done|]. simpl length. lia.
Qed.

(** *** The whole decoder *)

Lemma decode_loop_rest cs pre rest ret :
  cs <> [] ->
  let lst := Z.of_nat (length pre) + Z.of_nat (length cs) - 1 in
  ('(ok, ret') ← decode_loop (cs ++ rest) (Z.of_nat (length pre)) lst ret;
   if (ok : bool) then c ← table_at (pre ++ cs ++ rest) lst; decodeLast c lst ret'
   else Some (false, ret')) =
  decode_rest cs (Z.of_nat (length pre)) ret.
Proof.
  revert pre ret. induction cs as [|c cs IH]; intros pre ret Hne lst; [done|].
  destruct cs as [|c' cs].
  - simpl length in lst. subst lst. replace (Z.of_nat (length pre) + Z.of_nat 1 - 1)
      with (Z.of_nat (length pre)) by lia.
    simpl. rewrite Z.ltb_irrefl. simpl. unfold table_at.
    rewrite decide_True, Nat2Z.id by lia. by rewrite list_lookup_middle.
  - rewrite decode_rest_cons. simpl app. simpl decode_loop.
    rewrite (proj2 (Z.ltb_lt _ lst)) by (subst lst; simpl length; lia).
    destruct (decodeBase c (Z.of_nat (length pre)) ret) as [[ok ret']|]; simpl; [|done].
    destruct ok; [|done].
    specialize (IH (pre ++ [c]) ret' ltac:(discriminate)). simpl in IH.
    rewrite length_app in IH. simpl length in IH.
    replace (Z.of_nat (length pre + 1) + Z.of_nat (S (length cs)) - 1) with lst in IH
      by (subst lst; simpl length; lia).
    replace (Z.of_nat (length pre + 1)) with (Z.of_nat (length pre) + 1) in IH by lia.
    rewrite <- app_assoc in IH. exact IH.
Qed.

Lemma unpadded_length_0 l :
  l <> [] -> unpadded_length l = 0 -> l = [61] \/ l = [61; 61].
Proof.
  intros Hl. unfold unpadded_length, table_at.
  destruct l as [|a [|b [|c l]]]; [done|..]; simpl length;
    repeat case_decide; simpl in *; try lia; naive_solver.
Qed.

Lemma decode_bytes_rest input :
  Forall is_byte input -> Z.of_nat (length input) < 2 ^ 32 -> input <> [] ->
  decode_bytes input =
  if decide (unpadded_length input = 0) then Some [] else
    '(ok, ret) ← decode_rest (strip_padding input) 0 [];
    if (ok : bool) then
      if decide (Z.of_nat (length ret) = decoded_length (unpadded_length input))
      then Some ret else None
    else Some [].
Proof.
  intros Hb Hlen Hne. unfold decode_bytes. rewrite decide_False by done.
  pose proof (unpadded_bound input) as Hn. case_decide as Hz.
  { destruct (unpadded_length_0 input Hne Hz) as [-> | ->]; reflexivity. }
  rewrite (u32_id (unpadded_length input - 1)) by lia.
  assert (length (strip_padding input) = Z.to_nat (unpadded_length input)) as Hs.
  { unfold strip_padding. rewrite length_take. lia. }
  pose proof (decode_loop_rest (strip_padding input) []
    (drop (Z.to_nat (unpadded_length input)) input) []) as Hl.
  assert (strip_padding input <> []) as Hsn by (intros E; rewrite E in Hs; simpl in Hs; lia).
  specialize (Hl Hsn) as Hl'. clear Hl.
  simpl app in Hl'. change (Z.of_nat (length [])) with 0 in Hl'.
  rewrite Hs, Z2Nat.id in Hl' by lia.
  replace (0 + unpadded_length input - 1) with (unpadded_length input - 1) in Hl' by lia.
  unfold strip_padding in Hl' at 1 2. rewrite take_drop in Hl'. rewrite <- Hl'.
  destruct (decode_loop input 0 (unpadded_length input - 1) []) as [[[] ret]|]; simpl; try done.
  by destruct (table_at input (unpadded_length input - 1)) as [c|].
Qed.

Lemma decode_bytes_spec input :
  Forall is_byte input -> Z.of_nat (length input) < 2 ^ 32 ->
  decode_bytes input =
    Some (default [] (mapM sextet_of_char (strip_padding input) ≫= unsextets)).
Proof.
  intros Hb Hlen. destruct (decide (input = [])) as [->|Hne]; [done|].
  rewrite decode_bytes_rest by done. pose proof (unpadded_bound input) as Hn.
  assert (length (strip_padding input) = Z.to_nat (unpadded_length input)) as Hs.
  { unfold strip_padding. rewrite length_take. lia. }
  case_decide as Hz.
  { destruct (strip_padding input); [done|]. simpl in Hs. lia. }
  assert (strip_padding input <> []) as Hsn by (intros E; rewrite E in Hs; simpl in Hs; lia).
  pose proof (decode_rest_spec (strip_padding input) 0 [] eq_refl) as Hr.
  specialize (Hr (Forall_take _ _ _ Hb) Hsn). unfold rest_spec in Hr.
  destruct (mapM sextet_of_char (strip_padding input)) as [vs|] eqn:Hm; simpl in *.
  2: { destruct Hr as [ret' ->]. done. }
  destruct (unsextets vs) as [r|] eqn:Hu; simpl in *.
  2: { destruct Hr as [ret' ->]. done. }
  rewrite Hr. simpl. rewrite decide_True; [done|].
  rewrite (unsextets_length _ _ Hu). f_equal.
  rewrite (length_mapM _ _ _ Hm) in Hs. lia.
Qed.

Lemma unpadded_app l c pad :
  c <> 61 -> pad = [] \/ pad = [61] \/ pad = [61; 61] ->
  unpadded_length ((l ++ [c]) ++ pad) = Z.of_nat (length (l ++ [c])).
Proof.
  intros Hc Hpad. unfold unpadded_length. rewrite !length_app. simpl length.
  destruct Hpad as [->|[->| ->]]; simpl length.
  - rewrite app_nil_r. replace (Z.of_nat (length l + 1 + 0) - 1) with (Z.of_nat (length l)) by lia.
    rewrite table_at_app_last. rewrite decide_False by congruence. lia.
  - replace (Z.of_nat (length l + 1 + 1) - 1) with (Z.of_nat (length (l ++ [c])))
      by (rewrite length_app; simpl; lia).
    rewrite table_at_app_last, decide_True by done. rewrite decide_False; [rewrite length_app; simpl; lia|].
    rewrite length_app. simpl length.
    replace (Z.of_nat (length l + 1) - 1) with (Z.of_nat (length l)) by lia.
    rewrite <- app_assoc. unfold table_at. rewrite decide_True, Nat2Z.id by lia.
    simpl app. rewrite list_lookup_middle by done. intros [_ ?]. congruence.
  - replace ((l ++ [c]) ++ [61; 61]) with (((l ++ [c]) ++ [61]) ++ [61]) by (by rewrite <- app_assoc).
    replace (Z.of_nat (length l + 1 + 2) - 1) with (Z.of_nat (length ((l ++ [c]) ++ [61])))
      by (rewrite !length_app; simpl; lia).
    rewrite table_at_app_last, decide_True by done. rewrite decide_True; [rewrite !length_app; simpl; lia|].
    split; [rewrite !length_app; simpl; lia|].
    replace (Z.of_nat (length ((l ++ [c]) ++ [61])) - 1) with (Z.of_nat (length (l ++ [c])))
      by (rewrite !length_app; simpl; lia).
    rewrite <- (app_assoc _ [61] [61]). unfold table_at. rewrite decide_True, Nat2Z.id by lia.
    simpl app at 2. by apply list_lookup_middle.
Qed.

Lemma padding_cases n : padding n = [] \/ padding n = [61] \/ padding n = [61; 61].
Proof. unfold padding. repeat case_match; auto. Qed.

Lemma sextets_bound l : Forall is_byte l -> Forall is_sextet (sextets l).
Proof.
  induction l as [|a|a b|a b c l IH] using list_ind3; intros Hl; simpl; decompose_Forall_hyps;
    assert (is_byte 0) by done;
    repeat (apply Forall_cons; split; [eapply sextet_bounds; eassumption|]); auto.
Qed.

Lemma encoded_sextets vs : Forall is_sextet vs -> mapM sextet_of_char (map char_at vs) = Some vs.
Proof.
  induction 1 as [|v vs Hv _ IH]; simpl; [done|]. rewrite (sextet_char v Hv). simpl. by rewrite IH.
Qed.

Lemma strip_encoded l pad :
  Forall is_byte l -> l <> [] -> strip_padding (encode_bytes l pad) = map char_at (sextets l).
Proof.
  intros Hl Hne. rewrite encode_bytes_sextets.
  pose proof (sextets_bound l Hl) as Hs. destruct (sextets_nonempty l Hne) as (x & y & l' & E).
  assert (sextets l <> []) as Hsn by (rewrite E; done). clear x y l' E.
  destruct (sextets l) as [|v vs _] using rev_ind; [done|].
  apply Forall_app in Hs as [Hs Hv]. rewrite Forall_singleton in Hv. rewrite map_app. simpl map.
  unfold strip_padding. rewrite unpadded_app.
  - by rewrite Nat2Z.id, take_app_length.
  - by apply char_not_padding.
  - destruct pad; [apply padding_cases|auto].
Qed.

Lemma encode_bytes_bytes l pad : Forall is_byte l -> Forall is_byte (encode_bytes l pad).
Proof.
  intros Hl. rewrite encode_bytes_sextets. apply Forall_app. split.
  - apply Forall_map. eapply Forall_impl; [by apply sextets_bound|]. intros x Hx. simpl.
    by apply char_at_byte.
  - destruct pad; [|done]. destruct (padding_cases (Z.of_nat (length l))) as [->|[->| ->]];
      repeat apply Forall_cons_2; done.
Qed.

Lemma encoded_length l pad :
  Z.of_nat (length l) < 2 ^ 31 -> Z.of_nat (length (encode_bytes l pad)) < 2 ^ 32.
Proof.
  intros Hl. rewrite encode_bytes_sextets, length_app, length_map.
  assert (Z.of_nat (length (sextets l)) * 3 <= Z.of_nat (length l) * 4 + 2) as Hs.
  { clear pad Hl. induction l as [|a|a b|a b c l IH] using list_ind3;
      cbn [sextets length] in *; lia. }
  assert (length (if pad then padding (Z.of_nat (length l)) else []) <= 2)%nat as Hp.
  { destruct pad; [|simpl; lia].
    destruct (padding_cases (Z.of_nat (length l))) as [->|[->| ->]]; simpl; lia. }
  lia.
Qed.

(** ** Theorems *)

(** C16: decoding what was encoded, with or without padding, gives the string back. *)
Theorem decode_encode (s : string) (pad : bool) :
  Z.of_nat (String.length s) < 2 ^ 31 ->
  decodeWithoutPadding (encode s pad) = Some s.
Proof.
  intros Hlen. unfold decodeWithoutPadding, encode.
  pose proof (bytes_of_string_bytes s) as Hb.
  rewrite bytes_of_string_of_bytes by (by apply encode_bytes_bytes).
  rewrite decode_bytes_spec; [|by apply encode_bytes_bytes|].
  2: { apply encoded_length. by rewrite bytes_of_string_length. }
  destruct (decide (bytes_of_string s = [])) as [E|Hne]; [by destruct s|].
  rewrite strip_encoded, encoded_sextets by (done || by apply sextets_bound). simpl.
  rewrite unsextets_sextets by done. simpl. by rewrite string_of_bytes_of_string.
Qed.

Lemma decode_encode_witness :
  decodeWithoutPadding (encode "ok:test" true) = Some "ok:test" /\ encode "ok:test" true = "b2s6dGVzdA==".
Proof. split; [apply decode_encode; vm_compute; reflexivity|vm_compute; reflexivity]. Defined.

(** The decoder returns on every string: it reads inside the string and its
    tables, never takes [back()] of an empty string, and its [ASSERT] on the
    output length holds. *)
Theorem decode_total (s : string) :
  Z.of_nat (String.length s) < 2 ^ 32 -> exists r, decodeWithoutPadding s = Some r.
Proof.
  intros Hlen. unfold decodeWithoutPadding.
  rewrite decode_bytes_spec; [eauto|apply bytes_of_string_bytes|by rewrite bytes_of_string_length].
Qed.

Lemma decode_total_witness : exists r, decodeWithoutPadding "YWRt=W4" = Some r.
Proof. apply decode_total. vm_compute. reflexivity. Defined.

(** C39: the decoder accepts exactly the canonical encodings: a nonempty result [r]
    comes back if and only if the input, once at most two trailing [=] are
    dropped, is the unpadded encoding of [r]. *)
Theorem decode_accepts (s r : string) :
  Z.of_nat (String.length s) < 2 ^ 32 -> r <> EmptyString ->
  decodeWithoutPadding s = Some r <->
  string_of_bytes (strip_padding (bytes_of_string s)) = encode r false.
Proof.
  intros Hlen Hr. unfold decodeWithoutPadding, encode.
  pose proof (bytes_of_string_bytes s) as Hs. pose proof (bytes_of_string_bytes r) as Hrb.
  rewrite decode_bytes_spec; [|done|by rewrite bytes_of_string_length].
  assert (Forall is_byte (strip_padding (bytes_of_string s))) as Hst by (by apply Forall_take).
  split; intros H.
  - injection H as H. rewrite <- (string_of_bytes_of_string r) in H.
    destruct (mapM sextet_of_char _) as [vs|] eqn:Hm; simpl in H.
    2: { by rewrite string_of_bytes_of_string in H. }
    destruct (unsextets vs) as [b|] eqn:Hu; simpl in H.
    2: { by rewrite string_of_bytes_of_string in H. }
    assert (Forall is_sextet vs /\ map char_at vs = strip_padding (bytes_of_string s)) as [Hv Hc].
    { clear -Hst Hm. revert vs Hm. induction Hst as [|c cs Hc _ IH]; intros vs Hm; simpl in Hm.
      - injection Hm as <-. done.
      - destruct (sextet_of_char c) as [v|] eqn:Ev; simpl in Hm; [|done].
        destruct (mapM sextet_of_char cs) as [vs'|]; simpl in Hm; [|done]. injection Hm as <-.
        destruct (char_sextet c v Hc Ev), (IH vs' eq_refl). simpl. split; [by constructor|congruence]. }
    destruct (sextets_unsextets vs b Hv Hu) as (Hsx & Hb & _).
    apply (f_equal bytes_of_string) in H.
    rewrite !bytes_of_string_of_bytes in H by done. subst b.
    by rewrite encode_bytes_sextets, app_nil_r, Hsx, Hc.
  - apply (f_equal bytes_of_string) in H.
    rewrite !bytes_of_string_of_bytes in H by (done || by apply encode_bytes_bytes).
    rewrite H, encode_bytes_sextets, app_nil_r, encoded_sextets by (by apply sextets_bound).
    simpl. rewrite unsextets_sextets by (done || by apply bytes_of_string_nonempty).
    simpl. by rewrite string_of_bytes_of_string.
Qed.

Lemma decode_accepts_witness :
  decodeWithoutPadding "YWRtaW4=" = Some "admin" <->
  string_of_bytes (strip_padding (bytes_of_string "YWRtaW4=")) = encode "admin" false.
Proof. apply decode_accepts; [vm_compute; reflexivity|discriminate]. Defined.
