(* ===== verification/BasicAuth.v ===== *)
(** * HTTP basic authentication ([extensions/basic_auth/plugin.{h,cc}])

    The configuration parser, the rule store it fills, and the check each
    request goes through. *)

From stdpp Require Import base tactics numbers list strings gmap.
From Stdlib Require Import ZArith Lia Ascii.
From S2P Require Import Prelude HostApi Absl Json Bytes Base64.
Local Open Scope Z_scope.

(** ** State *)

Inductive MATCH_TYPE := Prefix | Exact | Suffix.
#[export] Instance MATCH_TYPE_eq_dec : EqDecision MATCH_TYPE.
Proof. solve_decision. Defined.

(** [path_pattern] has no initialiser: [None] is its indeterminate value. *)
Record BasicAuthConfigRule := {
  request_path : string;
  path_pattern : option MATCH_TYPE;
  hosts : list (MATCH_TYPE * string);
  encoded_credentials : gset string
}.

Abbreviation rule_map := (gmap string (list BasicAuthConfigRule)).

Record PluginRootContext := {
  basic_auth_configuration_ : rule_map;
  realm_ : string
}.

Definition initial_context : PluginRootContext :=
  {| basic_auth_configuration_ := ∅; realm_ := "istio" |}.

Section basic_auth.
Context `{J : NlohmannJson} `{A : AbslStrings}.

(** ** Local responses *)

Definition no_data_response (realm : string) : Z * string * string * header_list :=
  (401, "Request denied by Basic Auth check. No Basic Authentication information found.",
   "", [("WWW-Authenticate", "Basic realm=" +:+ realm)]).

Definition invalid_response (realm : string) : Z * string * string * header_list :=
  (401, "Request denied by Basic Auth check. Invalid username and/or password",
   "", [("WWW-Authenticate", "Basic realm=" +:+ realm)]).

Definition send (r : Z * string * string * header_list) : host_prog unit :=
  let '(code, body, details, headers) := r in
  trigger (SendLocalResponse code body details headers).

Definition deniedNoBasicAuthData (realm : string) : host_prog unit :=
  send (no_data_response realm).

Definition deniedInvalidCredentials (realm : string) : host_prog unit :=
  send (invalid_response realm).

(** ** Configuration *)

(** One of [prefix], [exact] and [suffix]: the new [count] and the value, or
    [None] when the field is not a string. *)
Definition path_field (configuration : json) (name : string) (count : Z) : option (Z * string) :=
  match find configuration name with
  | None => Some (count, "")
  | Some v =>
      match JsonValueAs_string v with
      | (Some s, OK) => Some (count + 1, s)
      | _ => None
      end
  end.

Definition host_pattern (host_str : string) : MATCH_TYPE * string :=
  if StartsWith host_str "*" then (Suffix, substr_drop 1 host_str)
  else if EndsWith host_str "*" then
    (Prefix, substr_take (String.length host_str - 1) host_str)
  else (Exact, host_str).

Definition visit_host (host : json) (hosts : list (MATCH_TYPE * string)) :
    option (bool * list (MATCH_TYPE * string)) :=
  match JsonValueAs_string host with
  | (Some host_str, OK) => Some (true, hosts ++ [host_pattern host_str])
  | _ => Some (false, hosts)
  end.

Definition visit_method (method : json) (request_methods : list string) :
    option (bool * list string) :=
  match JsonValueAs_string method with
  | (Some s, OK) => Some (true, request_methods ++ [s])
  | (None, OK) => None (* [value()] of an empty optional *)
  | _ => Some (false, request_methods)
  end.

Definition visit_credential (credentials : json) (creds : gset string) :
    option (bool * gset string) :=
  match JsonValueAs_string credentials with
  | (Some credential, OK) =>
      if StrContains credential ":" then
        Some (true, {[encode credential true]} ∪ creds)
      else
        decoded ← decodeWithoutPadding credential;
        if decide (decoded <> EmptyString) then Some (true, {[credential]} ∪ creds)
        else Some (false, creds)
  | (None, OK) => None
  | _ => Some (false, creds)
  end.

(** The path part of the rule; with three empty strings nothing is assigned. *)
Definition path_of (prefix exact suffix : string) : string * option MATCH_TYPE :=
  if decide (prefix <> EmptyString) then (prefix, Some Prefix)
  else if decide (exact <> EmptyString) then (exact, Some Exact)
  else if decide (suffix <> EmptyString) then (suffix, Some Suffix)
  else (EmptyString, None).

(** [rules->at(method).push_back(rule)], the entry created when missing. *)
Definition push_rule (rule : BasicAuthConfigRule) (rules : rule_map) (method : string) : rule_map :=
  <[method := default [] (rules !! method) ++ [rule]]> rules.

(** [None] is undefined behaviour; [rules] is returned with what was pushed. *)
Definition extractBasicAuthRule (configuration : json) (rules : rule_map) :
    option (bool * rule_map) :=
  match path_field configuration "prefix" 0 with
  | None => Some (false, rules)
  | Some (count, prefix) =>
  match path_field configuration "exact" count with
  | None => Some (false, rules)
  | Some (count, exact) =>
  match path_field configuration "suffix" count with
  | None => Some (false, rules)
  | Some (count, suffix) =>
  if decide (count <> 1) then Some (false, rules)
  else
    '(ok, hosts) ← JsonArrayIterate configuration "hosts" visit_host [];
    if negb ok then Some (false, rules) else
    '(ok, request_methods) ← JsonArrayIterate configuration "request_methods" visit_method [];
    if negb ok then Some (false, rules) else
    if decide (length request_methods <= 0)%nat then Some (false, rules) else
    '(ok, encoded_credentials) ← JsonArrayIterate configuration "credentials" visit_credential ∅;
    if negb ok then Some (false, rules) else
    if decide (size encoded_credentials <= 0)%nat then Some (false, rules) else
    let '(request_path, path_pattern) := path_of prefix exact suffix in
    let rule := {| request_path := request_path; path_pattern := path_pattern;
                   hosts := hosts; encoded_credentials := encoded_credentials |} in
    Some (true, foldl (push_rule rule) rules request_methods)
  end end end.

(** [configure] once the JSON is parsed; the context keeps the rules pushed
    before a failure. *)
Definition configure_json (j : json) (ctx : PluginRootContext) :
    option (bool * PluginRootContext) :=
  '(ok, rules) ← JsonArrayIterate j "basic_auth_rules" extractBasicAuthRule
                   (basic_auth_configuration_ ctx);
  let ctx := {| basic_auth_configuration_ := rules; realm_ := realm_ ctx |} in
  if negb ok then Some (false, ctx) else
  match find j "realm" with
  | None => Some (true, ctx)
  | Some v =>
      match JsonValueAs_string v with
      | (Some realm, OK) =>
          Some (true, {| basic_auth_configuration_ := rules; realm_ := realm |})
      | (None, OK) => None
      | _ => Some (false, ctx)
      end
  end.

Definition configure (configuration_size : Z) (ctx : PluginRootContext) :
    host_prog (bool * PluginRootContext) :=
  configuration_data ← trigger (GetBuffer PluginConfiguration 0 configuration_size);
  view ← deref configuration_data;
  match JsonParse view with
  | None => mret (false, ctx)
  | Some j =>
      match configure_json j ctx with
      | Some r => mret r
      | None => UB "value of an empty optional, or Base64"
      end
  end.

Definition onConfigure (size : Z) (ctx : PluginRootContext) :
    host_prog (bool * PluginRootContext) :=
  if decide (0 < size) then
    '(ok, ctx) ← configure size ctx;
    mret (if (ok : bool) then true else false, ctx)
  else mret (true, ctx).

(** ** The check *)

(** The request host without its port. *)
Definition strip_port (request_host : string) : string :=
  match rfind ":" request_host with
  | None => request_host
  | Some port_start =>
      if match rfind "]" request_host with
         | None => true
         | Some v6_end_index => bool_decide (v6_end_index < port_start)%nat
         end
      then if decide (port_start + 1 <= String.length request_host)%nat
           then substr_take port_start request_host
           else request_host
      else request_host
  end.

Definition host_matches (request_host : string) (host_match : MATCH_TYPE * string) : bool :=
  match fst host_match with
  | Suffix => EndsWith request_host (snd host_match)
  | Prefix => StartsWith request_host (snd host_match)
  | Exact => bool_decide (request_host = snd host_match)
  end.

Definition hostMatch (rule : BasicAuthConfigRule) (request_host : string) : bool :=
  match hosts rule with
  | [] => true
  | hosts => existsb (host_matches (strip_port request_host)) hosts
  end.

Definition credentialsCheck (ctx : PluginRootContext) (rule : BasicAuthConfigRule)
    (authorization_header : string) : host_prog FilterHeadersStatus :=
  if negb (StartsWith authorization_header "Basic ") then
    _ ← deniedNoBasicAuthData (realm_ ctx); mret StopIteration
  else
    let authorization_header_strip := StripPrefix authorization_header "Basic " in
    if decide (authorization_header_strip ∉ encoded_credentials rule) then
      _ ← deniedInvalidCredentials (realm_ ctx); mret StopIteration
    else mret Continue.

(** The loop over the rules of the method. *)
Fixpoint check_rules (ctx : PluginRootContext) (rules : list BasicAuthConfigRule)
    (request_path_hdr request_host authorization : string)
    (header_status : FilterHeadersStatus) : host_prog FilterHeadersStatus :=
  match rules with
  | [] => mret Continue
  | rule :: rules' =>
      if negb (hostMatch rule request_host) then
        check_rules ctx rules' request_path_hdr request_host authorization header_status
      else
        header_status ←
          match path_pattern rule with
          | None => UB "read of an indeterminate path_pattern"
          | Some Prefix =>
              if StartsWith request_path_hdr (request_path rule)
              then credentialsCheck ctx rule authorization else mret header_status
          | Some Exact =>
              if bool_decide (request_path rule = request_path_hdr)
              then credentialsCheck ctx rule authorization else mret header_status
          | Some Suffix =>
              if EndsWith request_path_hdr (request_path rule)
              then credentialsCheck ctx rule authorization else mret header_status
          end;
        if decide (header_status = StopIteration) then mret StopIteration
        else check_rules ctx rules' request_path_hdr request_host authorization header_status
  end.

Definition check (ctx : PluginRootContext) : host_prog FilterHeadersStatus :=
  request_path_header ← trigger (GetHeader RequestHeaders ":path");
  request_path ← deref request_path_header;
  method_header ← trigger (GetHeader RequestHeaders ":method");
  method ← deref method_header;
  match basic_auth_configuration_ ctx !! method with
  | None => mret Continue
  | Some rules =>
      request_host_header ← trigger (GetHeader RequestHeaders ":authority");
      request_host ← deref request_host_header;
      authorization_header ← trigger (GetHeader RequestHeaders "authorization");
      authorization ← deref authorization_header;
      check_rules ctx rules request_path request_host authorization Continue
  end.

(** [PluginContext::onRequestHeaders] *)
Definition onRequestHeaders (ctx : PluginRootContext) : host_prog FilterHeadersStatus :=
  check ctx.
End basic_auth.

(** ** What the check should decide *)

Section basic_auth_spec.
Context `{J : NlohmannJson} `{A : AbslStrings}.

Definition path_matches (rule : BasicAuthConfigRule) (path : string) : bool :=
  match path_pattern rule with
  | Some Prefix => StartsWith path (request_path rule)
  | Some Exact => bool_decide (request_path rule = path)
  | Some Suffix => EndsWith path (request_path rule)
  | None => false
  end.

Definition rule_applies (host path : string) (rule : BasicAuthConfigRule) : bool :=
  hostMatch rule host && path_matches rule path.

Definition authorizes (authorization : string) (rule : BasicAuthConfigRule) : bool :=
  StartsWith authorization "Basic " &&
  bool_decide (StripPrefix authorization "Basic " ∈ encoded_credentials rule).

(** Some applicable rule does not list the credential. *)
Definition denied (rules : list BasicAuthConfigRule) (host path authorization : string) : bool :=
  existsb (fun r => rule_applies host path r && negb (authorizes authorization r)) rules.

Definition denial (ctx : PluginRootContext) (authorization : string) : Z * string * string * header_list :=
  if StartsWith authorization "Basic " then invalid_response (realm_ ctx)
  else no_data_response (realm_ ctx).

Definition rules_for (ctx : PluginRootContext) (method : string) : list BasicAuthConfigRule :=
  default [] (basic_auth_configuration_ ctx !! method).

(** The check of the rule reads a pattern that was never assigned. *)
Definition indeterminate (host : string) (rule : BasicAuthConfigRule) : bool :=
  hostMatch rule host && match path_pattern rule with None => true | Some _ => false end.

(** The rules that can be checked before such a read. *)
Definition reached (host : string) (rules : list BasicAuthConfigRule) : list BasicAuthConfigRule :=
  take_ok (fun rule => negb (indeterminate host rule)) rules.

(** What the check comes to: a denial by a rule that is reached stops it, and otherwise
    the first rule without a pattern is undefined behaviour. *)
Definition verdict (rules : list BasicAuthConfigRule) (host path authorization : string) :
    outcome FilterHeadersStatus :=
  if denied (reached host rules) host path authorization then Done StopIteration
  else if existsb (indeterminate host) rules then Undefined "read of an indeterminate path_pattern"
  else Done Continue.

Lemma run_credentialsCheck {S} (h : handler HostCall S) ctx rule auth s :
  result (run h (credentialsCheck ctx rule auth) s) =
    Done (if authorizes auth rule then Continue else StopIteration) /\
  local_responses (trace (run h (credentialsCheck ctx rule auth) s)) =
    if authorizes auth rule then [] else [denial ctx auth].
Proof.
  unfold credentialsCheck, authorizes, denial. destruct (StartsWith auth "Basic "); simpl.
  - destruct (decide (_ ∉ _)) as [Hd|Hd]; simpl.
    + rewrite bool_decide_eq_false_2 by done. unfold deniedInvalidCredentials, send.
      simpl. by destruct (h _ _ s).
    + rewrite bool_decide_eq_true_2 by (by apply dec_stable). done.
  - unfold deniedNoBasicAuthData, send. simpl. by destruct (h _ _ s).
Qed.

Lemma run_check_rules {S} (h : handler HostCall S) ctx rules path host auth s :
  let r := run h (check_rules ctx rules path host auth Continue) s in
  result r = verdict rules host path auth /\
  local_responses (trace r) = if denied (reached host rules) host path auth then [denial ctx auth] else [].
Proof.
  unfold verdict. revert s. induction rules as [|rule rules IH]; intros s; [done|].
  cbn [check_rules reached take_ok existsb]. unfold indeterminate at 1 3 5.
  destruct (hostMatch rule host) eqn:Eh; cbn [negb andb orb].
  2: { unfold denied. cbn [existsb]. unfold rule_applies at 1 3. rewrite Eh. apply IH. }
  destruct (path_pattern rule) as [p|] eqn:Ep; [|done]. cbn [negb orb denied existsb].
  unfold rule_applies at 1 3. rewrite Eh. cbn [andb].
  (* The rule's step is the credentials check when the path matches. *)
  assert (forall m, m = (if path_matches rule path then credentialsCheck ctx rule auth else mret Continue) ->
    let r := run h (header_status ← m; if decide (header_status = StopIteration) then mret StopIteration
                    else check_rules ctx rules path host auth header_status) s in
    result r = (if path_matches rule path && negb (authorizes auth rule) || denied (reached host rules) host path auth
                then Done StopIteration
                else if existsb (indeterminate host) rules
                     then Undefined "read of an indeterminate path_pattern" else Done Continue) /\
    local_responses (trace r) =
      if path_matches rule path && negb (authorizes auth rule) || denied (reached host rules) host path auth
      then [denial ctx auth] else []) as Hstep; [|apply Hstep; unfold path_matches; rewrite Ep; by destruct p].
  intros m ->.
  destruct (path_matches rule path); cbn [andb orb]; [|apply IH].
  pose proof (run_credentialsCheck h ctx rule auth s) as [Hc Ht].
  rewrite run_bind, Hc.
  destruct (authorizes auth rule); cbn [negb orb]; simpl decide.
  - cbn [result trace final]. rewrite omap_app, Ht. apply IH.
  - cbn [result trace]. rewrite omap_app, Ht. done.
Qed.
Lemma run_check {S} (h : handler HostCall S) headers ctx s :
  HeaderHost h headers ->
  let rules := rules_for ctx (headers ":method") in
  let host := headers ":authority" in
  let r := run h (onRequestHeaders ctx) s in
  result r = verdict rules host (headers ":path") (headers "authorization") /\
  local_responses (trace r) =
    if denied (reached host rules) host (headers ":path") (headers "authorization")
    then [denial ctx (headers "authorization")] else [].
Proof.
  intros Hh. unfold onRequestHeaders, check, rules_for in *. cbn -[check_rules verdict].
  rewrite header_answer. cbn -[check_rules verdict]. rewrite header_answer. cbn -[check_rules verdict].
  destruct (basic_auth_configuration_ ctx !! headers ":method") as [rules|]; simpl default in *.
  - cbn -[check_rules verdict]. rewrite header_answer. cbn -[check_rules verdict].
    rewrite header_answer. cbn -[check_rules verdict]. apply run_check_rules.
  - by cbn.
Qed.
End basic_auth_spec.

(** ** The rule store *)

Section basic_auth_store.
Context `{J : NlohmannJson} `{A : AbslStrings}.

(** A stored rule lists a credential; its pattern is initialised exactly when
    its path is not empty. *)
Definition rule_wf (r : BasicAuthConfigRule) : Prop :=
  encoded_credentials r <> ∅ /\ (path_pattern r = None <-> request_path r = EmptyString).

Definition store_wf (m : rule_map) : Prop :=
  forall method rules, m !! method = Some rules -> rules <> [] /\ Forall rule_wf rules.

Lemma push_rule_wf rule m method : rule_wf rule -> store_wf m -> store_wf (push_rule rule m method).
Proof.
  intros Hr Hm method' rules. unfold push_rule. rewrite lookup_insert. case_decide as Hd.
  - intros [= <-]. split; [by destruct (default _ _)|]. subst. apply Forall_app. split.
    + destruct (m !! method') eqn:E; simpl; [by eapply Hm|constructor].
    + by apply Forall_singleton.
  - apply Hm.
Qed.

Lemma push_rules_wf rule m methods :
  rule_wf rule -> store_wf m -> store_wf (foldl (push_rule rule) m methods).
Proof.
  intros Hr. revert m. induction methods as [|x l IH]; intros m Hm; simpl; [done|].
  by apply IH, push_rule_wf.
Qed.

Lemma path_of_wf p e s : let '(path, pattern) := path_of p e s in pattern = None <-> path = EmptyString.
Proof. unfold path_of. repeat case_decide; naive_solver. Qed.

(** What a successful extraction did. *)
Lemma extract_inv c rules rules' :
  extractBasicAuthRule c rules = Some (true, rules') ->
  exists prefix exact suffix n1 n2 hosts methods creds,
    path_field c "prefix" 0 = Some (n1, prefix) /\
    path_field c "exact" n1 = Some (n2, exact) /\
    path_field c "suffix" n2 = Some (1, suffix) /\
    JsonArrayIterate c "hosts" visit_host [] = Some (true, hosts) /\
    JsonArrayIterate c "request_methods" visit_method [] = Some (true, methods) /\ methods <> [] /\
    JsonArrayIterate c "credentials" visit_credential ∅ = Some (true, creds) /\ creds <> ∅ /\
    rules' = foldl (push_rule {|
      request_path := fst (path_of prefix exact suffix);
      path_pattern := snd (path_of prefix exact suffix);
      hosts := hosts; encoded_credentials := creds |}) rules methods.
Proof.
  unfold extractBasicAuthRule.
  destruct (path_field c "prefix" 0) as [[n1 prefix]|] eqn:E1; [|done].
  destruct (path_field c "exact" n1) as [[n2 exact]|] eqn:E2; [|done].
  destruct (path_field c "suffix" n2) as [[n3 suffix]|] eqn:E3; [|done].
  case_decide as Hn; [done|]. assert (n3 = 1) as -> by lia.
  destruct (JsonArrayIterate c "hosts" visit_host []) as [[[] hosts]|] eqn:E4; simpl; try done.
  destruct (JsonArrayIterate c "request_methods" visit_method []) as [[[] methods]|] eqn:E5;
    simpl; try done.
  case_decide as Hm; [done|].
  destruct (JsonArrayIterate c "credentials" visit_credential ∅) as [[[] creds]|] eqn:E6;
    simpl; try done.
  case_decide as Hc; [done|].
  destruct (path_of prefix exact suffix) as [path pattern] eqn:E7. intros [= <-].
  exists prefix, exact, suffix, n1, n2, hosts, methods, creds. rewrite E7.
  repeat split; try done.
  - intros ->. simpl in Hm. lia.
  - intros ->. rewrite size_empty in Hc. lia.
Qed.

(** Either the extraction pushed its rule or it left the store alone. *)
Lemma extract_false c rules rules' :
  extractBasicAuthRule c rules = Some (false, rules') -> rules' = rules.
Proof.
  unfold extractBasicAuthRule. intros H.
  repeat (case_match || case_decide || (simpl in H; simplify_eq)); try done;
    repeat match type of H with
    | context [JsonArrayIterate ?j ?f ?v ?s] =>
        destruct (JsonArrayIterate j f v s) as [[[] ?]|]; simpl in H; simplify_eq; try done
    | context [decide ?P] => destruct (decide P); simplify_eq; try done
    | context [path_of ?a ?b ?c] => destruct (path_of a b c); simplify_eq; try done
    end.
Qed.

Lemma extract_wf c rules ok rules' :
  extractBasicAuthRule c rules = Some (ok, rules') -> store_wf rules -> store_wf rules'.
Proof.
  intros He Hw. destruct ok; [|by apply extract_false in He as ->].
  apply extract_inv in He
    as (p & e & s & n1 & n2 & hosts & methods & creds & _ & _ & _ & _ & _ & _ & _ & Hc & ->).
  apply push_rules_wf; [|done]. split; [done|]. simpl.
  pose proof (path_of_wf p e s) as Hp. by destruct (path_of p e s).
Qed.

Lemma configure_json_wf j ctx ok ctx' :
  configure_json j ctx = Some (ok, ctx') ->
  store_wf (basic_auth_configuration_ ctx) -> store_wf (basic_auth_configuration_ ctx').
Proof.
  unfold configure_json. intros H Hw.
  destruct (JsonArrayIterate _ _ _ _) as [[ok1 rules]|] eqn:E; simpl in H; [|done].
  assert (store_wf rules) as Hr.
  { change rules with (snd (ok1, rules)).
    eapply (array_iterate_invariant _ _ _ store_wf); [|exact E|exact Hw].
    intros x st b st' Hx Hs. by eapply extract_wf. }
  destruct ok1; simpl in H; [|by simplify_eq].
  destruct (find j "realm") as [v|]; [|by simplify_eq].
  destruct (JsonValueAs_string v) as [[realm|] []]; by simplify_eq.
Qed.
End basic_auth_store.

(** ** Lemmas for the configuration and the hosts *)

Section basic_auth_facts.
Context `{J : NlohmannJson} `{A : AbslStrings}.

Lemma visit_credential_total n c creds :
  Z.of_nat n < 2 ^ 31 -> short_strings n c -> is_Some (visit_credential c creds).
Proof.
  intros Hn Hc. unfold visit_credential. destruct c as [| | |s| |]; simpl; eauto.
  destruct (StrContains s ":"); [eauto|].
  assert (String.length s <= n)%nat as Hs by (by apply Forall_inv in Hc).
  destruct (decode_total s) as [d Hd]; [lia|]. rewrite Hd. simpl. case_decide; eauto.
Qed.

Lemma extract_total n c rules :
  Z.of_nat n < 2 ^ 31 -> short_strings n c -> is_Some (extractBasicAuthRule c rules).
Proof.
  intros Hn Hc. unfold extractBasicAuthRule.
  destruct (path_field c "prefix" 0) as [[n1 prefix]|]; [|eauto].
  destruct (path_field c "exact" n1) as [[n2 exact]|]; [|eauto].
  destruct (path_field c "suffix" n2) as [[n3 suffix]|]; [|eauto].
  case_decide; [eauto|].
  destruct (array_iterate_total n c "hosts" visit_host [] Hc) as [[[] ?] ->]; simpl; eauto.
  { intros x st _. unfold visit_host. destruct x; simpl; eauto. }
  destruct (array_iterate_total n c "request_methods" visit_method [] Hc) as [[[] ?] ->];
    simpl; eauto.
  { intros x st _. unfold visit_method. destruct x; simpl; eauto. }
  case_decide; [eauto|].
  destruct (array_iterate_total n c "credentials" visit_credential ∅ Hc) as [[[] ?] ->];
    simpl; eauto.
  { intros x st Hx. by eapply visit_credential_total. }
  case_decide; [eauto|]. destruct (path_of prefix exact suffix); eauto.
Qed.

Lemma configure_json_total n j ctx :
  Z.of_nat n < 2 ^ 31 -> short_strings n j -> is_Some (configure_json j ctx).
Proof.
  intros Hn Hj. unfold configure_json.
  destruct (array_iterate_total n j "basic_auth_rules" extractBasicAuthRule
    (basic_auth_configuration_ ctx) Hj) as [[[] rules] ->]; simpl; eauto.
  { intros x st Hx. by eapply extract_total. }
  destruct (find j "realm") as [v|]; [|eauto]. destruct v; simpl; eauto.
Qed.

Lemma push_rules_lookup rule m methods method :
  method ∈ methods ->
  exists before, foldl (push_rule rule) m methods !! method = Some (before ++ [rule]).
Proof.
  revert m. induction methods as [|x l IH] using rev_ind; intros m Hin.
  { by apply not_elem_of_nil in Hin. }
  rewrite foldl_app. simpl. unfold push_rule at 1. destruct (decide (x = method)) as [->|Hne].
  - rewrite lookup_insert_eq. eauto.
  - rewrite lookup_insert_ne by done. apply IH.
    apply elem_of_app in Hin as [?|Hin]; [done|]. by apply list_elem_of_singleton in Hin.
Qed.

Lemma visits_methods elems methods methods' :
  visits visit_method elems methods methods' ->
  methods' = methods ++ omap (fun j => fst (JsonValueAs_string j)) elems.
Proof.
  revert methods. induction elems as [|e l IH]; intros methods; simpl.
  { intros <-. by rewrite app_nil_r. }
  intros (st1 & Hv & Hl). apply IH in Hl as ->. unfold visit_method in Hv.
  destruct e; simpl in *; simplify_eq. by rewrite <- app_assoc.
Qed.

Lemma visits_credential_mono elems creds creds' :
  visits visit_credential elems creds creds' -> creds ⊆ creds'.
Proof.
  revert creds. induction elems as [|e l IH]; intros creds; simpl; [by intros ->|].
  intros (st1 & Hv & Hl). apply IH in Hl. unfold visit_credential in Hv.
  destruct e as [| | |s| |]; simpl in Hv; try done. destruct (StrContains s ":"); [set_solver|].
  destruct (decodeWithoutPadding s); simpl in Hv; [|done]. case_decide; set_solver.
Qed.

Lemma visits_credential_in elems creds creds' s :
  visits visit_credential elems creds creds' -> JString s ∈ elems -> StrContains s ":" = true ->
  encode s true ∈ creds'.
Proof.
  intros Hv Hin Hs. apply list_elem_of_split in Hin as (l1 & l2 & ->).
  apply visits_app in Hv as (st1 & _ & st2 & Hc & Hl2). apply visits_credential_mono in Hl2.
  unfold visit_credential in Hc. simpl in Hc. rewrite Hs in Hc. set_solver.
Qed.
(** *** A rule with an empty path *)

Lemma visit_methods_strings methods acc :
  iterate visit_method (JString <$> methods) acc = Some (true, acc ++ methods).
Proof.
  revert acc. induction methods as [|m ms IH]; intros acc; [by rewrite app_nil_r|].
  cbn. rewrite IH. by rewrite <- app_assoc.
Qed.

Lemma visit_credentials_pairs creds acc :
  Forall (fun c => StrContains c ":" = true) creds ->
  exists creds', iterate visit_credential (JString <$> creds) acc = Some (true, creds') /\
    acc ⊆ creds' /\ (creds <> [] -> creds' <> ∅).
Proof.
  intros Hc. revert acc. induction Hc as [|c cs Hc _ IH]; intros acc; [by exists acc|].
  destruct (IH ({[encode c true]} ∪ acc)) as (creds' & Hi & Hs & _). exists creds'.
  split; [cbn; unfold visit_credential at 1; cbn; by rewrite Hc|]. set_solver.
Qed.

Lemma push_rules_same rule methods m :
  m ∈ methods -> exists n, foldl (push_rule rule) ∅ methods !! m = Some (replicate (S n) rule).
Proof.
  intros Hm. assert (forall l (store : rule_map) k, store !! m = Some (replicate (S k) rule) ->
    exists n, foldl (push_rule rule) store l !! m = Some (replicate (S n) rule)) as Hkeep.
  { induction l as [|x l IH]; intros store k Hk; [by exists k|]. cbn [foldl].
    destruct (decide (x = m)) as [->|Hne].
    - apply (IH _ (S k)). unfold push_rule. rewrite lookup_insert_eq, Hk. cbn [default from_option].
      f_equal. symmetry. apply (replicate_S_end (S k)).
    - apply (IH _ k). unfold push_rule. by rewrite lookup_insert_ne. }
  apply list_elem_of_split_l in Hm as (l1 & l2 & -> & Hn). rewrite foldl_app. cbn [foldl].
  apply (Hkeep _ _ 0%nat). unfold push_rule at 1. rewrite lookup_insert_eq.
  assert (foldl (push_rule rule) ∅ l1 !! m = None) as ->; [|done].
  induction l1 as [|x l1 IH] using rev_ind; [apply lookup_empty|].
  rewrite foldl_app. cbn [foldl]. unfold push_rule at 1. rewrite lookup_insert_ne by set_solver. apply IH. set_solver.
Qed.

(** The rule is accepted, and its pattern is not assigned. *)
Lemma empty_path_accepted field methods creds :
  field ∈ ["prefix"; "exact"; "suffix"] -> methods <> [] ->
  creds <> [] -> Forall (fun c => StrContains c ":" = true) creds ->
  exists creds', extractBasicAuthRule (JObject [(field, JString "");
      ("request_methods", JArray (JString <$> methods)); ("credentials", JArray (JString <$> creds))]) ∅ =
    Some (true, foldl (push_rule {| request_path := ""; path_pattern := None; hosts := [];
                                    encoded_credentials := creds' |}) ∅ methods).
Proof.
  intros Hf Hm Hn Hc. destruct (visit_credentials_pairs creds ∅ Hc) as (creds' & Hi & _ & Hne). exists creds'.
  specialize (Hne Hn). set (c := JObject _).
  assert (exists n1 n2, path_field c "prefix" 0 = Some (n1, "") /\ path_field c "exact" n1 = Some (n2, "") /\
    path_field c "suffix" n2 = Some (1, "") /\ find c "hosts" = None /\
    find c "request_methods" = Some (JArray (JString <$> methods)) /\
    find c "credentials" = Some (JArray (JString <$> creds))) as (n1 & n2 & Hp & He & Hs & Hh & Hr & Hcr).
  { assert (field = "prefix" \/ field = "exact" \/ field = "suffix") as [->|[->| ->]] by set_solver;
      by do 2 eexists; repeat split. }
  unfold extractBasicAuthRule, JsonArrayIterate. rewrite Hp, He, Hs, Hh, Hr, Hcr.
  cbn -[iterate push_rule encode decide]. rewrite visit_methods_strings.
  cbn -[iterate push_rule encode decide]. rewrite decide_False by lia.
  rewrite decide_False by (destruct methods; simpl; [done|lia]). rewrite Hi. change (path_of "" "" "") with (EmptyString, @None MATCH_TYPE).
  cbn -[push_rule encode decide]. destruct (decide (size creds' <= 0)%nat) as [Hz|]; [|done].
  destruct Hne. apply leibniz_equiv, size_empty_iff. lia.
Qed.

Lemma configure_one_rule c rules :
  extractBasicAuthRule c ∅ = Some (true, rules) ->
  configure_json (JObject [("basic_auth_rules", JArray [c])]) initial_context =
    Some (true, {| basic_auth_configuration_ := rules; realm_ := "istio" |}).
Proof.
  intros He. unfold configure_json.
  assert (JsonArrayIterate (JObject [("basic_auth_rules", JArray [c])]) "basic_auth_rules" extractBasicAuthRule
    (basic_auth_configuration_ initial_context) = Some (true, rules)) as ->; [|done].
  change (iterate extractBasicAuthRule [c] ∅ = Some (true, rules)).
  cbn [iterate mbind option_bind]. by rewrite He.
Qed.
End basic_auth_facts.

(** ** Theorems *)

Section basic_auth_theorems.
Context `{J : NlohmannJson} `{A : AbslStrings}.

(** C2: the decision of [onRequestHeaders], for every rule store and every request
    whose headers the host answers with.  The rules for its method count up to the
    first one that matches the host and has no path pattern.  If one of them matches
    host and path and does not list the credential, the request stops, with one
    401 whose body and [WWW-Authenticate] say why.  Otherwise no response is sent,
    and the request continues when there is no rule without a pattern, while the check of
    that rule is undefined behaviour when there is. *)
Theorem check_decision {S} (h : handler HostCall S) headers ctx s :
  HeaderHost h headers ->
  let rules := rules_for ctx (headers ":method") in
  let host := headers ":authority" in
  let r := run h (onRequestHeaders ctx) s in
  result r = verdict rules host (headers ":path") (headers "authorization") /\
  local_responses (trace r) =
    if denied (reached host rules) host (headers ":path") (headers "authorization")
    then [denial ctx (headers "authorization")] else [].
Proof. intros Hh. by apply run_check. Qed.

(** Whatever the host answers, configuring keeps the store well formed, also
    when the configuration is rejected half way: no method has an empty rule
    list, and each rule lists a credential and has an initialised pattern
    exactly when its path is not empty. *)
Theorem configure_wf size ctx tr ok ctx' :
  store_wf (basic_auth_configuration_ ctx) ->
  traces (onConfigure size ctx) tr (Done (ok, ctx')) ->
  store_wf (basic_auth_configuration_ ctx').
Proof.
  intros Hw. unfold onConfigure. case_decide; [|by intros [_ [= -> ->]]].
  intros [([ok1 ctx1] & t1 & t2 & _ & Hc & [_ [= -> ->]])|[(w & _ & ?)|[_ ?]]]%traces_bind;
    [|done..].
  unfold configure in Hc. simpl in Hc. destruct Hc as ([view|] & tr' & _ & Hc); [|naive_solver].
  simpl in Hc. destruct (JsonParse view) as [j|]; [|naive_solver].
  destruct (configure_json j ctx) as [[b c]|] eqn:E; [|naive_solver].
  destruct Hc as [_ [= -> ->]]. by eapply configure_json_wf.
Qed.


(** C37: a credential configured as [user:password] is accepted.  After a rule
    that lists it is extracted, the last rule of each of its methods authorizes
    the header that carries its Base64 form. *)
Theorem configured_credential_accepted `{!AbslLaws A} c rules rules' methods creds cred method :
  extractBasicAuthRule c rules = Some (true, rules') ->
  find c "request_methods" = Some (JArray methods) -> JString method ∈ methods ->
  find c "credentials" = Some (JArray creds) -> JString cred ∈ creds ->
  StrContains cred ":" = true ->
  exists before rule, rules' !! method = Some (before ++ [rule]) /\
    authorizes ("Basic " +:+ encode cred true) rule = true.
Proof.
  intros He Hm Hmin Hc Hcin Hcolon.
  apply extract_inv in He
    as (p & e & s & n1 & n2 & hosts & ms & cs & _ & _ & _ & _ & Hms & _ & Hcs & _ & ->).
  apply array_iterate_true in Hms as (ml & [[Hn _]|Hf] & Hv); [congruence|].
  apply array_iterate_true in Hcs as (cl & [[Hn _]|Hg] & Hw); [congruence|].
  rewrite Hm in Hf. rewrite Hc in Hg. injection Hf as <-. injection Hg as <-.
  apply visits_methods in Hv as ->.
  eapply visits_credential_in in Hw; [|done..].
  destruct (push_rules_lookup {|
      request_path := fst (path_of p e s); path_pattern := snd (path_of p e s);
      hosts := hosts; encoded_credentials := cs |} rules
      (omap (fun j => fst (JsonValueAs_string j)) methods) method) as [before Hb].
  { apply list_elem_of_omap. exists (JString method). done. }
  eexists before, _. split; [exact Hb|]. unfold authorizes. simpl encoded_credentials.
  rewrite strip_prefix_eq. rewrite (bool_decide_eq_true_2 (_ ∈ _)) by done.
  by rewrite (proj2 (starts_with_iff _ "Basic ")) by eauto.
Qed.

(** The port is dropped from the request host, and only a port: what follows
    the last colon, unless that colon is inside the brackets of an IPv6
    address. *)
Theorem strip_port_spec (name port address : string) :
  (has_char ":" port = false -> has_char "]" port = false ->
   strip_port (name +:+ String ":" port) = name) /\
  (has_char ":" name = false -> strip_port name = name) /\
  (has_char "]" port = false -> has_char ":" port = false ->
   strip_port (address +:+ String "]" port) = address +:+ String "]" port).
Proof.
  split; [|split].
  - intros Hc Hb. unfold strip_port. rewrite rfind_last by done.
    rewrite (rfind_app "]") by (simpl; done).
    rewrite decide_True by (rewrite app_length_s; simpl; lia). rewrite substr_take_app.
    destruct (rfind "]" name) as [i|] eqn:E; [|done].
    by rewrite bool_decide_eq_true_2 by (by eapply rfind_lt).
  - intros Hn. unfold strip_port. apply rfind_None in Hn. by rewrite Hn.
  - intros Hb Hc. unfold strip_port. rewrite (rfind_app ":") by (simpl; done).
    destruct (rfind ":" address) as [i|] eqn:E; [|done]. apply rfind_lt in E.
    rewrite rfind_last by done. rewrite bool_decide_eq_false_2 by lia. done.
Qed.

(** Wildcard hosts.  A configured [*x] matches the hosts that end in [x], [x*]
    those that start with [x], and a host without a star only itself. *)
Theorem host_pattern_matches `{!AbslLaws A} (x name : string) :
  (host_matches name (host_pattern ("*" +:+ x)) = true <-> exists t, name = t +:+ x) /\
  (StartsWith (x +:+ "*") "*" = false ->
   host_matches name (host_pattern (x +:+ "*")) = true <-> exists t, name = x +:+ t) /\
  (StartsWith x "*" = false -> EndsWith x "*" = false ->
   host_matches name (host_pattern x) = true <-> name = x).
Proof.
  unfold host_pattern. split; [|split].
  - rewrite (proj2 (starts_with_iff ("*" +:+ x) "*")) by eauto. simpl. apply ends_with_iff.
  - intros ->. rewrite (proj2 (ends_with_iff (x +:+ "*") "*")) by eauto.
    replace (String.length (x +:+ "*") - 1)%nat with (String.length x)
      by (rewrite app_length_s; simpl; lia).
    rewrite substr_take_app. apply starts_with_iff.
  - intros -> ->. unfold host_matches. simpl. apply bool_decide_eq_true.
Qed.

(** C38: a rule with an empty path is accepted, but its pattern is never assigned.
    From a configuration whose one rule has the empty string as its prefix, exact
    or suffix path, names no hosts, and lists at least one user and password,
    configuring succeeds; and every request with one of its methods makes the check
    read the indeterminate field, from whatever state of the host. *)
Theorem empty_path_undefined {S} (h : handler HostCall S) headers s s' size text field methods creds :
  HeaderHost h headers ->
  field ∈ ["prefix"; "exact"; "suffix"] -> headers ":method" ∈ methods ->
  creds <> [] -> Forall (fun c => StrContains c ":" = true) creds ->
  0 < size -> h _ (GetBuffer PluginConfiguration 0 size) s = (Some text, s') ->
  JsonParse text = Some (JObject [("basic_auth_rules", JArray [
    JObject [(field, JString ""); ("request_methods", JArray (JString <$> methods));
             ("credentials", JArray (JString <$> creds))]])]) ->
  exists ctx, result (run h (onConfigure size initial_context) s) = Done (true, ctx) /\
    forall s1, result (run h (onRequestHeaders ctx) s1) =
      Undefined "read of an indeterminate path_pattern".
Proof.
  intros Hh Hf Hm Hn Hc Hs Hb Hp. assert (methods <> []) as Hms by (intros ->; by apply elem_of_nil in Hm).
  destruct (empty_path_accepted field methods creds Hf Hms Hn Hc) as (creds' & He).
  set (rule := {| request_path := "" |}) in He. eexists. split.
  - unfold onConfigure. rewrite decide_True by done. unfold configure. cbn -[configure_json].
    rewrite Hb. cbn -[configure_json]. rewrite Hp. by rewrite (configure_one_rule _ _ He).
  - intros s1. destruct (run_check h headers {| basic_auth_configuration_ := foldl (push_rule rule) ∅ methods;
      realm_ := "istio" |} s1 Hh) as [Hr _]. etrans; [exact Hr|]. unfold rules_for. cbn [basic_auth_configuration_].
    destruct (push_rules_same rule methods _ Hm) as [n ->]. by unfold verdict.
Qed.
End basic_auth_theorems.

(** ** Witnesses *)

Section basic_auth_witnesses.
Definition example_headers (authorization key : string) : string :=
  if decide (key = ":path") then "/api/reviews"
  else if decide (key = ":method") then "GET"
  else if decide (key = ":authority") then "foo.com:8080"
  else if decide (key = "authorization") then authorization else "".

Definition example_rule_json : json :=
  JObject [("prefix", JString "/api"); ("hosts", JArray [JString "*.com"]);
           ("request_methods", JArray [JString "GET"; JString "POST"]);
           ("credentials", JArray [JString "ok:test"; JString "YWRtaW46YWRtaW4="])].

Definition example_rule : BasicAuthConfigRule :=
  {| request_path := "/api"; path_pattern := Some Prefix; hosts := [(Suffix, ".com")];
     encoded_credentials := {["YWRtaW46YWRtaW4="; "b2s6dGVzdA=="]} |}.

Definition example_store : rule_map := {["GET" := [example_rule]; "POST" := [example_rule]]}.

Definition example_text : string := "{basic_auth_rules:[{...}],realm:test}..................................".

Definition example_document : json := JObject [("basic_auth_rules", JArray [example_rule_json])].

#[local] Instance example_json : NlohmannJson := one_document example_text example_document.
#[local] Instance example_absl : AbslStrings := absl_reference.

Lemma example_laws : NlohmannLaws example_json.
Proof. apply one_document_laws. unfold short_strings. repeat constructor. Qed.

Lemma example_extract : extractBasicAuthRule example_rule_json ∅ = Some (true, example_store).
Proof. vm_compute. reflexivity. Qed.

Definition example_context : PluginRootContext :=
  {| basic_auth_configuration_ := example_store; realm_ := "test" |}.

(** A rule without a pattern, after one that denies others. *)
Definition broken_context : PluginRootContext :=
  {| basic_auth_configuration_ := {["GET" := [example_rule;
       {| request_path := ""; path_pattern := None; hosts := []; encoded_credentials := {["YTpi"]} |}]]};
     realm_ := "test" |}.

Lemma check_decision_witness :
  let decision ctx auth := result (run (static_host (example_headers auth) "") (onRequestHeaders ctx) tt) in
  decision example_context "Basic b2s6dGVzdA==" = Done Continue /\
  decision example_context "Basic xxx" = Done StopIteration /\
  decision broken_context "Basic b2s6dGVzdA==" = Undefined "read of an indeterminate path_pattern" /\
  decision broken_context "Basic xxx" = Done StopIteration.
Proof.
  assert (forall ctx auth, result (run (static_host (example_headers auth) "") (onRequestHeaders ctx) tt) =
    verdict (rules_for ctx "GET") "foo.com:8080" "/api/reviews" auth) as Hd.
  { intros ctx auth. exact (proj1 (check_decision (static_host (example_headers auth) "")
      (example_headers auth) ctx tt _)). }
  split; [|split; [|split] ]; (etrans; [apply Hd|vm_compute; reflexivity]).
Defined.

Definition example_run : exec HostCall unit (bool * PluginRootContext) :=
  run (static_host (example_headers "") example_text) (onConfigure 70 initial_context) tt.

Definition example_configured : PluginRootContext :=
  {| basic_auth_configuration_ := example_store; realm_ := "istio" |}.

Lemma example_run_result : result example_run = Done (true, example_configured).
Proof. vm_compute. reflexivity. Qed.

Lemma configure_wf_witness : store_wf (basic_auth_configuration_ example_configured).
Proof.
  apply (configure_wf 70 initial_context (trace example_run) true example_configured).
  - intros method rules Hl. simpl in Hl. by apply lookup_empty_Some in Hl.
  - rewrite <- example_run_result. apply run_traces.
Defined.


Lemma configured_credential_accepted_witness :
  exists before rule, example_store !! "POST" = Some (before ++ [rule]) /\
    authorizes ("Basic " +:+ encode "ok:test" true) rule = true.
Proof.
  eapply (configured_credential_accepted example_rule_json ∅ example_store).
  - exact example_extract.
  - reflexivity.
  - by right; left.
  - reflexivity.
  - by left.
  - reflexivity.
Defined.

Lemma strip_port_spec_witness : strip_port ("foo.com" +:+ String ":" "8080") = "foo.com".
Proof. apply (strip_port_spec "foo.com" "8080" ""); reflexivity. Defined.

Lemma host_pattern_matches_witness :
  host_matches "a.foo.com" (host_pattern ("*" +:+ ".foo.com")) = true.
Proof. apply (host_pattern_matches ".foo.com" "a.foo.com"). exists "a". reflexivity. Defined.
End basic_auth_witnesses.

(** A configuration with an empty prefix. *)
Section empty_path_witness.
#[local] Instance empty_path_json : NlohmannJson := one_document example_text
  (JObject [("basic_auth_rules", JArray [
     JObject [("prefix", JString ""); ("request_methods", JArray [JString "POST"; JString "GET"]);
              ("credentials", JArray [JString "ok:test"])]])]).
#[local] Instance empty_path_absl : AbslStrings := absl_reference.

Definition empty_path_host : handler HostCall unit := static_host (example_headers "Basic b2s6dGVzdA==") example_text.

Lemma empty_path_undefined_witness :
  exists ctx, result (run empty_path_host (onConfigure 70 initial_context) tt) = Done (true, ctx) /\
    result (run empty_path_host (onRequestHeaders ctx) tt) = Undefined "read of an indeterminate path_pattern".
Proof.
  destruct (empty_path_undefined empty_path_host (example_headers "Basic b2s6dGVzdA==") tt tt 70 example_text
    "prefix" ["POST"; "GET"] ["ok:test"]) as (ctx & Hc & Hr).
  - apply _.
  - by left.
  - right. by left.
  - discriminate.
  - by repeat constructor.
  - lia.
  - reflexivity.
  - vm_compute. reflexivity.
  - exists ctx. split; [exact Hc|exact (Hr tt)].
Defined.
End empty_path_witness.

