(* ===== verification/SharedData.v ===== *)
(** * The shared-data interface

    The rate limiter keeps its bucket in the host's shared data: a map from
    keys to values, each with a version that a compare-and-swap names.
    [SharedStore] states the documented behaviour of the two calls, and that the
    host's clock does not go back, as the laws of a class over any host; the
    rate limiter's theorems are proved against it.  [store_host] is one host
    that obeys the laws. *)

From stdpp Require Import base tactics numbers list strings gmap.
From Stdlib Require Import ZArith Lia.
From S2P Require Import Prelude HostApi.
Local Open Scope Z_scope.

(** [SetSharedData], the only call that writes. *)
Definition is_set {X} (e : HostCall X) : Prop :=
  match e with SetSharedData _ _ _ => True | _ => False end.

#[export] Instance is_set_dec {X} (e : HostCall X) : Decision (is_set e).
Proof. destruct e; simpl; apply _. Defined.

Class SharedStore {S : Type} (h : handler HostCall S) := {
  (** The value of a key and its version. *)
  view : S -> string -> option (string * Z);
  (** The versions that a key has or had. *)
  issued : S -> string -> Z -> Prop;
  clock : S -> Z;

  view_issued s k v c : view s k = Some (v, c) -> issued s k c /\ c <> 0;

  get_some s k v c : view s k = Some (v, c) -> h _ (GetSharedData k) s = ((Ok, (v, c)), s);
  get_none s k : view s k = None ->
    exists r v c, h _ (GetSharedData k) s = ((r, (v, c)), s) /\ r <> Ok;

  (** A write with version 0, with the current version or to a new key succeeds
      and gives the key a version it never had. *)
  set_ok s k v c :
    c = 0 \/ view s k = None \/ (exists w, view s k = Some (w, c)) ->
    exists s' c', h _ (SetSharedData k v c) s = (Ok, s') /\
      view s' k = Some (v, c') /\ ~ issued s k c';
  (** With any other version it does nothing. *)
  set_mismatch s k v c w c0 :
    view s k = Some (w, c0) -> c <> 0 -> c <> c0 ->
    h _ (SetSharedData k v c) s = (CasMismatch, s);
  set_other s k v c k' : k <> k' -> view (snd (h _ (SetSharedData k v c) s)) k' = view s k';

  issued_mono X (e : HostCall X) s k c : issued s k c -> issued (snd (h _ e s)) k c;
  frame X (e : HostCall X) s k : ~ is_set e -> view (snd (h _ e s)) k = view s k;

  now_clock s : exists s', h _ GetCurrentTimeNanoseconds s = (clock s', s');
  clock_bound s : 0 <= clock s < 2 ^ 64;
  clock_mono X (e : HostCall X) s : clock s <= clock (snd (h _ e s))
}.

(** ** A host with a store *)

Record store := {
  data : gmap string (string * positive);
  next_version : positive;
  time : N
}.

(** Versions are positive, so that 0 can stand for "no version". *)
Definition store_set (k v : string) (c : Z) (s : store) : WasmResult * store :=
  let write c' :=
    (Ok, {| data := <[k := (v, c')]> (data s); next_version := (c' + 1)%positive; time := time s |}) in
  match data s !! k with
  | Some (_, c0) =>
      if (negb (c =? 0) && negb (c =? Zpos c0))%bool then (CasMismatch, s)
      else write (Pos.max (next_version s) (c0 + 1))
  | None => write (next_version s)
  end.

Definition store_get (k : string) (s : store) : WasmResult * (string * Z) :=
  match data s !! k with
  | Some (v, c) => (Ok, (v, Zpos c))
  | None => (OtherResult 1, ("", 0))
  end.

Definition store_clock (s : store) : Z := Z.min (2 ^ 64 - 1) (Z.of_N (time s)).

Definition store_now (tick : N) (s : store) : Z * store :=
  let s' := {| data := data s; next_version := next_version s; time := (time s + tick)%N |} in
  (store_clock s', s').

(** The plugin configuration does not change.  Time passes by [tick] at each reading of the clock, and stops at the largest
    [uint64_t]. *)
Definition store_host (configuration : string) (tick : N) : handler HostCall store :=
  fun X e s =>
    match e in HostCall X return X * store with
    | GetSharedData k => (store_get k s, s)
    | SetSharedData k v c => store_set k v c s
    | GetCurrentTimeNanoseconds => store_now tick s
    | GetBuffer PluginConfiguration _ _ => (Some configuration, s)
    | e => (quiet_answer e, s)
    end.

Definition store_view (s : store) (k : string) : option (string * Z) :=
  match data s !! k with Some (v, c) => Some (v, Zpos c) | None => None end.

(** The calls that the host tells apart. *)
Ltac destruct_call e :=
  destruct e; try match goal with t : BufferType |- _ => destruct t end.

#[export] Instance store_host_laws configuration tick : SharedStore (store_host configuration tick).
Proof.
  refine {| view := store_view;
            issued s k c := 0 < c /\ (c < Zpos (next_version s) \/ exists v, store_view s k = Some (v, c));
            clock := store_clock |}.
  - intros s k v c H. split; [|unfold store_view in H; repeat case_match; by simplify_eq].
    split; [unfold store_view in H; repeat case_match; by simplify_eq|]. right. eauto.
  - intros s k v c. unfold store_view. simpl. unfold store_get.
    destruct (data s !! k) as [[w d]|]; naive_solver.
  - intros s k. unfold store_view. simpl. unfold store_get.
    destruct (data s !! k) as [[w d]|]; [done|]. intros _. by eexists _, _, _.
  - intros s k v c H. unfold store_view in *. simpl. unfold store_set.
    destruct (data s !! k) as [[w d]|] eqn:E; simpl in *.
    + assert ((negb (c =? 0) && negb (c =? Zpos d))%bool = false) as ->.
      { destruct H as [->|[?|[? ?]]]; simplify_eq; [done|]. rewrite Z.eqb_refl. by destruct (_ =? _). }
      eexists _, _. split; [done|]. simpl. rewrite lookup_insert_eq. split; [done|].
      intros [_ [?|[? ?]]]; simplify_eq; lia.
    + eexists _, _. split; [done|]. simpl. rewrite lookup_insert_eq. split; [done|].
      intros [_ [?|[? ?]]]; simplify_eq; lia.
  - intros s k v c w c0. unfold store_view. simpl. unfold store_set.
    destruct (data s !! k) as [[w' d]|]; simpl; [|done].
    intros [= -> <-] H1 H2. by rewrite (proj2 (Z.eqb_neq _ _) H1), (proj2 (Z.eqb_neq _ _) H2).
  - intros s k v c k' Hk. unfold store_view. simpl. unfold store_set.
    repeat case_match; simpl in *; simplify_eq; by simplify_map_eq.
  - intros X e s k c Hi. destruct_call e; simpl; try done.
    unfold store_set, store_view in *. repeat case_match; simpl in *; try done;
      destruct (decide (key = k)) as [->|]; simplify_map_eq;
      destruct Hi as [? [?|[? ?]]]; simplify_eq; split; try lia; eauto; left; lia.
  - intros X e s k He. by destruct_call e.
  - intros s. eexists. done.
  - intros s. unfold store_clock. lia.
  - intros X e s. unfold store_clock.
    destruct_call e; simpl; unfold store_clock; simpl; try lia.
    unfold store_set; repeat case_match; simpl; lia.
Defined.
