(* ===== verification/Bucket.v ===== *)
(** * The local rate limiter ([extensions/local_rate_limit])

    The token bucket of [bucket.cc], kept in the host's shared data, and the
    plugin of [plugin.{h,cc}] around it, each handler as a program.  The theorems
    of this file are about one handler at a time, against the interface of
    [SharedData]; [RateLimit] interleaves them. *)

From stdpp Require Import base tactics numbers list strings gmap.
From Stdlib Require Import ZArith Lia.
From S2P Require Import Prelude HostApi Absl Json Bytes SharedData.
Local Open Scope Z_scope.
Local Open Scope wasm_scope.

(** ** [bucket.cc] *)

Definition maxGetTokenRetry : nat := 20.
Definition localRateLimitTokenBucket : string := "wasm_local_rate_limit.token_bucket".
Definition localRateLimitLastRefilled : string := "wasm_local_rate_limit.last_refilled".

(** [*reinterpret_cast<const uint64_t *>(data)] *)
Definition read_u64 (data : string) : host_prog Z :=
  match le64_decode data with
  | Some v => mret v
  | None => UB "read past the end of shared data"
  end.

(** The iterations of [getToken] that are left. *)
Fixpoint getToken_loop (retries : nat) : host_prog bool :=
  match retries with
  | O => mret true
  | S retries =>
      '(r, (token_bucket_data, cas)) ← trigger (GetSharedData localRateLimitTokenBucket);
      if decide (r <> Ok) then mret false else
      token_left ← read_u64 token_bucket_data;
      if decide (token_left = 0) then mret false else
      let token_left := token_left -64 1 in
      res ← trigger (SetSharedData localRateLimitTokenBucket (le64_encode token_left) cas);
      if decide (res = Ok) then mret true
      else if decide (res = CasMismatch) then getToken_loop retries
      else mret false
  end.

Definition getToken : host_prog bool := getToken_loop maxGetTokenRetry.

(** The [while (true)] of [refillToken]. *)
Fixpoint refill_loop (fuel : nat) (tokens_per_refill max_tokens : Z) : host_prog unit :=
  match fuel with
  | O => OutOfFuel
  | S fuel =>
      '(r, (token_bucket_data, cas)) ← trigger (GetSharedData localRateLimitTokenBucket);
      if decide (r <> Ok) then mret tt else
      token_left ← read_u64 token_bucket_data;
      let token_left := token_left +64 tokens_per_refill in
      let token_left := if decide (max_tokens < token_left) then max_tokens else token_left in
      res ← trigger (SetSharedData localRateLimitTokenBucket (le64_encode token_left) cas);
      if decide (res = CasMismatch) then refill_loop fuel tokens_per_refill max_tokens
      else mret tt
  end.

Definition refillToken (fuel : nat) (tokens_per_refill refill_interval_nanosec max_tokens : Z) :
    host_prog unit :=
  '(result, (last_update_data, last_update_cas)) ← trigger (GetSharedData localRateLimitLastRefilled);
  if decide (result <> Ok) then mret tt else
  last_update ← read_u64 last_update_data;
  now ← trigger GetCurrentTimeNanoseconds;
  if decide (now -64 last_update < refill_interval_nanosec) then mret tt else
  res ← trigger (SetSharedData localRateLimitLastRefilled (le64_encode now) last_update_cas);
  if decide (res = CasMismatch) then mret tt
  else if decide (res <> Ok) then mret tt
  else refill_loop fuel tokens_per_refill max_tokens.

(** The two [setSharedData] calls leave the version at its default, 0. *)
Definition initializeTokenBucket (initial_tokens : Z) : host_prog bool :=
  '(r, _) ← trigger (GetSharedData localRateLimitLastRefilled);
  if decide (r = Ok) then mret true else
  res ← trigger (SetSharedData localRateLimitLastRefilled (le64_encode 0) 0);
  if decide (res = CasMismatch) then mret true
  else if decide (res <> Ok) then mret false else
  res ← trigger (SetSharedData localRateLimitTokenBucket (le64_encode initial_tokens) 0);
  if decide (res <> Ok) then mret false else mret true.

(** ** [plugin.{h,cc}] *)

(** The members have no initialiser: [None] is an indeterminate value. *)
Record PluginRootContext := {
  max_tokens_ : option Z;
  tokens_per_refill_ : option Z;
  refill_interval_nanosec_ : option Z
}.

Definition initial_context : PluginRootContext :=
  {| max_tokens_ := None; tokens_per_refill_ := None; refill_interval_nanosec_ := None |}.

Definition configured (max_tokens tokens_per_refill refill_interval_nanosec : Z) : PluginRootContext :=
  {| max_tokens_ := Some max_tokens; tokens_per_refill_ := Some tokens_per_refill;
     refill_interval_nanosec_ := Some refill_interval_nanosec |}.

Definition member (m : option Z) : host_prog Z :=
  match m with
  | Some v => mret v
  | None => UB "read of an indeterminate member"
  end.

Definition tooManyRequest : host_prog unit :=
  trigger (SendLocalResponse 429 "Too many requests" "rate_limited" []).

Definition shouldRateLimit : bool := true.

Section local_rate_limit.
Context `{J : NlohmannJson} `{A : AbslStrings}.

(** One member: the detail of a field that must be there. *)
Definition uint64_field (j : json) (name : string) : option Z :=
  match find j name with
  | None => None
  | Some v =>
      match JsonValueAs_uint64 v with
      | (v, OK) => v
      | _ => None
      end
  end.

(** A failure keeps the members assigned before it. *)
Definition parse_json (j : json) (ctx : PluginRootContext) : bool * PluginRootContext :=
  match uint64_field j "max_tokens" with
  | None => (false, ctx)
  | Some max_tokens =>
  let ctx := {| max_tokens_ := Some max_tokens; tokens_per_refill_ := tokens_per_refill_ ctx;
                refill_interval_nanosec_ := refill_interval_nanosec_ ctx |} in
  match uint64_field j "tokens_per_refill" with
  | None => (false, ctx)
  | Some tokens_per_refill =>
  let ctx := {| max_tokens_ := Some max_tokens; tokens_per_refill_ := Some tokens_per_refill;
                refill_interval_nanosec_ := refill_interval_nanosec_ ctx |} in
  match uint64_field j "refill_interval_sec" with
  | None => (false, ctx)
  | Some refill_interval_sec =>
      (true, configured max_tokens tokens_per_refill (refill_interval_sec *64 1000000000))
  end end end.

Definition parseConfiguration (configuration_size : Z) (ctx : PluginRootContext) :
    host_prog (bool * PluginRootContext) :=
  configuration_data ← trigger (GetBuffer PluginConfiguration 0 configuration_size);
  view ← deref configuration_data;
  match JsonParse view with
  | None => mret (false, ctx)
  | Some j => mret (parse_json j ctx)
  end.

(** [proxy_set_tick_period_milliseconds] takes a [uint32_t]. *)
Definition onConfigure (configuration_size : Z) (ctx : PluginRootContext) :
    host_prog (bool * PluginRootContext) :=
  '(ok, ctx) ← parseConfiguration configuration_size ctx;
  if negb ok then mret (false, ctx) else
  tokens_per_refill ← member (tokens_per_refill_ ctx);
  initialized ← initializeTokenBucket tokens_per_refill;
  if negb initialized then mret (false, ctx) else
  refill_interval_nanosec ← member (refill_interval_nanosec_ ctx);
  _ ← trigger (SetTickPeriodMilliseconds (u32 (refill_interval_nanosec / 1000000)));
  mret (true, ctx).
End local_rate_limit.

Definition onTick (fuel : nat) (ctx : PluginRootContext) : host_prog unit :=
  tokens_per_refill ← member (tokens_per_refill_ ctx);
  refill_interval_nanosec ← member (refill_interval_nanosec_ ctx);
  max_tokens ← member (max_tokens_ ctx);
  refillToken fuel tokens_per_refill refill_interval_nanosec max_tokens.

(** [PluginContext::onRequestHeaders] *)
Definition onRequestHeaders : host_prog FilterHeadersStatus :=
  limited ← (if shouldRateLimit then t ← getToken; mret (negb t) else mret false);
  if (limited : bool) then _ ← tooManyRequest; mret StopIteration
  else mret Continue.

(** Requests handled one after the other. *)
Fixpoint serve (requests : nat) : host_prog (list FilterHeadersStatus) :=
  match requests with
  | O => mret []
  | S n => st ← onRequestHeaders; l ← serve n; mret (st :: l)
  end.

(** ** Running the handlers against the shared store *)

Section bucket_facts.
Context {S} {h : handler HostCall S} `{!SharedStore h}.

(** A key holds a number. *)
Definition holds (s : S) (key : string) (n : Z) : Prop :=
  is_u 64 n /\ exists cas, view s key = Some (le64_encode n, cas).

Lemma keys_differ : localRateLimitTokenBucket <> localRateLimitLastRefilled.
Proof. done. Qed.

Lemma read_u64_encode n : is_u 64 n -> read_u64 (le64_encode n) = mret n.
Proof. intros Hn. unfold read_u64. by rewrite le64_decode_encode. Qed.

Lemma holds_other s k k' v c n : k <> k' -> holds s k' n -> holds (snd (h _ (SetSharedData k v c) s)) k' n.
Proof. intros Hk [Hn [c' Hv]]. split; [done|]. exists c'. by rewrite set_other. Qed.

Lemma holds_frame X (e : HostCall X) s k n : ~ is_set e -> holds s k n -> holds (snd (h _ e s)) k n.
Proof. intros He [Hn [c Hv]]. split; [done|]. exists c. by rewrite frame. Qed.

(** A write with the version just read succeeds. *)
Lemma set_current s k v w c :
  view s k = Some (w, c) ->
  exists s' c', h _ (SetSharedData k v c) s = (Ok, s') /\ view s' k = Some (v, c').
Proof. intros Hv. destruct (set_ok s k v c) as (s' & c' & H & Hv' & _); eauto. Qed.

Lemma run_getToken s n :
  holds s localRateLimitTokenBucket n ->
  let r := run h getToken s in
  result r = Done (bool_decide (n <> 0)) /\
  holds (final r) localRateLimitTokenBucket (if decide (n = 0) then 0 else n - 1) /\
  (forall k, k <> localRateLimitTokenBucket -> view (final r) k = view s k).
Proof.
  intros Hh. pose proof Hh as [Hn [c Hv]]. unfold getToken, maxGetTokenRetry.
  cbn -[read_u64 le64_encode]. rewrite (get_some _ _ _ _ Hv). cbn -[read_u64 le64_encode].
  rewrite decide_False by naive_solver. rewrite read_u64_encode by done. cbn -[le64_encode].
  destruct (decide (n = 0)) as [->|Hn0]; [done|]. cbn -[le64_encode].
  rewrite bool_decide_eq_true_2 by done.
  destruct (set_current s localRateLimitTokenBucket (le64_encode (n -64 1)) _ _ Hv)
    as (s' & c' & Hset & Hv'). pose proof (set_other s localRateLimitTokenBucket
      (le64_encode (n -64 1)) c) as Ho. rewrite Hset in *. cbn -[le64_encode] in *.
  unfold is_u in Hn. rewrite u64_id in Hv' by lia.
  split; [done|]. split; [|auto]. split; [unfold is_u; lia|eauto].
Qed.

Lemma getToken_quiet retries tr o :
  traces (getToken_loop retries) tr o -> local_responses tr = [].
Proof.
  revert tr. induction retries as [|n IH]; intros tr; cbn -[read_u64 le64_encode].
  - by intros [-> _].
  - intros ([r [d c]] & tr1 & -> & H). cbn -[read_u64 le64_encode] in *.
    case_decide; [by destruct H as [-> _]|].
    unfold read_u64 in H. destruct (le64_decode d); cbn -[le64_encode] in H; [|by destruct H as [-> _]].
    case_decide; [by destruct H as [-> _]|]. cbn -[le64_encode] in H.
    destruct H as (res & tr2 & -> & H). cbn -[le64_encode].
    repeat (case_decide; try by destruct H as [-> _]). auto.
Qed.

Definition limit_response : Z * string * string * header_list :=
  (429, "Too many requests", "rate_limited", []).

Lemma run_onRequestHeaders s n :
  holds s localRateLimitTokenBucket n ->
  let r := run h onRequestHeaders s in
  result r = Done (if decide (n = 0) then StopIteration else Continue) /\
  local_responses (trace r) = (if decide (n = 0) then [limit_response] else []) /\
  holds (final r) localRateLimitTokenBucket (if decide (n = 0) then 0 else n - 1) /\
  (forall k, k <> localRateLimitTokenBucket -> view (final r) k = view s k).
Proof.
  intros Hh. destruct (run_getToken s n Hh) as (Hr & Hb & Ho).
  pose proof (getToken_quiet _ _ _ (run_traces h getToken s)) as Hq.
  unfold onRequestHeaders, shouldRateLimit. rewrite run_bind, run_bind, Hr.
  destruct (decide (n = 0)) as [->|Hn].
  - rewrite bool_decide_eq_false_2 by tauto. cbn -[getToken omap].
    destruct (h _ _ _) as [x s'] eqn:E. cbn -[getToken omap].
    rewrite omap_app, app_nil_r, Hq. split; [done|]. split; [done|].
    change s' with (snd (x, s')). rewrite <- E. split; [apply holds_frame; [intros []|done]|].
    intros k Hk. rewrite frame by intros []. by apply Ho.
  - rewrite bool_decide_eq_true_2 by done. cbn -[getToken omap].
    by rewrite !app_nil_r, Hq.
Qed.

(** The clock at the reading of [refillToken]. *)
Definition refilled (n tokens_per_refill max_tokens : Z) : Z :=
  Z.min max_tokens (u64 (n + tokens_per_refill)).

Lemma refilled_eq n t m :
  (if decide (m < n +64 t) then m else n +64 t) = refilled n t m.
Proof. unfold refilled. case_decide; lia. Qed.

Lemma refilled_u64 n t m : is_u 64 m -> is_u 64 (refilled n t m).
Proof. unfold is_u, refilled. pose proof (u64_bound (n + t)). lia. Qed.

Lemma run_clock {X} (m : host_prog X) s : clock s <= clock (final (run h m s)).
Proof.
  revert s. induction m as [x|Y e k IH|why|]; intros s; simpl; try done.
  pose proof (clock_mono _ e s) as Hc. destruct (h Y e s) as [y s']. simpl in *. specialize (IH y s'). lia.
Qed.

Lemma refill_loop_timeless fuel t m : never clock_of (refill_loop fuel t m).
Proof.
  induction fuel as [|fuel IH]; [done|]. cbn -[read_u64 le64_encode]. intros [r [d c]]. split; [done|].
  case_decide; [done|]. apply never_bind; [unfold read_u64; by destruct (le64_decode d)|]. intros n.
  intros res. split; [done|]. by case_decide.
Qed.

Lemma refilled_le n t m : 0 <= n -> 0 <= t -> refilled n t m <= n + t /\ refilled n t m <= m.
Proof. unfold refilled. pose proof (u64_le (n + t)). lia. Qed.

Lemma run_refill_loop fuel s n t m :
  holds s localRateLimitTokenBucket n -> is_u 64 m ->
  let r := run h (refill_loop (Datatypes.S fuel) t m) s in
  result r = Done tt /\ holds (final r) localRateLimitTokenBucket (refilled n t m) /\
  (forall k, k <> localRateLimitTokenBucket -> view (final r) k = view s k).
Proof.
  intros [Hn [c Hv]] Hm. cbn -[read_u64 le64_encode]. rewrite (get_some _ _ _ _ Hv).
  cbn -[read_u64 le64_encode]. rewrite decide_False by naive_solver.
  rewrite read_u64_encode by done. cbn -[le64_encode]. rewrite refilled_eq.
  destruct (set_current s localRateLimitTokenBucket (le64_encode (refilled n t m)) _ _ Hv)
    as (s' & c' & Hset & Hv'). pose proof (set_other s localRateLimitTokenBucket
      (le64_encode (refilled n t m)) c) as Ho. rewrite Hset in *. cbn -[le64_encode] in *.
  split; [done|]. split; [|auto]. split; [by apply refilled_u64|eauto].
Qed.
End bucket_facts.

(** ** Theorems *)

Section bucket_theorems.
Context {S} {h : handler HostCall S} `{!SharedStore h}.

(** A bucket with [n] tokens lets the next [n] requests through and answers
    each later one with a 429, one reply per stopped request. *)
Theorem serve_burst s n requests :
  holds s localRateLimitTokenBucket (Z.of_nat n) ->
  let r := run h (serve requests) s in
  result r = Done (replicate (n `min` requests) Continue ++
                   replicate (requests - n) StopIteration) /\
  local_responses (trace r) = replicate (requests - n) limit_response /\
  holds (final r) localRateLimitTokenBucket (Z.of_nat (n - requests)).
Proof.
  revert s n. induction requests as [|k IH]; intros s n Hh.
  { rewrite Nat.min_0_r, Nat.sub_0_r. done. }
  cbn [serve]. rewrite run_bind. destruct (run_onRequestHeaders s _ Hh) as (Hr & Hl & Hb & _).
  rewrite Hr. destruct (decide (Z.of_nat n = 0)) as [Hn|Hn].
  - assert (n = 0%nat) as -> by lia. destruct (IH _ 0%nat Hb) as (Hr' & Hl' & Hb').
    rewrite run_bind, Hr'. cbn [result trace final run mret prog_mret].
    rewrite app_nil_r, omap_app, Hl, Hl', !Nat.sub_0_r. done.
  - assert (Z.of_nat n - 1 = Z.of_nat (n - 1)) as E by lia. rewrite E in Hb.
    destruct (IH _ (n - 1)%nat Hb) as (Hr' & Hl' & Hb').
    rewrite run_bind, Hr'. cbn [result trace final run mret prog_mret].
    rewrite app_nil_r, omap_app, Hl, Hl'. destruct n as [|n]; [lia|].
    replace (Datatypes.S n - 1)%nat with n in * by lia. done.
Qed.

(** A refill without interference.  It returns with any positive fuel; when
    less than the interval has passed it changes nothing, and otherwise it dates
    the bucket to the present and adds the tokens, modulo [2 ^ 64], up to the
    maximum. *)
Theorem refillToken_spec fuel s l n t i m :
  holds s localRateLimitLastRefilled l -> holds s localRateLimitTokenBucket n -> is_u 64 m ->
  (0 < fuel)%nat ->
  let r := run h (refillToken fuel t i m) s in
  exists now, clock s <= now <= clock (final r) /\ is_u 64 now /\ result r = Done tt /\
    observe clock_of (trace r) = [now] /\
    let due := bool_decide (i <= u64 (now - l)) in
    holds (final r) localRateLimitLastRefilled (if due then now else l) /\
    holds (final r) localRateLimitTokenBucket (if due then refilled n t m else n).
Proof.
  intros Hlast Hb Hm Hf. destruct fuel as [|fuel]; [lia|]. clear Hf.
  unfold refillToken. pose proof Hlast as [Hl [cl Hvl]].
  cbn -[read_u64 le64_encode refill_loop]. rewrite (get_some _ _ _ _ Hvl).
  cbn -[read_u64 le64_encode refill_loop]. rewrite decide_False by naive_solver.
  rewrite read_u64_encode by done. cbn -[le64_encode refill_loop].
  pose proof (clock_mono _ GetCurrentTimeNanoseconds s) as Hc.
  pose proof (holds_frame _ GetCurrentTimeNanoseconds s) as Hfr.
  pose proof (frame _ GetCurrentTimeNanoseconds s) as Hfv.
  destruct (now_clock s) as [s1 Hnow]. rewrite Hnow in *. cbn -[le64_encode refill_loop omap] in *.
  pose proof (clock_bound s1) as Hs1. exists (clock s1).
  case_decide as Hd; cbn -[le64_encode refill_loop omap].
  { rewrite bool_decide_eq_false_2 by lia. do 4 (split; [done|]).
    split; apply Hfr; [by intros []|done|by intros []|done]. }
  rewrite bool_decide_eq_true_2 by lia. rewrite <- (Hfv localRateLimitLastRefilled) in Hvl by intros [].
  destruct (set_current s1 localRateLimitLastRefilled (le64_encode (clock s1)) _ _ Hvl)
    as (s2 & c2 & Hset & Hv2).
  assert (holds s2 localRateLimitTokenBucket n) as Hb2.
  { change s2 with (snd (Ok, s2)). rewrite <- Hset. apply holds_other; [done|].
    apply Hfr; [by intros []|done]. }
  pose proof (clock_mono _ (SetSharedData localRateLimitLastRefilled (le64_encode (clock s1)) cl) s1) as Hm1.
  rewrite Hset in *. cbn -[le64_encode refill_loop omap] in *.
  rewrite (decide_False (P := Ok = CasMismatch)), (decide_False (P := Ok <> Ok)) by (done || tauto).
  pose proof (run_clock (refill_loop (Datatypes.S fuel) t m) s2) as Hm2.
  pose proof (never_traces _ _ _ _ (refill_loop_timeless (Datatypes.S fuel) t m)
    (run_traces h (refill_loop (Datatypes.S fuel) t m) s2)) as Hq.
  destruct (run_refill_loop fuel s2 n t m Hb2 Hm) as (-> & Hb3 & Ho).
  split; [lia|]. do 2 (split; [done|]). split; [rewrite !omap_cons; cbn -[omap refill_loop]; by rewrite Hq|].
  split; [|done]. split; [done|]. exists c2. by rewrite Ho.
Qed.

(** The bucket is initialised once.  The first [initializeTokenBucket] of a
    store fills it; a later one, whatever its argument, writes nothing. *)
Theorem initialize_once s tokens :
  is_u 64 tokens -> view s localRateLimitLastRefilled = None ->
  let r := run h (initializeTokenBucket tokens) s in
  result r = Done true /\ holds (final r) localRateLimitLastRefilled 0 /\
  holds (final r) localRateLimitTokenBucket tokens /\
  forall tokens', let r' := run h (initializeTokenBucket tokens') (final r) in
    result r' = Done true /\ final r' = final r.
Proof.
  intros Ht Hv. unfold initializeTokenBucket. cbn -[le64_encode].
  destruct (get_none _ _ Hv) as (r & v & c & -> & Hr). cbn -[le64_encode].
  rewrite decide_False by done.
  destruct (set_ok s localRateLimitLastRefilled (le64_encode 0) 0) as (s1 & c1 & Hs1 & Hv1 & _);
    [by left|].
  destruct (set_ok s1 localRateLimitTokenBucket (le64_encode tokens) 0) as (s2 & c2 & Hs2 & Hv2 & _);
    [by left|].
  pose proof (set_other s1 localRateLimitTokenBucket (le64_encode tokens) 0
    localRateLimitLastRefilled keys_differ) as Ho.
  cbn -[le64_encode]. rewrite Hs1. cbn -[le64_encode].
  rewrite (decide_False (P := Ok = CasMismatch)), (decide_False (P := Ok <> Ok)) by (done || tauto).
  cbn -[le64_encode]. rewrite Hs2 in Ho |- *. cbn -[le64_encode] in *. rewrite Hv1 in Ho.
  rewrite (decide_False (P := Ok <> Ok)) by tauto. cbn -[le64_encode].
  split; [done|]. split; [|split].
  - split; [done|eauto].
  - split; [done|eauto].
  - intros tokens'. by rewrite (get_some _ _ _ _ Ho).
Qed.
End bucket_theorems.

Section configured_theorems.
Context `{J : NlohmannJson} `{A : AbslStrings} {S} {h : handler HostCall S} `{!SharedStore h}.

(** From the configuration to the limit.  On a fresh store a configuration
    with the three fields is accepted, and the plugin then serves
    [tokens_per_refill] requests (whatever [max_tokens] is) and stops the
    others with a 429, until a tick refills the bucket. *)
Theorem configured_limit s s1 size ctx text j m t sec requests :
  h _ (GetBuffer PluginConfiguration 0 size) s = (Some text, s1) ->
  view s localRateLimitLastRefilled = None ->
  JsonParse text = Some j ->
  uint64_field j "max_tokens" = Some m -> uint64_field j "tokens_per_refill" = Some t ->
  uint64_field j "refill_interval_sec" = Some sec -> is_u 64 t ->
  let r := run h (onConfigure size ctx) s in
  result r = Done (true, configured m t (sec *64 1000000000)) /\
  holds (final r) localRateLimitTokenBucket t /\
  result (run h (serve requests) (final r)) =
    Done (replicate (Z.to_nat t `min` requests) Continue ++
          replicate (requests - Z.to_nat t) StopIteration).
Proof.
  intros Hbuf Hv Hp Hm Ht Hs Hu.
  assert (view s1 localRateLimitLastRefilled = None) as Hv1.
  { change s1 with (snd (Some text, s1)). rewrite <- Hbuf, frame by intros []. done. }
  unfold onConfigure, parseConfiguration. rewrite !run_bind.
  cbn -[initializeTokenBucket uint64_field serve]. rewrite Hbuf.
  cbn -[initializeTokenBucket uint64_field serve]. rewrite Hp.
  cbn -[initializeTokenBucket uint64_field serve]. unfold parse_json. rewrite Hm, Ht, Hs.
  cbn -[initializeTokenBucket uint64_field serve]. rewrite run_bind.
  destruct (initialize_once s1 t Hu Hv1) as (-> & _ & Hb & _).
  cbn -[initializeTokenBucket uint64_field serve]. destruct (h _ (SetTickPeriodMilliseconds _) _) as [x s2] eqn:E.
  cbn -[initializeTokenBucket uint64_field serve].
  assert (holds s2 localRateLimitTokenBucket t) as Hb2.
  { change s2 with (snd (x, s2)). rewrite <- E. apply holds_frame; [intros []|done]. }
  split; [done|]. split; [done|]. unfold is_u in Hu.
  rewrite <- (Z2Nat.id t) in Hb2 by lia. by destruct (serve_burst _ _ requests Hb2) as [-> _].
Qed.

(** Whatever the host answers, a configuration that is accepted assigns
    every member, so that the ticks it starts refill with the configured values and
    read no indeterminate one. *)
Theorem accepted_members size ctx tr ctx' :
  traces (onConfigure size ctx) tr (Done (true, ctx')) ->
  exists m t i, ctx' = configured m t i /\
    forall fuel, onTick fuel ctx' = refillToken fuel t i m.
Proof.
  intros [([ok ctx1] & t1 & t2 & _ & Hc & H)|[(w & _ & ?)|[_ ?]]]%traces_bind; [|done..].
  destruct ok; [|by destruct H as [_ [= ?]]]. cbn -[initializeTokenBucket] in H.
  assert (exists m t i, ctx1 = configured m t i) as (m & t & i & ->).
  { unfold parseConfiguration in Hc. simpl in Hc. destruct Hc as ([view0|] & tr' & _ & Hc); [|naive_solver].
    simpl in Hc. destruct (JsonParse view0) as [j|]; [|naive_solver]. destruct Hc as [_ [= Hj]].
    unfold parse_json in Hj. repeat case_match; simplify_eq. eauto. }
  cbn -[initializeTokenBucket] in H.
  apply traces_bind in H as [(b & t3 & t4 & _ & _ & H)|[(w & _ & ?)|[_ ?]]]; [|done..].
  destruct b; cbn in H; [|by destruct H as [_ [= ?]]].
  destruct H as (x & tr' & _ & _ & [= ->]). eauto.
Qed.
End configured_theorems.

Section getToken_answers.
Definition token_write (ev : host_event) : option WasmResult :=
  match ev with
  | Ev (SetSharedData _ _ _) r => Some r
  | _ => None
  end.

(** The history of a decision: [retries] is what is left of the loop. *)
Lemma getToken_loop_writes retries tr b :
  traces (getToken_loop retries) tr (Done b) ->
  (exists lost, (lost < retries)%nat /\ b = true /\
    observe token_write tr = replicate lost CasMismatch ++ [Ok]) \/
  (b = true /\ observe token_write tr = replicate retries CasMismatch) \/
  (exists lost, (lost < retries)%nat /\ b = false /\
    (observe token_write tr = replicate lost CasMismatch \/
     exists code, observe token_write tr = replicate lost CasMismatch ++ [OtherResult code])).
Proof.
  revert tr. induction retries as [|n IH]; intros tr; cbn -[read_u64 le64_encode].
  { intros [-> [= ->]]. right; left. done. }
  intros ([r [d c]] & tr1 & -> & H). cbn -[read_u64 le64_encode] in *.
  assert (forall l, l = [] -> False \/ exists lost, (lost < Datatypes.S n)%nat /\ false = false /\
    (l = replicate lost CasMismatch \/
     exists code, l = replicate lost CasMismatch ++ [OtherResult code])) as Hstop.
  { intros l ->. right. exists 0%nat. split; [lia|]. auto. }
  case_decide.
  { destruct H as [-> [= ->]]. right; right. destruct (Hstop [] eq_refl); [done|eauto]. }
  unfold read_u64 in H. destruct (le64_decode d); cbn -[le64_encode] in H; [|naive_solver].
  case_decide.
  { destruct H as [-> [= ->]]. right; right. destruct (Hstop [] eq_refl); [done|eauto]. }
  cbn -[le64_encode] in H. destruct H as (res & tr2 & -> & H). cbn -[le64_encode].
  case_decide as Hok; [|case_decide as Hm].
  - destruct H as [-> [= ->]]. left. exists 0%nat. subst. split; [lia|]. done.
  - subst res. destruct (IH _ H) as [(k & ? & -> & ->)|[[-> ->]|(k & ? & -> & Hk)]].
    + left. exists (Datatypes.S k). split; [lia|]. done.
    + right; left. done.
    + right; right. exists (Datatypes.S k). split; [lia|]. split; [done|].
      destruct Hk as [->|[code ->]]; eauto.
  - destruct H as [-> [= ->]]. right; right. exists 0%nat. split; [lia|]. split; [done|].
    right. destruct res as [| |code]; [done..|]. by exists code.
Qed.

(** What [getToken] decides, for every sequence of answers of the host.  A
    request goes through when a write of its decrement was accepted, after at
    most 19 lost races, or when it lost exactly 20 races, which takes no token;
    it is refused when no write was accepted and it lost fewer than 20. *)
Theorem getToken_decision tr b :
  traces getToken tr (Done b) ->
  let writes := observe token_write tr in
  let accepted := length (filter (eq Ok) writes) in
  let lost := length (filter (eq CasMismatch) writes) in
  (b = true -> (accepted = 1 /\ lost < 20) \/ (accepted = 0 /\ lost = 20))%nat /\
  (b = false -> accepted = 0 /\ lost < 20)%nat.
Proof.
  intros H%getToken_loop_writes. cbv zeta.
  assert (forall k, length (filter (eq CasMismatch) (replicate k CasMismatch)) = k) as Hl.
  { induction k; [done|]. cbn [replicate]. rewrite filter_cons_True by done. simpl. by f_equal. }
  assert (forall k, length (filter (eq Ok) (replicate k CasMismatch)) = 0%nat) as Ha.
  { induction k; [done|]. cbn [replicate]. by rewrite filter_cons_False. }
  unfold maxGetTokenRetry in H.
  destruct H as [(k & ? & -> & Hw)|[[-> Hw]|(k & ? & -> & [Hw|[code Hw]])]]; rewrite Hw;
    rewrite ?filter_app, ?length_app, Hl, Ha; simpl; split; intros; try done; lia.
Qed.
End getToken_answers.

(** ** Witnesses *)

Section bucket_witnesses.
Definition bucket_text : string := "max, tokens, interval".
Definition bucket_document : json :=
  JObject [("max_tokens", JNumber (NumInt 3)); ("tokens_per_refill", JNumber (NumInt 2));
           ("refill_interval_sec", JNumber (NumInt 1))].

#[local] Instance bucket_json : NlohmannJson := one_document bucket_text bucket_document.
#[local] Instance bucket_absl : AbslStrings := absl_reference.

(** The clock of this host starts at 5 s and advances by 1 s per reading. *)
Definition bucket_host : handler HostCall store := store_host bucket_text 1000000000.
Definition empty_store : store := {| data := ∅; next_version := 1; time := 5000000000 |}.
Definition started : store := final (run bucket_host (initializeTokenBucket 2) empty_store).

Lemma started_holds :
  holds (h := bucket_host) started localRateLimitTokenBucket 2 /\
  holds (h := bucket_host) started localRateLimitLastRefilled 0.
Proof.
  split; (split; [by vm_compute|]).
  - exists 2. vm_compute. reflexivity.
  - exists 1. vm_compute. reflexivity.
Qed.

Lemma serve_burst_witness :
  result (run bucket_host (serve 3) started) = Done [Continue; Continue; StopIteration].
Proof. exact (proj1 (serve_burst started 2%nat 3 (proj1 started_holds))). Defined.

Lemma refillToken_spec_witness :
  exists now, 5000000000 <= now /\
    result (run bucket_host (refillToken 1 2 1000000000 3) started) = Done tt.
Proof.
  destruct (refillToken_spec (h := bucket_host) 1 started 0 2 2 1000000000 3
    (proj2 started_holds) (proj1 started_holds) ltac:(by vm_compute) ltac:(lia))
    as (now & [Hc _] & _ & Hr & _).
  exists now. split; [|exact Hr]. etransitivity; [|exact Hc]. by vm_compute.
Defined.

Lemma initialize_once_witness :
  result (run bucket_host (initializeTokenBucket 2) empty_store) = Done true.
Proof. apply (initialize_once (h := bucket_host) empty_store 2); by vm_compute. Defined.

Lemma configured_limit_witness :
  let r := run bucket_host (onConfigure 10 initial_context) empty_store in
  result (run bucket_host (serve 3) (final r)) = Done [Continue; Continue; StopIteration].
Proof.
  refine (proj2 (proj2 (configured_limit (h := bucket_host) empty_store empty_store 10
    initial_context bucket_text bucket_document 3 2 1 3 _ _ _ _ _ _ _))); by vm_compute.
Defined.

Lemma accepted_members_witness :
  exists m t i, configured 3 2 1000000000 = configured m t i.
Proof.
  destruct (accepted_members 10 initial_context
    (trace (run bucket_host (onConfigure 10 initial_context) empty_store)) (configured 3 2 1000000000))
    as (m & t & i & H & _); [|eauto].
  assert (result (run bucket_host (onConfigure 10 initial_context) empty_store) =
    Done (true, configured 3 2 1000000000)) as <- by (vm_compute; reflexivity).
  apply run_traces.
Defined.

Lemma getToken_decision_witness :
  let writes := observe token_write (trace (run bucket_host getToken started)) in
  (length (filter (eq Ok) writes) = 1 /\ length (filter (eq CasMismatch) writes) < 20)%nat \/
  (length (filter (eq Ok) writes) = 0 /\ length (filter (eq CasMismatch) writes) = 20)%nat.
Proof.
  apply (getToken_decision (trace (run bucket_host getToken started)) true); [|done].
  assert (result (run bucket_host getToken started) = Done true) as <- by (vm_compute; reflexivity).
  apply run_traces.
Defined.
End bucket_witnesses.
