(* ===== verification/RateLimit.v ===== *)
(** * The local rate limiter, with all its VMs

    Every VM of the proxy runs the plugin, one handler at a time, and they share
    one bucket: a handler is interrupted by the others between any two host
    calls.  [sys_step] is that interleaving, at the granularity of host calls;
    the theorems bound what all the VMs together let through. *)

From stdpp Require Import base tactics numbers list strings gmap.
From Stdlib Require Import ZArith Lia.
From S2P Require Import Prelude HostApi Absl Json Bytes SharedData Bucket.
Local Open Scope Z_scope.
Local Open Scope wasm_scope.

(** ** The system *)

(** A handler in progress is the program that is left of it.  [claimed] records
    that the tick has dated the bucket, so that it is the one to refill it. *)
Inductive thread :=
| Request (m : host_prog FilterHeadersStatus)
| Tick (m : host_prog unit) (claimed : bool).

(** What has happened so far. *)
Record counters := {
  admitted : Z;  (* requests that continued *)
  taken : Z;     (* tokens taken from the bucket *)
  claims : Z;    (* ticks that dated the bucket *)
  refills : Z    (* ticks that filled the bucket *)
}.

Definition no_counts : counters := {| admitted := 0; taken := 0; claims := 0; refills := 0 |}.

(** The call wrote the key. *)
Definition wrote (key : string) {X} (e : HostCall X) (x : X) : bool :=
  match e in HostCall X return X -> bool with
  | SetSharedData k _ _ => fun r => bool_decide (k = key /\ r = Ok)
  | _ => fun _ => false
  end x.

(** What stays of a handler after a call: nothing when it has returned. *)
Definition rest_of_request (m : host_prog FilterHeadersStatus) : list thread :=
  match m with
  | Ret _ => []
  | _ => [Request m]
  end.

Definition rest_of_tick (m : host_prog unit) (claimed : bool) : list thread :=
  match m with
  | Ret _ => []
  | _ => [Tick m claimed]
  end.

Definition continues (m : host_prog FilterHeadersStatus) : bool :=
  match m with
  | Ret Continue => true
  | _ => false
  end.

Definition count_request {X} (e : HostCall X) (x : X) (m : host_prog FilterHeadersStatus)
    (c : counters) : counters :=
  {| admitted := admitted c + Z.b2z (continues m);
     taken := taken c + Z.b2z (wrote localRateLimitTokenBucket e x);
     claims := claims c; refills := refills c |}.

Definition count_tick {X} (e : HostCall X) (x : X) (c : counters) : counters :=
  {| admitted := admitted c; taken := taken c;
     claims := claims c + Z.b2z (wrote localRateLimitLastRefilled e x);
     refills := refills c + Z.b2z (wrote localRateLimitTokenBucket e x) |}.

Record system (S : Type) := System {
  host : S;
  threads : list thread;
  counts : counters
}.
Arguments System {_} _ _ _.
Arguments host {_} _.
Arguments threads {_} _.
Arguments counts {_} _.

Section system.
Context {S : Type} (h : handler HostCall S).
(** Number of VMs and the configuration they have in common. *)
Context (vms : nat) (max_tokens tokens_per_refill interval : Z).

Inductive sys_step : system S -> system S -> Prop :=
| start_request s l c :
    (length l < vms)%nat ->
    sys_step (System s l c) (System s (Request onRequestHeaders :: l) c)
| start_tick s l c fuel :
    (length l < vms)%nat ->
    sys_step (System s l c)
      (System s (Tick (onTick fuel (configured max_tokens tokens_per_refill interval)) false :: l) c)
| call_request s l1 l2 c X (e : HostCall X) k x s' :
    h X e s = (x, s') ->
    sys_step (System s (l1 ++ Request (Vis e k) :: l2) c)
      (System s' (l1 ++ rest_of_request (k x) ++ l2) (count_request e x (k x) c))
| call_tick s l1 l2 c X (e : HostCall X) k claimed x s' :
    h X e s = (x, s') ->
    sys_step (System s (l1 ++ Tick (Vis e k) claimed :: l2) c)
      (System s' (l1 ++ rest_of_tick (k x) (claimed || wrote localRateLimitLastRefilled e x) ++ l2)
         (count_tick e x c))
(** A call of anything else in the proxy that leaves shared data alone. *)
| call_other s l c X (e : HostCall X) x s' :
    ~ is_set e -> h X e s = (x, s') ->
    sys_step (System s l c) (System s' l c).

Definition steps : system S -> system S -> Prop := rtc sys_step.
End system.

(** ** How the host's state changes *)

Section evolution.
Context {S : Type} {h : handler HostCall S} `{!SharedStore h}.

(** Versions are not reused, the clock does not go back, and without a
    successful write the bucket stays ([changed] is that there was one). *)
Definition evolves (changed : bool) (s s' : S) : Prop :=
  (forall k c, issued s k c -> issued s' k c) /\
  (forall k v c, issued s k c -> view s' k = Some (v, c) -> view s k = Some (v, c)) /\
  clock s <= clock s' /\
  (changed = false -> view s' localRateLimitTokenBucket = view s localRateLimitTokenBucket).

(** The two outcomes of a write. *)
Lemma set_cases s k v c :
  (exists s' c', h _ (SetSharedData k v c) s = (Ok, s') /\ view s' k = Some (v, c') /\
     ~ issued s k c' /\ (c = 0 \/ view s k = None \/ exists w, view s k = Some (w, c))) \/
  (h _ (SetSharedData k v c) s = (CasMismatch, s) /\ forall w, view s k <> Some (w, c)).
Proof.
  destruct (view s k) as [[w c0]|] eqn:E.
  - destruct (decide (c = 0 \/ c = c0)) as [Hd|Hd].
    + left. destruct (set_ok s k v c) as (s' & c' & ? & ? & ?); [naive_solver|].
      exists s', c'. split_and!; try done. naive_solver.
    + right. split; [eapply set_mismatch; [exact E|tauto..]|]. naive_solver.
  - left. destruct (set_ok s k v c) as (s' & c' & ? & ? & ?); [naive_solver|].
    exists s', c'. split_and!; try done. naive_solver.
Qed.

Lemma call_evolves X (e : HostCall X) s x s' :
  h X e s = (x, s') -> evolves (wrote localRateLimitTokenBucket e x) s s'.
Proof.
  intros Hh. pose proof (issued_mono X e s) as Hi. pose proof (clock_mono X e s) as Hc.
  pose proof (frame X e s) as Hf. rewrite Hh in Hi, Hc, Hf. simpl in *.
  split; [auto|].
  destruct (decide (is_set e)) as [Hs|Hs]; [|rewrite !Hf by done; split; [|auto];
    intros k v c _; by rewrite Hf].
  destruct e;
    try by destruct Hs.
  split; [|split; [done|]].
  - intros k v c Hk Hv. destruct (decide (key = k)) as [->|Hne].
    + destruct (set_cases s k value cas) as [(s2 & c' & Hset & Hv2 & Hn & _)|[Hset _]];
        rewrite Hh in Hset; simplify_eq; done.
    + pose proof (set_other s key value cas k Hne) as Ho. rewrite Hh in Ho. simpl in Ho.
      by rewrite <- Ho.
  - simpl. intros Hw%bool_decide_eq_false_1.
    destruct (decide (key = localRateLimitTokenBucket)) as [->|Hne].
    + destruct (set_cases s localRateLimitTokenBucket value cas)
        as [(s2 & c' & Hset & _)|[Hset _]]; rewrite Hh in Hset; simplify_eq; tauto.
    + pose proof (set_other s key value cas _ Hne) as Ho. by rewrite Hh in Ho.
Qed.

(** What was read of a key: a value and a version that is its only while it is
    current. *)
Definition snapshot (s : S) (key : string) (n : Z) (cas : Z) : Prop :=
  is_u 64 n /\ issued s key cas /\ cas <> 0 /\
  forall v, view s key = Some (v, cas) -> v = le64_encode n.

Lemma snapshot_read s key n cas :
  is_u 64 n -> view s key = Some (le64_encode n, cas) -> snapshot s key n cas.
Proof.
  intros Hn Hv. destruct (view_issued _ _ _ _ Hv). split_and!; try done.
  intros v Hv'. congruence.
Qed.

Lemma snapshot_evolves b s s' key n cas :
  evolves b s s' -> snapshot s key n cas -> snapshot s' key n cas.
Proof.
  intros (Hi & Hv & _) (Hn & His & Hc & Hs). split_and!; auto.
Qed.
End evolution.

(** ** Where a handler can be *)

Section phases.
Context {S : Type} {h : handler HostCall S} `{!SharedStore h}.
Context (max_tokens tokens_per_refill interval : Z).

(** The rest of [onRequestHeaders] around what is left of [getToken]. *)
Definition request_with (get : host_prog bool) : host_prog FilterHeadersStatus :=
  limited ← (t ← get; mret (negb t));
  if (limited : bool) then _ ← tooManyRequest; mret StopIteration else mret Continue.

(** The rest of an iteration of [getToken] that is about to write. *)
Definition get_write (retries : nat) (token_left cas : Z) : host_prog bool :=
  res ← trigger (SetSharedData localRateLimitTokenBucket (le64_encode (token_left -64 1)) cas);
  if decide (res = Ok) then mret true
  else if decide (res = CasMismatch) then getToken_loop retries
  else mret false.

(** The rest of [refillToken] after its first, second and third call, and of an
    iteration of its loop. *)
Definition refill_now (fuel : nat) (last_update cas : Z) : host_prog unit :=
  now ← trigger GetCurrentTimeNanoseconds;
  if decide (now -64 last_update < interval) then mret tt else
  res ← trigger (SetSharedData localRateLimitLastRefilled (le64_encode now) cas);
  if decide (res = CasMismatch) then mret tt
  else if decide (res <> Ok) then mret tt
  else refill_loop fuel tokens_per_refill max_tokens.

Definition refill_claim (fuel : nat) (now cas : Z) : host_prog unit :=
  res ← trigger (SetSharedData localRateLimitLastRefilled (le64_encode now) cas);
  if decide (res = CasMismatch) then mret tt
  else if decide (res <> Ok) then mret tt
  else refill_loop fuel tokens_per_refill max_tokens.

Definition refill_write (fuel : nat) (token_left cas : Z) : host_prog unit :=
  res ← trigger (SetSharedData localRateLimitTokenBucket
                   (le64_encode (refilled token_left tokens_per_refill max_tokens)) cas);
  if decide (res = CasMismatch) then refill_loop fuel tokens_per_refill max_tokens
  else mret tt.

Definition stale (s : S) (cas : Z) : Prop :=
  forall v, view s localRateLimitTokenBucket <> Some (v, cas).

(** [debt] bounds from above the races that a request has lost, counting the
    one that it is bound to lose once its version is stale. *)
Inductive phase (s : S) : thread -> Z -> Prop :=
| about_to_read retries debt :
    20 - Z.of_nat (Datatypes.S retries) <= debt -> 0 <= debt ->
    phase s (Request (request_with (getToken_loop (Datatypes.S retries)))) debt
| about_to_take retries n cas debt :
    n <> 0 -> snapshot s localRateLimitTokenBucket n cas ->
    20 - Z.of_nat (Datatypes.S retries) <= debt -> 0 <= debt ->
    (stale s cas -> 20 - Z.of_nat retries <= debt) ->
    phase s (Request (request_with (get_write retries n cas))) debt
| about_to_reply debt :
    0 <= debt -> phase s (Request (request_with (mret false))) debt
| about_to_check fuel debt :
    0 <= debt ->
    phase s (Tick (refillToken fuel tokens_per_refill interval max_tokens) false) debt
| about_to_clock fuel l cas debt :
    0 <= debt -> l <= clock s -> snapshot s localRateLimitLastRefilled l cas ->
    phase s (Tick (refill_now fuel l cas) false) debt
| about_to_claim fuel l now cas debt :
    0 <= debt -> l + interval <= now -> now <= clock s -> is_u 64 now ->
    snapshot s localRateLimitLastRefilled l cas ->
    phase s (Tick (refill_claim fuel now cas) false) debt
| about_to_load fuel debt :
    0 <= debt -> phase s (Tick (refill_loop fuel tokens_per_refill max_tokens) true) debt
| about_to_fill fuel n cas debt :
    0 <= debt -> snapshot s localRateLimitTokenBucket n cas ->
    phase s (Tick (refill_write fuel n cas) true) debt.

Lemma phase_debt s t d : phase s t d -> 0 <= d.
Proof. by destruct 1. Qed.

(** Another handler's call costs a request at most one lost race, and only when
    it changed the bucket. *)
Lemma phase_evolves b s s' t d :
  evolves b s s' -> phase s t d -> phase s' t (d + Z.b2z b).
Proof.
  intros He Hp. pose proof He as (_ & _ & Hc & Hb).
  assert (0 <= Z.b2z b) by (destruct b; simpl; lia).
  destruct Hp; econstructor; try lia; eauto using snapshot_evolves; try lia.
  destruct b; simpl; [lia|]. intros Hst. rewrite Z.add_0_r.
  match goal with H : stale s _ -> _ |- _ => apply H end.
  intros v. rewrite <- Hb by done. apply Hst.
Qed.

(** The state that handlers rely on. *)
Record ready (s : S) (n l : Z) : Prop := {
  ready_bucket : holds s localRateLimitTokenBucket n;
  ready_last : holds s localRateLimitLastRefilled l;
  ready_clock : l <= clock s
}.

(** A call that leaves both keys alone. *)
Lemma ready_frame X (e : HostCall X) s x s' n l :
  ~ is_set e -> h X e s = (x, s') -> ready s n l -> ready s' n l.
Proof.
  intros He Hh [Hb Hl Hc]. pose proof (clock_mono X e s) as Hm. rewrite Hh in Hm. simpl in Hm.
  split; [| |lia]; change s' with (snd (x, s')); rewrite <- Hh; by apply holds_frame.
Qed.

(** What a request's call does: the effect on the bucket, and where it is then. *)
Definition request_call_ok (s : S) (m : host_prog FilterHeadersStatus) (d n l : Z) : Prop :=
  match m with
  | Vis e k => forall x s', h _ e s = (x, s') ->
      if wrote localRateLimitTokenBucket e x
      then k x = Ret Continue /\ 0 < n /\ ready s' (n - 1) l
      else ready s' n l /\
        ((k x = Ret Continue /\ 20 <= d) \/ k x = Ret StopIteration \/ phase s' (Request (k x)) d)
  | _ => False
  end.

(** The same of a tick: it fills the bucket once, after it has dated it. *)
Definition tick_call_ok (s : S) (m : host_prog unit) (claimed : bool) (d n l : Z) : Prop :=
  match m with
  | Vis e k => forall x s', h _ e s = (x, s') ->
      if wrote localRateLimitTokenBucket e x
      then claimed = true /\ wrote localRateLimitLastRefilled e x = false /\ k x = Ret tt /\
           ready s' (refilled n tokens_per_refill max_tokens) l
      else
        (if wrote localRateLimitLastRefilled e x
         then claimed = false /\ exists l', l + interval <= l' /\ ready s' n l'
         else ready s' n l) /\
        (k x = Ret tt \/
         phase s' (Tick (k x) (claimed || wrote localRateLimitLastRefilled e x)) d)
  | _ => False
  end.

Lemma read_bucket s n l :
  ready s n l -> exists cas,
    h _ (GetSharedData localRateLimitTokenBucket) s = ((Ok, (le64_encode n, cas)), s) /\
    snapshot s localRateLimitTokenBucket n cas /\ ~ stale s cas.
Proof.
  intros [[Hn [c Hv]] _ _]. exists c. split; [by apply get_some|].
  split; [by apply snapshot_read|]. intros Hs. by apply (Hs _ Hv).
Qed.

(** A successful write of the bucket under a snapshot replaces what was read. *)
Lemma write_bucket s n l n0 cas v :
  ready s n l -> snapshot s localRateLimitTokenBucket n0 cas -> is_u 64 v ->
  let e := SetSharedData localRateLimitTokenBucket (le64_encode v) cas in
  (exists s', h _ e s = (Ok, s') /\ n0 = n /\ ready s' v l) \/
  (h _ e s = (CasMismatch, s) /\ stale s cas).
Proof.
  intros [Hb Hl Hc] (Hn0 & Hi & Hcas & Hs) Hv e.
  destruct (set_cases s localRateLimitTokenBucket (le64_encode v) cas)
    as [(s' & c' & Hset & Hv' & _ & Hcur)|[Hset Hst]]; [left|by right].
  exists s'. split; [done|]. destruct Hb as [Hn [c Hvn]].
  assert (n0 = n) as ->.
  { destruct Hcur as [?|[?|[w Hw]]]; [done|congruence|]. rewrite Hw in Hvn. simplify_eq.
    apply Hs in Hw. apply le64_encode_inj; auto. }
  split; [done|]. pose proof (clock_mono _ e s) as Hm. unfold e in Hm. rewrite Hset in Hm.
  simpl in Hm. split; [|change s' with (snd (Ok, s')); rewrite <- Hset; by apply holds_other|lia].
  split; [done|eauto].
Qed.

Lemma request_call s m d n l :
  phase s (Request m) d -> ready s n l -> request_call_ok s m d n l.
Proof.
  intros Hp Hr.
  change (match Request m with Request m => request_call_ok s m d n l | _ => True end).
  destruct Hp as [retries debt Hd Hd0|retries n0 cas debt Hn0 Hs Hd Hd0 Hst|debt Hd0| | | | |];
    try done; unfold request_call_ok; intros x s' Hh.
  - destruct (read_bucket s n l Hr) as (c & Hg & Hs & Hns). rewrite Hg in Hh.
    injection Hh as <- <-. simpl wrote. cbv iota. split; [done|]. right; right.
    cbn -[read_u64 le64_encode getToken_loop].
    rewrite decide_False by tauto. rewrite read_u64_encode by apply Hs.
    cbn -[le64_encode getToken_loop]. case_decide.
    + exact (about_to_reply s debt Hd0).
    + by apply (about_to_take s retries n c debt).
  - assert (is_u 64 (n0 -64 1)) as Hu by apply u64_bound.
    destruct (write_bucket s n l n0 cas (n0 -64 1) Hr Hs Hu) as [(s2 & Hset & -> & Hr2)|[Hset Hst']];
      rewrite Hset in Hh; injection Hh as <- <-; simpl wrote.
    + cbv iota. cbn -[le64_encode getToken_loop]. destruct Hs as [Hu' _]. unfold is_u in Hu'.
      split; [done|]. split; [lia|]. by rewrite u64_id in Hr2 by lia.
    + cbv iota. split; [done|]. cbn -[le64_encode getToken_loop].
      specialize (Hst Hst'). destruct retries as [|retries].
      * left. split; [done|]. lia.
      * right; right. by apply (about_to_read s retries debt).
  - simpl wrote. cbv iota. split; [|by right; left]. eapply ready_frame; [|exact Hh|done]. intros [].
Qed.

(** The call after which a request replies saw an empty bucket. *)
Lemma refusing_call s m d n l :
  phase s (Request m) d -> ready s n l ->
  match m with
  | Vis e k => forall x s', h _ e s = (x, s') ->
      match k x with Vis (SendLocalResponse _ _ _ _) _ => true | _ => false end = true -> n = 0
  | _ => True
  end.
Proof.
  intros Hp Hr.
  change (match Request m with
          | Request m => match m with
            | Vis e k => forall x s', h _ e s = (x, s') ->
                match k x with Vis (SendLocalResponse _ _ _ _) _ => true | _ => false end = true -> n = 0
            | _ => True end
          | _ => True end).
  destruct Hp as [retries debt Hd Hd0|retries n0 cas debt Hn0 Hs Hd Hd0 Hst|debt Hd0| | | | |];
    try done; intros x s' Hh Hk.
  - destruct (read_bucket s n l Hr) as (c & Hg & Hs & Hns). rewrite Hg in Hh.
    injection Hh as <- <-. cbn -[read_u64 le64_encode getToken_loop] in Hk.
    rewrite decide_False in Hk by tauto. rewrite read_u64_encode in Hk by apply Hs.
    cbn -[le64_encode getToken_loop] in Hk. by case_decide.
  - assert (is_u 64 (n0 -64 1)) as Hu by apply u64_bound.
    destruct (write_bucket s n l n0 cas (n0 -64 1) Hr Hs Hu) as [(s2 & Hset & -> & Hr2)|[Hset Hst']];
      rewrite Hset in Hh; injection Hh as <- <-; cbn -[le64_encode getToken_loop] in Hk; [done|].
    by destruct retries.
Qed.

(** Dating the bucket under a snapshot of its date. *)
Lemma write_last s n l l0 cas now :
  ready s n l -> snapshot s localRateLimitLastRefilled l0 cas -> is_u 64 now -> now <= clock s ->
  let e := SetSharedData localRateLimitLastRefilled (le64_encode now) cas in
  (exists s', h _ e s = (Ok, s') /\ l0 = l /\ ready s' n now) \/ h _ e s = (CasMismatch, s).
Proof.
  intros [Hb Hl Hc] (Hn0 & Hi & Hcas & Hs) Hnow Hle e.
  destruct (set_cases s localRateLimitLastRefilled (le64_encode now) cas)
    as [(s' & c' & Hset & Hv' & _ & Hcur)|[Hset Hst]]; [left|by right].
  exists s'. split; [done|]. destruct Hl as [Hn [c Hvn]].
  assert (l0 = l) as ->.
  { destruct Hcur as [?|[?|[w Hw]]]; [done|congruence|]. rewrite Hw in Hvn. simplify_eq.
    apply Hs in Hw. apply le64_encode_inj; auto. }
  split; [done|]. pose proof (clock_mono _ e s) as Hm. unfold e in Hm. rewrite Hset in Hm.
  simpl in Hm. split; [change s' with (snd (Ok, s')); rewrite <- Hset; by apply holds_other| |lia].
  split; [done|eauto].
Qed.

Lemma read_last s n l :
  ready s n l -> exists cas,
    h _ (GetSharedData localRateLimitLastRefilled) s = ((Ok, (le64_encode l, cas)), s) /\
    snapshot s localRateLimitLastRefilled l cas.
Proof.
  intros [_ [Hl [c Hv]] _]. exists c. split; [by apply get_some|by apply snapshot_read].
Qed.

(** A tick runs out of the fuel of its loop only here. *)
Lemma tick_call s m claimed d n l :
  is_u 64 max_tokens ->
  phase s (Tick m claimed) d -> ready s n l -> m <> OutOfFuel -> tick_call_ok s m claimed d n l.
Proof.
  intros Hmax Hp Hr.
  change (match Tick m claimed with
          | Tick m cl => m <> OutOfFuel -> tick_call_ok s m cl d n l | _ => True end).
  destruct Hp as [| | |fuel debt Hd|fuel l0 cas debt Hd Hl0 Hs|fuel l0 now cas debt Hd Hi Hnow Hun Hs
    |fuel debt Hd|fuel n0 cas debt Hd Hs]; try done; unfold tick_call_ok.
  - intros _ x s' Hh. destruct (read_last s n l Hr) as (c & Hg & Hs). rewrite Hg in Hh.
    injection Hh as <- <-. simpl wrote. cbv iota. split; [done|]. right. simpl orb.
    cbn -[read_u64 le64_encode refill_loop].
    rewrite decide_False by tauto. rewrite read_u64_encode by apply Hs.
    cbn -[le64_encode refill_loop].
    apply (about_to_clock s fuel l c debt); [done|apply Hr|done].
  - intros _ x s' Hh. pose proof (now_clock s) as [s2 Hnow]. rewrite Hnow in Hh.
    injection Hh as <- <-. simpl wrote. cbv iota.
    pose proof (clock_mono _ GetCurrentTimeNanoseconds s) as Hm. rewrite Hnow in Hm. simpl in Hm.
    pose proof (clock_bound s2) as Hcb.
    split; [eapply ready_frame; [|exact Hnow|done]; intros []|]. simpl orb.
    cbn -[le64_encode refill_loop]. destruct Hs as (Hu & Hs). unfold is_u in Hu.
    rewrite u64_id by lia. case_decide; [by left|]. right.
    apply (about_to_claim s2 fuel l0 (clock s2) cas debt); try lia.
    { unfold is_u. lia. }
    eapply snapshot_evolves; [by eapply call_evolves|]. by split.
  - intros _ x s' Hh.
    destruct (write_last s n l l0 cas now Hr Hs Hun Hnow) as [(s2 & Hset & -> & Hr2)|Hset];
      rewrite Hset in Hh; injection Hh as <- <-; simpl wrote.
    + cbv iota. split; [split; [done|]; by exists now|]. right. simpl orb.
      by apply (about_to_load s2 fuel debt).
    + cbv iota. split; [done|]. by left.
  - intros Hne. destruct fuel as [|fuel]; [done|]. intros x s' Hh. clear Hne.
    destruct (read_bucket s n l Hr) as (c & Hg & Hs & _). rewrite Hg in Hh.
    injection Hh as <- <-. simpl wrote. cbv iota. split; [done|]. right. simpl orb.
    cbn -[read_u64 le64_encode]. rewrite decide_False by tauto.
    rewrite read_u64_encode by apply Hs. cbn -[le64_encode]. rewrite refilled_eq.
    by apply (about_to_fill s fuel n c debt).
  - intros _ x s' Hh.
    pose proof (refilled_u64 n0 tokens_per_refill max_tokens Hmax) as Hu.
    destruct (write_bucket s n l n0 cas _ Hr Hs Hu) as [(s2 & Hset & -> & Hr2)|[Hset _]];
      rewrite Hset in Hh; injection Hh as <- <-; simpl wrote.
    + cbv iota. done.
    + cbv iota. split; [done|]. right. simpl orb. by apply (about_to_load s fuel debt).
Qed.
End phases.

(** ** The invariant of the system *)

Definition sum_Z (l : list Z) : Z := foldr Z.add 0 l.

Lemma sum_Z_app l1 l2 : sum_Z (l1 ++ l2) = sum_Z l1 + sum_Z l2.
Proof. unfold sum_Z. induction l1; simpl; lia. Qed.

Lemma sum_Z_shift b l : sum_Z (map (fun d => d + b) l) = sum_Z l + b * Z.of_nat (length l).
Proof. unfold sum_Z. induction l; simpl; lia. Qed.

(** Ticks that have dated the bucket and not yet filled it. *)
Definition pending (t : thread) : Z :=
  match t with
  | Tick _ true => 1
  | _ => 0
  end.

Section invariant.
Context {S : Type} {h : handler HostCall S} `{!SharedStore h}.
Context (vms : nat) (max_tokens tokens_per_refill interval initial l0 : Z).
Context (Hmax : is_u 64 max_tokens) (Htpr : is_u 64 tokens_per_refill)
  (Hint : is_u 64 interval).

#[local] Abbreviation phase := (phase max_tokens tokens_per_refill interval).

(** The accounts, with [n] tokens in the bucket, [l] its date and [debts] what
    the requests in progress may still lose. *)
Record accounts (c : counters) (n l pend debt : Z) : Prop := {
  acc_taken : 0 <= taken c;
  acc_refills : 0 <= refills c;
  acc_bound : n + taken c <= initial + refills c * tokens_per_refill;
  acc_exact : refills c = 0 -> n + taken c = initial;
  acc_cap : n <= Z.max initial max_tokens;
  acc_claims : refills c + pend <= claims c;
  acc_clock : l0 + claims c * interval <= l;
  acc_admitted : taken c <= admitted c;
  acc_lost : 20 * (admitted c - taken c) + debt <= (Z.of_nat vms - 1) * (taken c + refills c)
}.

Definition inv (sys : system S) : Prop :=
  exists n l debts,
    ready (host sys) n l /\ Forall2 (phase (host sys)) (threads sys) debts /\
    (length (threads sys) <= vms)%nat /\
    accounts (counts sys) n l (sum_Z (map pending (threads sys))) (sum_Z debts).

Lemma phase_not_ret s m d : phase s (Request m) d -> rest_of_request m = [Request m].
Proof.
  intros Hp. change (match Request m with
          | Request m => rest_of_request m = [Request m] | _ => True end).
  by destruct Hp.
Qed.

Lemma phase_not_ret_tick s m cl d : phase s (Tick m cl) d -> rest_of_tick m cl = [Tick m cl].
Proof.
  intros Hp. change (match Tick m cl with
          | Tick m cl => rest_of_tick m cl = [Tick m cl] | _ => True end).
  destruct Hp as [| | | | | |[]|]; done.
Qed.

Lemma debts_nonneg s l debts : Forall2 (phase s) l debts -> 0 <= sum_Z debts.
Proof.
  unfold sum_Z. induction 1 as [|t d l ds Hp _ IH]; simpl; [done|].
  apply phase_debt in Hp. lia.
Qed.

Lemma pendings_nonneg l : 0 <= sum_Z (map pending l).
Proof.
  unfold sum_Z. induction l as [|t l IH]; simpl; [done|]. destruct t as [|m []]; simpl; lia.
Qed.

(** The threads that did not move keep their phases and owe at most one race
    more each. *)
Lemma others_evolve b s s' l1 th l2 debts :
  evolves b s s' -> Forall2 (phase s) (l1 ++ th :: l2) debts ->
  (length (l1 ++ th :: l2) <= vms)%nat ->
  exists d, phase s th d /\
    forall rest drest, Forall2 (phase s') rest drest ->
    exists debts', Forall2 (phase s') (l1 ++ rest ++ l2) debts' /\
      sum_Z debts' <= sum_Z debts - d + sum_Z drest + Z.b2z b * (Z.of_nat vms - 1).
Proof.
  intros He Hf Hlen.
  apply Forall2_app_inv_l in Hf as (d1 & d2' & Hf1 & Hf2 & ->).
  apply Forall2_cons_inv_l in Hf2 as (d & d2 & Hd & Hf2 & ->).
  exists d. split; [done|]. intros rest drest Hrest.
  exists (map (fun d => d + Z.b2z b) d1 ++ drest ++ map (fun d => d + Z.b2z b) d2). split.
  - assert (forall l ds, Forall2 (phase s) l ds ->
      Forall2 (phase s') l (map (fun d => d + Z.b2z b) ds)) as Hshift.
    { intros l ds H. apply Forall2_fmap_r. eapply Forall2_impl; [exact H|].
      intros t dt Ht. simpl. by eapply phase_evolves. }
    auto using Forall2_app.
  - rewrite length_app in Hlen. simpl in Hlen.
    apply Forall2_length in Hf1, Hf2. rewrite Hf1, Hf2 in Hlen.
    rewrite !sum_Z_app, !sum_Z_shift. simpl. destruct b; simpl; lia.
Qed.

Lemma pending_app (l1 l2 : list thread) :
  sum_Z (map pending (l1 ++ l2)) = sum_Z (map pending l1) + sum_Z (map pending l2).
Proof. by rewrite map_app, sum_Z_app. Qed.

Lemma length_rest (l1 l2 rest : list thread) th :
  (length rest <= 1)%nat -> (length (l1 ++ th :: l2) <= vms)%nat -> (length (l1 ++ rest ++ l2) <= vms)%nat.
Proof. rewrite !length_app. simpl. lia. Qed.

Lemma inv_request s l1 l2 c X (e : HostCall X) k x s' :
  h X e s = (x, s') -> inv (System s (l1 ++ Request (Vis e k) :: l2) c) ->
  inv (System s' (l1 ++ rest_of_request (k x) ++ l2) (count_request e x (k x) c)).
Proof.
  intros Hh (n & l & debts & Hr & Hf & Hlen & Ha). simpl in *.
  pose proof (call_evolves _ _ _ _ _ Hh) as He.
  destruct (others_evolve _ _ _ _ _ _ _ He Hf Hlen) as (d & Hp & Hothers).
  pose proof (phase_debt _ _ _ _ _ _ Hp) as Hd.
  pose proof (request_call _ _ _ _ _ _ _ _ Hp Hr x s' Hh) as Hcall. simpl in Hcall.
  rewrite pending_app in Ha. simpl in Ha.
  destruct (wrote localRateLimitTokenBucket e x) eqn:Hw.
  - destruct Hcall as (Hk & Hn & Hr'). rewrite Hk. simpl.
    destruct (Hothers [] []) as (debts' & Hf' & Hs); [constructor|].
    exists (n - 1), l, debts'. simpl in *. split_and!; try done.
    { apply (length_rest l1 l2 []) in Hlen; [done|simpl; lia]. }
    rewrite pending_app. unfold count_request. rewrite Hw. simpl.
    destruct Ha. split; simpl; lia.
  - destruct Hcall as [Hr' Hcases].
    assert (exists drest b, Forall2 (phase s') (rest_of_request (k x)) drest /\
      continues (k x) = b /\ sum_Z drest + 20 * Z.b2z b <= d /\
      (length (rest_of_request (k x)) <= 1)%nat /\
      sum_Z (map pending (rest_of_request (k x))) = 0) as (drest & b & Hrest & Hb & Hsum & Hl1 & Hpe).
    { destruct Hcases as [[-> ?]|[->|Hp']].
      - exists [], true. simpl. split_and!; try done. lia.
      - exists [], false. simpl. split_and!; done || lia.
      - pose proof (phase_not_ret _ _ _ Hp') as ->. exists [d], false. simpl.
        split_and!; [by repeat constructor| |lia|done|done].
        by destruct (k x) as [[]| | |]; inversion Hp'. }
    destruct (Hothers _ _ Hrest) as (debts' & Hf' & Hs).
    exists n, l, debts'. simpl in *. split_and!; try done; [exact (length_rest _ _ _ _ Hl1 Hlen)|].
    rewrite !pending_app, Hpe. unfold count_request. rewrite Hw, Hb.
    destruct Ha. split; destruct b; simpl in *; lia.
Qed.

Lemma inv_tick s l1 l2 c X (e : HostCall X) k cl x s' :
  h X e s = (x, s') -> inv (System s (l1 ++ Tick (Vis e k) cl :: l2) c) ->
  inv (System s' (l1 ++ rest_of_tick (k x) (cl || wrote localRateLimitLastRefilled e x) ++ l2)
         (count_tick e x c)).
Proof.
  intros Hh (n & l & debts & Hr & Hf & Hlen & Ha). simpl in *.
  pose proof (call_evolves _ _ _ _ _ Hh) as He.
  destruct (others_evolve _ _ _ _ _ _ _ He Hf Hlen) as (d & Hp & Hothers).
  pose proof (phase_debt _ _ _ _ _ _ Hp) as Hd.
  pose proof (tick_call _ _ _ _ _ _ _ _ _ Hmax Hp Hr ltac:(done) x s' Hh) as Hcall.
  rewrite pending_app in Ha. simpl in Ha. destruct Hr as [[Hn _] _ _].
  unfold is_u in Hmax, Htpr, Hint, Hn.
  destruct (wrote localRateLimitTokenBucket e x) eqn:Hw.
  - destruct Hcall as (-> & Hwl & Hk & Hr'). rewrite Hk. simpl.
    destruct (Hothers [] []) as (debts' & Hf' & Hs); [constructor|].
    pose proof (refilled_le n tokens_per_refill max_tokens) as Hre.
    exists (refilled n tokens_per_refill max_tokens), l, debts'. simpl in *. split_and!; try done.
    { apply (length_rest l1 l2 []) in Hlen; [done|simpl; lia]. }
    rewrite pending_app. unfold count_tick. rewrite Hw, Hwl. simpl.
    destruct Ha. split; simpl; lia.
  - destruct Hcall as [Hr' Hcases].
    set (wl := wrote localRateLimitLastRefilled e x) in *.
    assert (exists drest, Forall2 (phase s') (rest_of_tick (k x) (cl || wl)) drest /\
      sum_Z drest <= d /\ (length (rest_of_tick (k x) (cl || wl)) <= 1)%nat /\
      sum_Z (map pending (rest_of_tick (k x) (cl || wl))) <= Z.b2z (cl || wl))
      as (drest & Hrest & Hsum & Hl1 & Hpe).
    { destruct Hcases as [->|Hp'].
      - exists []. simpl. split_and!; try done; try lia. destruct (cl || wl)%bool; simpl; lia.
      - pose proof (phase_not_ret_tick _ _ _ _ Hp') as ->. exists [d]. simpl.
        split_and!; [by repeat constructor|lia|done|]. destruct (cl || wl)%bool; simpl; lia. }
    destruct (Hothers _ _ Hrest) as (debts' & Hf' & Hs).
    pose proof (length_rest _ _ _ _ Hl1 Hlen) as Hlen'.
    destruct wl eqn:Hwl.
    + destruct Hr' as (-> & l' & Hl' & Hr'). exists n, l', debts'. simpl in *.
      split_and!; try done. rewrite !pending_app. unfold count_tick. rewrite Hw. fold wl. rewrite Hwl.
      destruct Ha. split; simpl in *; lia.
    + exists n, l, debts'. simpl in *. split_and!; try done.
      rewrite !pending_app. unfold count_tick. rewrite Hw. fold wl. rewrite Hwl.
      destruct Ha. split; destruct cl; simpl in *; lia.
Qed.

Lemma inv_start s l c t :
  phase s t 0 -> pending t = 0 -> (length l < vms)%nat -> inv (System s l c) ->
  inv (System s (t :: l) c).
Proof.
  intros Hp Hpe Hlt (n & d & debts & Hr & Hf & Hlen & Ha). exists n, d, (0 :: debts).
  simpl in *. split_and!; [done|by constructor|lia|].
  rewrite Hpe. destruct Ha. split; lia.
Qed.

Lemma inv_step sys sys' :
  sys_step h vms max_tokens tokens_per_refill interval sys sys' -> inv sys -> inv sys'.
Proof.
  intros [s l c Hlt|s l c fuel Hlt|s l1 l2 c X e k x s' Hh|s l1 l2 c X e k cl x s' Hh
    |s l c X e x s' He Hh] Hi.
  - apply inv_start; try done. by apply (about_to_read _ _ _ s 19 0).
  - apply inv_start; try done. by apply (about_to_check _ _ _ s fuel 0).
  - by eapply inv_request.
  - by eapply inv_tick.
  - destruct Hi as (n & d & debts & Hr & Hf & Hlen & Ha). exists n, d, debts. simpl in *.
    split_and!; try done; [by eapply ready_frame|].
    pose proof (call_evolves _ _ _ _ _ Hh) as Hev.
    assert (wrote localRateLimitTokenBucket e x = false) as Hw by (destruct e; done || by destruct He).
    rewrite Hw in Hev. eapply Forall2_impl; [exact Hf|]. intros t dt Ht.
    apply (phase_evolves _ _ _ _ _ _ _ _ Hev) in Ht. by rewrite Z.add_0_r in Ht.
Qed.

Lemma inv_steps sys sys' :
  steps h vms max_tokens tokens_per_refill interval sys sys' -> inv sys -> inv sys'.
Proof. induction 1 as [|x y z Hxy _ IH]; [done|]. intros Hi. by apply IH, (inv_step x). Qed.

Lemma inv_initial s :
  ready s initial l0 -> inv (System s [] no_counts).
Proof.
  intros Hr. exists initial, l0, []. simpl. split_and!; [done|constructor|simpl; lia|].
  split; simpl; lia.
Qed.
End invariant.

(** ** Theorems *)

(** The next call of a request is its 429. *)
Definition replies (m : host_prog FilterHeadersStatus) : bool :=
  match m with
  | Vis (SendLocalResponse _ _ _ _) _ => true
  | _ => false
  end.

(** One call of a program. *)
Definition advance {S A} (h : handler HostCall S) (m : host_prog A) (s : S) : host_prog A * S :=
  match m with
  | Vis e k => let '(x, s') := h _ e s in (k x, s')
  | m => (m, s)
  end.

Section rate_limit_theorems.
Context {S : Type} {h : handler HostCall S} `{!SharedStore h}.

(** A state of the system [vms] VMs reach, under any configuration, from a bucket
    of [initial] tokens dated [l0] and no handler in progress. *)
Record reaches (vms : nat) (max_tokens tokens_per_refill interval initial l0 : Z)
    (sys : system S) : Prop := {
  reaches_max : is_u 64 max_tokens;
  reaches_per_refill : is_u 64 tokens_per_refill;
  reaches_interval : is_u 64 interval;
  reaches_steps : exists s0, ready s0 initial l0 /\
    steps h vms max_tokens tokens_per_refill interval (System s0 [] no_counts) sys
}.

Context (vms : nat) (max_tokens tokens_per_refill interval initial l0 : Z) (sys : system S).

Lemma reachable_inv :
  reaches vms max_tokens tokens_per_refill interval initial l0 sys ->
  inv vms max_tokens tokens_per_refill interval initial l0 sys.
Proof. intros [? ? ? (s0 & ? & ?)]. eapply inv_steps; [done..|]. by apply inv_initial. Qed.

(** C1: the rate limit, over all VMs and all interleavings of their handlers.
    From a bucket of [initial] tokens dated [l0], the requests take at most
    [initial] tokens plus [tokens_per_refill] for each whole interval since
    [l0]; the requests that continue without a token, because they lost 20
    races, are at most one for 20 writes and per VM other than their own. *)
Theorem rate_bound :
  reaches vms max_tokens tokens_per_refill interval initial l0 sys ->
  0 < interval ->
  let elapsed := (clock (host sys) - l0) / interval in
  taken (counts sys) <= initial + elapsed * tokens_per_refill /\
  refills (counts sys) <= elapsed /\
  taken (counts sys) <= admitted (counts sys) /\
  20 * (admitted (counts sys) - taken (counts sys)) <=
    (Z.of_nat vms - 1) * (taken (counts sys) + refills (counts sys)).
Proof.
  intros Hreach Hpos elapsed. pose proof Hreach as [Hmax Htpr Hint _].
  destruct (reachable_inv Hreach) as (n & l & debts & [[Hn _] _ Hc] & Hf & _ & Ha).
  apply debts_nonneg in Hf. pose proof (pendings_nonneg (threads sys)) as Hpe.
  unfold is_u in *. destruct Ha as [Ht Hr Hb _ _ Hcl Hck Had Hlost].
  assert (claims (counts sys) <= elapsed) as He.
  { apply Z.div_le_lower_bound; [done|]. lia. }
  split_and!; try lia. nia.
Qed.

(** Tokens are conserved.  Until the first refill, what is left in the bucket
    and what has been taken make up the initial fill; and a single VM lets
    exactly as many requests through as it takes tokens. *)
Theorem tokens_conserved :
  reaches vms max_tokens tokens_per_refill interval initial l0 sys ->
  (refills (counts sys) = 0 -> exists n, holds (host sys) localRateLimitTokenBucket n /\
     n + taken (counts sys) = initial) /\
  (vms = 1%nat -> admitted (counts sys) = taken (counts sys)).
Proof.
  intros Hreach. destruct (reachable_inv Hreach) as (n & l & debts & [Hb _ _] & Hf & _ & Ha). split.
  - intros H. exists n. split; [done|]. by apply Ha.
  - intros ->. apply debts_nonneg in Hf. destruct Ha. lia.
Qed.

(** C24: the shared data stays well formed whatever the interleaving: the bucket
    is always a [uint64_t], never above the larger of the initial fill and the
    maximum, its date is never in the future, and so no handler in progress is
    ever in undefined behaviour. *)
Theorem shared_data_wf :
  reaches vms max_tokens tokens_per_refill interval initial l0 sys ->
  (exists n, holds (host sys) localRateLimitTokenBucket n /\ n <= Z.max initial max_tokens) /\
  (exists l, holds (host sys) localRateLimitLastRefilled l /\ l0 <= l <= clock (host sys)) /\
  Forall (fun t => match t with
                   | Request (UB _) => False | Tick (UB _) _ => False | _ => True end) (threads sys).
Proof.
  intros Hreach. pose proof Hreach as [_ _ Hint _].
  destruct (reachable_inv Hreach) as (n & l & debts & [Hb Hl Hc] & Hf & _ & Ha).
  split; [exists n; split; [done|by apply Ha]|]. split.
  - exists l. split; [done|]. unfold is_u in Hint.
    pose proof (pendings_nonneg (threads sys)) as Hpe.
    destruct Ha. split; nia.
  - clear Ha. induction Hf as [|t d l1 l2 Hp _ IH]; constructor; [|done].
    destruct Hp as [| | | | | |[]|]; done.
Qed.

(** C30: a request is refused only when the bucket is empty: at the call after
    which it is bound to reply 429, the bucket holds 0. *)
Theorem refused_only_when_empty l1 l2 X (e : HostCall X) k x s' :
  reaches vms max_tokens tokens_per_refill interval initial l0 sys ->
  threads sys = l1 ++ Request (Vis e k) :: l2 ->
  h X e (host sys) = (x, s') -> replies (k x) = true ->
  holds (host sys) localRateLimitTokenBucket 0.
Proof.
  intros Hreach Ht Hh Hk. destruct (reachable_inv Hreach) as (n & l & debts & Hr & Hf & _ & _).
  rewrite Ht in Hf. apply Forall2_app_inv_l in Hf as (d1 & d2 & _ & Hf & _).
  apply Forall2_cons_inv_l in Hf as (d & d3 & Hp & _ & _).
  pose proof (refusing_call _ _ _ _ _ _ _ _ Hp Hr x s' Hh Hk) as ->. apply Hr.
Qed.
End rate_limit_theorems.

Section initialize_race.
Context {S : Type} {h : handler HostCall S} `{!SharedStore h}.

(** C32: two VMs that start together can initialise the bucket twice.  Once a VM
    has found no bucket, the rest of its [initializeTokenBucket] fills the bucket
    again whatever the others have done since: its writes name no version, so
    [CasMismatch] does not stop them. *)
Theorem initialize_race s tokens later :
  view s localRateLimitLastRefilled = None -> is_u 64 tokens ->
  let r := run h (fst (advance h (initializeTokenBucket tokens) s)) later in
  result r = Done true /\ holds (final r) localRateLimitTokenBucket tokens /\
  holds (final r) localRateLimitLastRefilled 0.
Proof.
  intros Hv Ht. unfold initializeTokenBucket. cbn -[le64_encode].
  destruct (get_none _ _ Hv) as (r & v & c & -> & Hr). cbn -[le64_encode].
  rewrite decide_False by done.
  destruct (set_ok later localRateLimitLastRefilled (le64_encode 0) 0) as (s1 & c1 & Hs1 & Hv1 & _);
    [by left|].
  destruct (set_ok s1 localRateLimitTokenBucket (le64_encode tokens) 0) as (s2 & c2 & Hs2 & Hv2 & _);
    [by left|].
  pose proof (set_other s1 localRateLimitTokenBucket (le64_encode tokens) 0
    localRateLimitLastRefilled keys_differ) as Ho.
  cbn -[le64_encode]. rewrite Hs1. cbn -[le64_encode].
  rewrite (decide_False (P := Ok = CasMismatch)), (decide_False (P := Ok <> Ok)) by (done || tauto).
  cbn -[le64_encode]. rewrite Hs2 in Ho |- *. cbn -[le64_encode] in *. rewrite Hv1 in Ho.
  rewrite (decide_False (P := Ok <> Ok)) by tauto. cbn -[le64_encode].
  split; [done|]. split; (split; [done|eauto]).
Qed.
End initialize_race.

(** ** Witnesses *)

Section rate_limit_witnesses.
(** One VM, one request: 2 tokens, at most 3, 2 per second. *)
Definition one_step : store := final (run bucket_host getToken started).

Lemma example_ready : ready (h := bucket_host) started 2 0.
Proof. destruct started_holds. split; [done..|]. by vm_compute. Qed.

Definition one_admitted : counters := {| admitted := 1; taken := 1; claims := 0; refills := 0 |}.

Definition example_system : system store := System one_step [] one_admitted.

Lemma example_started :
  steps bucket_host 1 3 2 1000000000 (System started [] no_counts)
    (System started [Request onRequestHeaders] no_counts).
Proof. eapply rtc_l; [apply start_request; simpl; lia|]. reflexivity. Qed.

Lemma example_steps :
  steps bucket_host 1 3 2 1000000000 (System started [] no_counts) example_system.
Proof.
  etransitivity; [exact example_started|].
  eapply rtc_l; [eapply (call_request _ _ _ _ _ _ [] []); reflexivity|].
  eapply rtc_l; [eapply (call_request _ _ _ _ _ _ [] []); reflexivity|].
  reflexivity.
Qed.

Lemma example_reaches : reaches (h := bucket_host) 1 3 2 1000000000 2 0 example_system.
Proof. split; [by vm_compute..|]. exists started. split; [exact example_ready|exact example_steps]. Qed.

Lemma rate_bound_witness :
  taken (counts example_system) <=
    2 + ((clock (h := bucket_host) (host example_system) - 0) / 1000000000) * 2.
Proof.
  exact (proj1 (rate_bound (h := bucket_host) 1 3 2 1000000000 2 0 example_system
    example_reaches ltac:(lia))).
Defined.

Lemma tokens_conserved_witness :
  exists n, holds (h := bucket_host) (host example_system) localRateLimitTokenBucket n /\
    n + taken (counts example_system) = 2.
Proof.
  exact (proj1 (tokens_conserved (h := bucket_host) 1 3 2 1000000000 2 0 example_system
    example_reaches) eq_refl).
Defined.

Lemma shared_data_wf_witness :
  exists n, holds (h := bucket_host) (host example_system) localRateLimitTokenBucket n /\
    n <= Z.max 2 3.
Proof.
  exact (proj1 (shared_data_wf (h := bucket_host) 1 3 2 1000000000 2 0 example_system
    example_reaches)).
Defined.

(** A store whose bucket is empty. *)
Definition drained : store := final (run bucket_host (serve 2) started).

Lemma drained_ready : ready (h := bucket_host) drained 0 0.
Proof.
  split; [split; [by vm_compute|]|split; [by vm_compute|]|by vm_compute].
  - exists 4. vm_compute. reflexivity.
  - exists 1. vm_compute. reflexivity.
Qed.

Lemma refused_only_when_empty_witness :
  holds (h := bucket_host) drained localRateLimitTokenBucket 0.
Proof.
  refine (refused_only_when_empty (h := bucket_host) 1 3 2 1000000000 0 0
    (System drained [Request onRequestHeaders] no_counts) [] [] _ _ _ _ _ _ eq_refl eq_refl _).
  - split; [by vm_compute..|]. exists drained. split; [exact drained_ready|].
    eapply rtc_l; [apply start_request; simpl; lia|]. reflexivity.
  - vm_compute. reflexivity.
Defined.

Lemma initialize_race_witness :
  let r := run bucket_host (fst (advance bucket_host (initializeTokenBucket 2) empty_store)) drained in
  holds (h := bucket_host) (final r) localRateLimitTokenBucket 2.
Proof.
  exact (proj1 (proj2 (initialize_race (h := bucket_host) empty_store 2 drained
    ltac:(by vm_compute) ltac:(by vm_compute)))).
Defined.
End rate_limit_witnesses.
