(* ===== verification/TokenBucket.v ===== *)
(** * The local rate limiter as a token bucket

    The specification that the plugin promises: a bucket of tokens that is refilled
    when its interval has passed.  The handlers of all VMs, one after the other
    and in any order, with other calls of the proxy in between, refine it; so that
    a request that is tried again after every tick waits for one interval at
    most.  ([RateLimit] is about handlers that interrupt each other.) *)

From stdpp Require Import base tactics numbers list strings gmap.
From Stdlib Require Import ZArith Lia.
From S2P Require Import Prelude HostApi Absl Json Bytes SharedData Bucket.
Local Open Scope Z_scope.
Local Open Scope wasm_scope.

(** ** Specification *)

Record bucket := { tokens : Z; dated : Z }.

(** Handlers of any VM, and other calls of the proxy. *)
Inductive serial_event :=
| Request
| Tick (fuel : nat)
| Elsewhere {X : Type} (e : HostCall X).

(** The call leaves shared data alone and does not read the clock. *)
Definition unrelated (ev : serial_event) : bool :=
  match ev with
  | Elsewhere (SetSharedData _ _ _) => false
  | Elsewhere GetCurrentTimeNanoseconds => false
  | _ => true
  end.

Section specification.
Context (max_tokens tokens_per_refill interval : Z).

Definition take (b : bucket) : FilterHeadersStatus * bucket :=
  if decide (tokens b = 0) then (StopIteration, b)
  else (Continue, {| tokens := tokens b - 1; dated := dated b |}).

Definition refill (now : Z) (b : bucket) : bucket :=
  if decide (interval <= now -64 dated b) then
    {| tokens := refilled (tokens b) tokens_per_refill max_tokens; dated := now |}
  else b.

(** What a history answers, when its ticks read these times. *)
Fixpoint answers (evs : list serial_event) (times : list Z) (b : bucket) : list FilterHeadersStatus * bucket :=
  match evs with
  | [] => ([], b)
  | Request :: evs => let '(st, b) := take b in let '(l, b) := answers evs times b in (st :: l, b)
  | Tick _ :: evs =>
      match times with
      | now :: times => answers evs times (refill now b)
      | [] => ([], b)
      end
  | Elsewhere _ :: evs => answers evs times b
  end.

(** The handlers, one after the other. *)
Fixpoint serial (evs : list serial_event) : host_prog (list FilterHeadersStatus) :=
  match evs with
  | [] => mret []
  | Request :: evs => st ← onRequestHeaders; l ← serial evs; mret (st :: l)
  | Tick fuel :: evs =>
      _ ← onTick (S fuel) (configured max_tokens tokens_per_refill interval); serial evs
  | Elsewhere e :: evs => _ ← trigger e; serial evs
  end.

(** A request follows every tick. *)
Fixpoint retried (evs : list serial_event) : bool :=
  match evs with
  | [] => true
  | Tick _ :: (Request :: _) as evs => retried evs
  | Tick _ :: _ => false
  | _ :: evs => retried evs
  end.

(** Some request that comes right after a tick is let through, as these answers say. *)
Fixpoint retry_served (evs : list serial_event) (statuses : list FilterHeadersStatus) : bool :=
  match evs with
  | [] => false
  | Request :: evs => match statuses with [] => false | _ :: statuses => retry_served evs statuses end
  | Tick _ :: evs =>
      match evs, statuses with
      | Request :: _, Continue :: _ => true
      | _, _ => retry_served evs statuses
      end
  | Elsewhere _ :: evs => retry_served evs statuses
  end.

Fixpoint ticks (evs : list serial_event) : nat :=
  match evs with
  | [] => 0
  | Tick _ :: evs => S (ticks evs)
  | _ :: evs => ticks evs
  end.

(** ** The bucket alone *)

Lemma refill_due now b :
  0 <= dated b -> dated b + interval <= now -> dated b <= now < 2 ^ 64 ->
  refill now b = {| tokens := refilled (tokens b) tokens_per_refill max_tokens; dated := now |}.
Proof. intros Hd Hi Hn. unfold refill. rewrite decide_True; [done|]. rewrite u64_id by lia. lia. Qed.

Lemma refilled_positive n :
  0 <= n -> 0 < max_tokens -> 0 < tokens_per_refill -> n + tokens_per_refill < 2 ^ 64 ->
  0 < refilled n tokens_per_refill max_tokens.
Proof. intros. unfold refilled. rewrite u64_id by lia. lia. Qed.

(** The first tick that is late enough finds the bucket as old as it was. *)
Lemma retried_served evs times b :
  retried evs = true -> length times = ticks evs ->
  Exists (fun now => dated b + interval <= now) times -> Forall (fun now => dated b <= now < 2 ^ 64) times ->
  0 <= dated b -> 0 <= tokens b -> 0 < max_tokens -> 0 < tokens_per_refill ->
  tokens b + tokens_per_refill < 2 ^ 64 ->
  retry_served evs (fst (answers evs times b)) = true.
Proof.
  intros Hr Hl He Hf Hd Hn Hm Ht. revert times b Hr Hl He Hf Hd Hn.
  induction evs as [|ev evs IH]; intros times b Hr Hl He Hf Hd Hn Hu.
  { destruct times; [by inversion He|done]. }
  destruct ev as [|fuel|X e]; cbn [answers].
  - assert (dated (snd (take b)) = dated b /\ 0 <= tokens (snd (take b)) <= tokens b) as [Hd' Hn'].
    { unfold take. case_decide; simpl; lia. }
    destruct (take b) as [st b1]. cbn [fst snd] in *.
    specialize (IH times b1 Hr Hl). rewrite Hd' in IH. specialize (IH He Hf Hd). 
    destruct (answers evs times b1). cbn [retry_served fst] in *. apply IH; lia.
  - destruct times as [|now times]; [done|]. destruct evs as [|[] evs]; try done.
    apply Forall_cons in Hf as [Hnow Hf]. destruct (decide (dated b + interval <= now)) as [Hdue|Hdue].
    + rewrite refill_due by done. cbn [answers]. unfold take. cbn [tokens].
      rewrite decide_False by (pose proof (refilled_positive (tokens b)); lia).
      by destruct (answers evs times _).
    + assert (refill now b = b) as ->.
      { unfold refill. rewrite decide_False; [done|]. rewrite u64_id by lia. lia. }
      apply Exists_cons in He as [He|He]; [lia|].
      specialize (IH times b Hr ltac:(by injection Hl) He Hf Hd Hn Hu). cbn [retry_served].
      by destruct (fst (answers (Request :: evs) times b)) as [|[] ?].
  - by apply IH.
Qed.
End specification.

(** ** The handlers refine the bucket *)

Section refinement.
Context {S} {h : handler HostCall S} `{!SharedStore h}.
Context (max_tokens tokens_per_refill interval : Z) (max_tokens_ok : is_u 64 max_tokens).

(** The shared data are the bucket. *)
Record represents (s : S) (b : bucket) : Prop := {
  tokens_held : holds s localRateLimitTokenBucket (tokens b);
  date_held : holds s localRateLimitLastRefilled (dated b)
}.

Lemma represents_frame X (e : HostCall X) s b : ~ is_set e -> represents s b -> represents (snd (h _ e s)) b.
Proof. intros He [H1 H2]. split; by apply holds_frame. Qed.

(** A request leaves the date, and does not read the clock. *)
Lemma getToken_loop_timeless retries : never clock_of (getToken_loop retries).
Proof.
  induction retries as [|n IH]; [done|]. cbn -[read_u64 le64_encode]. intros [r [d c]]. split; [done|].
  case_decide; [done|]. apply never_bind; [unfold read_u64; by destruct (le64_decode d)|]. intros k.
  case_decide; [done|]. intros res. split; [done|]. by repeat case_decide.
Qed.

Lemma request_timeless : never clock_of onRequestHeaders.
Proof.
  unfold onRequestHeaders, shouldRateLimit. apply never_bind; [|by intros []].
  apply never_bind; [apply getToken_loop_timeless|done].
Qed.

Lemma request_refines s b :
  represents s b ->
  let r := run h onRequestHeaders s in
  result r = Done (fst (take b)) /\ represents (final r) (snd (take b)) /\ observe clock_of (trace r) = [].
Proof.
  intros [Ht Hd].
  pose proof (never_traces _ _ _ _ request_timeless (run_traces h onRequestHeaders s)) as Hq.
  destruct (run_onRequestHeaders s _ Ht) as (Hr & _ & Hb & Ho).
  assert (holds (final (run h onRequestHeaders s)) localRateLimitLastRefilled (dated b)) as Hd'.
  { destruct Hd as [Hu [c Hv]]. split; [done|]. exists c. by rewrite Ho. }
  unfold take. rewrite Hr. revert Hb. case_decide as Hn; intros Hb; (split; [done|]); (split; [|done]); [|done].
  split; cbn; [by rewrite Hn|done].
Qed.

Lemma tick_refines fuel s b :
  represents s b ->
  let r := run h (onTick (Datatypes.S fuel) (configured max_tokens tokens_per_refill interval)) s in
  exists now, clock s <= now <= clock (final r) /\ is_u 64 now /\ result r = Done tt /\
    observe clock_of (trace r) = [now] /\
    represents (final r) (refill max_tokens tokens_per_refill interval now b).
Proof.
  intros [Ht Hd] r. destruct (refillToken_spec (Datatypes.S fuel) s (dated b) (tokens b) tokens_per_refill interval
    max_tokens Hd Ht max_tokens_ok ltac:(lia)) as (now & Hc & Hn & Hr & Ho & Hdate & Htok).
  exists now. do 4 (split; [done|]). unfold refill. case_decide as Hdue.
  - rewrite bool_decide_eq_true_2 in Hdate, Htok by done. by split.
  - rewrite bool_decide_eq_false_2 in Hdate, Htok by done. by split.
Qed.

Lemma elsewhere_refines X (e : HostCall X) s b :
  unrelated (Elsewhere e) = true -> represents s b ->
  represents (snd (h _ e s)) b /\ forall x, clock_of (Ev e x) = None.
Proof.
  intros Hu Hb. split; [apply represents_frame; [|done]; intros Hs; by destruct e|]. by destruct e.
Qed.

Lemma serial_refines evs s b :
  forallb unrelated evs = true -> represents s b ->
  let r := run h (serial max_tokens tokens_per_refill interval evs) s in
  let times := observe clock_of (trace r) in
  let a := answers max_tokens tokens_per_refill interval evs times b in
  result r = Done (fst a) /\ represents (final r) (snd a) /\
  length times = ticks evs /\ Forall (fun now => clock s <= now <= clock (final r)) times.
Proof.
  revert s b. induction evs as [|ev evs IH]; intros s b Hu Hb; [done|].
  apply andb_true_iff in Hu as [He Hu]. destruct ev as [|fuel|X e]; cbn [serial].
  - destruct (request_refines s b Hb) as (Hr & Hb' & Hq). rewrite run_bind, Hr.
    destruct (take b) as [st b1] eqn:Et. cbn [fst snd] in *.
    destruct (IH _ b1 Hu Hb') as (Hr2 & Hb2 & Hl & Hf). rewrite run_bind, Hr2. 
    cbn [result trace final run mret prog_mret]. rewrite app_nil_r, omap_app, Hq. cbn [app answers ticks]. rewrite Et.
    destruct (answers _ _ _ evs _ b1) as [l b2]. do 3 (split; [done|]).
    eapply Forall_impl; [exact Hf|]. pose proof (run_clock onRequestHeaders s). cbn beta. intros. lia.
  - destruct (tick_refines fuel s b Hb) as (now & Hc & Hn & Hr & Ho & Hb'). rewrite run_bind, Hr.
    destruct (IH _ _ Hu Hb') as (Hr2 & Hb2 & Hl & Hf).
    cbn [result trace final]. rewrite omap_app, Ho. cbn [app answers ticks]. do 2 (split; [done|]).
    split; [simpl; by f_equal|]. pose proof (run_clock (serial max_tokens tokens_per_refill interval evs)
      (final (run h (onTick (Datatypes.S fuel) (configured max_tokens tokens_per_refill interval)) s))).
    constructor; [lia|]. eapply Forall_impl; [exact Hf|]. cbn beta. intros. lia.
  - destruct (elsewhere_refines X e s b He Hb) as [Hb' Hq]. rewrite run_bind.
    cbn [trigger run result trace final]. pose proof (clock_mono _ e s) as Hc. destruct (h X e s) as [x s'].
    cbn [run result trace final fst snd] in *. destruct (IH s' b Hu Hb') as (Hr2 & Hb2 & Hl & Hf).
    cbn [app]. rewrite omap_cons, Hq. cbn [answers ticks]. do 3 (split; [done|]).
    eapply Forall_impl; [exact Hf|]. cbn beta. intros. lia.
Qed.
End refinement.

(** ** Theorems *)

Section theorems.
Context {S} {h : handler HostCall S} `{!SharedStore h}.

(** C4: the plugin is a token bucket.  Run the handlers of any VMs one after the other, with
    other calls of the proxy in between, from shared data that hold a number of tokens and a date:
    they end, without undefined behaviour, with the answers that the abstract bucket gives when its
    ticks are at the times that the handlers read, in the order of the clock, and the
    shared data hold what the abstract bucket does. *)
Theorem handlers_refine_bucket max_tokens tokens_per_refill interval evs s b :
  is_u 64 max_tokens -> forallb unrelated evs = true -> represents s b ->
  let r := run h (serial max_tokens tokens_per_refill interval evs) s in
  let times := observe clock_of (trace r) in
  let a := answers max_tokens tokens_per_refill interval evs times b in
  result r = Done (fst a) /\ represents (final r) (snd a) /\
  length times = ticks evs /\ Forall (fun now => clock s <= now <= clock (final r)) times.
Proof. intros Hm. by apply serial_refines. Qed.

(** C5: a request waits for one interval at most.  When a request comes right after every
    tick, and one of the ticks reads the clock an interval after the present or later, one of
    these requests is let through, however many other requests take tokens.  The maximum and
    the number of tokens of a refill are positive, and the tokens that are held are so few
    that a refill does not overflow; the last refill was not in the future. *)
Theorem retried_request_served max_tokens tokens_per_refill interval evs s b :
  is_u 64 max_tokens -> 0 < max_tokens -> 0 < tokens_per_refill -> tokens b + tokens_per_refill < 2 ^ 64 ->
  forallb unrelated evs = true -> retried evs = true -> represents s b -> dated b <= clock s ->
  let r := run h (serial max_tokens tokens_per_refill interval evs) s in
  Exists (fun now => clock s + interval <= now) (observe clock_of (trace r)) ->
  exists statuses, result r = Done statuses /\ retry_served evs statuses = true.
Proof.
  intros Hm Hpos Ht Hu Hun Hr Hb Hd r He.
  destruct (serial_refines max_tokens tokens_per_refill interval Hm evs s b Hun Hb) as (Hres & _ & Hl & Hf).
  fold r in Hres, Hl, Hf. exists (fst (answers max_tokens tokens_per_refill interval evs (observe clock_of (trace r)) b)).
  split; [done|]. destruct Hb as [[[Hn _] _] [[Hdb _] _] ].
  apply retried_served; try done.
  - eapply Exists_impl; [exact He|]. cbn. intros. lia.
  - eapply Forall_impl; [exact Hf|]. cbn. intros now Hnow. pose proof (clock_bound (final r)). lia.
Qed.
End theorems.

(** ** Witnesses *)

Section witnesses.
(** A bucket of at most 3, refilled with 2 every 2 s, that was refilled 6 s after the epoch
    and has been drained since. *)
Definition interval : Z := 2000000000.
Definition token_host : handler HostCall store := store_host "" 1000000000.
Definition drained : store :=
  final (run token_host (serial 3 2 interval [Tick 0; Request; Request; Request; Request])
    (final (run token_host (initializeTokenBucket 2) {| data := ∅; next_version := 1; time := 5000000000 |}))).

Definition drained_bucket : bucket := {| tokens := 0; dated := 6000000000 |}.

Lemma drained_represents : represents (h := token_host) drained drained_bucket.
Proof.
  split; (split; [by vm_compute|]).
  - exists 7. vm_compute. reflexivity.
  - exists 3. vm_compute. reflexivity.
Qed.

(** Tries of one request, between the ticks of two VMs. *)
Definition tries : list serial_event :=
  [Request; Tick 0; Request; Elsewhere (GetString ["node"; "id"]); Tick 3; Request].

Lemma handlers_refine_bucket_witness :
  result (run token_host (serial 3 2 interval tries) drained) = Done [StopIteration; StopIteration; Continue].
Proof.
  exact (proj1 (handlers_refine_bucket (h := token_host) 3 2 interval tries drained drained_bucket
    ltac:(by vm_compute) eq_refl drained_represents)).
Defined.

Lemma retried_request_served_witness :
  exists statuses, result (run token_host (serial 3 2 interval tries) drained) = Done statuses /\
    retry_served tries statuses = true.
Proof.
  apply (retried_request_served (h := token_host) 3 2 interval tries drained drained_bucket).
  - by vm_compute.
  - lia.
  - lia.
  - by vm_compute.
  - reflexivity.
  - reflexivity.
  - exact drained_represents.
  - by vm_compute.
  - apply Exists_exists. exists 8000000000. split; [|by vm_compute]. vm_compute. right. left.
Defined.
End witnesses.
