(* ===== verification/OpaCache.v ===== *)
(** * The result cache of the OPA plugin ([extensions/open_policy_agent/cache.{h,cc}])

    A map of results with a recency list and, per key, the iterator of its list
    node.  A [std::list] iterator is the identity of its node, so the list is one
    of numbered nodes, and erasing through an iterator whose node is gone is
    undefined.  The cache is proved to refine a least-recently-used list as long
    as the keys it evicts fit in an [int]; [use] truncates the others. *)

From stdpp Require Import base tactics numbers list strings gmap.
From Stdlib Require Import ZArith Lia.
From S2P Require Import Prelude.
Local Open Scope Z_scope.
Local Open Scope wasm_scope.

Definition MAX_NUM_ENTRY : nat := 1000.

Record Payload := {
  source_principal : string;
  destination_workload : string;
  request_method : string;
  request_url_path : string
}.

Record ResultCache := {
  valid_for_nanosec_ : Z;
  result_cache_ : gmap Z (bool * Z);
  (** Nodes, most recent first: identity and hash. *)
  recent_ : list (Z * Z);
  pos_ : gmap Z Z;
  (** The identity of the next node allocated. *)
  next_node : Z
}.

Definition initial_cache : ResultCache :=
  {| valid_for_nanosec_ := 10000000000; result_cache_ := ∅; recent_ := []; pos_ := ∅; next_node := 0 |}.

Definition setValidDuration (valid_for_sec : Z) (c : ResultCache) : ResultCache :=
  {| valid_for_nanosec_ := valid_for_sec *64 1000000000; result_cache_ := result_cache_ c;
     recent_ := recent_ c; pos_ := pos_ c; next_node := next_node c |}.

Section cache.
(** [std::hash<std::string>] *)
Context (std_hash : string -> Z).

Definition computeHash (payload : Payload) : Z :=
  let kMul := 11376068507788127593 in
  let h := 0 in
  let h := h +64 (std_hash (source_principal payload) *64 kMul) in
  let h := h +64 (std_hash (destination_workload payload) *64 kMul) in
  let h := h +64 (std_hash (request_method payload) *64 kMul) in
  let h := h +64 (std_hash (request_url_path payload) *64 kMul) in
  h.
End cache.

(** [recent_.erase(iterator)]: [None] when the node is not in the list. *)
Fixpoint erase_node (node : Z) (l : list (Z * Z)) : option (list (Z * Z)) :=
  match l with
  | [] => None
  | (n, hash) :: l' =>
      if decide (n = node) then Some l' else l'' ← erase_node node l'; Some ((n, hash) :: l'')
  end.

(** [recent_.push_front(hash); pos_[hash] = recent_.begin();] *)
Definition push_front (hash : Z) (c : ResultCache) : ResultCache :=
  {| valid_for_nanosec_ := valid_for_nanosec_ c; result_cache_ := result_cache_ c;
     recent_ := (next_node c, hash) :: recent_ c;
     pos_ := <[hash := next_node c]> (pos_ c);
     next_node := next_node c + 1 |}.

(** [int old = recent_.back()], converted back to [uint64_t] by [erase]. *)
Definition int_key (hash : Z) : Z := u64 (i32 hash).

Definition use (hash : Z) (c : ResultCache) : option ResultCache :=
  match pos_ c !! hash with
  | Some node =>
      recent ← erase_node node (recent_ c);
      Some (push_front hash
        {| valid_for_nanosec_ := valid_for_nanosec_ c; result_cache_ := result_cache_ c;
           recent_ := recent; pos_ := pos_ c; next_node := next_node c |})
  | None =>
      if decide (MAX_NUM_ENTRY <= length (recent_ c))%nat then
        '(_, back) ← list.last (recent_ c);
        let old := int_key back in
        Some (push_front hash
          {| valid_for_nanosec_ := valid_for_nanosec_ c;
             result_cache_ := delete old (result_cache_ c);
             recent_ := removelast (recent_ c); pos_ := delete old (pos_ c);
             next_node := next_node c |})
      else Some (push_front hash c)
  end.

(** [emplace] keeps an entry that is there. *)
Definition emplace (hash : Z) (entry : bool * Z) (m : gmap Z (bool * Z)) : gmap Z (bool * Z) :=
  match m !! hash with
  | Some _ => m
  | None => <[hash := entry]> m
  end.

Definition add (hash : Z) (result : bool) (timestamp : Z) (c : ResultCache) : option ResultCache :=
  c ← use hash c;
  Some {| valid_for_nanosec_ := valid_for_nanosec_ c;
          result_cache_ := emplace hash (result, timestamp) (result_cache_ c);
          recent_ := recent_ c; pos_ := pos_ c; next_node := next_node c |}.

(** [check] for the hash of the payload: the decision when there is a hit. *)
Definition check_hash (hash timestamp : Z) (c : ResultCache) : option (option bool * ResultCache) :=
  match result_cache_ c !! hash with
  | None => Some (None, c)
  | Some entry =>
      if decide (timestamp < snd entry +64 valid_for_nanosec_ c) then
        c ← use hash c; Some (Some (fst entry), c)
      else
        node ← pos_ c !! hash; (* [recent_iter->second] of [end()] is undefined *)
        recent ← erase_node node (recent_ c);
        Some (None, {| valid_for_nanosec_ := valid_for_nanosec_ c;
                       result_cache_ := delete hash (result_cache_ c); recent_ := recent;
                       pos_ := delete hash (pos_ c); next_node := next_node c |})
  end.

(** The new [hash] and [allowed], and whether there was a hit. *)
Definition check (std_hash : string -> Z) (param : Payload) (allowed : bool) (timestamp : Z)
    (c : ResultCache) : option (bool * Z * bool * ResultCache) :=
  let hash := computeHash std_hash param in
  '(decision, c) ← check_hash hash timestamp c;
  Some (match decision with
        | Some a => (true, hash, a, c)
        | None => (false, hash, allowed, c)
        end).

(** ** The specification: a list of entries, most recently used first *)

Abbreviation lru := (list (Z * (bool * Z))).

Fixpoint lru_lookup (h : Z) (l : lru) : option (bool * Z) :=
  match l with
  | [] => None
  | (k, e) :: l' => if decide (k = h) then Some e else lru_lookup h l'
  end.

Definition lru_remove (h : Z) (l : lru) : lru := filter (fun p => fst p <> h) l.

(** A new key goes to the front, for the last one when there are 1000; an old
    one moves to the front and keeps its entry. *)
Definition lru_add (h : Z) (e : bool * Z) (l : lru) : lru :=
  match lru_lookup h l with
  | Some e0 => (h, e0) :: lru_remove h l
  | None => (h, e) :: (if decide (MAX_NUM_ENTRY <= length l)%nat then removelast l else l)
  end.

(** A hit moves the entry to the front, an expired entry is dropped. *)
Definition lru_check (h timestamp valid : Z) (l : lru) : option bool * lru :=
  match lru_lookup h l with
  | None => (None, l)
  | Some e =>
      if decide (timestamp < snd e +64 valid) then (Some (fst e), (h, e) :: lru_remove h l)
      else (None, lru_remove h l)
  end.

Lemma lru_lookup_In h e l : NoDup (map fst l) -> lru_lookup h l = Some e <-> (h, e) ∈ l.
Proof.
  induction l as [|[k x] l IH]; simpl; intros Hd.
  - split; [done|]. by intros ?%not_elem_of_nil.
  - apply NoDup_cons in Hd as [Hk Hd]. rewrite elem_of_cons. case_decide as Hh.
    + subst. split; [intros [= ->]; by left|]. intros [[= ->]|Hin]; [done|].
      destruct Hk. apply list_elem_of_fmap. by exists (h, e).
    + rewrite IH by done. naive_solver.
Qed.

Lemma lru_lookup_None h l : lru_lookup h l = None <-> h ∉ map fst l.
Proof.
  induction l as [|[k x] l IH]; simpl.
  - split; [intros _; apply not_elem_of_nil|done].
  - rewrite not_elem_of_cons. case_decide; naive_solver.
Qed.

Lemma lru_remove_split h e l1 l2 :
  NoDup (map fst (l1 ++ (h, e) :: l2)) -> lru_remove h (l1 ++ (h, e) :: l2) = l1 ++ l2.
Proof.
  rewrite map_app. simpl. intros (_ & H1 & Hd)%NoDup_app. apply NoDup_cons in Hd as [H2 _].
  unfold lru_remove. rewrite filter_app, filter_cons_False by tauto.
  assert (forall l : lru, h ∉ map fst l -> filter (fun p => fst p <> h) l = l) as Hkeep.
  { induction l as [|[k x] l IH]; simpl; [done|]. rewrite not_elem_of_cons. intros [Hk Hl].
    rewrite filter_cons_True by (simpl; congruence). by rewrite IH. }
  rewrite !Hkeep; [done| |].
  - set_solver.
  - intros Hin. apply (H1 h Hin). by left.
Qed.

(** ** The representation *)

(** The recency list and the iterators: every iterator is that of a node with its
    key, and conversely, so none dangles. *)
Record ordered (c : ResultCache) : Prop := {
  ordered_nodes : NoDup (map fst (recent_ c));
  ordered_keys : NoDup (map snd (recent_ c));
  ordered_pos h n : pos_ c !! h = Some n <-> (n, h) ∈ recent_ c;
  ordered_next n h : (n, h) ∈ recent_ c -> n < next_node c
}.

(** The cache holds the entries of [l]. *)
Record represents (c : ResultCache) (l : lru) : Prop := {
  rep_ordered : ordered c;
  rep_recent : map snd (recent_ c) = map fst l;
  rep_result h e : result_cache_ c !! h = Some e <-> (h, e) ∈ l;
  rep_bound : (length l <= MAX_NUM_ENTRY)%nat
}.

Lemma rep_keys c l : represents c l -> NoDup (map fst l).
Proof. intros [Ho Hr _ _]. rewrite <- Hr. by destruct Ho. Qed.

Lemma erase_node_split n h l1 l2 :
  NoDup (map fst (l1 ++ (n, h) :: l2)) -> erase_node n (l1 ++ (n, h) :: l2) = Some (l1 ++ l2).
Proof.
  induction l1 as [|[m k] l1 IH]; simpl; intros Hd; [by rewrite decide_True|].
  apply NoDup_cons in Hd as [Hm Hd]. rewrite decide_False.
  - by rewrite IH.
  - intros ->. apply Hm. rewrite map_app. simpl. set_solver.
Qed.

Lemma erase_absent n l : n ∉ map fst l -> erase_node n l = None.
Proof.
  induction l as [|[m k] l IH]; simpl; [done|]. rewrite not_elem_of_cons. intros [Hm Hl].
  rewrite decide_False by congruence. by rewrite IH.
Qed.

(** Erasing a node through its iterator and forgetting the iterator. *)
Lemma ordered_erase c h n l1 l2 :
  ordered c -> recent_ c = l1 ++ (n, h) :: l2 ->
  ordered {| valid_for_nanosec_ := valid_for_nanosec_ c; result_cache_ := result_cache_ c;
             recent_ := l1 ++ l2; pos_ := delete h (pos_ c); next_node := next_node c |}.
Proof.
  intros [Hn Hk Hp Hx] Hr. rewrite Hr in *. split; simpl.
  - rewrite map_app in *. simpl in Hn. apply NoDup_app in Hn as (? & ? & Hn).
    apply NoDup_cons in Hn as [? ?]. apply NoDup_app. set_solver.
  - rewrite map_app in *. simpl in Hk. apply NoDup_app in Hk as (? & ? & Hk).
    apply NoDup_cons in Hk as [? ?]. apply NoDup_app. set_solver.
  - intros k m. destruct (decide (k = h)) as [->|Hne].
    + rewrite lookup_delete_eq. split; [done|]. intros Hin. exfalso.
      rewrite map_app in Hk. simpl in Hk. apply NoDup_app in Hk as (_ & Hk1 & Hk2).
      apply NoDup_cons in Hk2 as [Hk2 _]. apply elem_of_app in Hin as [Hin|Hin].
      * apply (Hk1 h); [apply list_elem_of_fmap; by exists (m, h)|by left].
      * apply Hk2. apply list_elem_of_fmap. by exists (m, h).
    + rewrite lookup_delete_ne, Hp by done. set_solver.
  - intros m k Hin. apply (Hx m k). set_solver.
Qed.

(** A fresh key at the front. *)
Lemma ordered_push c h :
  ordered c -> h ∉ map snd (recent_ c) -> ordered (push_front h c).
Proof.
  intros [Hn Hk Hp Hx] Hh. split; simpl.
  - apply NoDup_cons. split; [|done]. intros ([n k] & Heq & Hin)%list_elem_of_fmap.
    simpl in Heq. apply Hx in Hin. lia.
  - by apply NoDup_cons.
  - intros k m. rewrite elem_of_cons. destruct (decide (k = h)) as [->|Hne].
    + rewrite lookup_insert_eq. split; [intros [= <-]; by left|].
      intros [[= ->]|Hin]; [done|]. destruct Hh. apply list_elem_of_fmap. by exists (m, h).
    + rewrite lookup_insert_ne, Hp by done. split; [by right|]. intros [[= ? ?]|?]; [congruence|done].
  - intros m k [[= -> ->]|Hin]%elem_of_cons; [lia|]. apply Hx in Hin. lia.
Qed.

(** ** Each operation against the specification *)

Section use.
Context (c : ResultCache) (h : Z).

(** What [use] leaves: [h] in front of the keys that stay. *)
Definition used (keys : list Z) (results : gmap Z (bool * Z)) (c' : ResultCache) : Prop :=
  use h c = Some c' /\ ordered c' /\ map snd (recent_ c') = h :: keys /\
  result_cache_ c' = results /\ valid_for_nanosec_ c' = valid_for_nanosec_ c.

Lemma ordered_mid l1 n l2 : ordered c -> recent_ c = l1 ++ (n, h) :: l2 -> h ∉ map snd (l1 ++ l2).
Proof.
  intros [_ Hk _ _] Hr. rewrite Hr, map_app in Hk. simpl in Hk.
  apply NoDup_app in Hk as (_ & H1 & H2). apply NoDup_cons in H2 as [H2 _].
  rewrite map_app. intros [Hi|Hi]%elem_of_app; [apply (H1 h Hi); by left|done].
Qed.

Lemma use_known l1 n l2 :
  ordered c -> recent_ c = l1 ++ (n, h) :: l2 ->
  exists c', used (map snd (l1 ++ l2)) (result_cache_ c) c'.
Proof.
  intros Ho Hr. pose proof (ordered_mid _ _ _ Ho Hr) as Hh.
  pose proof (ordered_erase c h n l1 l2 Ho Hr) as He.
  apply ordered_push with (h := h) in He; [|done].
  assert (pos_ c !! h = Some n) as Hp by (apply Ho; rewrite Hr; set_solver).
  unfold used, use. rewrite Hp, Hr, erase_node_split by (rewrite <- Hr; apply Ho).
  eexists. split; [simpl; reflexivity|]. split_and!; try done.
  unfold push_front in *. simpl in *. by rewrite insert_delete_eq in He.
Qed.

Lemma unknown_pos : ordered c -> h ∉ map snd (recent_ c) -> pos_ c !! h = None.
Proof.
  intros Ho Hh. destruct (pos_ c !! h) as [n|] eqn:E; [|done]. apply Ho in E.
  destruct Hh. apply list_elem_of_fmap. by exists (n, h).
Qed.

Lemma use_new :
  ordered c -> h ∉ map snd (recent_ c) -> (length (recent_ c) < MAX_NUM_ENTRY)%nat ->
  exists c', used (map snd (recent_ c)) (result_cache_ c) c'.
Proof.
  intros Ho Hh Hl. unfold used, use. rewrite unknown_pos by done. rewrite decide_False by lia.
  eexists. split; [done|]. split; [by apply ordered_push|]. done.
Qed.

Lemma use_evict l n b :
  ordered c -> h ∉ map snd (recent_ c) -> (MAX_NUM_ENTRY <= length (recent_ c))%nat ->
  recent_ c = l ++ [(n, b)] -> int_key b = b ->
  exists c', used (map snd l) (delete b (result_cache_ c)) c'.
Proof.
  intros Ho Hh Hl Hr Hb. unfold used, use. rewrite unknown_pos by done.
  rewrite decide_True by done. rewrite Hr, last_snoc. simpl. rewrite removelast_last, Hb.
  pose proof (ordered_erase c b n l [] Ho Hr) as He. rewrite app_nil_r in He.
  eexists. split; [done|]. split_and!; try done.
  apply ordered_push with (h := h) in He; [destruct He; by split|]. simpl. rewrite Hr, map_app in Hh. set_solver.
Qed.
End use.

(** The next eviction, if there is one, is of a key that an [int] holds. *)
Definition room (h : Z) (l : lru) : Prop :=
  h ∈ map fst l \/ (length l < MAX_NUM_ENTRY)%nat \/
  match list.last l with Some (b, _) => int_key b = b | None => True end.

Section refinement.
Context (c : ResultCache) (l : lru).

(** Entry and node of a key. *)
Lemma represents_split h e :
  represents c l -> (h, e) ∈ l ->
  exists l1 l2 r1 n r2, l = l1 ++ (h, e) :: l2 /\ recent_ c = r1 ++ (n, h) :: r2 /\
    map snd r1 = map fst l1 /\ map snd r2 = map fst l2.
Proof.
  intros [_ Hr _ _] (l1 & l2 & ->)%list_elem_of_split.
  rewrite map_app in Hr. simpl in Hr. apply map_eq_app in Hr as (r1 & r2' & E & H1 & H2).
  apply map_eq_cons in H2 as ([n k] & r2 & -> & Hk & H2). simpl in Hk. subst k.
  by exists l1, l2, r1, n, r2.
Qed.

Lemma touch_represents h e c' l1 l2 :
  represents c l -> l = l1 ++ (h, e) :: l2 -> ordered c' ->
  map snd (recent_ c') = h :: map fst (l1 ++ l2) -> result_cache_ c' = result_cache_ c ->
  represents c' ((h, e) :: lru_remove h l).
Proof.
  intros Hrep Hl Ho Hr Hres. pose proof (rep_keys _ _ Hrep) as Hd. destruct Hrep as [_ _ Hrs Hb].
  subst l. rewrite lru_remove_split by done. split; [done|done| |].
  - intros k x. rewrite Hres, Hrs. set_solver.
  - rewrite length_app in Hb. simpl in *. rewrite ?length_app. lia.
Qed.

Lemma remove_represents h e l1 l2 r1 n r2 :
  represents c l -> l = l1 ++ (h, e) :: l2 -> recent_ c = r1 ++ (n, h) :: r2 ->
  map snd r1 = map fst l1 -> map snd r2 = map fst l2 ->
  represents {| valid_for_nanosec_ := valid_for_nanosec_ c;
                result_cache_ := delete h (result_cache_ c); recent_ := r1 ++ r2;
                pos_ := delete h (pos_ c); next_node := next_node c |} (lru_remove h l).
Proof.
  intros Hrep Hl Hr H1 H2. pose proof (rep_keys _ _ Hrep) as Hd.
  destruct Hrep as [Ho _ Hrs Hb]. subst l. rewrite lru_remove_split by done. split.
  - destruct (ordered_erase c h n r1 r2 Ho Hr). by split.
  - simpl. by rewrite !map_app, H1, H2.
  - simpl. intros k x. rewrite map_app in Hd. simpl in Hd. apply NoDup_app in Hd as (_ & Hd1 & Hd2).
    apply NoDup_cons in Hd2 as [Hd2 _]. destruct (decide (k = h)) as [->|Hne].
    + rewrite lookup_delete_eq. split; [done|]. intros [Hin|Hin]%elem_of_app; exfalso.
      * apply (Hd1 h); [apply list_elem_of_fmap; by exists (h, x)|by left].
      * apply Hd2. apply list_elem_of_fmap. by exists (h, x).
    + rewrite lookup_delete_ne, Hrs by done. set_solver.
  - rewrite length_app in Hb. simpl in *. rewrite ?length_app. lia.
Qed.

Lemma check_hash_refines h timestamp :
  represents c l ->
  exists c', check_hash h timestamp c = Some (fst (lru_check h timestamp (valid_for_nanosec_ c) l), c') /\
    represents c' (snd (lru_check h timestamp (valid_for_nanosec_ c) l)) /\
    valid_for_nanosec_ c' = valid_for_nanosec_ c.
Proof.
  intros Hrep. pose proof (rep_keys _ _ Hrep) as Hd. unfold check_hash, lru_check.
  destruct (lru_lookup h l) as [e|] eqn:El.
  - apply lru_lookup_In in El; [|done].
    rewrite (proj2 (rep_result _ _ Hrep h e) El).
    destruct (represents_split _ _ Hrep El) as (l1 & l2 & r1 & n & r2 & Hl & Hr & H1 & H2).
    pose proof (rep_ordered _ _ Hrep) as Ho. case_decide.
    + destruct (use_known c h r1 n r2 Ho Hr) as (c' & Hu & Ho' & Hr' & Hres & Hv).
      rewrite Hu. exists c'. split; [done|]. split; [|done]. simpl.
      eapply touch_represents; try done. rewrite Hr'. by rewrite !map_app, H1, H2.
    + assert (pos_ c !! h = Some n) as -> by (apply Ho; rewrite Hr; set_solver).
      simpl. rewrite Hr, erase_node_split by (rewrite <- Hr; apply Ho). simpl.
      eexists. split; [done|]. split; [|done]. by eapply remove_represents.
  - assert (result_cache_ c !! h = None) as ->.
    { apply lru_lookup_None in El. destruct (result_cache_ c !! h) as [e|] eqn:E; [|done].
      apply (rep_result _ _ Hrep) in E. destruct El. apply list_elem_of_fmap. by exists (h, e). }
    exists c. done.
Qed.

Lemma insert_represents h e c' base :
  ordered c' -> map snd (recent_ c') = h :: map fst base ->
  (forall k x, result_cache_ c' !! k = Some x <-> (k, x) ∈ base) ->
  h ∉ map fst base -> (length base < MAX_NUM_ENTRY)%nat ->
  represents {| valid_for_nanosec_ := valid_for_nanosec_ c';
                result_cache_ := emplace h e (result_cache_ c'); recent_ := recent_ c';
                pos_ := pos_ c'; next_node := next_node c' |} ((h, e) :: base).
Proof.
  intros Ho Hr Hrs Hh Hb. split; [by destruct Ho|done| |simpl; lia].
  intros k x. simpl. unfold emplace.
  assert (forall y, (h, y) ∉ base) as Hn.
  { intros y Hy. apply Hh, list_elem_of_fmap. by exists (h, y). }
  destruct (result_cache_ c' !! h) as [y|] eqn:E; [by apply Hrs, Hn in E|].
  rewrite elem_of_cons. destruct (decide (k = h)) as [->|Hne].
  - rewrite lookup_insert_eq. split; [intros [= <-]; by left|].
    intros [[= ->]|Hin]; [done|]. by apply Hn in Hin.
  - rewrite lookup_insert_ne, Hrs by done. split; [by right|]. intros [[= ? ?]|?]; [congruence|done].
Qed.

Lemma add_refines h result timestamp :
  represents c l -> room h l ->
  exists c', add h result timestamp c = Some c' /\
    represents c' (lru_add h (result, timestamp) l) /\
    valid_for_nanosec_ c' = valid_for_nanosec_ c.
Proof.
  intros Hrep Hroom. pose proof (rep_keys _ _ Hrep) as Hd. pose proof (rep_ordered _ _ Hrep) as Ho.
  unfold add, lru_add. destruct (lru_lookup h l) as [e|] eqn:El.
  - apply lru_lookup_In in El; [|done].
    destruct (represents_split _ _ Hrep El) as (l1 & l2 & r1 & n & r2 & Hl & Hr & H1 & H2).
    destruct (use_known c h r1 n r2 Ho Hr) as (c' & -> & Ho' & Hr' & Hres & Hv). simpl.
    eexists. split; [done|]. split; [|done].
    unfold emplace. rewrite Hres, (proj2 (rep_result _ _ Hrep h e) El).
    eapply (touch_represents h e); try done.
    + by destruct Ho'.
    + simpl. rewrite Hr'. by rewrite !map_app, H1, H2.
  - apply lru_lookup_None in El.
    assert (h ∉ map snd (recent_ c)) as Hh by (by rewrite (rep_recent _ _ Hrep)).
    assert (length (recent_ c) = length l) as Hlen.
    { rewrite <- (length_map snd), (rep_recent _ _ Hrep). apply length_map. }
    case_decide as Hfull.
    + destruct l as [|[b eb] base _] using rev_ind; [unfold MAX_NUM_ENTRY in Hfull; simpl in Hfull; lia|].
      pose proof (rep_recent _ _ Hrep) as Hr. rewrite map_app in Hr. simpl in Hr.
      apply map_eq_app in Hr as (r1 & r2' & E & H1 & H2).
      apply map_eq_cons in H2 as ([n k] & r2 & -> & Hk & Hr2). apply map_eq_nil in Hr2 as ->.
      simpl in Hk. subst k.
      assert (int_key b = b) as Hb.
      { destruct Hroom as [?|[?|Hb]]; [done|lia|]. by rewrite last_snoc in Hb. }
      destruct (use_evict c h r1 n b Ho Hh ltac:(lia) E Hb) as (c' & -> & Ho' & Hr' & Hres & Hv).
      simpl. eexists. split; [done|]. split; [|done]. rewrite removelast_last.
      rewrite map_app in Hd, El. simpl in Hd, El. apply NoDup_app in Hd as (_ & Hd & _).
      apply insert_represents; [done|by rewrite Hr', H1| |set_solver|].
      * intros k x. rewrite Hres. destruct (decide (k = b)) as [->|Hne].
        -- rewrite lookup_delete_eq. split; [done|]. intros Hin. exfalso.
           apply (Hd b); [apply list_elem_of_fmap; by exists (b, x)|by left].
        -- rewrite lookup_delete_ne, (rep_result _ _ Hrep) by done. set_solver.
      * pose proof (rep_bound _ _ Hrep) as Hle. rewrite length_app in Hle. simpl in Hle. lia.
    + destruct (use_new c h Ho Hh ltac:(lia)) as (c' & -> & Ho' & Hr' & Hres & Hv). simpl.
      eexists. split; [done|]. split; [|done].
      apply insert_represents; [done|by rewrite Hr', (rep_recent _ _ Hrep)| |done|lia].
      intros k x. rewrite Hres. apply Hrep.
Qed.
End refinement.

(** ** Sequences of operations *)

Inductive cache_op :=
| OpCheck (hash timestamp : Z)
| OpAdd (hash : Z) (result : bool) (timestamp : Z).

Definition cache_step (o : cache_op) (c : ResultCache) : option (option bool * ResultCache) :=
  match o with
  | OpCheck h t => check_hash h t c
  | OpAdd h r t => c ← add h r t c; Some (None, c)
  end.

Definition lru_step (valid : Z) (o : cache_op) (l : lru) : option bool * lru :=
  match o with
  | OpCheck h t => lru_check h t valid l
  | OpAdd h r t => (None, lru_add h (r, t) l)
  end.

Fixpoint run_cache (ops : list cache_op) (c : ResultCache) : option (list (option bool) * ResultCache) :=
  match ops with
  | [] => Some ([], c)
  | o :: ops =>
      '(r, c) ← cache_step o c;
      '(rs, c) ← run_cache ops c;
      Some (r :: rs, c)
  end.

Fixpoint run_lru (valid : Z) (ops : list cache_op) (l : lru) : list (option bool) * lru :=
  match ops with
  | [] => ([], l)
  | o :: ops =>
      let '(r, l) := lru_step valid o l in
      let '(rs, l) := run_lru valid ops l in
      (r :: rs, l)
  end.

(** The key is one that [int] represents. *)
Definition fits (h : Z) : Prop := int_key h = h.
#[export] Instance fits_dec h : Decision (fits h).
Proof. unfold fits. apply _. Defined.

Definition op_key (o : cache_op) : Z := match o with OpCheck h _ | OpAdd h _ _ => h end.

Lemma initial_represents : represents initial_cache [].
Proof.
  split; simpl; [split; simpl|done| |lia].
  - constructor.
  - constructor.
  - intros h n. rewrite lookup_empty. split; [done|]. by intros ?%not_elem_of_nil.
  - by intros n h ?%not_elem_of_nil.
  - intros h e. rewrite lookup_empty. split; [done|]. by intros ?%not_elem_of_nil.
Qed.

Definition all_fit (l : lru) : Prop := Forall fits (map fst l).

Lemma fit_room h l : all_fit l -> room h l.
Proof.
  intros Hl. right; right. destruct (list.last l) as [[b e]|] eqn:E; [|done].
  apply last_Some in E as [l' ->]. unfold all_fit in Hl. rewrite map_app in Hl.
  apply Forall_app in Hl as [_ Hl]. by inversion Hl.
Qed.

Lemma fit_sublist l l' : l' ⊆ l -> all_fit l -> all_fit l'.
Proof.
  unfold all_fit. rewrite !Forall_forall. intros Hs Hl h (p & -> & Hp)%list_elem_of_fmap.
  apply Hl, list_elem_of_fmap. exists p. auto.
Qed.

Lemma removelast_sub {A} (l : list A) : removelast l ⊆ l.
Proof.
  destruct l as [|x l _] using rev_ind; [done|]. rewrite removelast_last. set_solver.
Qed.

Lemma lru_remove_sub h l : lru_remove h l ⊆ l.
Proof. unfold lru_remove. intros p [_ Hp]%list_elem_of_filter. done. Qed.

Lemma lru_step_fit valid o l : fits (op_key o) -> all_fit l -> all_fit (snd (lru_step valid o l)).
Proof.
  intros Ho Hl. pose proof (fit_sublist _ _ (lru_remove_sub (op_key o) l) Hl) as Hr.
  assert (forall e l', all_fit l' -> all_fit ((op_key o, e) :: l')) as Hcons.
  { intros e l' H. by constructor. }
  destruct o as [h t|h r t]; simpl in *.
  - unfold lru_check. destruct (lru_lookup h l); [|done]. case_decide; simpl; auto.
  - unfold lru_add. destruct (lru_lookup h l); [auto|]. case_decide; [|auto].
    apply Hcons. eapply fit_sublist; [apply removelast_sub|done].
Qed.

Lemma cache_step_refines o c l :
  represents c l -> all_fit l ->
  exists c', cache_step o c = Some (fst (lru_step (valid_for_nanosec_ c) o l), c') /\
    represents c' (snd (lru_step (valid_for_nanosec_ c) o l)) /\
    valid_for_nanosec_ c' = valid_for_nanosec_ c.
Proof.
  intros Hr Hf. destruct o as [h t|h r t]; simpl.
  - by apply check_hash_refines.
  - destruct (add_refines c l h r t Hr (fit_room h l Hf)) as (c' & -> & Hr' & Hv).
    exists c'. done.
Qed.

(** ** Theorems *)

(** C3: refinement.  As long as its keys fit in an [int], the cache is a
    least-recently-used list: every sequence of checks and additions runs without
    undefined behaviour and gives the decisions of the list, of at most 1000
    entries, whose state it represents at the end. *)
Theorem cache_refines_lru ops :
  Forall (fun o => fits (op_key o)) ops ->
  let '(rs, l) := run_lru (valid_for_nanosec_ initial_cache) ops [] in
  exists c, run_cache ops initial_cache = Some (rs, c) /\ represents c l /\ (length l <= 1000)%nat.
Proof.
  assert (forall c l, represents c l -> all_fit l -> Forall (fun o => fits (op_key o)) ops ->
    let '(rs, l') := run_lru (valid_for_nanosec_ c) ops l in
    exists c', run_cache ops c = Some (rs, c') /\ represents c' l') as Hgen.
  { induction ops as [|o ops IH]; intros c l Hr Hf Ho; simpl; [eauto|].
    apply Forall_cons in Ho as [Hk Ho].
    destruct (cache_step_refines o c l Hr Hf) as (c1 & -> & Hr1 & Hv1). simpl.
    pose proof (lru_step_fit (valid_for_nanosec_ c) o l Hk Hf) as Hf1.
    destruct (lru_step (valid_for_nanosec_ c) o l) as [r l1]. simpl in *.
    specialize (IH c1 l1 Hr1 Hf1 Ho). rewrite Hv1 in IH.
    destruct (run_lru _ ops l1) as [rs l']. destruct IH as (c' & -> & Hr'). simpl. eauto. }
  intros Ho. specialize (Hgen initial_cache [] initial_represents (Forall_nil_2 _) Ho).
  destruct (run_lru _ ops []) as [rs l]. destruct Hgen as (c & Hrun & Hr).
  exists c. split; [done|]. split; [done|]. apply Hr.
Qed.

(** A decision is served until it expires, and not after.  Once a decision is
    added for a new key, a check of that key gives it while its time plus the
    valid duration (modulo [2 ^ 64]) is in the future, and then no longer: the
    entry is dropped. *)
Theorem decision_cached c l h r t now :
  represents c l -> room h l -> h ∉ map fst l ->
  exists c1 c2, add h r t c = Some c1 /\
    check_hash h now c1 =
      Some (if decide (now < t +64 valid_for_nanosec_ c) then Some r else None, c2) /\
    (result_cache_ c2 !! h = None <-> t +64 valid_for_nanosec_ c <= now).
Proof.
  intros Hr Hroom Hh. destruct (add_refines c l h r t Hr Hroom) as (c1 & Ha & Hr1 & Hv1).
  destruct (check_hash_refines c1 _ h now Hr1) as (c2 & Hc & Hr2 & _).
  exists c1, c2. split; [done|]. rewrite Hc, Hv1 in *. clear Ha Hc.
  unfold lru_add, lru_check in *. rewrite (proj2 (lru_lookup_None h l) Hh) in *.
  simpl in Hr2 |- *. rewrite (decide_True (P := h = h)) in * by done. simpl in *.
  pose proof (rep_result _ _ Hr2 h) as Hres.
  case_decide as Hd; simpl in *; (split; [done|]).
  - rewrite (proj2 (Hres (r, t)) ltac:(by left)). split; [done|]. intros. lia.
  - split; [lia|]. intros _. destruct (result_cache_ c2 !! h) as [e|]; [|done].
    pose proof (proj1 (Hres e) eq_refl) as E. by apply list_elem_of_filter in E as [? _].
Qed.

(** C34: an evicted key that does not fit in an [int] leaves a dangling iterator.
    [use] truncates the key before it erases it, so with 1000 entries and the
    truncated key absent, adding a new one keeps the result and the iterator of
    the evicted key: the result map outgrows its bound, and the next check of the
    evicted key, fresh or expired, erases through an iterator whose node is gone. *)
Theorem evicted_key_undefined c l b e h r t now :
  represents c (l ++ [(b, e)]) -> length (l ++ [(b, e)]) = MAX_NUM_ENTRY ->
  h ∉ map fst (l ++ [(b, e)]) -> int_key b ∉ map fst (l ++ [(b, e)]) ->
  exists c', add h r t c = Some c' /\ size (result_cache_ c') = S (size (result_cache_ c)) /\
    check_hash b now c' = None.
Proof.
  intros Hrep Hlen Hh Hk. pose proof (rep_ordered _ _ Hrep) as Ho.
  pose proof (rep_recent _ _ Hrep) as Hr.
  assert (forall k, k ∉ map fst (l ++ [(b, e)]) -> result_cache_ c !! k = None) as Hres.
  { intros k Hk'. destruct (result_cache_ c !! k) as [x|] eqn:E; [|done].
    apply (rep_result _ _ Hrep) in E. destruct Hk'. apply list_elem_of_fmap. by exists (k, x). }
  assert (result_cache_ c !! b = Some e) as Hb by (apply Hrep; set_solver).
  assert (b <> h) as Hbh by (intros ->; congruence || (rewrite Hres in Hb by done; done)).
  rewrite map_app in Hr. simpl in Hr. apply map_eq_app in Hr as (r1 & r2' & E & H1 & H2).
  apply map_eq_cons in H2 as ([n k] & r2 & -> & Hkb & Hr2). apply map_eq_nil in Hr2 as ->.
  simpl in Hkb. subst k.
  assert (pos_ c !! b = Some n) as Hn by (apply Ho; rewrite E; set_solver).
  assert (length (recent_ c) = MAX_NUM_ENTRY) as Hl.
  { rewrite <- (length_map snd), (rep_recent _ _ Hrep), length_map. done. }
  assert (h ∉ map snd (recent_ c)) as Hhr by (by rewrite (rep_recent _ _ Hrep)).
  assert (int_key b <> b) as Hne.
  { intros Hi. rewrite Hi in Hk. apply Hk. apply list_elem_of_fmap. exists (b, e). set_solver. }
  unfold add, use. rewrite (unknown_pos c h Ho Hhr), decide_True by lia.
  rewrite E, last_snoc. simpl. rewrite removelast_last.
  rewrite !(delete_id (result_cache_ c)) by (by apply Hres).
  eexists. split; [reflexivity|]. split; simpl.
  - unfold emplace. rewrite (Hres h Hh). apply map_size_insert_None. by apply Hres.
  - assert (erase_node n ((next_node c, h) :: r1) = None) as Herase.
    { apply erase_absent. simpl. pose proof (ordered_nodes _ Ho) as Hd. rewrite E, map_app in Hd.
      simpl in Hd. apply NoDup_app in Hd as (_ & Hd & _). rewrite not_elem_of_cons. split.
      - assert ((n, b) ∈ recent_ c) as Hin by (rewrite E; set_solver). apply (ordered_next _ Ho) in Hin. lia.
      - intros Hin. apply (Hd n Hin). by left. }
    unfold check_hash, emplace. rewrite (Hres h Hh). simpl. rewrite lookup_insert_ne by done.
    rewrite Hb. unfold use. simpl. rewrite lookup_insert_ne, lookup_delete_ne, Hn by done. simpl.
    simpl in Herase. rewrite Herase. by destruct (decide (now < _)).
Qed.

(** The key of a request does not depend on the order of its fields: two
    payloads with the same four strings in any order have the same key, and so
    the cache gives one the decision made for the other. *)
Theorem permuted_payload_collides std_hash p q c now allowed :
  [source_principal p; destination_workload p; request_method p; request_url_path p] ≡ₚ
  [source_principal q; destination_workload q; request_method q; request_url_path q] ->
  check std_hash p allowed now c = check std_hash q allowed now c.
Proof.
  intros Hp. unfold check. enough (computeHash std_hash p = computeHash std_hash q) as -> by done.
  assert (forall x, computeHash std_hash x =
    u64 (foldr Z.add 0 (map (fun s => std_hash s * 11376068507788127593)
      [source_principal x; destination_workload x; request_method x; request_url_path x]))) as Hsum.
  { intros x. unfold computeHash. simpl foldr.
    cbn [map foldr]. autorewrite with wasm_rw.
    rewrite <- (Z.add_assoc (u64 _)), u64_add_l. f_equal. lia. }
  rewrite !Hsum. f_equal. apply (Permutation_map (fun s => std_hash s * 11376068507788127593)) in Hp.
  revert Hp. generalize (map (fun s => std_hash s * 11376068507788127593)
      [source_principal p; destination_workload p; request_method p; request_url_path p]).
  intros l Hp. induction Hp; simpl; lia.
Qed.

(** ** Witnesses *)

Section cache_witnesses.
Definition entry_of (k : Z) : Z * (bool * Z) := (k, (true, 0)).

(** New keys, up to the bound, pile up in front. *)
Lemma add_many ks c l :
  represents c l -> NoDup (ks ++ map fst l) -> (length ks + length l <= MAX_NUM_ENTRY)%nat ->
  exists c', represents c' (rev (map entry_of ks) ++ l).
Proof.
  revert c l. induction ks as [|k ks IH]; intros c l Hr Hd Hl; simpl; [eauto|].
  apply NoDup_cons in Hd as [Hk Hd]. simpl in Hl.
  destruct (add_refines c l k true 0 Hr) as (c1 & _ & Hr1 & _); [right; left; lia|].
  unfold lru_add in Hr1. rewrite (proj2 (lru_lookup_None k l)) in Hr1 by set_solver.
  rewrite decide_False in Hr1 by lia.
  rewrite <- app_assoc. simpl. apply (IH c1); [done| |simpl; lia].
  simpl. apply NoDup_app in Hd as (Hd1 & Hd2 & Hd3). apply NoDup_app. split; [done|].
  split; [|apply NoDup_cons; set_solver]. intros x Hx. apply not_elem_of_cons.
  split; [set_solver|auto].
Qed.

Definition wide_key : Z := 2 ^ 40.

Lemma full_cache : exists c, represents c (rev (map entry_of (seqZ 1 999)) ++ [entry_of wide_key]).
Proof.
  destruct (add_many [wide_key] initial_cache []) as (c1 & Hr1).
  - apply initial_represents.
  - apply NoDup_cons. split; [apply not_elem_of_nil|constructor].
  - unfold MAX_NUM_ENTRY. simpl. lia.
  - apply (add_many (seqZ 1 999) c1 _ Hr1).
    + apply NoDup_app. split; [apply NoDup_seqZ|]. split; [|apply NoDup_cons; split; [|constructor]].
      * intros x Hx%elem_of_seqZ. simpl. rewrite list_elem_of_singleton. unfold wide_key. lia.
      * apply not_elem_of_nil.
    + rewrite length_seqZ. unfold MAX_NUM_ENTRY. simpl. lia.
Qed.

Lemma narrow_absent k : ~ 1 <= k < 1000 -> k <> wide_key ->
  k ∉ map fst (rev (map entry_of (seqZ 1 999)) ++ [entry_of wide_key]).
Proof.
  intros H1 H2. rewrite map_app, map_rev, map_map, elem_of_app, list_elem_of_In, <- in_rev, <- list_elem_of_In.
  intros [(z & -> & Hz)%list_elem_of_fmap|Hin%list_elem_of_singleton]; [|done].
  apply elem_of_seqZ in Hz. simpl in H1. lia.
Qed.

Lemma cache_refines_lru_witness :
  exists c, run_cache [OpAdd 5 true 100; OpCheck 5 200; OpCheck 6 200] initial_cache =
    Some ([None; Some true; None], c).
Proof.
  destruct (cache_refines_lru [OpAdd 5 true 100; OpCheck 5 200; OpCheck 6 200]) as (c & H & _).
  - repeat constructor.
  - exists c. exact H.
Defined.

Lemma decision_cached_witness :
  exists c1 c2, add 5 true 100 initial_cache = Some c1 /\ check_hash 5 200 c1 = Some (Some true, c2).
Proof.
  destruct (decision_cached initial_cache [] 5 true 100 200) as (c1 & c2 & H1 & H2 & _).
  - apply initial_represents.
  - right; left. unfold MAX_NUM_ENTRY. simpl. lia.
  - apply not_elem_of_nil.
  - exists c1, c2. split; [exact H1|exact H2].
Defined.

Lemma evicted_key_undefined_witness :
  exists c c', add 5000 false 7 c = Some c' /\ check_hash wide_key 8 c' = None.
Proof.
  destruct full_cache as [c Hc]. exists c.
  destruct (evicted_key_undefined c (rev (map entry_of (seqZ 1 999))) wide_key (true, 0)
    5000 false 7 8) as (c' & H1 & _ & H2).
  - exact Hc.
  - rewrite length_app, length_rev, length_map, length_seqZ. reflexivity.
  - apply narrow_absent; [lia|unfold wide_key; lia].
  - apply narrow_absent; vm_compute; [intros [? ?]; tauto|discriminate].
  - exists c'. split; [exact H1|exact H2].
Defined.

Lemma permuted_payload_collides_witness (std_hash := fun s => Z.of_nat (String.length s)) :
  let p := {| source_principal := "a"; destination_workload := "bb";
              request_method := "GET"; request_url_path := "/x/y" |} in
  let q := {| source_principal := "/x/y"; destination_workload := "bb";
              request_method := "GET"; request_url_path := "a" |} in
  check std_hash p false 7 initial_cache = check std_hash q false 7 initial_cache.
Proof.
  apply permuted_payload_collides. simpl.
  apply NoDup_Permutation; [apply (bool_decide_eq_true_1 (NoDup _)); reflexivity..|]. set_solver.
Defined.
End cache_witnesses.
