(* ===== verification/OpaPlugin.v ===== *)
(** * The OPA plugin ([extensions/open_policy_agent/plugin.{h,cc}])

    Configuration, the check of a request and the callback that handles the
    policy server's answer.  The callback is a handler of its own: it captures
    the stream and the key of the request, and runs, if the call was accepted,
    when the answer arrives. *)

From stdpp Require Import base tactics numbers list strings gmap.
From Stdlib Require Import ZArith Lia.
From S2P Require Import Prelude HostApi Absl Json OpaCache.
Local Open Scope Z_scope.
Local Open Scope wasm_scope.

(** [cache_hits_] and [cache_misses_] have no initialiser. *)
Record PluginRootContext := {
  cache_ : ResultCache;
  cache_valid_for_sec_ : Z;
  opa_host_ : string;
  opa_cluster_ : string;
  cache_hits_ : option Z;
  cache_misses_ : option Z
}.

Definition initial_context : PluginRootContext :=
  {| cache_ := initial_cache; cache_valid_for_sec_ := 0; opa_host_ := ""; opa_cluster_ := "";
     cache_hits_ := None; cache_misses_ := None |}.

Definition with_cache (c : ResultCache) (ctx : PluginRootContext) : PluginRootContext :=
  {| cache_ := c; cache_valid_for_sec_ := cache_valid_for_sec_ ctx; opa_host_ := opa_host_ ctx;
     opa_cluster_ := opa_cluster_ ctx; cache_hits_ := cache_hits_ ctx;
     cache_misses_ := cache_misses_ ctx |}.

Definition deny : host_prog unit :=
  trigger (SendLocalResponse 403 "OPA policy check denied" "" []).
Definition check_failed : host_prog unit :=
  trigger (SendLocalResponse 500 "OPA policy check failed" "" []).
Definition call_failed : host_prog unit :=
  trigger (SendLocalResponse 500 "OPA policy check call failed" "" []).

(** What the callback captured. *)
Record callback := { cb_stream : Z; cb_hash : Z }.

(** An operation of the cache; [None] is its undefined behaviour. *)
Definition cache_op {A} (r : option A) : host_prog A :=
  match r with
  | Some a => mret a
  | None => UB "iterator of an erased list node"
  end.

Section plugin.
Context `{J : NlohmannJson} `{A : AbslStrings}.
(** [std::hash<std::string>] *)
Context (std_hash : string -> Z).

(** ** Configuration *)

(** A failure keeps what was assigned before it. *)
Definition parse_json (j : json) (ctx : PluginRootContext) : bool * PluginRootContext :=
  match find j "opa_service_host" with
  | None => (false, ctx)
  | Some v =>
  match JsonValueAs_string v with
  | (Some opa_host, OK) =>
      let ctx := {| cache_ := cache_ ctx; cache_valid_for_sec_ := cache_valid_for_sec_ ctx;
                    opa_host_ := opa_host; opa_cluster_ := opa_cluster_ ctx;
                    cache_hits_ := cache_hits_ ctx; cache_misses_ := cache_misses_ ctx |} in
      match find j "opa_cluster_name" with
      | None => (false, ctx)
      | Some v =>
      match JsonValueAs_string v with
      | (Some opa_cluster, OK) =>
          let ctx := {| cache_ := cache_ ctx; cache_valid_for_sec_ := cache_valid_for_sec_ ctx;
                        opa_host_ := opa_host_ ctx; opa_cluster_ := opa_cluster;
                        cache_hits_ := cache_hits_ ctx; cache_misses_ := cache_misses_ ctx |} in
          match find j "check_result_cache_valid_sec" with
          | None => (true, ctx)
          | Some v =>
          match JsonValueAs_uint64 v with
          | (Some sec, OK) =>
              (true, {| cache_ := cache_ ctx; cache_valid_for_sec_ := sec;
                        opa_host_ := opa_host_ ctx; opa_cluster_ := opa_cluster_ ctx;
                        cache_hits_ := cache_hits_ ctx; cache_misses_ := cache_misses_ ctx |})
          | _ => (false, ctx)
          end end
      | _ => (false, ctx)
      end end
  | _ => (false, ctx)
  end end.

Definition parseConfiguration (configuration_size : Z) (ctx : PluginRootContext) :
    host_prog (bool * PluginRootContext) :=
  configuration_data ← trigger (GetBuffer PluginConfiguration 0 configuration_size);
  view ← deref configuration_data;
  match JsonParse view with
  | None => mret (false, ctx)
  | Some j => mret (parse_json j ctx)
  end.

Definition onConfigure (configuration_size : Z) (ctx : PluginRootContext) :
    host_prog (bool * PluginRootContext) :=
  '(ok, ctx) ← parseConfiguration configuration_size ctx;
  if negb ok then mret (false, ctx) else
  let ctx := with_cache (setValidDuration (cache_valid_for_sec_ ctx) (cache_ ctx)) ctx in
  hits ← trigger (ResolveMetric "policy_cache_count" ["opa_filter"; "hit"]);
  misses ← trigger (ResolveMetric "policy_cache_count" ["opa_filter"; "miss"]);
  mret (true, {| cache_ := cache_ ctx; cache_valid_for_sec_ := cache_valid_for_sec_ ctx;
                 opa_host_ := opa_host_ ctx; opa_cluster_ := opa_cluster_ ctx;
                 cache_hits_ := Some hits; cache_misses_ := Some misses |}).

(** ** The check of a request *)

Definition metric_id (m : option Z) : host_prog Z :=
  match m with
  | Some id => mret id
  | None => UB "read of an indeterminate metric id"
  end.

(** The result, the key and [allowed]. *)
Definition checkCache (payload : Payload) (allowed : bool) (ctx : PluginRootContext) :
    host_prog (bool * Z * bool * PluginRootContext) :=
  now ← trigger GetCurrentTimeNanoseconds;
  '(hit, hash, allowed, c) ← cache_op (check std_hash payload allowed now (cache_ ctx));
  id ← metric_id (if (hit : bool) then cache_hits_ ctx else cache_misses_ ctx);
  _ ← trigger (IncrementMetric id 1);
  mret (hit, hash, allowed, with_cache c ctx).

Definition addCache (hash : Z) (result : bool) (ctx : PluginRootContext) :
    host_prog PluginRootContext :=
  now ← trigger GetCurrentTimeNanoseconds;
  c ← cache_op (add hash result now (cache_ ctx));
  mret (with_cache c ctx).

Definition read_payload : host_prog Payload :=
  source_principal ← getValueOr (GetString ["connection"; "uri_san_peer_certificate"]) "";
  destination_workload ← getValueOr (GetString ["node"; "metadata"; "WORKLOAD_NAME"]) "";
  request_method ← getValueOr (GetString ["request"; "method"]) "";
  request_url_path ← getValueOr (GetString ["request"; "url_path"]) "";
  mret {| source_principal := source_principal; destination_workload := destination_workload;
          request_method := request_method; request_url_path := request_url_path |}.

Definition payload_obj (payload : Payload) : json :=
  JObject [("input", JObject [
    ("source_principal", JString (source_principal payload));
    ("destination_workload", JString (destination_workload payload));
    ("request_method", JString (request_method payload));
    ("request_url_path", JString (request_url_path payload))])].

Definition opa_headers (ctx : PluginRootContext) : header_list :=
  [("content-type", "application/json"); (":path", "/v1/data/test/allow");
   (":method", "POST"); (":authority", opa_host_ ctx)].

(** The status, the context and the callback of an accepted call. *)
Definition check_request (stream_context_id : Z) (ctx : PluginRootContext) :
    host_prog (FilterHeadersStatus * PluginRootContext * option callback) :=
  payload ← read_payload;
  '(cache_hit, payload_hash, allowed, ctx) ← checkCache payload false ctx;
  if (cache_hit && allowed)%bool then mret (Continue, ctx, None) else
  if (cache_hit && negb allowed)%bool then
    _ ← deny; mret (StopIteration, ctx, None)
  else
  call_result ← trigger (HttpCall (opa_cluster_ ctx) (opa_headers ctx)
                           (json_dump (payload_obj payload)) [] 5000);
  if decide (call_result <> Ok) then
    _ ← call_failed; mret (StopIteration, ctx, None)
  else mret (StopIteration, ctx, Some {| cb_stream := stream_context_id; cb_hash := payload_hash |}).

(** [PluginContext::onRequestHeaders] of the stream [id]. *)
Definition onRequestHeaders (id : Z) (ctx : PluginRootContext) :
    host_prog (FilterHeadersStatus * PluginRootContext * option callback) :=
  check_request id ctx.

(** The policy server's decision in the body of its answer. *)
Definition opa_result (body : string) : option bool :=
  match JsonParse body with
  | None => None
  | Some j =>
      match find j "result" with
      | None => None
      | Some v =>
          match JsonValueAs_bool v with
          | (r, OK) => r
          | _ => None
          end
      end
  end.

(** The lambda given to [httpCall]. *)
Definition onHttpCallResponse (cb : callback) (body_size : Z) (ctx : PluginRootContext) :
    host_prog PluginRootContext :=
  stream ← trigger (GetContext (cb_stream cb));
  if negb stream then UB "setEffectiveContext of a destroyed stream" else
  _ ← trigger (SetEffectiveContext (cb_stream cb));
  body ← trigger (GetBuffer HttpCallResponseBody 0 body_size);
  view ← deref body;
  match opa_result view with
  | None => _ ← check_failed; mret ctx
  | Some check_result =>
      ctx ← addCache (cb_hash cb) check_result ctx;
      if negb check_result then _ ← deny; mret ctx
      else _ ← trigger ContinueRequest; mret ctx
  end.
End plugin.

(** ** Reading a trace *)

Definition http_call_of (ev : host_event) : option WasmResult :=
  match ev with Ev (HttpCall _ _ _ _ _) r => Some r | _ => None end.
Definition posted_of (ev : host_event) : option string :=
  match ev with Ev (HttpCall _ _ body _ _) _ => Some body | _ => None end.
Definition string_of (ev : host_event) : option (option string) :=
  match ev with Ev (GetString _) s => Some s | _ => None end.
Definition body_of (ev : host_event) : option (option string) :=
  match ev with Ev (GetBuffer HttpCallResponseBody _ _) b => Some b | _ => None end.

Definition denied_response : Z * string * string * header_list :=
  (403, "OPA policy check denied", "", []).
Definition failed_response : Z * string * string * header_list :=
  (500, "OPA policy check failed", "", []).
Definition call_failed_response : Z * string * string * header_list :=
  (500, "OPA policy check call failed", "", []).

Section facts.
Context `{J : NlohmannJson} `{A : AbslStrings}.
Context (std_hash : string -> Z).

Definition payload_of (answers : list (option string)) : Payload :=
  match map (default "") answers with
  | [sp; dw; rm; up] => {| source_principal := sp; destination_workload := dw;
                           request_method := rm; request_url_path := up |}
  | _ => {| source_principal := ""; destination_workload := "";
            request_method := ""; request_url_path := "" |}
  end.

(** What a check makes of the cache's answer and of the call's result. *)
Definition check_effect (id : Z) (ctx : PluginRootContext)
    (r : option (bool * Z * bool * ResultCache)) (tr : list host_event)
    (o : outcome (FilterHeadersStatus * PluginRootContext * option callback)) : Prop :=
  match r with
  | None => exists why, o = Undefined why
  | Some (hit, hash, allowed, c) =>
      let ctx' := with_cache c ctx in
      match (if (hit : bool) then cache_hits_ ctx else cache_misses_ ctx) with
      | None => exists why, o = Undefined why
      | Some id' =>
          observe increment_of tr = [(id', 1)] /\
          if hit then
            observe http_call_of tr = [] /\
            if (allowed : bool) then o = Done (Continue, ctx', None) /\ local_responses tr = []
            else o = Done (StopIteration, ctx', None) /\ local_responses tr = [denied_response]
          else exists res, observe http_call_of tr = [res] /\
            if decide (res = Ok) then
              o = Done (StopIteration, ctx', Some {| cb_stream := id; cb_hash := hash |}) /\
              local_responses tr = []
            else o = Done (StopIteration, ctx', None) /\ local_responses tr = [call_failed_response]
      end
  end.

Lemma check_request_spec id ctx tr o :
  traces (check_request std_hash id ctx) tr o ->
  continued tr = [] /\
  exists answers now, observe string_of tr = answers /\ observe clock_of tr = [now] /\
    check_effect id ctx (check std_hash (payload_of answers) false now (cache_ ctx)) tr o /\
    observe posted_of tr =
      map (fun _ => json_dump (payload_obj (payload_of answers))) (observe http_call_of tr).
Proof.
  intros H. unfold check_request, read_payload, checkCache in H. cbn -[check json_dump] in H.
  destruct H as (a1 & t1 & -> & H). cbn -[check json_dump] in H.
  destruct H as (a2 & t2 & -> & H). cbn -[check json_dump] in H.
  destruct H as (a3 & t3 & -> & H). cbn -[check json_dump] in H.
  destruct H as (a4 & t4 & -> & H). cbn -[check json_dump] in H.
  destruct H as (now & t5 & -> & H). cbn -[check json_dump] in H.
  change {| source_principal := default "" a1; destination_workload := default "" a2;
            request_method := default "" a3; request_url_path := default "" a4 |}
    with (payload_of [a1; a2; a3; a4]) in H.
  enough (continued t5 = [] /\ observe string_of t5 = [] /\ observe clock_of t5 = [] /\
    check_effect id ctx (check std_hash (payload_of [a1; a2; a3; a4]) false now (cache_ ctx)) t5 o /\
    observe posted_of t5 =
      map (fun _ => json_dump (payload_obj (payload_of [a1; a2; a3; a4]))) (observe http_call_of t5))
    as (Hc & Hs & Hk & He & Hp).
  { split; [done|]. exists [a1; a2; a3; a4], now.
    cbn -[check check_effect payload_of json_dump payload_obj].
    rewrite Hs, Hk. done. }
  generalize (payload_of [a1; a2; a3; a4]), H. clear H. intros p H.
  destruct (check std_hash _ false now (cache_ ctx)) as [[[[hit hash] allowed] c]|];
    cbn -[json_dump] in H |- *; [|destruct H as [-> ->]; naive_solver].
  unfold metric_id in H.
  destruct (if hit then cache_hits_ ctx else cache_misses_ ctx) as [mid|];
    cbn -[json_dump] in H |- *; [|destruct H as [-> ->]; naive_solver].
  destruct H as ([] & t6 & -> & H). destruct hit; [destruct allowed|]; cbn -[json_dump] in H |- *.
  - by destruct H as [-> ->].
  - destruct H as ([] & t7 & -> & -> & ->). done.
  - destruct H as (res & t7 & -> & H). cbn. case_decide as Hr.
    + destruct H as ([] & t8 & -> & -> & ->). split_and!; try done. exists res.
      by rewrite decide_False by done.
    + assert (res = Ok) as -> by (destruct (decide (res = Ok)); tauto).
      destruct H as [-> ->]. split_and!; try done. by exists Ok.
Qed.

(** A configuration that is parsed leaves the cache alone. *)
Lemma parse_keeps size ctx tr ok ctx' :
  traces (parseConfiguration size ctx) tr (Done (ok, ctx')) -> cache_ ctx' = cache_ ctx.
Proof using Type.
  unfold parseConfiguration. simpl. intros ([view|] & tr' & _ & H); [|by destruct H].
  simpl in H. destruct (JsonParse view) as [j|]; [|by destruct H as [_ [= _ ->]]].
  destruct H as [_ [= Hj]]. unfold parse_json in Hj. repeat case_match; by simplify_eq.
Qed.

Lemma callback_spec cb size ctx tr ctx' :
  traces (onHttpCallResponse cb size ctx) tr (Done ctx') ->
  exists body, observe body_of tr = [Some body] /\
    match opa_result body with
    | None => ctx' = ctx /\ local_responses tr = [failed_response] /\ continued tr = []
    | Some r => exists now c, observe clock_of tr = [now] /\
        add (cb_hash cb) r now (cache_ ctx) = Some c /\ ctx' = with_cache c ctx /\
        if r then local_responses tr = [] /\ continued tr = [tt]
        else local_responses tr = [denied_response] /\ continued tr = []
    end.
Proof using Type.
  intros H. unfold onHttpCallResponse, addCache in H. cbn -[opa_result add] in H.
  destruct H as (stream & t1 & -> & H). destruct stream; cbn -[opa_result add] in H;
    [|by destruct H as [_ ?]].
  destruct H as ([] & t2 & -> & H). cbn -[opa_result add] in H.
  destruct H as ([body|] & t3 & -> & H); cbn -[opa_result add] in H; [|by destruct H as [_ ?]].
  exists body. destruct (opa_result body) as [r|]; cbn -[add] in H |- *.
  - destruct H as (now & t4 & -> & H).
    destruct (add (cb_hash cb) r now (cache_ ctx)) as [c|] eqn:Ea; cbn in H;
      [|by destruct H as [_ ?]].
    destruct r; cbn in H; destruct H as ([] & t5 & -> & -> & [= ->]);
      (split; [done|]; by exists now, c).
  - by destruct H as ([] & t4 & -> & -> & [= ->]).
Qed.
End facts.

(** ** Theorems *)

Section theorems.
Context `{J : NlohmannJson} `{A : AbslStrings}.
Context (std_hash : string -> Z).

(** C15: the check fails closed.  Whatever the host answers, a check that returns
    does one of four things: it continues, on a cached permission and without a
    call; it denies with a 403, on a cached denial; it stops with a 500, when the
    call is not accepted; or it pauses the request, without a reply and with a
    callback for its key, when it is. *)
Theorem check_fails_closed id ctx tr status ctx' cb :
  traces (onRequestHeaders std_hash id ctx) tr (Done (status, ctx', cb)) ->
  continued tr = [] /\
  exists now hash hit allowed,
    check std_hash (payload_of (observe string_of tr)) false now (cache_ ctx) =
      Some (hit, hash, allowed, cache_ ctx') /\
    match hit, allowed, cb with
    | true, true, None => status = Continue /\ local_responses tr = [] /\ observe http_call_of tr = []
    | true, false, None =>
        status = StopIteration /\ local_responses tr = [denied_response] /\ observe http_call_of tr = []
    | false, _, None =>
        status = StopIteration /\ local_responses tr = [call_failed_response] /\
        Forall (fun r => r <> Ok) (observe http_call_of tr)
    | false, _, Some cb =>
        status = StopIteration /\ local_responses tr = [] /\ observe http_call_of tr = [Ok] /\
        cb = {| cb_stream := id; cb_hash := hash |}
    | true, _, Some _ => False
    end.
Proof.
  intros (Hc & answers & now & -> & _ & He & _)%check_request_spec. split; [done|]. exists now.
  unfold check_effect in He.
  destruct (check std_hash _ false now (cache_ ctx)) as [[[[hit hash] allowed] c]|]; [|naive_solver].
  destruct (if hit then cache_hits_ ctx else cache_misses_ ctx); [|naive_solver].
  destruct He as [_ He]. exists hash, hit, allowed. destruct hit; [destruct allowed|].
  - by destruct He as (Hh & [= -> -> ->] & Hr).
  - by destruct He as (Hh & [= -> -> ->] & Hr).
  - destruct He as (res & Hh & He). case_decide as Hd.
    + subst. by destruct He as ([= -> -> ->] & Hr).
    + destruct He as ([= -> -> ->] & Hr). split; [done|]. rewrite Hh. split_and!; try done.
      by repeat constructor.
Qed.

(** A paused request gets exactly one reply.  A callback that returns either
    continues the request, when the server's answer has the result [true], or
    sends one local response: 403 when the result is [false], and 500 when the
    answer is not JSON or its result is missing or of another type. *)
Theorem callback_replies_once cb size ctx tr ctx' :
  traces (onHttpCallResponse cb size ctx) tr (Done ctx') ->
  exists body, observe body_of tr = [Some body] /\
    continued tr = (if decide (opa_result body = Some true) then [tt] else []) /\
    local_responses tr =
      match opa_result body with
      | Some true => []
      | Some false => [denied_response]
      | None => [failed_response]
      end.
Proof using Type.
  intros (body & Hb & H)%callback_spec. exists body. split; [done|].
  destruct (opa_result body) as [[]|].
  - by destruct H as (_ & _ & _ & _ & _ & -> & ->).
  - by destruct H as (_ & _ & _ & _ & _ & -> & ->).
  - by destruct H as (_ & -> & ->).
Qed.

(** A decision is remembered.  After the server has decided for a key that is
    not in the cache, a check of a payload with that key, before the decision
    expires, is answered from the cache, without a call, and as the server
    decided. *)
Theorem decision_remembered cb size ctx tr1 ctx1 l id tr2 status ctx2 cb2 :
  represents (cache_ ctx) l -> room (cb_hash cb) l -> cb_hash cb ∉ map fst l ->
  traces (onHttpCallResponse cb size ctx) tr1 (Done ctx1) ->
  local_responses tr1 <> [failed_response] ->
  traces (onRequestHeaders std_hash id ctx1) tr2 (Done (status, ctx2, cb2)) ->
  computeHash std_hash (payload_of (observe string_of tr2)) = cb_hash cb ->
  (forall t now, t ∈ observe clock_of tr1 -> now ∈ observe clock_of tr2 ->
     now < t +64 valid_for_nanosec_ (cache_ ctx)) ->
  observe http_call_of tr2 = [] /\ cb2 = None /\
  status = (if decide (continued tr1 = [tt]) then Continue else StopIteration).
Proof.
  intros Hrep Hroom Hnew (body & _ & Hcb)%callback_spec Hresp
    (_ & answers & now2 & -> & Hk2 & He & _)%check_request_spec Hh Hvalid.
  destruct (opa_result body) as [r|]; [|naive_solver].
  destruct Hcb as (now1 & c1 & Hk1 & Ha & -> & Hr).
  destruct (add_refines _ _ _ r now1 Hrep Hroom) as (c1' & Ha' & Hrep1 & Hv1).
  rewrite Ha in Ha'. injection Ha' as <-.
  destruct (check_hash_refines c1 _ (cb_hash cb) now2 Hrep1) as (c2 & Hc2 & _ & _).
  rewrite Hk1, Hk2 in Hvalid. specialize (Hvalid now1 now2 ltac:(by left) ltac:(by left)).
  unfold lru_add, lru_check in Hc2. rewrite (proj2 (lru_lookup_None _ l) Hnew) in Hc2.
  simpl in Hc2. rewrite (decide_True (P := cb_hash cb = cb_hash cb)) in Hc2 by done. simpl in Hc2.
  rewrite Hv1, decide_True in Hc2 by done.
  unfold check_effect, check in He. rewrite Hh in He. simpl cache_ in He. rewrite Hc2 in He.
  simpl in He. destruct (cache_hits_ ctx); [|naive_solver]. destruct He as (_ & Hhttp & He).
  split; [done|]. destruct r.
  - destruct He as ([= -> _ ->] & _). split; [done|]. by destruct Hr as [_ ->].
  - destruct He as ([= -> _ ->] & _). split; [done|]. by destruct Hr as [_ ->].
Qed.

(** Configuring sets what the checks read.  After a configuration that is
    accepted, the metrics are resolved and the cache keeps its entries for
    [check_result_cache_valid_sec] seconds (0 when the field is missing). *)
Theorem accepted_configuration size ctx tr ctx' :
  traces (onConfigure size ctx) tr (Done (true, ctx')) ->
  is_Some (cache_hits_ ctx') /\ is_Some (cache_misses_ ctx') /\
  valid_for_nanosec_ (cache_ ctx') = cache_valid_for_sec_ ctx' *64 1000000000 /\
  forall l, represents (cache_ ctx) l -> represents (cache_ ctx') l.
Proof using Type.
  intros [([ok ctx1] & t1 & t2 & _ & Hc & H)|[(w & _ & ?)|[_ ?]]]%traces_bind; [|done..].
  pose proof (parse_keeps _ _ _ _ _ Hc) as Hcache.
  destruct ok; cbn in H; [|by destruct H as [_ [= ?]]].
  destruct H as (hits & t3 & _ & misses & t4 & _ & _ & [= ->]). simpl.
  split; [eauto|]. split; [eauto|]. split; [done|].
  intros l [[] ? ? ?]. rewrite Hcache. by split; [split|..].
Qed.
End theorems.

(** ** Witnesses *)

Section witnesses.
Definition answer_text : string := "{result: true}".
#[local] Instance answer_json : NlohmannJson :=
  one_document answer_text (JObject [("result", JBool true);
    ("opa_service_host", JString "opa"); ("opa_cluster_name", JString "cluster");
    ("check_result_cache_valid_sec", JNumber (NumUint 10))]).
#[local] Instance answer_absl : AbslStrings := absl_reference.

(** A quiet host that hands over one text, as configuration and as answer. *)
Definition opa_world : handler HostCall unit :=
  fun X e s =>
    match e in HostCall X return X * unit with
    | GetBuffer _ _ _ => (Some answer_text, s)
    | e => (quiet_answer e, s)
    end.

Definition length_hash (s : string) : Z := Z.of_nat (String.length s).

Definition ready_context : PluginRootContext :=
  {| cache_ := initial_cache; cache_valid_for_sec_ := 10; opa_host_ := "opa";
     opa_cluster_ := "cluster"; cache_hits_ := Some 1; cache_misses_ := Some 2 |}.

Definition first_callback : callback := {| cb_stream := 7; cb_hash := 0 |}.
Definition answered : exec HostCall unit PluginRootContext :=
  run opa_world (onHttpCallResponse first_callback 14 ready_context) tt.
Definition answered_context : PluginRootContext :=
  match result answered with Done c => c | _ => ready_context end.
Definition second_check : exec HostCall unit (FilterHeadersStatus * PluginRootContext * option callback) :=
  run opa_world (onRequestHeaders length_hash 8 answered_context) tt.
Definition second_context : PluginRootContext :=
  match result second_check with Done (_, c, _) => c | _ => ready_context end.

Lemma answered_traces :
  traces (onHttpCallResponse first_callback 14 ready_context) (trace answered) (Done answered_context).
Proof. exact (run_traces opa_world (onHttpCallResponse first_callback 14 ready_context) tt). Qed.

Lemma second_traces :
  traces (onRequestHeaders length_hash 8 answered_context) (trace second_check)
    (Done (Continue, second_context, None)).
Proof. exact (run_traces opa_world (onRequestHeaders length_hash 8 answered_context) tt). Qed.

Lemma check_fails_closed_witness : continued (trace second_check) = [].
Proof.
  exact (proj1 (check_fails_closed length_hash 8 answered_context (trace second_check) Continue
    second_context None second_traces)).
Defined.

Lemma callback_replies_once_witness :
  exists body, observe body_of (trace answered) = [Some body] /\
    continued (trace answered) = (if decide (opa_result body = Some true) then [tt] else []).
Proof.
  destruct (callback_replies_once first_callback 14 ready_context (trace answered)
    answered_context answered_traces) as (body & H1 & H2 & _).
  exists body. split; [exact H1|exact H2].
Defined.

Lemma decision_remembered_witness : observe http_call_of (trace second_check) = [].
Proof.
  refine (proj1 (decision_remembered length_hash first_callback 14 ready_context (trace answered)
    answered_context [] 8 (trace second_check) Continue second_context None _ _ _ _ _ _ _ _)).
  - apply initial_represents.
  - right; left. unfold MAX_NUM_ENTRY. simpl. lia.
  - apply not_elem_of_nil.
  - apply answered_traces.
  - vm_compute. discriminate.
  - apply second_traces.
  - vm_compute. reflexivity.
  - intros t now Ht Hn. vm_compute in Ht, Hn.
    apply list_elem_of_singleton in Ht as ->. apply list_elem_of_singleton in Hn as ->.
    vm_compute. reflexivity.
Defined.

Lemma accepted_configuration_witness :
  exists ctx', is_Some (cache_hits_ ctx') /\
    valid_for_nanosec_ (cache_ ctx') = cache_valid_for_sec_ ctx' *64 1000000000.
Proof.
  eexists. destruct (accepted_configuration 14 initial_context
    (trace (run opa_world (onConfigure 14 initial_context) tt))
    (match result (run opa_world (onConfigure 14 initial_context) tt) with
     | Done (_, c) => c | _ => initial_context end)) as (H1 & _ & H2 & _).
  - exact (run_traces opa_world (onConfigure 14 initial_context) tt).
  - split; [exact H1|exact H2].
Defined.
End witnesses.
