(* ===== verification/OpaFlow.v ===== *)
(** * Permissions of the OPA plugin, over its whole life

    The handlers of [OpaPlugin] composed as the host composes them: any number of
    configurations and of checks, and, for every accepted call, a callback that
    may run at any later time, so that several checks are in flight over the one
    cache.  No request is let through without an answer of the policy server that
    permits its key.  Nothing is assumed of the keys: where an eviction goes wrong
    ([OpaCache.evicted_key_undefined]) the history ends. *)

From stdpp Require Import base tactics numbers list strings gmap.
From Stdlib Require Import ZArith Lia.
From S2P Require Import Prelude HostApi Absl Json OpaCache OpaPlugin.
Local Open Scope Z_scope.
Local Open Scope wasm_scope.

(** ** What the cache holds *)

(** The entries of [c'] are entries of [c] or the new one. *)
Definition grows_by (new : option (Z * (bool * Z))) (c c' : ResultCache) : Prop :=
  valid_for_nanosec_ c' = valid_for_nanosec_ c /\
  forall k e, result_cache_ c' !! k = Some e -> result_cache_ c !! k = Some e \/ new = Some (k, e).

Lemma use_grows h c c' : use h c = Some c' -> grows_by None c c'.
Proof.
  unfold use. intros H.
  destruct (pos_ c !! h) as [n|]; [|case_decide];
    [apply bind_Some in H as (l & _ & H)|apply bind_Some in H as ([n b] & _ & H)|];
    injection H as <-; (split; [done|]); simpl; auto.
  intros k e [_ He]%lookup_delete_Some. by left.
Qed.

Lemma add_grows h r t c c' : add h r t c = Some c' -> grows_by (Some (h, (r, t))) c c'.
Proof.
  unfold add. intros (c1 & [Hv Hu]%use_grows & [= <-])%bind_Some. split; [done|]. simpl.
  unfold emplace. intros k e He. case_match; [naive_solver|].
  rewrite lookup_insert_Some in He. naive_solver.
Qed.

(** A check adds nothing, and a hit is an entry that is still valid. *)
Lemma check_hash_grows h now c d c' :
  check_hash h now c = Some (d, c') ->
  grows_by None c c' /\
  forall r, d = Some r -> exists t, result_cache_ c !! h = Some (r, t) /\
    now < t +64 valid_for_nanosec_ c.
Proof.
  unfold check_hash. intros H. destruct (result_cache_ c !! h) as [[r t]|] eqn:Ee.
  - case_decide.
    + apply bind_Some in H as (c1 & Hu%use_grows & [= <- <-]). split; [done|].
      intros r' [= ->]. eauto.
    + simplify_option_eq. split; [|done]. split; [done|]. simpl. intros k e He.
      rewrite lookup_delete_Some in He. naive_solver.
  - simplify_eq. split; [split; auto|done].
Qed.

(** ** Histories *)

(** What happened, with the calls each handler made. *)
Inductive opa_event :=
  | Configured (accepted : bool) (tr : list host_event)
  | Checked (id : Z) (status : FilterHeadersStatus) (cb : option callback) (tr : list host_event)
  | Answered (cb : callback) (tr : list host_event).

Section history.
Context `{J : NlohmannJson} `{A : AbslStrings}.
Context (std_hash : string -> Z).

(** The plugin, the callbacks that have not run, and the events, latest first. *)
Inductive history : PluginRootContext -> list callback -> list opa_event -> Prop :=
  | history_start : history initial_context [] []
  | history_configure root pend h size tr ok root' :
      history root pend h -> traces (onConfigure size root) tr (Done (ok, root')) ->
      history root' pend (Configured ok tr :: h)
  | history_check root pend h id tr status root' cb :
      history root pend h ->
      traces (onRequestHeaders std_hash id root) tr (Done (status, root', cb)) ->
      history root' (option_list cb ++ pend) (Checked id status cb tr :: h)
  | history_answer root h before cb after size tr root' :
      history root (before ++ cb :: after) h ->
      traces (onHttpCallResponse cb size root) tr (Done root') ->
      history root' (before ++ after) (Answered cb tr :: h).

(** The decision that an answer carries. *)
Definition decision (tr : list host_event) : option bool :=
  match observe body_of tr with [Some body] => opa_result body | _ => None end.

(** A callback stems from a check that paused its stream and posted the payload
    of its key to the policy server. *)
Definition asked (h : list opa_event) (cb : callback) : Prop :=
  exists tr, Checked (cb_stream cb) StopIteration (Some cb) tr ∈ h /\
    let payload := payload_of (observe string_of tr) in
    cb_hash cb = computeHash std_hash payload /\
    observe http_call_of tr = [Ok] /\ observe posted_of tr = [json_dump (payload_obj payload)].

(** The server decided [r] for the key [k] at the time [t]. *)
Definition decided (h : list opa_event) (k : Z) (r : bool) (t : Z) : Prop :=
  exists cb tr, Answered cb tr ∈ h /\ asked h cb /\ cb_hash cb = k /\
    decision tr = Some r /\ observe clock_of tr = [t].

Lemma asked_cons ev h cb : asked h cb -> asked (ev :: h) cb.
Proof using Type. intros (tr & Hin & H). exists tr. split; [by right|done]. Qed.

Lemma decided_cons ev h k r t : decided h k r t -> decided (ev :: h) k r t.
Proof using Type.
  intros (cb & tr & Hin & Ha & H). exists cb, tr. split; [by right|]. split; [by apply asked_cons|done].
Qed.

(** ** The handlers *)

(** Configuring changes how long entries are valid, not the entries. *)
Lemma configure_keeps size root tr ok root' :
  traces (onConfigure size root) tr (Done (ok, root')) ->
  result_cache_ (cache_ root') = result_cache_ (cache_ root).
Proof using Type.
  intros ([ok1 root1] & t1 & t2 & _ & Hc & H)%traces_bind_done.
  trans (result_cache_ (cache_ root1)); [|by rewrite (parse_keeps _ _ _ _ _ Hc)].
  destruct ok1; cbn in H; [|by destruct H as [_ [= _ ->]]].
  by destruct H as (hits & t3 & _ & misses & t4 & _ & _ & [= _ ->]).
Qed.

(** What a check leaves: a request let through has a valid permission. *)
Lemma check_spec root id tr status root' cb :
  traces (onRequestHeaders std_hash id root) tr (Done (status, root', cb)) ->
  grows_by None (cache_ root) (cache_ root') /\
  (status = Continue -> exists now t, observe clock_of tr = [now] /\
     result_cache_ (cache_ root) !! computeHash std_hash (payload_of (observe string_of tr)) =
       Some (true, t) /\
     now < t +64 valid_for_nanosec_ (cache_ root)) /\
  (forall h c, cb = Some c -> asked (Checked id status cb tr :: h) c).
Proof.
  intros (_ & answers & now & Ha & Hk & He & Hp)%check_request_spec. rewrite Ha.
  unfold check_effect, check in He.
  destruct (check_hash _ now (cache_ root)) as [[d c]|] eqn:Hc; [|naive_solver].
  destruct (check_hash_grows _ _ _ _ _ Hc) as [Hg Hd]. cbn -[computeHash] in He.
  destruct d as [[]|]; cbn -[computeHash] in He.
  - destruct (cache_hits_ root); [|naive_solver].
    destruct He as (_ & _ & [= -> -> ->] & _). split; [done|]. split; [|done].
    intros _. destruct (Hd true eq_refl) as (t & Ht & Hv). by exists now, t.
  - destruct (cache_hits_ root); [|naive_solver].
    by destruct He as (_ & _ & [= -> -> ->] & _).
  - destruct (cache_misses_ root); [|naive_solver]. destruct He as (_ & res & Hr & He).
    rewrite Hr in Hp. case_decide; destruct He as ([= -> -> ->] & _); (split; [done|]);
      (split; [done|]); [|done].
    intros h c' [= <-]. exists tr. split; [by left|]. rewrite Ha. by subst.
Qed.

(** What an answer leaves: the cache gains at most its decision. *)
Lemma answer_spec cb size root tr root' :
  traces (onHttpCallResponse cb size root) tr (Done root') ->
  exists new, grows_by new (cache_ root) (cache_ root') /\
    match new with
    | None => decision tr = None
    | Some (k, (r, t)) => k = cb_hash cb /\ decision tr = Some r /\ observe clock_of tr = [t]
    end.
Proof using Type.
  intros (body & Hb & H)%callback_spec. unfold decision. rewrite Hb.
  destruct (opa_result body) as [r|].
  - destruct H as (now & c & Hk & Ha%add_grows & -> & _). by exists (Some (cb_hash cb, (r, now))).
  - destruct H as (-> & _). exists None. split; [|done]. split; auto.
Qed.

(** Every entry of the cache is a decision, every pending callback was asked for. *)
Record backed (root : PluginRootContext) (pend : list callback) (h : list opa_event) : Prop := {
  backed_cache k r t : result_cache_ (cache_ root) !! k = Some (r, t) -> decided h k r t;
  backed_pending cb : cb ∈ pend -> asked h cb
}.

(** Another event, if what the cache gained is a decision of it. *)
Lemma backed_step new ev root root' pend h :
  backed root pend h -> grows_by new (cache_ root) (cache_ root') ->
  (forall k r t, new = Some (k, (r, t)) -> decided (ev :: h) k r t) ->
  backed root' pend (ev :: h).
Proof using Type.
  intros [Hc Hp] [_ Hg] Hn. split.
  - intros k r t [He|He]%Hg; [by apply decided_cons, Hc|by apply Hn].
  - intros cb Hin. by apply asked_cons, Hp.
Qed.

Lemma backed_history root pend h : history root pend h -> backed root pend h.
Proof.
  induction 1 as [|root pend h size tr ok root' _ IH H|root pend h id tr status root' cb _ IH H
    |root h before cb after size tr root' _ IH H].
  - split; [intros k r t; simpl; by rewrite lookup_empty|]. by intros cb ?%not_elem_of_nil.
  - apply configure_keeps in H. destruct IH as [Hc Hp]. split.
    + intros k r t. rewrite H. intros ?. by apply decided_cons, Hc.
    + intros cb ?. by apply asked_cons, Hp.
  - pose proof (check_spec _ _ _ _ _ _ H) as (Hg & _ & Ha).
    pose proof (backed_step None (Checked id status cb tr) _ _ _ _ IH Hg ltac:(done)) as [Hc Hp].
    split; [done|]. intros cb' [Hin|Hin]%elem_of_app; [|by apply Hp].
    destruct cb as [cb|]; [|by apply not_elem_of_nil in Hin].
    apply list_elem_of_singleton in Hin as ->. by apply Ha.
  - assert (backed root (before ++ after) h) as Hb.
    { destruct IH as [Hc Hp]. split; [done|]. intros cb' Hin. apply Hp. set_solver. }
    destruct (answer_spec _ _ _ _ _ H) as (new & Hg & Hn).
    apply (backed_step new _ _ _ _ _ Hb Hg). intros k r t ->.
    destruct Hn as (-> & Hd & Hk). exists cb, tr. split; [by left|].
    split; [|done]. apply asked_cons, (backed_pending _ _ _ IH). set_solver.
Qed.
End history.

(** ** Theorems *)

Section theorems.
Context `{J : NlohmannJson} `{A : AbslStrings}.
Context (std_hash : string -> Z).

(** C14: no request is let through without the server's permission.  After any
    history of configurations, checks and answers, with any number of checks in
    flight over the one cache, a check that continues has the key of a payload
    that an earlier check posted to the policy server, and the server's answer to
    it was [true] less than the valid duration ago (modulo [2 ^ 64]); and a paused
    request that its callback continues was itself posted, and the answer that
    the callback reads is [true]. *)
Theorem permission_from_server root pend h :
  history std_hash root pend h ->
  (forall id tr root' cb,
     traces (onRequestHeaders std_hash id root) tr (Done (Continue, root', cb)) ->
     exists now t, observe clock_of tr = [now] /\
       decided std_hash h (computeHash std_hash (payload_of (observe string_of tr))) true t /\
       now < t +64 valid_for_nanosec_ (cache_ root)) /\
  (forall cb size tr root', cb ∈ pend ->
     traces (onHttpCallResponse cb size root) tr (Done root') ->
     continued tr <> [] -> asked std_hash h cb /\ decision tr = Some true).
Proof.
  intros [Hc Hp]%backed_history. split.
  - intros id tr root' cb (_ & Hs & _)%check_spec.
    destruct (Hs eq_refl) as (now & t & Hk & He & Hv). eauto 6.
  - intros cb size tr root' Hin (body & Hb & H)%callback_spec Hcont. split; [by apply Hp|].
    unfold decision. rewrite Hb. destruct (opa_result body) as [[]|]; [done|naive_solver..].
Qed.
End theorems.

(** ** Witnesses *)

Section witnesses.
#[local] Existing Instance answer_json.
#[local] Existing Instance answer_absl.

(** Two requests are checked before the server answers the first. *)
Definition flow_configured : exec HostCall unit (bool * PluginRootContext) :=
  run opa_world (onConfigure 14 initial_context) tt.
Definition root_of {X} (e : exec HostCall unit (X * PluginRootContext)) : PluginRootContext :=
  match result e with Done (_, root) => root | _ => initial_context end.
Definition flow_check (id : Z) (root : PluginRootContext) :
    exec HostCall unit (FilterHeadersStatus * PluginRootContext * option callback) :=
  run opa_world (onRequestHeaders length_hash id root) tt.
Definition checked_root (id : Z) (root : PluginRootContext) : PluginRootContext :=
  match result (flow_check id root) with Done (_, root', _) => root' | _ => initial_context end.

Definition root1 : PluginRootContext := root_of flow_configured.
Definition root2 : PluginRootContext := checked_root 7 root1.
Definition root3 : PluginRootContext := checked_root 8 root2.
Definition flow_answer : exec HostCall unit PluginRootContext :=
  run opa_world (onHttpCallResponse {| cb_stream := 7; cb_hash := 0 |} 14 root3) tt.
Definition root4 : PluginRootContext :=
  match result flow_answer with Done root => root | _ => initial_context end.

Definition flow_history : list opa_event :=
  [Answered {| cb_stream := 7; cb_hash := 0 |} (trace flow_answer);
   Checked 8 StopIteration (Some {| cb_stream := 8; cb_hash := 0 |}) (trace (flow_check 8 root2));
   Checked 7 StopIteration (Some {| cb_stream := 7; cb_hash := 0 |}) (trace (flow_check 7 root1));
   Configured true (trace flow_configured)].

Lemma flow_history_holds :
  history length_hash root4 [{| cb_stream := 8; cb_hash := 0 |}] flow_history.
Proof.
  apply (history_answer _ root3 _ [{| cb_stream := 8; cb_hash := 0 |}] _ [] 14).
  - apply (history_check _ root2 [{| cb_stream := 7; cb_hash := 0 |}] _ 8 _ _ _
      (Some {| cb_stream := 8; cb_hash := 0 |})).
    + apply (history_check _ root1 [] _ 7 _ _ _ (Some {| cb_stream := 7; cb_hash := 0 |})).
      * apply (history_configure _ initial_context [] [] 14); [constructor|].
        exact (run_traces opa_world (onConfigure 14 initial_context) tt).
      * exact (run_traces opa_world (onRequestHeaders length_hash 7 root1) tt).
    + exact (run_traces opa_world (onRequestHeaders length_hash 8 root2) tt).
  - exact (run_traces opa_world
      (onHttpCallResponse {| cb_stream := 7; cb_hash := 0 |} 14 root3) tt).
Qed.

(** The next check is let through, and so is the request that waits. *)
Lemma permission_from_server_witness :
  (exists t, decided length_hash flow_history 0 true t) /\
  asked length_hash flow_history {| cb_stream := 8; cb_hash := 0 |}.
Proof.
  pose proof (permission_from_server length_hash root4 _ flow_history flow_history_holds) as [Hc Hp].
  split.
  - destruct (Hc 9 (trace (flow_check 9 root4)) (checked_root 9 root4) None) as (now & t & _ & H & _).
    + exact (run_traces opa_world (onRequestHeaders length_hash 9 root4) tt).
    + exists t. exact H.
  - refine (proj1 (Hp {| cb_stream := 8; cb_hash := 0 |} 14
      (trace (run opa_world (onHttpCallResponse {| cb_stream := 8; cb_hash := 0 |} 14 root4) tt)) _ _ _ _)).
    + left.
    + exact (run_traces opa_world
        (onHttpCallResponse {| cb_stream := 8; cb_hash := 0 |} 14 root4) tt).
    + vm_compute. discriminate.
Defined.
End witnesses.
