(* ===== verification/GrpcLogging.v ===== *)
(** * The gRPC access logger ([extensions/grpc_logging/plugin.{h,cc}])

    Log entries are collected in batches of at most 500, the batches wait in a
    queue and are sent by the ticks and, at the end, by [onDone].  Each handler is
    a program; [handle] dispatches the events of the plugin's life to them, so
    that a list of events is a history.  The conversions of protobuf are
    parameters. *)

From stdpp Require Import base tactics numbers list strings gmap.
From Stdlib Require Import ZArith Lia.
From S2P Require Import Prelude HostApi.
Import LogMessages.
Local Open Scope Z_scope.

(** [JsonStringToMessage], [GrpcService::SerializeToString] and [TimeUtil]. *)
Class Protobuf := {
  (** The [logging_service] of the configuration, if the text is one. *)
  parse_config : string -> option string;
  serialize_service : string -> string;
  to_timestamp : Z -> SecondsNanos;
  to_duration : Z -> SecondsNanos
}.

Record PluginRootContext := {
  logging_service_address_ : string;
  cur_log_req_ : WriteLogRequest;
  log_entry_count_ : Z;
  req_buffer_ : list WriteLogRequest;
  grpc_service_ : string;
  in_flight_export_call_ : Z;
  is_on_done_ : bool
}.

Definition new_request : WriteLogRequest := {| log_entries := [] |}.

(** The constructor. *)
Definition initial_context : PluginRootContext :=
  {| logging_service_address_ := ""; cur_log_req_ := new_request; log_entry_count_ := 0;
     req_buffer_ := []; grpc_service_ := ""; in_flight_export_call_ := 0; is_on_done_ := false |}.

Section grpc_logging.
Context `{P : Protobuf}.

Definition onConfigure (configuration_size : Z) (ctx : PluginRootContext) :
    host_prog (bool * PluginRootContext) :=
  configuration ←
    (if decide (0 < configuration_size) then
       configuration_data ← trigger (GetBuffer PluginConfiguration 0 configuration_size);
       deref configuration_data
     else mret "{}");
  match parse_config configuration with
  | None => mret (false, ctx)
  | Some logging_service =>
      if decide (logging_service = EmptyString) then mret (false, ctx) else
      let ctx := {| logging_service_address_ := logging_service; cur_log_req_ := cur_log_req_ ctx;
                    log_entry_count_ := log_entry_count_ ctx; req_buffer_ := req_buffer_ ctx;
                    grpc_service_ := serialize_service logging_service;
                    in_flight_export_call_ := in_flight_export_call_ ctx;
                    is_on_done_ := is_on_done_ ctx |} in
      _ ← trigger (SetTickPeriodMilliseconds 10000);
      mret (true, ctx)
  end.

(** [success_callback_] and, but for what it logs, [failure_callback_]. *)
Definition export_callback (ctx : PluginRootContext) : host_prog PluginRootContext :=
  let ctx := {| logging_service_address_ := logging_service_address_ ctx;
                cur_log_req_ := cur_log_req_ ctx; log_entry_count_ := log_entry_count_ ctx;
                req_buffer_ := req_buffer_ ctx; grpc_service_ := grpc_service_ ctx;
                in_flight_export_call_ := in_flight_export_call_ ctx - 1;
                is_on_done_ := is_on_done_ ctx |} in
  if decide (in_flight_export_call_ ctx <= 0 /\ is_on_done_ ctx = true) then
    _ ← trigger ProxyDone; mret ctx
  else mret ctx.

Definition success_callback_ := export_callback.
Definition failure_callback_ := export_callback.

Definition flushLogBuffer (ctx : PluginRootContext) : PluginRootContext :=
  if decide (log_entry_count_ ctx <= 0) then ctx
  else {| logging_service_address_ := logging_service_address_ ctx; cur_log_req_ := new_request;
          log_entry_count_ := 0; req_buffer_ := req_buffer_ ctx ++ [cur_log_req_ ctx];
          grpc_service_ := grpc_service_ ctx;
          in_flight_export_call_ := in_flight_export_call_ ctx; is_on_done_ := is_on_done_ ctx |}.

(** The loop of [sendLogRequest]: what stays in the buffer and the calls in
    flight. *)
Fixpoint send_loop (grpc_service : string) (reqs : list WriteLogRequest) (in_flight : Z) :
    host_prog (list WriteLogRequest * Z) :=
  match reqs with
  | [] => mret ([], in_flight)
  | req :: reqs' =>
      result ← trigger (GrpcSimpleCall grpc_service
        "istio_ecosystem.wasm_extensions.grpc_logging.LoggingService" "WriteLog" [] req 5000);
      if decide (result <> Ok) then mret (req :: reqs', in_flight)
      else send_loop grpc_service reqs' (in_flight + 1)
  end.

Definition sendLogRequest (ondone : bool) (ctx : PluginRootContext) : host_prog PluginRootContext :=
  '(req_buffer, in_flight) ←
    send_loop (grpc_service_ ctx) (req_buffer_ ctx) (in_flight_export_call_ ctx);
  mret {| logging_service_address_ := logging_service_address_ ctx;
          cur_log_req_ := cur_log_req_ ctx; log_entry_count_ := log_entry_count_ ctx;
          req_buffer_ := req_buffer; grpc_service_ := grpc_service_ ctx;
          in_flight_export_call_ := in_flight; is_on_done_ := ondone |}.

Definition onDone (ctx : PluginRootContext) : host_prog (bool * PluginRootContext) :=
  if decide (req_buffer_ ctx = [] /\ in_flight_export_call_ ctx = 0) then mret (true, ctx)
  else
    ctx ← sendLogRequest true (flushLogBuffer ctx);
    mret (false, ctx).

Definition onTick (ctx : PluginRootContext) : host_prog PluginRootContext :=
  let ctx := flushLogBuffer ctx in
  if decide (req_buffer_ ctx = []) then mret ctx else sendLogRequest false ctx.

(** A local [int64_t] without initialiser: reading it is undefined when the
    property was not found. *)
Definition initialised (v : option Z) : host_prog Z :=
  match v with
  | Some v => mret v
  | None => UB "read of an indeterminate int64_t"
  end.

Definition fill_entry : host_prog LogEntry :=
  source_address ← getValueOr (GetString ["source"; "address"]) "";
  destination_address ← getValueOr (GetString ["destination"; "address"]) "";
  destination_workload ← getValueOr (GetString ["node"; "metadata"; "WORKLOAD_NAME"]) "";
  destination_namespace ← getValueOr (GetString ["node"; "metadata"; "NAMESPACE"]) "";
  timestamp ← trigger (GetInt64 ["request"; "time"]);
  duration ← trigger (GetInt64 ["request"; "duration"]);
  request_id ← getValueOr (GetString ["request"; "id"]) "";
  host ← getValueOr (GetString ["request"; "host"]) "";
  path ← getValueOr (GetString ["request"; "url_path"]) "";
  response_code ← trigger (GetInt64 ["response"; "code"]);
  referer ← getValueOr (GetString ["request"; "referer"]) "";
  user_agent ← getValueOr (GetString ["request"; "user_agent"]) "";
  timestamp ← initialised timestamp;
  duration ← initialised duration;
  response_code ← initialised response_code;
  mret {| source_address := source_address; destination_address := destination_address;
          destination_workload := destination_workload;
          destination_namespace := destination_namespace; host := host; path := path;
          user_agent := user_agent; referer := referer; request_id := request_id;
          response_code := u32 response_code; timestamp := to_timestamp timestamp;
          latency := to_duration duration |}.

Definition append_entry (e : LogEntry) (ctx : PluginRootContext) : PluginRootContext :=
  let ctx := {| logging_service_address_ := logging_service_address_ ctx;
                cur_log_req_ := {| log_entries := log_entries (cur_log_req_ ctx) ++ [e] |};
                log_entry_count_ := log_entry_count_ ctx + 1; req_buffer_ := req_buffer_ ctx;
                grpc_service_ := grpc_service_ ctx;
                in_flight_export_call_ := in_flight_export_call_ ctx;
                is_on_done_ := is_on_done_ ctx |} in
  if decide (500 <= log_entry_count_ ctx) then flushLogBuffer ctx else ctx.

(** [addLogEntry], which here also returns the entry that it added. *)
Definition addLogEntry (ctx : PluginRootContext) : host_prog (PluginRootContext * LogEntry) :=
  e ← fill_entry;
  mret (append_entry e ctx, e).

(** ** The plugin's life *)

Inductive log_event := OnLog | OnTick | OnDone | OnSuccess | OnFailure.

(** The new state and what was logged. *)
Definition handle (ev : log_event) (ctx : PluginRootContext) :
    host_prog (PluginRootContext * list LogEntry) :=
  match ev with
  | OnLog => '(ctx, e) ← addLogEntry ctx; mret (ctx, [e])
  | OnTick => ctx ← onTick ctx; mret (ctx, [])
  | OnDone => '(_, ctx) ← onDone ctx; mret (ctx, [])
  | OnSuccess => ctx ← success_callback_ ctx; mret (ctx, [])
  | OnFailure => ctx ← failure_callback_ ctx; mret (ctx, [])
  end.

Fixpoint handle_all (evs : list log_event) (ctx : PluginRootContext) :
    host_prog (PluginRootContext * list LogEntry) :=
  match evs with
  | [] => mret (ctx, [])
  | ev :: evs =>
      '(ctx, logged) ← handle ev ctx;
      '(ctx, logged') ← handle_all evs ctx;
      mret (ctx, logged ++ logged')
  end.
End grpc_logging.

(** ** Lemmas *)

Section grpc_logging_facts.
Context `{P : Protobuf}.

(** The entries that wait, oldest first. *)
Definition queued (ctx : PluginRootContext) : list LogEntry :=
  concat (map log_entries (req_buffer_ ctx)) ++ log_entries (cur_log_req_ ctx).

(** The entries of the calls that the host accepted. *)
Definition delivered (tr : list host_event) : list LogEntry :=
  concat (map log_entries (observe grpc_sent tr)).

Definition batch_ok (r : WriteLogRequest) : Prop := (1 <= length (log_entries r) <= 500)%nat.

(** The counter counts the current batch, which is not full, and no batch that
    waits is empty or too long. *)
Record buffers_ok (ctx : PluginRootContext) : Prop := {
  count_ok : log_entry_count_ ctx = Z.of_nat (length (log_entries (cur_log_req_ ctx)));
  count_below : log_entry_count_ ctx < 500;
  batches_ok : Forall batch_ok (req_buffer_ ctx)
}.

Lemma flush_queued ctx : queued (flushLogBuffer ctx) = queued ctx.
Proof.
  unfold flushLogBuffer, queued. case_decide; [done|]. simpl.
  rewrite map_app, concat_app. simpl. by rewrite !app_nil_r.
Qed.

Lemma flush_current ctx :
  buffers_ok ctx -> log_entries (cur_log_req_ (flushLogBuffer ctx)) = [].
Proof.
  intros [Hc _ _]. unfold flushLogBuffer. case_decide; [|done].
  destruct (log_entries (cur_log_req_ ctx)); [done|]. simpl in Hc. lia.
Qed.

Lemma flush_ok ctx :
  log_entry_count_ ctx = Z.of_nat (length (log_entries (cur_log_req_ ctx))) ->
  log_entry_count_ ctx <= 500 -> Forall batch_ok (req_buffer_ ctx) ->
  buffers_ok (flushLogBuffer ctx).
Proof.
  intros Hc Hle Hb. unfold flushLogBuffer. case_decide; [split; [done|lia|done]|].
  split; [done|done|]. simpl. apply Forall_app. split; [done|]. apply Forall_singleton.
  unfold batch_ok. lia.
Qed.

Lemma flush_unchanged ctx :
  in_flight_export_call_ (flushLogBuffer ctx) = in_flight_export_call_ ctx /\
  is_on_done_ (flushLogBuffer ctx) = is_on_done_ ctx.
Proof. unfold flushLogBuffer. by case_decide. Qed.

(** The loop sends a prefix of the queue, in order, and counts its calls. *)
Lemma send_loop_spec g reqs n tr rest n' :
  traces (send_loop g reqs n) tr (Done (rest, n')) ->
  observe grpc_sent tr ++ rest = reqs /\ n' = n + Z.of_nat (length (observe grpc_sent tr)) /\
  observe is_proxy_done tr = [].
Proof.
  revert tr n. induction reqs as [|req reqs IH]; intros tr n; cbn.
  { intros [-> [= -> ->]]. cbn. split; [done|]. split; [lia|done]. }
  intros (r & t & -> & H). cbn. destruct (decide (r <> Ok)) as [Hr|Hr].
  - rewrite decide_False by done. destruct H as [-> [= -> ->]]. cbn. split; [done|]. split; [lia|done].
  - assert (r = Ok) as -> by (destruct (decide (r = Ok)); tauto).
    apply IH in H as (<- & -> & Hp). rewrite decide_True by done. cbn -[Z.of_nat].
    split; [done|]. split; [lia|done].
Qed.

Lemma send_loop_done g reqs n tr o : traces (send_loop g reqs n) tr o -> exists r, o = Done r.
Proof.
  revert tr n. induction reqs as [|req reqs IH]; intros tr n; cbn; [intros [_ ->]; eauto|].
  intros (r & t & -> & H). case_decide; [destruct H as [_ ->]; eauto|eauto].
Qed.

Lemma send_spec b ctx tr ctx' :
  traces (sendLogRequest b ctx) tr (Done ctx') ->
  delivered tr ++ queued ctx' = queued ctx /\
  in_flight_export_call_ ctx' =
    in_flight_export_call_ ctx + Z.of_nat (length (observe grpc_sent tr)) /\
  observe is_proxy_done tr = [] /\ is_on_done_ ctx' = b /\
  cur_log_req_ ctx' = cur_log_req_ ctx /\ log_entry_count_ ctx' = log_entry_count_ ctx /\
  observe grpc_sent tr ++ req_buffer_ ctx' = req_buffer_ ctx.
Proof.
  intros [([rest n'] & t1 & t2 & -> & Hl & H)|[(w & _ & ?)|[_ ?]]]%traces_bind; [|done..].
  destruct H as [-> [= ->]]. rewrite app_nil_r.
  apply send_loop_spec in Hl as (Hr & -> & Hp). unfold delivered, queued. simpl.
  rewrite <- Hr. split; [|done]. by rewrite map_app, concat_app, app_assoc.
Qed.

(** Filling an entry only reads properties. *)
Lemma fill_entry_quiet tr e :
  traces fill_entry tr (Done e) -> observe grpc_sent tr = [] /\ observe is_proxy_done tr = [].
Proof.
  unfold fill_entry, getValueOr. cbn. intros H.
  do 12 (destruct H as (? & ? & -> & H)).
  unfold initialised in H. repeat case_match; cbn in H; destruct H as [H ?]; simplify_eq; done.
Qed.

Lemma append_ok e ctx : buffers_ok ctx -> buffers_ok (append_entry e ctx).
Proof.
  intros [Hc Hb Hr]. unfold append_entry. case_decide as Hd; simpl in Hd.
  - apply flush_ok; simpl; [|lia|done]. rewrite length_app. simpl. lia.
  - split; simpl; [|lia|done]. rewrite length_app. simpl. lia.
Qed.

Lemma append_queued e ctx : queued (append_entry e ctx) = queued ctx ++ [e].
Proof.
  unfold append_entry. case_decide; [rewrite flush_queued|]; unfold queued; simpl; by rewrite app_assoc.
Qed.

Lemma append_unchanged e ctx :
  in_flight_export_call_ (append_entry e ctx) = in_flight_export_call_ ctx /\
  is_on_done_ (append_entry e ctx) = is_on_done_ ctx.
Proof.
  unfold append_entry. case_decide; [|done].
  match goal with |- context [flushLogBuffer ?c] => exact (flush_unchanged c) end.
Qed.

(** What a handler does to the queue, to the calls in flight and to the protocol
    of [onDone]: [completed] counts the callbacks. *)
Record handled (ctx : PluginRootContext) (tr : list host_event) (ctx' : PluginRootContext)
    (logged : list LogEntry) (completed : Z) : Prop := {
  handled_queue : delivered tr ++ queued ctx' = queued ctx ++ logged;
  handled_flight :
    in_flight_export_call_ ctx' =
      in_flight_export_call_ ctx + Z.of_nat (length (observe grpc_sent tr)) - completed;
  handled_ok : buffers_ok ctx -> buffers_ok ctx' /\ Forall batch_ok (observe grpc_sent tr)
}.

Lemma send_handled b ctx tr ctx' :
  traces (sendLogRequest b ctx) tr (Done ctx') -> handled ctx tr ctx' [] 0.
Proof.
  intros (Hq & Hf & _ & _ & Hcur & Hn & Hbuf)%send_spec. split.
  - by rewrite app_nil_r.
  - lia.
  - intros [Hc Hb Hr]. rewrite <- Hbuf in Hr. apply Forall_app in Hr as [H1 H2].
    split; [|done]. split; [by rewrite Hn, Hcur|by rewrite Hn|done].
Qed.

Lemma handled_flush ctx tr ctx' logged n :
  handled (flushLogBuffer ctx) tr ctx' logged n -> handled ctx tr ctx' logged n.
Proof.
  intros [Hq Hf Ho]. split.
  - by rewrite Hq, flush_queued.
  - rewrite Hf. by destruct (flush_unchanged ctx) as [-> _].
  - intros [Hc Hb Hr]. apply Ho, flush_ok; [done|lia|done].
Qed.

Lemma handled_nothing ctx : handled ctx [] ctx [] 0.
Proof. split; [by rewrite app_nil_r|simpl; lia|done]. Qed.

Definition completions (ev : log_event) : Z :=
  match ev with OnSuccess | OnFailure => 1 | _ => 0 end.

Lemma callback_handled ctx tr ctx' :
  traces (export_callback ctx) tr (Done ctx') ->
  handled ctx tr ctx' [] 1 /\ is_on_done_ ctx' = is_on_done_ ctx /\
  in_flight_export_call_ ctx' = in_flight_export_call_ ctx - 1 /\
  observe is_proxy_done tr =
    (if decide (in_flight_export_call_ ctx <= 1 /\ is_on_done_ ctx = true) then [tt] else []).
Proof.
  unfold export_callback. cbn. intros H. case_decide as Hd; cbn in H.
  - destruct H as ([] & t & -> & -> & [= ->]). rewrite decide_True by (destruct Hd; split; [lia|done]).
    split; [|done]. split; [by rewrite app_nil_r|simpl; lia|]. by intros [].
  - destruct H as [-> [= ->]]. rewrite decide_False by (intros [? ?]; apply Hd; split; [lia|done]).
    split; [|done]. split; [by rewrite app_nil_r|simpl; lia|]. by intros [].
Qed.

Lemma handle_handled ev ctx tr ctx' logged :
  traces (handle ev ctx) tr (Done (ctx', logged)) -> handled ctx tr ctx' logged (completions ev).
Proof.
  destruct ev; intros H; cbn [handle] in H.
  - unfold addLogEntry in H.
    apply traces_bind in H as [([c e] & t1 & t2 & -> & H & H2)|[(w & _ & ?)|[_ ?]]]; [|done..].
    destruct H2 as [-> [= -> ->]].
    apply traces_bind in H as [(e' & t3 & t4 & -> & H & H4)|[(w & _ & ?)|[_ ?]]]; [|done..].
    destruct H4 as [-> [= -> ->]]. rewrite !app_nil_r.
    apply fill_entry_quiet in H as [Hs _]. unfold delivered. split.
    + unfold delivered. by rewrite Hs, append_queued.
    + rewrite Hs. simpl. destruct (append_unchanged e' ctx) as [-> _]. lia.
    + intros Ho. rewrite Hs. split; [by apply append_ok|constructor].
  - apply traces_bind in H as [(c & t1 & t2 & -> & H & H2)|[(w & _ & ?)|[_ ?]]]; [|done..].
    destruct H2 as [-> [= -> ->]]. rewrite app_nil_r. unfold onTick in H. apply handled_flush.
    case_decide; [destruct H as [-> [= ->]]; apply handled_nothing|by eapply send_handled].
  - apply traces_bind in H as [([b c] & t1 & t2 & -> & H & H2)|[(w & _ & ?)|[_ ?]]]; [|done..].
    destruct H2 as [-> [= -> ->]]. rewrite app_nil_r. unfold onDone in H.
    case_decide; [destruct H as [-> [= _ ->]]; apply handled_nothing|].
    apply traces_bind in H as [(c' & t3 & t4 & -> & H & H2)|[(w & _ & ?)|[_ ?]]]; [|done..].
    destruct H2 as [-> [= _ ->]]. rewrite app_nil_r. apply handled_flush. by eapply send_handled.
  - apply traces_bind in H as [(c & t1 & t2 & -> & H & H2)|[(w & _ & ?)|[_ ?]]]; [|done..].
    destruct H2 as [-> [= -> ->]]. rewrite app_nil_r. by apply callback_handled.
  - apply traces_bind in H as [(c & t1 & t2 & -> & H & H2)|[(w & _ & ?)|[_ ?]]]; [|done..].
    destruct H2 as [-> [= -> ->]]. rewrite app_nil_r. by apply callback_handled.
Qed.

Definition completed (evs : list log_event) : Z := foldr (fun ev n => completions ev + n) 0 evs.

Lemma delivered_app t1 t2 : delivered (t1 ++ t2) = delivered t1 ++ delivered t2.
Proof. unfold delivered. by rewrite omap_app, map_app, concat_app. Qed.

Lemma handle_all_handled evs ctx tr ctx' logged :
  traces (handle_all evs ctx) tr (Done (ctx', logged)) -> handled ctx tr ctx' logged (completed evs).
Proof.
  revert ctx tr logged. induction evs as [|ev evs IH]; intros ctx tr logged H; simpl in H.
  { destruct H as [-> [= -> ->]]. apply handled_nothing. }
  apply traces_bind in H as [([c l1] & t1 & t2 & -> & H1 & H)|[(w & _ & ?)|[_ ?]]]; [|done..].
  apply traces_bind in H as [([c2 l2] & t3 & t4 & -> & H2 & H)|[(w & _ & ?)|[_ ?]]]; [|done..].
  destruct H as [-> [= -> ->]]. rewrite app_nil_r.
  apply handle_handled in H1 as [Hq1 Hf1 Ho1]. apply IH in H2 as [Hq2 Hf2 Ho2]. split.
  - by rewrite delivered_app, <- app_assoc, Hq2, app_assoc, Hq1, app_assoc.
  - rewrite omap_app, length_app. simpl. lia.
  - intros Ho. destruct (Ho1 Ho) as [Hc Hb1]. destruct (Ho2 Hc) as [Hc2 Hb2].
    split; [done|]. rewrite omap_app. by apply Forall_app.
Qed.

Lemma initial_ok : buffers_ok initial_context.
Proof. split; [done|done|constructor]. Qed.

(** Histories of callbacks only. *)
Definition is_callback (ev : log_event) : Prop := ev = OnSuccess \/ ev = OnFailure.

Lemma handle_all_callback ev evs ctx tr ctx' logged :
  is_callback ev ->
  traces (handle_all (ev :: evs) ctx) tr (Done (ctx', logged)) ->
  exists c t1 t2 logged', tr = t1 ++ t2 /\ traces (export_callback ctx) t1 (Done c) /\
    traces (handle_all evs c) t2 (Done (ctx', logged')).
Proof.
  intros Hev H. cbn [handle_all] in H.
  apply traces_bind in H as [([c l1] & t1 & t2 & -> & H1 & H)|[(w & _ & ?)|[_ ?]]]; [|done..].
  apply traces_bind in H as [([c2 l2] & t3 & t4 & -> & H2 & H)|[(w & _ & ?)|[_ ?]]]; [|done..].
  destruct H as [-> [= -> _]]. rewrite app_nil_r. exists c, t1, t3, l2. split; [done|]. split; [|done].
  destruct Hev as [-> | ->]; cbn [handle] in H1;
    apply traces_bind in H1 as [(c' & t5 & t6 & -> & H1 & H5)|[(w & _ & ?)|[_ ?]]]; try done;
    destruct H5 as [-> [= -> _]]; by rewrite app_nil_r.
Qed.
End grpc_logging_facts.

(** ** Theorems *)

Section grpc_logging_theorems.
Context `{P : Protobuf}.

(** C6: no log entry is lost, repeated or reordered while the plugin runs.  After
    any history of events, and whatever the host answers, the entries of the
    accepted calls followed by those that still wait are exactly the entries
    logged, in order; no call carries an empty batch or one of more than 500. *)
Theorem logged_entries_conserved evs tr ctx' logged :
  traces (handle_all evs initial_context) tr (Done (ctx', logged)) ->
  delivered tr ++ queued ctx' = logged /\ Forall batch_ok (observe grpc_sent tr) /\
  Forall batch_ok (req_buffer_ ctx') /\ (length (log_entries (cur_log_req_ ctx')) < 500)%nat.
Proof.
  intros [Hq _ Ho]%handle_all_handled. split; [done|].
  destruct (Ho initial_ok) as [[Hc Hb Hr] Hs]. split; [done|]. split; [done|]. lia.
Qed.

(** [in_flight_export_call_] is the number of accepted calls whose callback has
    not run yet. *)
Theorem calls_in_flight evs tr ctx' logged :
  traces (handle_all evs initial_context) tr (Done (ctx', logged)) ->
  in_flight_export_call_ ctx' = Z.of_nat (length (observe grpc_sent tr)) - completed evs.
Proof. intros [_ Hf _]%handle_all_handled. rewrite Hf. simpl. lia. Qed.

Lemma callbacks_signal evs ctx tr ctx' logged :
  Forall is_callback evs -> is_on_done_ ctx = true ->
  0 < in_flight_export_call_ ctx -> Z.of_nat (length evs) <= in_flight_export_call_ ctx ->
  traces (handle_all evs ctx) tr (Done (ctx', logged)) ->
  observe is_proxy_done tr = (if decide (Z.of_nat (length evs) = in_flight_export_call_ ctx) then [tt] else []).
Proof.
  revert ctx tr logged. induction evs as [|ev evs IH]; intros ctx tr logged He Hd Hp Hn H.
  { destruct H as [-> _]. by rewrite decide_False by (simpl; lia). }
  apply Forall_cons in He as [Hev He]. simpl length in *.
  apply handle_all_callback in H as (c & t1 & t2 & l2 & -> & H1 & H2); [|done].
  apply callback_handled in H1 as (_ & Hod & Hf & Hs). rewrite omap_app, Hs.
  destruct (decide (in_flight_export_call_ ctx = 1)) as [E|E].
  - destruct evs; [|simpl in Hn; lia]. destruct H2 as [-> _]. rewrite decide_True by (split; [lia|done]).
    by rewrite decide_True by (simpl; lia).
  - rewrite decide_False by (intros [? _]; lia). cbn [app].
    rewrite (IH c t2 l2 He) by (done || congruence || lia). apply decide_ext. lia.
Qed.

(** C31: the proxy is told once that the plugin has finished, and by the last call.  When
    [onDone] leaves [n] calls in flight, it has returned [false] and not called
    [proxy_done]; none of the callbacks that follow does before the [n]th, and that
    one does, once. *)
Theorem done_signalled_once ctx tr1 finished ctx1 evs tr2 ctx2 logged :
  0 < in_flight_export_call_ ctx1 -> 0 <= in_flight_export_call_ ctx ->
  traces (onDone ctx) tr1 (Done (finished, ctx1)) ->
  Forall is_callback evs -> Z.of_nat (length evs) <= in_flight_export_call_ ctx1 ->
  traces (handle_all evs ctx1) tr2 (Done (ctx2, logged)) ->
  finished = false /\ observe is_proxy_done tr1 = [] /\
  observe is_proxy_done tr2 = if decide (Z.of_nat (length evs) = in_flight_export_call_ ctx1) then [tt] else [].
Proof.
  intros Hpos Hnn H He Hlen H2. unfold onDone in H. case_decide as Hd.
  { destruct H as [_ [= -> ->]]. lia. }
  apply traces_bind in H as [(c & t3 & t4 & -> & H & H4)|[(w & _ & ?)|[_ ?]]]; [|done..].
  destruct H4 as [-> [= -> ->]]. rewrite app_nil_r.
  apply send_spec in H as (_ & _ & Hp & Hod & _). split; [done|]. split; [done|].
  by apply (callbacks_signal evs c tr2 ctx2 logged).
Qed.

(** A run of entries that does not fill the current batch only makes it longer. *)
Lemma logs_queue n ctx tr ctx' logged :
  buffers_ok ctx -> log_entry_count_ ctx + Z.of_nat n < 500 ->
  traces (handle_all (replicate n OnLog) ctx) tr (Done (ctx', logged)) ->
  length logged = n /\ observe grpc_sent tr = [] /\ req_buffer_ ctx' = req_buffer_ ctx /\
  in_flight_export_call_ ctx' = in_flight_export_call_ ctx /\
  log_entries (cur_log_req_ ctx') = log_entries (cur_log_req_ ctx) ++ logged.
Proof.
  revert ctx tr logged. induction n as [|n IH]; intros ctx tr logged Ho Hn H.
  { destruct H as [-> [= -> ->]]. by rewrite app_nil_r. }
  cbn [replicate handle_all] in H.
  apply traces_bind_done in H as ([c l1] & t1 & t2 & -> & H1 & H).
  apply traces_bind_done in H as ([c2 l2] & t3 & t4 & -> & H2 & [-> [= -> ->]]). rewrite app_nil_r.
  cbn [handle] in H1. apply traces_bind_done in H1 as ([c1 e] & t5 & t6 & -> & H1 & [-> [= -> ->]]).
  unfold addLogEntry in H1. apply traces_bind_done in H1 as (e' & t7 & t8 & -> & H1 & [-> [= -> ->]]).
  apply fill_entry_quiet in H1 as [Hq _]. rewrite !app_nil_r.
  pose proof (append_ok e' ctx Ho) as Ho'.
  assert (append_entry e' ctx = {| logging_service_address_ := logging_service_address_ ctx;
      cur_log_req_ := {| log_entries := log_entries (cur_log_req_ ctx) ++ [e'] |};
      log_entry_count_ := log_entry_count_ ctx + 1; req_buffer_ := req_buffer_ ctx;
      grpc_service_ := grpc_service_ ctx; in_flight_export_call_ := in_flight_export_call_ ctx;
      is_on_done_ := is_on_done_ ctx |}) as Ha by (unfold append_entry; by rewrite decide_False by (simpl; lia)).
  rewrite Ha in *. apply IH in H2 as (Hl & Hs & Hr & Hf & Hc); [|done|simpl; lia].
  split; [simpl; by f_equal|]. split; [by rewrite omap_app, Hq|]. do 2 (split; [done|]).
  rewrite Hc. simpl. by rewrite <- app_assoc.
Qed.

(** C35: entries are lost at the end.  When every batch of a history has been sent and
    every accepted call has been answered, and then entries are logged that do not
    fill a batch, [onDone] makes no call and reports that the plugin has finished, so
    that these entries and those of the current batch, which the queue still holds,
    are never delivered. *)
Theorem onDone_drops_batch evs tr1 ctx1 logged1 n tr2 ctx2 logged2 tr3 o :
  traces (handle_all evs initial_context) tr1 (Done (ctx1, logged1)) ->
  req_buffer_ ctx1 = [] -> Z.of_nat (length (observe grpc_sent tr1)) = completed evs ->
  log_entry_count_ ctx1 + Z.of_nat n < 500 ->
  traces (handle_all (replicate n OnLog) ctx1) tr2 (Done (ctx2, logged2)) ->
  traces (onDone ctx2) tr3 o ->
  o = Done (true, ctx2) /\ tr3 = [] /\ length logged2 = n /\
  queued ctx2 = log_entries (cur_log_req_ ctx1) ++ logged2 /\
  delivered (tr1 ++ tr2 ++ tr3) ++ queued ctx2 = logged1 ++ logged2.
Proof.
  intros [Hq Hf Ho]%handle_all_handled Hr Hc Hn H2 H3. destruct (Ho initial_ok) as [Hok _].
  destruct (logs_queue n ctx1 tr2 ctx2 logged2 Hok Hn H2) as (Hl & Hs & Hr2 & Hf2 & Hcur).
  apply handle_all_handled in H2 as [Hq2 _ _].
  unfold onDone in H3. rewrite decide_True in H3 by (rewrite Hr2, Hf2; split; [done|simpl in Hf; lia]).
  destruct H3 as [-> ->]. do 3 (split; [done|]). split.
  - unfold queued. by rewrite Hr2, Hr, Hcur.
  - by rewrite app_nil_r, delivered_app, <- app_assoc, Hq2, app_assoc, Hq.
Qed.

(** A tick after [onDone] cancels it.  If a batch still waits, because its call
    was refused, the tick clears [is_on_done_], and none of the callbacks that
    follow calls [proxy_done]. *)
Theorem tick_cancels_done ctx tr1 ctx1 evs tr2 ctx2 logged :
  req_buffer_ ctx <> [] ->
  traces (onTick ctx) tr1 (Done ctx1) -> Forall is_callback evs ->
  traces (handle_all evs ctx1) tr2 (Done (ctx2, logged)) ->
  is_on_done_ ctx1 = false /\ observe is_proxy_done tr2 = [].
Proof.
  intros Hr H He H2.
  assert (is_on_done_ ctx1 = false) as Hd.
  { unfold onTick in H. rewrite decide_False in H.
    - by apply send_spec in H as (_ & _ & _ & ? & _).
    - clear H. unfold flushLogBuffer. case_decide; [done|]. simpl. by destruct (req_buffer_ ctx). }
  split; [done|]. clear H Hr. revert ctx1 tr2 logged Hd H2.
  induction evs as [|ev evs IH]; intros ctx1 tr2 logged Hd H; [by destruct H as [-> _]|].
  apply Forall_cons in He as [Hev He].
  apply handle_all_callback in H as (c & t1 & t2 & l2 & -> & H1 & H2); [|done].
  apply callback_handled in H1 as (_ & Hod & _ & Hp).
  rewrite omap_app, Hp, decide_False by (rewrite Hd; intros [_ ?]; done).
  apply (IH He c t2 l2); [congruence|done].
Qed.
End grpc_logging_theorems.

(** ** Witnesses *)

Section grpc_logging_witnesses.
#[local] Instance example_protobuf : Protobuf := {|
  parse_config s := Some s;
  serialize_service s := s;
  to_timestamp n := {| seconds := n / 1000000000; nanos := n mod 1000000000 |};
  to_duration n := {| seconds := n / 1000000000; nanos := n mod 1000000000 |}
|}.

(** A host that has every integer property and accepts every call. *)
Definition log_host : handler HostCall unit :=
  fun X e s =>
    match e in HostCall X return X * unit with
    | GetInt64 _ => (Some 200, s)
    | e => (quiet_answer e, s)
    end.

Definition history : list log_event := [OnLog; OnLog; OnTick; OnLog; OnSuccess].
Definition history_run : exec HostCall unit (PluginRootContext * list LogEntry) :=
  run log_host (handle_all history initial_context) tt.
Definition history_end : PluginRootContext * list LogEntry :=
  match result history_run with Done r => r | _ => (initial_context, []) end.

Lemma history_traces :
  traces (handle_all history initial_context) (trace history_run) (Done (fst history_end, snd history_end)).
Proof. apply run_done_traces. vm_compute. reflexivity. Qed.

Lemma logged_entries_conserved_witness :
  delivered (trace history_run) ++ queued (fst history_end) = snd history_end.
Proof.
  exact (proj1 (logged_entries_conserved history (trace history_run) (fst history_end)
    (snd history_end) history_traces)).
Defined.

Lemma calls_in_flight_witness :
  in_flight_export_call_ (fst history_end) =
    Z.of_nat (length (observe grpc_sent (trace history_run))) - completed history.
Proof.
  exact (calls_in_flight history (trace history_run) (fst history_end) (snd history_end)
    history_traces).
Defined.

Definition example_entry : LogEntry :=
  match snd history_end with e :: _ => e | [] =>
    {| source_address := ""; destination_address := ""; destination_workload := "";
       destination_namespace := ""; host := ""; path := ""; user_agent := ""; referer := "";
       request_id := ""; response_code := 0; timestamp := {| seconds := 0; nanos := 0 |};
       latency := {| seconds := 0; nanos := 0 |} |} end.

Definition waiting : PluginRootContext :=
  {| logging_service_address_ := ""; cur_log_req_ := {| log_entries := [example_entry] |};
     log_entry_count_ := 1; req_buffer_ := [{| log_entries := [example_entry] |}];
     grpc_service_ := ""; in_flight_export_call_ := 0; is_on_done_ := false |}.

Definition done_run : exec HostCall unit (bool * PluginRootContext) := run log_host (onDone waiting) tt.
Definition done_context : PluginRootContext :=
  match result done_run with Done (_, c) => c | _ => waiting end.
Definition callbacks (evs : list log_event) : exec HostCall unit (PluginRootContext * list LogEntry) :=
  run log_host (handle_all evs done_context) tt.
Definition first_callback := callbacks [OnSuccess].
Definition last_callbacks := callbacks [OnSuccess; OnFailure].

Lemma done_signalled_once_witness :
  observe is_proxy_done (trace first_callback) = [] /\ observe is_proxy_done (trace last_callbacks) = [tt].
Proof.
  assert (forall evs : list log_event, Forall is_callback evs -> Z.of_nat (length evs) <= 2 ->
    is_done (result (callbacks evs)) = true ->
    observe is_proxy_done (trace (callbacks evs)) = if decide (Z.of_nat (length evs) = 2) then [tt] else []) as Hc.
  { intros evs He Hl Hd.
    refine (proj2 (proj2 (done_signalled_once waiting (trace done_run) false done_context evs (trace (callbacks evs))
      (fst (done_or (waiting, []) (result (callbacks evs)))) (snd (done_or (waiting, []) (result (callbacks evs))))
      _ _ _ He Hl _))).
    - vm_compute. reflexivity.
    - vm_compute. discriminate.
    - apply run_done_traces. vm_compute. reflexivity.
    - apply run_done_traces. rewrite <- surjective_pairing. by apply is_done_or. }
  split; (etrans; [apply Hc|reflexivity]); [by repeat constructor|simpl; lia|vm_compute; reflexivity| |simpl; lia|vm_compute; reflexivity].
  constructor; [by left|]. constructor; [by right|constructor].
Defined.

(** One batch is sent and answered, and two entries come after it. *)
Definition sent_run := run log_host (handle_all [OnLog; OnTick; OnSuccess] initial_context) tt.
Definition sent_end := done_or (initial_context, []) (result sent_run).
Definition more_run := run log_host (handle_all (replicate 2 OnLog) (fst sent_end)) tt.
Definition more_end := done_or (initial_context, []) (result more_run).

Lemma onDone_drops_batch_witness :
  result (run log_host (onDone (fst more_end)) tt) = Done (true, fst more_end) /\
  length (snd more_end) = 2%nat /\ queued (fst more_end) = snd more_end.
Proof.
  destruct (onDone_drops_batch [OnLog; OnTick; OnSuccess] (trace sent_run) (fst sent_end) (snd sent_end) 2
    (trace more_run) (fst more_end) (snd more_end) (trace (run log_host (onDone (fst more_end)) tt))
    (result (run log_host (onDone (fst more_end)) tt))) as (Ho & _ & Hl & Hq & _).
  - apply run_done_traces. vm_compute. reflexivity.
  - reflexivity.
  - vm_compute. reflexivity.
  - vm_compute. reflexivity.
  - apply run_done_traces. vm_compute. reflexivity.
  - apply run_traces.
  - split; [exact Ho|]. split; [exact Hl|exact Hq].
Defined.

Definition tick_run : exec HostCall unit PluginRootContext := run log_host (onTick waiting) tt.

Lemma tick_cancels_done_witness :
  is_on_done_ (match result tick_run with Done c => c | _ => waiting end) = false.
Proof.
  refine (proj1 (tick_cancels_done waiting (trace tick_run)
    (match result tick_run with Done c => c | _ => waiting end) [] [] _ [] _ _ _ _)).
  - discriminate.
  - apply run_done_traces. vm_compute. reflexivity.
  - constructor.
  - cbn. split; reflexivity.
Defined.
End grpc_logging_witnesses.
