(* ===== verification/Expressions.v ===== *)
(** * The host's table of expressions

    Expressions are compiled by the host, which knows them by tokens; a plugin that
    creates one must delete it, and must not use it afterwards.  [table] replays
    the calls of a trace on the live tokens: [AttributeGen] and
    [StatsExpressions] prove their plugins against it. *)

From stdpp Require Import base tactics numbers list strings gmap.
From Stdlib Require Import ZArith Lia.
From S2P Require Import Prelude HostApi Bytes.
Local Open Scope Z_scope.

(** The four bytes of a token. *)
Definition token_bytes (token : Z) : string := string_of_bytes (le_split 4 token).

(** The loop that deletes the expressions a plugin created. *)
Fixpoint delete_all (tokens : list Z) : host_prog unit :=
  match tokens with
  | [] => mret tt
  | token :: tokens' => _ ← trigger (ExprDelete token); delete_all tokens'
  end.

(** Dropping the first occurrence. *)
Fixpoint remove_one (t : Z) (l : list Z) : list Z :=
  match l with
  | [] => []
  | x :: l' => if decide (x = t) then l' else x :: remove_one t l'
  end.

(** One call of the plugin on the table of live tokens; [None] is a call on an
    expression that is not live. *)
Definition table_step (live : list Z) (ev : host_event) : option (list Z) :=
  match ev with
  | Ev (CreateExpression _) (r, t) => Some (if decide (r = Ok) then live ++ [t] else live)
  | Ev (ExprDelete t) _ => if decide (t ∈ live) then Some (remove_one t live) else None
  | Ev (CallForeignFunction _ arg) _ =>
      if existsb (fun t => bool_decide (arg = token_bytes t)) live then Some live else None
  | Ev (EvaluateString t) _ | Ev (EvaluateInt t) _ => if decide (t ∈ live) then Some live else None
  | _ => Some live
  end.

Fixpoint table (live : list Z) (tr : list host_event) : option (list Z) :=
  match tr with
  | [] => Some live
  | ev :: tr' => live' ← table_step live ev; table live' tr'
  end.

Lemma table_app live t1 t2 : table live (t1 ++ t2) = (live' ← table live t1; table live' t2).
Proof.
  revert live. induction t1 as [|ev t1 IH]; intros live; simpl; [done|].
  destruct (table_step live ev); simpl; [apply IH|done].
Qed.

(** ** The table as a bag *)

Lemma remove_one_perm t l : t ∈ l -> l ≡ₚ t :: remove_one t l.
Proof.
  induction l as [|x l IH]; simpl; [by intros ?%elem_of_nil|]. intros [->|Ht]%elem_of_cons.
  - by rewrite decide_True.
  - case_decide as Hx; [by subst|]. rewrite (IH Ht) at 1. apply Permutation_swap.
Qed.

#[export] Instance remove_one_proper t : Proper ((≡ₚ) ==> (≡ₚ)) (remove_one t).
Proof.
  assert (forall l, t ∉ l -> remove_one t l = l) as Hout.
  { induction l as [|x l IH]; simpl; [done|]. intros [Hx Hl]%not_elem_of_cons.
    rewrite decide_False by congruence. by rewrite IH. }
  intros l1 l2 Hl. destruct (decide (t ∈ l1)) as [Ht|Ht].
  - apply (Permutation_cons_inv (a := t)). rewrite <- !remove_one_perm; [done|by rewrite <- Hl|done].
  - rewrite !Hout; [done|by rewrite <- Hl|done].
Qed.

(** The calls of a trace take a bag of live tokens to another. *)
Definition owns (live : list Z) (tr : list host_event) (live' : list Z) : Prop :=
  exists l, table live tr = Some l /\ l ≡ₚ live'.

Lemma table_step_perm l1 l2 ev l1' :
  l1 ≡ₚ l2 -> table_step l1 ev = Some l1' -> exists l2', table_step l2 ev = Some l2' /\ l1' ≡ₚ l2'.
Proof.
  intros Hl. destruct ev as [X e x]. destruct e; simpl; try (intros [= <-]; by eauto).
  - destruct x as [r t]. intros [= <-]. eexists. split; [done|]. case_decide; by rewrite Hl.
  - case_decide as Ht; [|done]. intros [= <-]. rewrite decide_True by (by rewrite <- Hl).
    eexists. split; [done|]. by rewrite Hl.
  - case_decide as Ht; [|done]. intros [= <-]. rewrite decide_True by (by rewrite <- Hl). eauto.
  - case_decide as Ht; [|done]. intros [= <-]. rewrite decide_True by (by rewrite <- Hl). eauto.
  - destruct (existsb _ l1) eqn:E; [|done]. intros [= <-]. exists l2. split; [|done].
    apply existsb_exists in E as (t & Ht & Hb). rewrite (proj2 (existsb_exists _ l2)); [done|].
    exists t. split; [|done]. apply list_elem_of_In. rewrite <- Hl. by apply list_elem_of_In.
Qed.

Lemma table_perm l1 l2 tr l1' :
  l1 ≡ₚ l2 -> table l1 tr = Some l1' -> exists l2', table l2 tr = Some l2' /\ l1' ≡ₚ l2'.
Proof.
  revert l1 l2. induction tr as [|ev tr IH]; intros l1 l2 Hl; simpl; [intros [= <-]; eauto|].
  destruct (table_step l1 ev) as [m|] eqn:E; [|done]. intros Ht.
  destruct (table_step_perm _ _ _ _ Hl E) as (m2 & -> & Hm). simpl. by apply (IH m).
Qed.

#[export] Instance owns_proper : Proper ((≡ₚ) ==> (=) ==> (≡ₚ) ==> iff) owns.
Proof.
  assert (forall l1 l2 tr l1' l2', l1 ≡ₚ l2 -> l1' ≡ₚ l2' -> owns l1 tr l1' -> owns l2 tr l2') as H.
  { intros l1 l2 tr l1' l2' Hl Hl' (l & Ht & Hp). destruct (table_perm _ _ _ _ Hl Ht) as (m & H2 & Hm).
    exists m. split; [done|]. by rewrite <- Hm, Hp. }
  intros l1 l2 Hl tr ? <- l1' l2' Hl'. split; by apply H.
Qed.

Lemma owns_nil live : owns live [] live.
Proof. by exists live. Qed.

Lemma owns_app l1 l2 l3 t1 t2 : owns l1 t1 l2 -> owns l2 t2 l3 -> owns l1 (t1 ++ t2) l3.
Proof.
  intros (m & Ht & Hm) H2. rewrite <- Hm in H2. destruct H2 as (m2 & H2 & Hm2).
  exists m2. by rewrite table_app, Ht.
Qed.

Lemma delete_all_table_app tokens rest tr u :
  traces (delete_all tokens) tr (Done u) -> table (tokens ++ rest) tr = Some rest.
Proof.
  revert tr. induction tokens as [|t tokens IH]; intros tr; cbn.
  - by intros [-> _].
  - intros ([] & tr' & -> & H). cbn. rewrite decide_True by (by left). simpl.
    rewrite decide_True by done. auto.
Qed.

Lemma delete_all_table tokens tr u : traces (delete_all tokens) tr (Done u) -> table tokens tr = Some [].
Proof. intros Ht. rewrite <- (app_nil_r tokens). by eapply delete_all_table_app. Qed.

(** *** Ownership is local *)

Lemma remove_one_app t l rest : t ∈ l -> remove_one t (l ++ rest) = remove_one t l ++ rest.
Proof.
  induction l as [|x l IH]; simpl; [by intros ?%not_elem_of_nil|]. intros [->|Ht]%elem_of_cons.
  - by rewrite !decide_True.
  - case_decide; [done|]. by rewrite IH.
Qed.

(** What others hold stays live. *)
Lemma table_step_frame live rest ev live' :
  table_step live ev = Some live' ->
  exists l, table_step (live ++ rest) ev = Some l /\ l ≡ₚ live' ++ rest.
Proof.
  destruct ev as [X e x]. destruct e; simpl; try (intros [= <-]; by eauto).
  - destruct x as [r t]. intros [= <-]. eexists. split; [done|]. case_decide; [|done].
    rewrite <- !app_assoc. apply Permutation_app_head, Permutation_app_comm.
  - case_decide as Ht; [|done]. intros [= <-]. rewrite decide_True by (apply elem_of_app; by left).
    eexists. split; [done|]. by rewrite remove_one_app.
  - case_decide as Ht; [|done]. intros [= <-]. rewrite decide_True by (apply elem_of_app; by left). eauto.
  - case_decide as Ht; [|done]. intros [= <-]. rewrite decide_True by (apply elem_of_app; by left). eauto.
  - destruct (existsb _ live) eqn:E; [|done]. intros [= <-]. rewrite existsb_app, E. eauto.
Qed.

Lemma owns_frame live rest tr live' : owns live tr live' -> owns (live ++ rest) tr (live' ++ rest).
Proof.
  intros (l & Ht & <-). revert live Ht. induction tr as [|ev tr IH]; intros live; simpl.
  { intros [= ->]. apply owns_nil. }
  destruct (table_step live ev) as [m|] eqn:E; [|done]. intros Ht.
  destruct (table_step_frame _ rest _ _ E) as (m' & E' & Hm). specialize (IH m Ht).
  rewrite <- Hm in IH. destruct IH as (l2 & H2 & Hl2). exists l2. simpl. by rewrite E'.
Qed.

(** *** Without the values of metrics *)

Definition is_int (ev : host_event) : bool := match ev with Ev (EvaluateInt _) _ => true | _ => false end.

Definition without_ints (tr : list host_event) : list host_event := filter (fun ev => is_int ev = false) tr.

Lemma owns_without_ints live tr live' : owns live tr live' -> owns live (without_ints tr) live'.
Proof.
  intros (l & Ht & Hl). exists l. split; [|done]. clear Hl. revert live Ht.
  induction tr as [|ev tr IH]; intros live; [done|]. unfold without_ints in *. rewrite filter_cons.
  simpl. destruct (table_step live ev) as [m|] eqn:E; [|done]. simpl. intros Ht.
  case_decide as Hi; simpl; [rewrite E; simpl; by apply IH|].
  destruct ev as [X e x]. destruct e; try done. simpl in E. case_decide; [|done]. injection E as <-.
  by apply IH.
Qed.

(** ** Programs that only evaluate *)

(** A call that neither creates nor deletes, and evaluates only expressions in
    [strings] and [ints]. *)
Definition evaluates (strings ints : Z -> Prop) {X} (e : HostCall X) : Prop :=
  match e with
  | CreateExpression _ | ExprDelete _ | CallForeignFunction _ _ => False
  | EvaluateString t => strings t
  | EvaluateInt t => ints t
  | _ => True
  end.

Lemma evaluates_table strings ints {X} (e : HostCall X) x live :
  evaluates strings ints e -> (forall t, strings t -> t ∈ live) -> (forall t, ints t -> t ∈ live) ->
  table_step live (Ev e x) = Some live.
Proof.
  intros He Hs Hi. destruct e; simpl in *; try done.
  - rewrite decide_True; auto.
  - rewrite decide_True; auto.
Qed.
