(* ===== verification/AttributeGen.v ===== *)
(** * The attribute generator ([extensions/attributegen/plugin.{h,cc}])

    Expressions are compiled by the host, which knows them by tokens; the plugin
    keeps the tokens it created and deletes them when it is configured again or
    destroyed.  On the request and on the log phase each generator's matches are
    evaluated in order. *)

From stdpp Require Import base tactics numbers list strings gmap.
From Stdlib Require Import ZArith Lia Ascii.
From S2P Require Import Prelude HostApi Bytes Expressions.
Local Open Scope Z_scope.

(** ** Messages of [config.proto] *)

(** [AFTER_RESPONSE], which is the default, also stands for every number that names
    no phase. *)
Inductive ConfigPhase := AFTER_RESPONSE | ON_REQUEST.

Record MatchConfig := { condition : string; match_value : string }.

Record AttributeGeneration := {
  output_attribute : string;
  config_match : list MatchConfig;
  config_phase : ConfigPhase
}.

Record PluginConfig := { debug : bool; attributes : list AttributeGeneration }.

(** [JsonStringToMessage] *)
Class ConfigParser := parse_config : string -> option PluginConfig.

(** ** State *)

Record Match := { condition_ : string; condition_token_ : Z; value_ : string }.

Inductive EvalPhase := OnLog | OnRequest.
#[export] Instance EvalPhase_eq_dec : EqDecision EvalPhase.
Proof. solve_decision. Defined.

Record AttributeGenerator := {
  phase_ : EvalPhase;
  output_attribute_ : string;
  matches_ : list Match
}.

(** [debug_] has no initialiser, but is read only after [onConfigure] sets it. *)
Record PluginRootContext := {
  gen_ : list AttributeGenerator;
  tokens_ : list Z;
  debug_ : bool;
  config_errors_ : Z;
  runtime_errors_ : Z
}.

(** The constructor. *)
Definition new_context : host_prog PluginRootContext :=
  config_errors ← trigger (ResolveMetric "error_count" ["attributegen"; "config"]);
  runtime_errors ← trigger (ResolveMetric "error_count" ["attributegen"; "runtime"]);
  mret {| gen_ := []; tokens_ := []; debug_ := false;
          config_errors_ := config_errors; runtime_errors_ := runtime_errors |}.

(** ** Evaluation *)

(** The one byte of a [bool]. *)
Definition bool_of_bytes (out : string) : option bool :=
  match out with
  | String c EmptyString => Some (negb (bool_decide (c = "000"%char)))
  | _ => None
  end.

Definition evaluate_match (m : Match) : host_prog (option bool) :=
  if decide (condition_ m = EmptyString) then mret (Some true) else
  '(result, out) ← trigger (CallForeignFunction "expr_evaluate" (token_bytes (condition_token_ m)));
  if decide (result <> Ok) then mret None else mret (bool_of_bytes out).

(** [AttributeGenerator::evaluate]: the status, and [val] when it is [true]. *)
Fixpoint evaluate_matches (matches : list Match) : host_prog (option bool * string) :=
  match matches with
  | [] => mret (Some false, "")
  | m :: matches' =>
      eval_status ← evaluate_match m;
      match eval_status with
      | None => mret (None, "")
      | Some true => mret (Some true, value_ m)
      | Some false => evaluate_matches matches'
      end
  end.

Definition evaluate (g : AttributeGenerator) : host_prog (option bool * string) :=
  evaluate_matches (matches_ g).

Fixpoint generate (runtime_errors : Z) (gens : list AttributeGenerator) (phase : EvalPhase) :
    host_prog unit :=
  match gens with
  | [] => mret tt
  | g :: gens' =>
      if decide (phase <> phase_ g) then generate runtime_errors gens' phase else
      '(eval_status, val) ← evaluate g;
      match eval_status with
      | None => _ ← trigger (IncrementMetric runtime_errors 1); generate runtime_errors gens' phase
      | Some false => generate runtime_errors gens' phase
      | Some true =>
          _ ← trigger (SetFilterState (output_attribute_ g) val);
          generate runtime_errors gens' phase
      end
  end.

Definition attributeGen (phase : EvalPhase) (ctx : PluginRootContext) : host_prog unit :=
  generate (runtime_errors_ ctx) (gen_ ctx) phase.

(** ** Configuration *)

Definition cleanupAttributeGen (ctx : PluginRootContext) : host_prog PluginRootContext :=
  _ ← delete_all (tokens_ ctx);
  mret {| gen_ := []; tokens_ := []; debug_ := debug_ ctx;
          config_errors_ := config_errors_ ctx; runtime_errors_ := runtime_errors_ ctx |}.

(** The inner loop of [initAttributeGen]: the tokens and the matches so far. *)
Fixpoint init_matches (configs : list MatchConfig) (tokens : list Z) (matches : list Match) :
    host_prog (bool * list Z * list Match) :=
  match configs with
  | [] => mret (true, tokens, matches)
  | c :: configs' =>
      if decide (condition c = EmptyString) then
        init_matches configs' tokens
          (matches ++ [{| condition_ := ""; condition_token_ := 0; value_ := match_value c |}])
      else
        '(create_status, token) ← trigger (CreateExpression (condition c));
        if decide (create_status <> Ok) then mret (false, tokens, matches)
        else
          init_matches configs' (tokens ++ [token])
            (matches ++ [{| condition_ := condition c; condition_token_ := token;
                            value_ := match_value c |}])
  end.

Definition phase_of (p : ConfigPhase) : EvalPhase :=
  match p with ON_REQUEST => OnRequest | AFTER_RESPONSE => OnLog end.

(** The outer loop. *)
Fixpoint init_generators (configs : list AttributeGeneration) (tokens : list Z)
    (gens : list AttributeGenerator) : host_prog (bool * list Z * list AttributeGenerator) :=
  match configs with
  | [] => mret (true, tokens, gens)
  | c :: configs' =>
      '(ok, tokens, matches) ← init_matches (config_match c) tokens [];
      if negb ok then mret (false, tokens, gens)
      else
        init_generators configs' tokens
          (gens ++ [{| phase_ := phase_of (config_phase c);
                       output_attribute_ := output_attribute c; matches_ := matches |}])
  end.

Definition initAttributeGen (config : PluginConfig) (ctx : PluginRootContext) :
    host_prog (bool * PluginRootContext) :=
  '(ok, tokens, gens) ← init_generators (attributes config) (tokens_ ctx) (gen_ ctx);
  mret (ok, {| gen_ := gens; tokens_ := tokens; debug_ := debug_ ctx;
               config_errors_ := config_errors_ ctx; runtime_errors_ := runtime_errors_ ctx |}).

Section configure.
Context `{P : ConfigParser}.

Definition onConfigure (configuration_size : Z) (ctx : PluginRootContext) :
    host_prog (bool * PluginRootContext) :=
  configuration_data ← trigger (GetBuffer PluginConfiguration 0 configuration_size);
  configuration ← deref configuration_data;
  match parse_config configuration with
  | None => _ ← trigger (IncrementMetric (config_errors_ ctx) 1); mret (true, ctx)
  | Some config =>
      let ctx := {| gen_ := gen_ ctx; tokens_ := tokens_ ctx; debug_ := debug config;
                    config_errors_ := config_errors_ ctx; runtime_errors_ := runtime_errors_ ctx |} in
      ctx ← cleanupAttributeGen ctx;
      '(init_status, ctx) ← initAttributeGen config ctx;
      if negb init_status then
        _ ← trigger (IncrementMetric (config_errors_ ctx) 1);
        ctx ← cleanupAttributeGen ctx;
        mret (true, ctx)
      else mret (true, ctx)
  end.

Definition onDone (ctx : PluginRootContext) : host_prog (bool * PluginRootContext) :=
  ctx ← cleanupAttributeGen ctx; mret (true, ctx).

(** ** The plugin's life *)

Inductive gen_event := Configure (size : Z) | Done' | Log | Request.

Definition handle (ev : gen_event) (ctx : PluginRootContext) : host_prog PluginRootContext :=
  match ev with
  | Configure size => '(_, ctx) ← onConfigure size ctx; mret ctx
  | Done' => '(_, ctx) ← onDone ctx; mret ctx
  | Log => _ ← attributeGen OnLog ctx; mret ctx
  | Request => _ ← attributeGen OnRequest ctx; mret ctx
  end.

Fixpoint handle_all (evs : list gen_event) (ctx : PluginRootContext) : host_prog PluginRootContext :=
  match evs with
  | [] => mret ctx
  | ev :: evs => ctx ← handle ev ctx; handle_all evs ctx
  end.
End configure.

(** ** Expressions that are live *)

(** The expressions that matches evaluate are among [tokens]. *)
Definition match_live (tokens : list Z) (m : Match) : Prop :=
  condition_ m <> EmptyString -> condition_token_ m ∈ tokens.

Definition gen_live (tokens : list Z) (g : AttributeGenerator) : Prop :=
  Forall (match_live tokens) (matches_ g).

Definition context_live (ctx : PluginRootContext) : Prop := Forall (gen_live (tokens_ ctx)) (gen_ ctx).

Lemma match_live_mono t1 t2 m : t1 ⊆ t2 -> match_live t1 m -> match_live t2 m.
Proof. unfold match_live. set_solver. Qed.

Lemma gen_live_mono t1 t2 g : t1 ⊆ t2 -> gen_live t1 g -> gen_live t2 g.
Proof. intros Hs. unfold gen_live. intros H. eapply Forall_impl; [exact H|]. intros m. by apply match_live_mono. Qed.

Lemma init_matches_table configs tokens ms tr ok tokens' ms' :
  traces (init_matches configs tokens ms) tr (Done (ok, tokens', ms')) ->
  table tokens tr = Some tokens' /\ tokens ⊆ tokens' /\
  (Forall (match_live tokens) ms -> Forall (match_live tokens') ms').
Proof.
  revert tokens ms tr. induction configs as [|c configs IH]; intros tokens ms tr; cbn.
  { by intros [-> [= -> -> ->]]. }
  case_decide as Hc.
  { intros (Ht & Hs & Hm)%IH. split; [done|]. split; [done|]. intros Hf. apply Hm.
    apply Forall_app. split; [done|]. apply Forall_singleton. by intros ?. }
  cbn. intros ([r t] & tr' & -> & H). cbn. case_decide as Hr.
  { destruct H as [-> [= -> -> ->]]. rewrite decide_False by done. done. }
  assert (r = Ok) as -> by (destruct (decide (r = Ok)); tauto).
  apply IH in H as (Ht & Hs & Hm). rewrite decide_True by done. simpl. split; [done|].
  split; [set_solver|]. intros Hf. apply Hm. apply Forall_app. split.
  - eapply Forall_impl; [exact Hf|]. intros m. apply match_live_mono. set_solver.
  - apply Forall_singleton. intros _. simpl. set_solver.
Qed.

Lemma init_generators_table configs tokens gens tr ok tokens' gens' :
  traces (init_generators configs tokens gens) tr (Done (ok, tokens', gens')) ->
  table tokens tr = Some tokens' /\ tokens ⊆ tokens' /\
  (Forall (gen_live tokens) gens -> Forall (gen_live tokens') gens').
Proof.
  revert tokens gens tr. induction configs as [|c configs IH]; intros tokens gens tr; cbn.
  { by intros [-> [= -> -> ->]]. }
  intros [([[ok1 t1] ms] & tr1 & tr2 & -> & Hm & H)|[(w & _ & ?)|[_ ?]]]%traces_bind; [|done..].
  apply init_matches_table in Hm as (Ht1 & Hs1 & Hl1). rewrite table_app, Ht1. simpl.
  destruct ok1; cbn in H.
  - apply IH in H as (Ht & Hs & Hl). split; [done|]. split; [set_solver|]. intros Hf. apply Hl.
    apply Forall_app. split.
    + eapply Forall_impl; [exact Hf|]. intros g. by apply gen_live_mono.
    + apply Forall_singleton. apply Hl1. constructor.
  - destruct H as [-> [= -> -> ->]]. split; [done|]. split; [done|]. intros Hf.
    eapply Forall_impl; [exact Hf|]. intros g. by apply gen_live_mono.
Qed.

Lemma evaluate_table tokens ms tr r :
  Forall (match_live tokens) ms -> traces (evaluate_matches ms) tr (Done r) ->
  table tokens tr = Some tokens.
Proof.
  intros Hf. revert tr. induction Hf as [|m ms Hm _ IH]; intros tr; cbn; [by intros [-> _]|].
  unfold evaluate_match. case_decide as Hc.
  - cbn. by intros [-> _].
  - cbn -[token_bytes]. intros ([res out] & tr' & -> & H). cbn -[token_bytes existsb].
    assert (existsb (fun t => bool_decide (token_bytes (condition_token_ m) = token_bytes t)) tokens
      = true) as ->.
    { apply existsb_exists. exists (condition_token_ m). split; [|by apply bool_decide_eq_true].
      apply list_elem_of_In. by apply Hm. }
    simpl. case_decide; cbn in H; [by destruct H as [-> _]|].
    destruct (bool_of_bytes out) as [[]|]; cbn in H; [by destruct H as [-> _]|auto|by destruct H as [-> _]].
Qed.

Lemma generate_table err gens phase tokens tr u :
  Forall (gen_live tokens) gens -> traces (generate err gens phase) tr (Done u) ->
  table tokens tr = Some tokens.
Proof.
  intros Hf. revert tr. induction Hf as [|g gens Hg _ IH]; intros tr; cbn; [by intros [-> _]|].
  case_decide as Hp; [auto|].
  intros [([st val] & tr1 & tr2 & -> & He & H)|[(w & _ & ?)|[_ ?]]]%traces_bind; [|done..].
  apply (evaluate_table tokens) in He; [|done]. rewrite table_app, He. simpl.
  destruct st as [[]|]; cbn in H; [destruct H as ([] & tr' & -> & H); simpl; auto|auto|].
  destruct H as ([] & tr' & -> & H). simpl. auto.
Qed.

Lemma cleanup_table ctx tr ctx' :
  traces (cleanupAttributeGen ctx) tr (Done ctx') ->
  table (tokens_ ctx) tr = Some [] /\
  ctx' = {| gen_ := []; tokens_ := []; debug_ := debug_ ctx;
            config_errors_ := config_errors_ ctx; runtime_errors_ := runtime_errors_ ctx |}.
Proof.
  intros [([] & t1 & t2 & -> & Hd & [-> [= ->]])|[(w & _ & ?)|[_ ?]]]%traces_bind; [|done..].
  rewrite app_nil_r. split; [by eapply delete_all_table|done].
Qed.

Section life.
Context `{P : ConfigParser}.

Lemma configure_table size ctx tr ok ctx' :
  context_live ctx -> traces (onConfigure size ctx) tr (Done (ok, ctx')) ->
  table (tokens_ ctx) tr = Some (tokens_ ctx') /\ context_live ctx'.
Proof.
  intros Hl H. unfold onConfigure in H. cbn -[cleanupAttributeGen initAttributeGen] in H.
  destruct H as ([text|] & t1 & -> & H); cbn -[cleanupAttributeGen initAttributeGen] in H; [|by destruct H]. cbn.
  destruct (parse_config text) as [config|]; cbn -[cleanupAttributeGen initAttributeGen] in H.
  - apply traces_bind in H as [(c1 & t2 & t3 & -> & Hc & H)|[(w & _ & ?)|[_ ?]]]; [|done..].
    apply cleanup_table in Hc as [Ht ->]. simpl in Ht. rewrite table_app, Ht. simpl.
    unfold initAttributeGen in H.
    apply traces_bind in H as [([ok2 c2] & t4 & t5 & -> & Hi & H)|[(w & _ & ?)|[_ ?]]]; [|done..].
    apply traces_bind in Hi as [([[ok3 toks] gens] & t6 & t7 & -> & Hi & Hr)|[(w & _ & ?)|[_ ?]]];
      [|done..]. destruct Hr as [-> [= -> ->]]. rewrite app_nil_r.
    apply init_generators_table in Hi as (Hi & _ & Hg). simpl in Hi, Hg.
    rewrite table_app, Hi. simpl. destruct ok3; cbn -[cleanupAttributeGen initAttributeGen] in H.
    + destruct H as [-> [= _ ->]]. simpl. split; [done|]. apply Hg. constructor.
    + destruct H as ([] & t8 & -> & H). cbn.
      apply traces_bind in H as [(c4 & t9 & t10 & -> & Hc & H)|[(w & _ & ?)|[_ ?]]]; [|done..].
      destruct H as [-> [= _ ->]]. rewrite app_nil_r. apply cleanup_table in Hc as [Ht' ->].
      split; [done|constructor].
  - destruct H as ([] & t2 & -> & -> & [= _ ->]). done.
Qed.

Lemma handle_table ev ctx tr ctx' :
  context_live ctx -> traces (handle ev ctx) tr (Done ctx') ->
  table (tokens_ ctx) tr = Some (tokens_ ctx') /\ context_live ctx'.
Proof.
  intros Hl H. destruct ev; cbn [handle] in H;
    apply traces_bind in H as [(a & t1 & t2 & -> & H1 & H)|[(w & _ & ?)|[_ ?]]]; try done.
  - destruct a as [ok c]. destruct H as [-> [= ->]]. rewrite app_nil_r. by eapply configure_table.
  - destruct a as [ok c]. destruct H as [-> [= ->]]. rewrite app_nil_r.
    apply traces_bind in H1 as [(c' & t3 & t4 & -> & Hc & [-> [= -> ->]])|[(w & _ & ?)|[_ ?]]]; [|done..].
    rewrite app_nil_r. apply cleanup_table in Hc as [Ht ->]. split; [done|constructor].
  - destruct H as [-> [= ->]]. rewrite app_nil_r. split; [by eapply generate_table|done].
  - destruct H as [-> [= ->]]. rewrite app_nil_r. split; [by eapply generate_table|done].
Qed.

Lemma handle_all_table evs ctx tr ctx' :
  context_live ctx -> traces (handle_all evs ctx) tr (Done ctx') ->
  table (tokens_ ctx) tr = Some (tokens_ ctx') /\ context_live ctx'.
Proof.
  revert ctx tr. induction evs as [|ev evs IH]; intros ctx tr Hl H; cbn [handle_all] in H.
  { by destruct H as [-> [= ->]]. }
  apply traces_bind in H as [(c & t1 & t2 & -> & H1 & H2)|[(w & _ & ?)|[_ ?]]]; [|done..].
  apply handle_table in H1 as [Ht1 Hl1]; [|done]. apply IH in H2 as [Ht2 Hl2]; [|done].
  rewrite table_app, Ht1. done.
Qed.
End life.

(** ** What a generator computes *)

(** The host evaluates an expression to [ev token], or fails. *)
Class ExprHost {S} (h : handler HostCall S) (ev : Z -> option bool) : Prop :=
  expr_answer s token : exists r out,
    h _ (CallForeignFunction "expr_evaluate" (token_bytes token)) s = ((r, out), s) /\
    (if decide (r = Ok) then bool_of_bytes out else None) = ev token.

(** The value of the first match whose condition holds; [None] when a condition
    before it fails to evaluate, [Some None] when there is no such match. *)
Fixpoint first_match (ev : Z -> option bool) (ms : list Match) : option (option string) :=
  match ms with
  | [] => Some None
  | m :: ms' =>
      match (if decide (condition_ m = EmptyString) then Some true else ev (condition_token_ m)) with
      | None => None
      | Some true => Some (Some (value_ m))
      | Some false => first_match ev ms'
      end
  end.

Definition sets (ev : Z -> option bool) (phase : EvalPhase) (g : AttributeGenerator) :
    option (string * string) :=
  if decide (phase = phase_ g) then
    match first_match ev (matches_ g) with
    | Some (Some v) => Some (output_attribute_ g, v)
    | _ => None
    end
  else None.

Definition errs (ev : Z -> option bool) (phase : EvalPhase) (g : AttributeGenerator) : bool :=
  bool_decide (phase = phase_ g) && bool_decide (first_match ev (matches_ g) = None).

Section effect.
Context {S} {h : handler HostCall S} {ev : Z -> option bool} `{!ExprHost h ev}.

Lemma run_evaluate ms s :
  let r := run h (evaluate_matches ms) s in
  (exists val, result r = Done (match first_match ev ms with
                    | None => (None, "")
                    | Some None => (Some false, val)
                    | Some (Some v) => (Some true, v)
                    end)) /\
  final r = s /\ observe filter_state_of (trace r) = [] /\ observe increment_of (trace r) = [].
Proof.
  induction ms as [|m ms IH]; [by split; [eexists|]|].
  cbn [evaluate_matches first_match]. rewrite run_bind. unfold evaluate_match.
  case_decide as Hc; [by split; [by exists ""|]|].
  destruct (expr_answer (h := h) s (condition_token_ m)) as (r & out & Hh & Hev).
  cbn -[token_bytes run]. cbn -[token_bytes]. rewrite Hh. cbn -[token_bytes].
  destruct (decide (r = Ok)) as [->|Hr].
  - rewrite decide_False by tauto. rewrite <- Hev.
    destruct (bool_of_bytes out) as [[]|]; cbn -[token_bytes].
    + split; [by exists ""|]. done.
    + apply IH.
    + split; [by exists ""|]. done.
  - rewrite decide_True by done. rewrite <- Hev. split; [by exists ""|]. done.
Qed.

(** The calls of the data path, in the order of the generators. *)
Lemma run_generate err gens phase s :
  let r := run h (generate err gens phase) s in
  result r = Done tt /\
  observe filter_state_of (trace r) = omap (sets ev phase) gens /\
  observe increment_of (trace r) = replicate (length (filter (fun g => errs ev phase g = true) gens)) (err, 1).
Proof.
  revert s. induction gens as [|g gens IH]; intros s; [done|]. cbn [generate].
  rewrite omap_cons. unfold sets at 1. unfold errs. rewrite filter_cons. fold (errs ev phase).
  destruct (decide (phase = phase_ g)) as [Hp|Hp].
  - rewrite decide_False by tauto. rewrite run_bind. unfold evaluate.
    destruct (run_evaluate (matches_ g) s) as ((val & ->) & -> & Hf & Hi).
    rewrite (bool_decide_eq_true_2 (phase = phase_ g)) by done.
    destruct (first_match ev (matches_ g)) as [[v|]|]; cbn -[omap filter].
    + destruct (h _ _ s) as [x s'] eqn:E. cbn -[omap filter]. destruct (IH s') as (-> & Hf' & Hi').
      rewrite !omap_app, !omap_cons, Hf, Hi. cbn -[omap filter]. rewrite Hf', Hi'. done.
    + destruct (IH s) as (-> & Hf' & Hi'). rewrite !omap_app, Hf, Hi, Hf', Hi'. done.
    + destruct (h _ _ s) as [x s'] eqn:E. cbn -[omap filter]. destruct (IH s') as (-> & Hf' & Hi').
      rewrite !omap_app, !omap_cons, Hf, Hi. cbn -[omap filter]. rewrite Hf', Hi'. done.
  - rewrite decide_True by done. rewrite bool_decide_eq_false_2 by done. cbn -[omap filter]. apply IH.
Qed.
End effect.

(** ** What a configuration becomes *)

Definition create_of (ev : host_event) : option WasmResult :=
  match ev with Ev (CreateExpression _) (r, _) => Some r | _ => None end.
Definition config_text_of (ev : host_event) : option (option string) :=
  match ev with Ev (GetBuffer PluginConfiguration _ _) t => Some t | _ => None end.

Definition match_of (c : MatchConfig) (m : Match) : Prop :=
  condition_ m = condition c /\ value_ m = match_value c.

Definition generator_of (c : AttributeGeneration) (g : AttributeGenerator) : Prop :=
  phase_ g = phase_of (config_phase c) /\ output_attribute_ g = output_attribute c /\
  Forall2 match_of (config_match c) (matches_ g).

Lemma init_matches_spec configs tokens ms tr ok tokens' ms' :
  traces (init_matches configs tokens ms) tr (Done (ok, tokens', ms')) ->
  observe config_text_of tr = [] /\ observe increment_of tr = [] /\
  if (ok : bool) then Forall (eq Ok) (observe create_of tr) /\
    exists ms2, ms' = ms ++ ms2 /\ Forall2 match_of configs ms2
  else ~ Forall (eq Ok) (observe create_of tr).
Proof.
  revert tokens ms tr. induction configs as [|c configs IH]; intros tokens ms tr; cbn.
  { intros [-> [= -> _ ->]]. split; [done|]. split; [done|]. split; [constructor|].
    exists []. by rewrite app_nil_r. }
  destruct (decide (condition c = EmptyString)) as [Hc|Hc].
  - intros (Ht & Hi & H)%IH. split; [done|]. split; [done|]. destruct ok; [|done].
    destruct H as [Hf (ms2 & -> & Hm)]. split; [done|]. rewrite <- app_assoc. simpl.
    eexists. split; [done|]. constructor; [|done]. by split.
  - cbn. intros ([r t] & tr' & -> & H). cbn. destruct (decide (r = Ok)) as [->|Hr].
    + rewrite decide_False in H by tauto. apply IH in H as (Ht & Hi & H). split; [done|]. split; [done|].
      destruct ok.
      * destruct H as [Hf (ms2 & -> & Hm)]. split; [by constructor|]. rewrite <- app_assoc. simpl.
        eexists. split; [done|]. constructor; [|done]. by split.
      * intros [_ ?]%Forall_cons. done.
    + rewrite decide_True in H by done. destruct H as [-> [= -> _ _]]. split; [done|]. split; [done|].
      intros [? _]%Forall_cons. congruence.
Qed.

Lemma init_generators_spec configs tokens gens tr ok tokens' gens' :
  traces (init_generators configs tokens gens) tr (Done (ok, tokens', gens')) ->
  observe config_text_of tr = [] /\ observe increment_of tr = [] /\
  if (ok : bool) then Forall (eq Ok) (observe create_of tr) /\
    exists gens2, gens' = gens ++ gens2 /\ Forall2 generator_of configs gens2
  else ~ Forall (eq Ok) (observe create_of tr).
Proof.
  revert tokens gens tr. induction configs as [|c configs IH]; intros tokens gens tr; cbn.
  { intros [-> [= -> _ ->]]. split; [done|]. split; [done|]. split; [constructor|].
    exists []. by rewrite app_nil_r. }
  intros [([[ok1 t1] ms] & tr1 & tr2 & -> & Hm & H)|[(w & _ & ?)|[_ ?]]]%traces_bind; [|done..].
  apply init_matches_spec in Hm as (Ht1 & Hi1 & H1). rewrite !omap_app, Ht1, Hi1.
  destruct ok1; cbn in H.
  - apply IH in H as (Ht & Hi & H). rewrite Ht, Hi. split; [done|]. split; [done|].
    destruct H1 as [Hf1 (ms2 & -> & Hm2)]. destruct ok.
    + destruct H as [Hf (gens2 & -> & Hg)]. split; [by apply Forall_app|].
      rewrite <- app_assoc. eexists. split; [done|]. by constructor.
    + intros [_ ?]%Forall_app. done.
  - destruct H as [-> [= -> _ _]]. split; [done|]. split; [done|]. rewrite app_nil_r. done.
Qed.

Lemma delete_all_quiet tokens tr u :
  traces (delete_all tokens) tr (Done u) ->
  observe config_text_of tr = [] /\ observe increment_of tr = [] /\ observe create_of tr = [].
Proof.
  revert tr. induction tokens as [|t tokens IH]; intros tr; cbn; [by intros [-> _]|].
  intros ([] & tr' & -> & H). cbn. auto.
Qed.

Lemma cleanup_quiet ctx tr ctx' :
  traces (cleanupAttributeGen ctx) tr (Done ctx') ->
  observe config_text_of tr = [] /\ observe increment_of tr = [] /\ observe create_of tr = [].
Proof.
  intros [([] & t1 & t2 & -> & Hd & [-> [= ->]])|[(w & _ & ?)|[_ ?]]]%traces_bind; [|done..].
  rewrite app_nil_r. by eapply delete_all_quiet.
Qed.

(** ** Theorems *)

Section attributegen_theorems.
Context `{P : ConfigParser}.

(** C13: the plugin uses the host's expressions as a resource.  Over any history of
    configurations, requests, logs and [onDone], whatever the host answers, it
    evaluates and deletes only expressions that it created and has not deleted,
    and what is live at the end is [tokens_]: nothing leaks.  After an [onDone]
    nothing is live. *)
Theorem expressions_not_leaked evs ctx tr ctx' :
  gen_ ctx = [] -> tokens_ ctx = [] ->
  traces (handle_all evs ctx) tr (Done ctx') ->
  table [] tr = Some (tokens_ ctx') /\
  forall tr2 ctx2, traces (handle Done' ctx') tr2 (Done ctx2) -> table [] (tr ++ tr2) = Some [].
Proof.
  intros Hg Ht H. apply handle_all_table in H as [Htab Hl].
  - rewrite Ht in Htab. split; [done|]. intros tr2 ctx2 H2. rewrite table_app, Htab. simpl.
    cbn [handle] in H2.
    apply traces_bind in H2 as [([b c] & t1 & t2 & -> & H1 & [-> _])|[(w & _ & ?)|[_ ?]]]; [|done..].
    apply traces_bind in H1 as [(c' & t3 & t4 & -> & Hc & [-> _])|[(w & _ & ?)|[_ ?]]]; [|done..].
    rewrite !app_nil_r. by apply cleanup_table in Hc as [-> _].
  - unfold context_live. rewrite Hg. constructor.
Qed.

(** C28: what the data path does.  On a host that evaluates each expression to a
    boolean or fails, the generators of the phase set, in order, their attribute
    to the value of their first match whose condition holds; a generator with a
    condition that fails before it sets nothing and counts one runtime error. *)
Theorem attributeGen_effect {S} (h : handler HostCall S) ev phase ctx s :
  ExprHost h ev ->
  let r := run h (attributeGen phase ctx) s in
  result r = Done tt /\
  observe filter_state_of (trace r) = omap (sets ev phase) (gen_ ctx) /\
  observe increment_of (trace r) =
    replicate (length (filter (fun g => errs ev phase g = true) (gen_ ctx))) (runtime_errors_ ctx, 1).
Proof. intros He. apply run_generate. Qed.

(** Configuring never rejects, and leaves the configuration or nothing.  It
    returns [true]; a text that is not a configuration changes nothing; otherwise
    the generators are those of the configuration, in order, when the host
    compiled every condition, and there are none and no tokens when it did not;
    each of the two failures counts one configuration error. *)
Theorem configuration_all_or_nothing size ctx tr ok ctx' :
  traces (onConfigure size ctx) tr (Done (ok, ctx')) ->
  ok = true /\ exists text, observe config_text_of tr = [Some text] /\
    match parse_config text with
    | None => ctx' = ctx /\ observe increment_of tr = [(config_errors_ ctx, 1)]
    | Some config =>
        (Forall (eq Ok) (observe create_of tr) /\ observe increment_of tr = [] /\
         Forall2 generator_of (attributes config) (gen_ ctx')) \/
        (~ Forall (eq Ok) (observe create_of tr) /\ observe increment_of tr = [(config_errors_ ctx, 1)] /\
         gen_ ctx' = [] /\ tokens_ ctx' = [])
    end.
Proof.
  intros H. unfold onConfigure in H. cbn -[cleanupAttributeGen initAttributeGen] in H.
  destruct H as ([text|] & t1 & -> & H); cbn -[cleanupAttributeGen initAttributeGen] in H;
    [|by destruct H]. cbn.
  destruct (parse_config text) as [config|] eqn:Hp; cbn -[cleanupAttributeGen initAttributeGen] in H.
  - apply traces_bind in H as [(c1 & t2 & t3 & -> & Hc & H)|[(w & _ & ?)|[_ ?]]]; [|done..].
    pose proof (cleanup_quiet _ _ _ Hc) as (Hq1 & Hq2 & Hq3). apply cleanup_table in Hc as [_ ->].
    unfold initAttributeGen in H.
    apply traces_bind in H as [([ok2 c2] & t4 & t5 & -> & Hi & H)|[(w & _ & ?)|[_ ?]]]; [|done..].
    apply traces_bind in Hi as [([[ok3 toks] gens] & t6 & t7 & -> & Hi & Hr)|[(w & _ & ?)|[_ ?]]];
      [|done..]. destruct Hr as [-> [= -> ->]]. rewrite app_nil_r. simpl in Hi.
    apply init_generators_spec in Hi as (Hi1 & Hi2 & Hi3).
    rewrite !omap_app, Hq1, Hq2, Hq3, Hi1, Hi2. destruct ok3; cbn -[cleanupAttributeGen] in H.
    + destruct H as [-> [= -> ->]]. split; [done|]. exists text. split; [done|]. rewrite Hp. left.
      rewrite app_nil_r. destruct Hi3 as [Hf (g2 & -> & Hg)]. done.
    + destruct H as ([] & t8 & -> & H).
      apply traces_bind in H as [(c4 & t9 & t10 & -> & Hc & [-> [= -> ->]])|[(w & _ & ?)|[_ ?]]]; [|done..].
      pose proof (cleanup_quiet _ _ _ Hc) as (Hr1 & Hr2 & Hr3). apply cleanup_table in Hc as [_ ->].
      rewrite app_nil_r. split; [done|]. exists text. cbn. rewrite Hr1, Hr2, Hr3, Hp, app_nil_r.
      split; [done|]. right. done.
  - destruct H as ([] & t2 & -> & -> & [= -> ->]). split; [done|]. exists text. by rewrite Hp.
Qed.
End attributegen_theorems.

(** ** Witnesses *)

Section attributegen_witnesses.
Definition example_config : PluginConfig := {|
  debug := false;
  attributes := [
    {| output_attribute := "istio_operationId"; config_phase := ON_REQUEST;
       config_match := [{| condition := "a"; match_value := "ListBooks" |};
                        {| condition := "b"; match_value := "GetBook" |};
                        {| condition := ""; match_value := "Other" |}] |};
    {| output_attribute := "istio_responseClass"; config_phase := AFTER_RESPONSE;
       config_match := [{| condition := "c"; match_value := "2xx" |}] |}]
|}.

#[local] Instance example_parser : ConfigParser := fun text => if decide (text = "") then None else Some example_config.

(** A host that numbers expressions, evaluates the second to [true], the third not
    at all and the others to [false]. *)
Definition answer (token : string) : WasmResult * string :=
  if decide (token = token_bytes 1) then (Ok, String "001" EmptyString)
  else if decide (token = token_bytes 2) then (OtherResult 1, "")
  else (Ok, String "000" EmptyString).

Definition expr_host : handler HostCall Z :=
  fun X e s =>
    match e in HostCall X return X * Z with
    | CreateExpression _ => ((Ok, s), s + 1)
    | CallForeignFunction _ token => (answer token, s)
    | GetBuffer PluginConfiguration _ _ => (Some "text", s)
    | e => (quiet_answer e, s)
    end.

Definition expr_value (token : Z) : option bool :=
  let '(r, out) := answer (token_bytes token) in if decide (r = Ok) then bool_of_bytes out else None.

#[local] Instance expr_host_answers : ExprHost expr_host expr_value.
Proof.
  intros s token. destruct (answer (token_bytes token)) as [r out] eqn:E. exists r, out.
  unfold expr_value. rewrite E. split; [|done]. cbn -[token_bytes answer]. by rewrite E.
Qed.

Definition blank : PluginRootContext :=
  {| gen_ := []; tokens_ := []; debug_ := false; config_errors_ := 1; runtime_errors_ := 2 |}.
Definition life : exec HostCall Z PluginRootContext := run expr_host (handle_all [Configure 4; Request; Log] blank) 0.
Definition life_end : PluginRootContext := match result life with Done c => c | _ => blank end.

Lemma life_traces : traces (handle_all [Configure 4; Request; Log] blank) (trace life) (Done life_end).
Proof. apply run_done_traces. vm_compute. reflexivity. Qed.

Lemma expressions_not_leaked_witness : table [] (trace life) = Some (tokens_ life_end).
Proof.
  exact (proj1 (expressions_not_leaked [Configure 4; Request; Log] blank (trace life) life_end
    eq_refl eq_refl life_traces)).
Defined.

Lemma attributeGen_effect_witness :
  observe filter_state_of (trace (run expr_host (attributeGen OnRequest life_end) 3)) =
    omap (sets expr_value OnRequest) (gen_ life_end) /\
  omap (sets expr_value OnRequest) (gen_ life_end) = [("istio_operationId", "GetBook")].
Proof.
  split; [|vm_compute; reflexivity].
  exact (proj1 (proj2 (attributeGen_effect expr_host expr_value OnRequest life_end 3 _))).
Defined.

Definition configured : exec HostCall Z (bool * PluginRootContext) := run expr_host (onConfigure 4 blank) 0.

Lemma configuration_all_or_nothing_witness :
  exists text, observe config_text_of (trace configured) = [Some text].
Proof.
  destruct (configuration_all_or_nothing 4 blank (trace configured) true
    (match result configured with Done (_, c) => c | _ => blank end)) as (_ & text & H & _).
  - apply run_done_traces. vm_compute. reflexivity.
  - exists text. exact H.
Defined.
End attributegen_witnesses.
