(* ===== verification/ResponseFlags.v ===== *)
(** * Response flags ([extensions/common/util.{h,cc}])

    Envoy reports why a request failed as a set of bits; [parseResponseFlag]
    spells the set.  The spelling is shown to lose nothing: it has an inverse on
    every [uint64_t]. *)

From stdpp Require Import base tactics numbers list strings sets.
From Stdlib Require Import ZArith Lia Ascii.
From S2P Require Import Prelude Absl.
Local Open Scope Z_scope.

Definition NONE : string := "-".

(** The flags and their names, in the order of the tests. *)
Definition response_flags : list (Z * string) := [
  (1, "LH"); (2, "UH"); (4, "UT"); (8, "LR"); (16, "UR"); (32, "UF"); (64, "UC"); (128, "UO");
  (256, "NR"); (512, "DI"); (1024, "FI"); (2048, "RL"); (4096, "UAEX"); (8192, "RLSE");
  (16384, "DC"); (32768, "URX"); (65536, "SI"); (131072, "IH"); (262144, "DPE");
  (524288, "UMSDR"); (1048576, "RFCF"); (2097152, "NFCF"); (4194304, "DT"); (8388608, "UPE");
  (16777216, "NC"); (33554432, "OM"); (67108864, "DF")].

Definition LastFlag : Z := 67108864.

Definition appendString (result append : string) : string :=
  if decide (result = EmptyString) then append else result +:+ "," +:+ append.

(** [std::to_string] of an integer that is not negative: the digits of [x] in
    front of [acc]. *)
Definition digit (d : Z) : ascii := ascii_of_N (Z.to_N (48 + d)).

Fixpoint digits (fuel : nat) (x : Z) (acc : string) : string :=
  match fuel with
  | O => acc
  | S fuel =>
      if decide (x < 10) then String (digit x) acc
      else digits fuel (x / 10) (String (digit (x mod 10)) acc)
  end.

(** A [uint64_t] has at most 20 digits. *)
Definition to_string (x : Z) : string := digits 20 x EmptyString.

(** The tests of the known flags, one after the other. *)
Fixpoint append_flags (response_flag : Z) (flags : list (Z * string)) (result : string) : string :=
  match flags with
  | [] => result
  | (flag, name) :: flags' =>
      append_flags response_flag flags'
        (if decide (Z.land response_flag flag <> 0) then appendString result name else result)
  end.

Definition parseResponseFlag (response_flag : Z) : string :=
  let result := append_flags response_flag response_flags "" in
  let result :=
    if decide (Z.shiftl LastFlag 1 <= response_flag)
    then appendString result (to_string response_flag) else result in
  if decide (result = EmptyString) then NONE else result.

(** ** The inverse *)

Fixpoint flag_of (name : string) (flags : list (Z * string)) : option Z :=
  match flags with
  | [] => None
  | (flag, n) :: flags' => if decide (n = name) then Some flag else flag_of name flags'
  end.

(** A number at the end is the whole value; otherwise the names are summed. *)
Definition readResponseFlag (s : string) : Z :=
  if decide (s = NONE) then 0
  else
    let pieces := split_on "," s in
    match list.last pieces ≫= atoi_u64 with
    | Some v => v
    | None => foldr Z.add 0 (omap (fun name => flag_of name response_flags) pieces)
    end.

(** ** Lemmas *)

Lemma digit_value d : 0 <= d < 10 -> Z.of_N (N_of_ascii (digit d)) - 48 = d.
Proof. intros Hd. unfold digit. rewrite N_ascii_embedding by lia. lia. Qed.

Lemma digits_decimal fuel x acc :
  0 <= x < 10 ^ Z.of_nat fuel -> (0 < fuel)%nat -> digits_value (digits fuel x acc) 0 = digits_value acc x.
Proof.
  revert x acc. induction fuel as [|fuel IH]; intros x acc Hx Hf; [lia|]. cbn [digits].
  case_decide as Hd.
  - cbn [digits_value]. rewrite digit_value by lia. rewrite decide_True by lia. done.
  - destruct fuel as [|fuel].
    { change (10 ^ Z.of_nat 1) with 10 in Hx. lia. }
    rewrite IH; [|split|lia].
    + cbn [digits_value]. pose proof (Z.mod_pos_bound x 10).
      rewrite digit_value by lia. rewrite decide_True by lia. f_equal.
      rewrite <- Z.div_mod; lia.
    + apply Z.div_pos; lia.
    + apply Z.div_lt_upper_bound; [lia|]. rewrite <- Z.pow_succ_r by lia.
      rewrite (Nat2Z.inj_succ (S fuel)) in Hx. lia.
Qed.

Lemma digits_chars fuel x acc c :
  has_char c acc = false -> (forall d, 0 <= d < 10 -> c <> digit d) -> 0 <= x ->
  has_char c (digits fuel x acc) = false.
Proof.
  intros Ha Hc. revert x acc Ha. induction fuel as [|fuel IH]; intros x acc Ha Hx; [done|].
  cbn [digits]. case_decide.
  - simpl. rewrite decide_False; [done|]. apply Hc. lia.
  - apply IH; [|by apply Z.div_pos; lia]. simpl. rewrite decide_False; [done|].
    apply Hc, Z.mod_pos_bound. lia.
Qed.

Lemma digits_nonempty fuel x acc : acc <> EmptyString \/ (0 < fuel)%nat -> digits fuel x acc <> EmptyString.
Proof.
  revert x acc. induction fuel as [|fuel IH]; intros x acc [H|H]; try done; try lia; cbn [digits];
    case_decide; try done; apply IH; by left.
Qed.

Lemma to_string_value x : 0 <= x < 2 ^ 64 -> atoi_u64 (to_string x) = Some x.
Proof.
  intros Hx. unfold atoi_u64, to_string. pose proof (digits_decimal 20 x EmptyString) as Hd.
  pose proof (digits_nonempty 20 x EmptyString ltac:(right; lia)) as Hn.
  destruct (digits 20 x EmptyString) as [|c s] eqn:E; [done|]. rewrite Hd.
  - simpl. by rewrite decide_True.
  - change (10 ^ Z.of_nat 20) with 100000000000000000000. lia.
  - lia.
Qed.

Lemma split_on_piece c s : has_char c s = false -> split_on c s = [s].
Proof.
  induction s as [|d s IH]; simpl; [done|]. case_decide; [done|]. intros Hs. by rewrite IH.
Qed.

Lemma split_on_app c s t : has_char c s = false -> split_on c (s +:+ String c t) = s :: split_on c t.
Proof.
  induction s as [|d s IH]; simpl; [by rewrite decide_True|]. case_decide; [done|].
  intros Hs. by rewrite IH.
Qed.

Lemma split_on_pieces_join c l :
  l <> [] -> Forall (fun p => has_char c p = false) l -> split_on c (join c l) = l.
Proof.
  intros Hn Hf. induction Hf as [|p l Hp Hf IH]; [done|]. destruct l as [|q l].
  - by apply split_on_piece.
  - change (join c (p :: q :: l)) with (p +:+ String c (join c (q :: l))).
    rewrite split_on_app by done. by rewrite IH.
Qed.

(** [appendString] builds a join. *)
Lemma append_join l p :
  Forall (fun s => s <> EmptyString) l -> appendString (join "," l) p = join "," (l ++ [p]).
Proof.
  intros Hl. unfold appendString. destruct Hl as [|s l Hs Hl]; [done|].
  assert (join "," (s :: l) <> EmptyString) as Hne.
  { destruct l; [done|]. simpl. by destruct s. }
  rewrite decide_False by done. clear Hs Hne. revert s. induction Hl as [|s' l _ Hl IH]; intros s; [done|].
  change (join "," (s :: s' :: l)) with (s +:+ String "," (join "," (s' :: l))).
  rewrite <- app_assoc_s. cbn [String.append]. rewrite IH. done.
Qed.

Lemma join_nonempty l : l <> [] -> Forall (fun s => s <> EmptyString) l -> join "," l <> EmptyString.
Proof.
  intros Hn H. destruct H as [|s l' Hs _]; [done|]. destruct l'; [exact Hs|]. simpl. by destruct s.
Qed.

Lemma digits_comma f : 0 <= f -> has_char "," (to_string f) = false.
Proof.
  intros Hf. apply digits_chars; [done| |done]. intros d Hd H.
  apply (f_equal N_of_ascii) in H. unfold digit in H. rewrite N_ascii_embedding in H by lia.
  simpl in H. lia.
Qed.

(** The names of the flags that are set. *)
Definition names (f : Z) (flags : list (Z * string)) : list string :=
  map snd (filter (fun p => Z.land f (fst p) <> 0) flags).

Definition name_ok (s : string) : Prop :=
  s <> EmptyString /\ has_char "," s = false /\ atoi_u64 s = None /\ s <> NONE.

Lemma append_flags_names f flags l :
  Forall (fun p => name_ok (snd p)) flags -> Forall (fun s => s <> EmptyString) l ->
  append_flags f flags (join "," l) = join "," (l ++ names f flags).
Proof.
  intros Hf. revert l. induction Hf as [|[flag name] flags [Hn _] Hf IH]; intros l Hl.
  - unfold names. simpl. by rewrite app_nil_r.
  - cbn [append_flags]. unfold names. rewrite filter_cons. simpl fst.
    destruct (decide (Z.land f flag <> 0)).
    + rewrite append_join by done. rewrite IH; [by rewrite <- app_assoc|].
      apply Forall_app. split; [done|]. by apply Forall_singleton.
    + by apply IH.
Qed.

Lemma flags_ok : Forall (fun p => name_ok (snd p)) response_flags.
Proof.
  repeat constructor; try discriminate; try reflexivity.
Qed.

Lemma names_ok f : Forall name_ok (names f response_flags).
Proof.
  unfold names. apply Forall_fmap. pose proof flags_ok as H.
  rewrite Forall_forall in H |- *. intros p [_ Hp]%list_elem_of_filter. by apply H.
Qed.

Lemma flag_of_flags p : p ∈ response_flags -> flag_of (snd p) response_flags = Some (fst p).
Proof.
  revert p. apply Forall_forall. repeat constructor.
Qed.

Lemma flags_of_names f :
  omap (fun name => flag_of name response_flags) (names f response_flags) =
  map fst (filter (fun p => Z.land f (fst p) <> 0) response_flags).
Proof.
  unfold names. assert (filter (fun p => Z.land f (fst p) <> 0) response_flags ⊆ response_flags) as Hs.
  { intros p [_ ?]%list_elem_of_filter. done. }
  induction (filter _ response_flags) as [|p l IH]; [done|]. cbn -[flag_of response_flags].
  rewrite flag_of_flags by set_solver. f_equal. apply IH. set_solver.
Qed.

(** The first [n] powers of two. *)
Fixpoint powers (i : Z) (n : nat) : list Z :=
  match n with
  | O => []
  | S n => 2 ^ i :: powers (i + 1) n
  end.

Lemma land_power f i : 0 <= i -> Z.land f (2 ^ i) = if Z.testbit f i then 2 ^ i else 0.
Proof.
  intros Hi. apply Z.bits_inj'. intros n Hn. rewrite Z.land_spec.
  destruct (decide (n = i)) as [->|Hne].
  - rewrite Z.pow2_bits_true by done. destruct (Z.testbit f i).
    + by rewrite Z.pow2_bits_true.
    + by rewrite Z.bits_0.
  - rewrite Z.pow2_bits_false by done. rewrite andb_false_r. destruct (Z.testbit f i).
    + by rewrite Z.pow2_bits_false.
    + by rewrite Z.bits_0.
Qed.

Lemma sum_powers f i n :
  0 <= i -> foldr Z.add 0 (filter (fun p => Z.land f p <> 0) (powers i n)) =
            (f / 2 ^ i mod 2 ^ Z.of_nat n) * 2 ^ i.
Proof.
  revert i. induction n as [|n IH]; intros i Hi.
  { simpl. rewrite Z.mod_1_r. lia. }
  cbn [powers]. rewrite filter_cons, land_power by done.
  assert (f / 2 ^ i mod 2 ^ Z.of_nat (S n) * 2 ^ i =
    (if Z.testbit f i then 2 ^ i else 0) + (f / 2 ^ (i + 1) mod 2 ^ Z.of_nat n) * 2 ^ (i + 1)) as ->.
  { rewrite Nat2Z.inj_succ, Z.pow_succ_r, Z.rem_mul_r, Z.div_div by lia.
    rewrite Z.pow_add_r by lia. change (2 ^ 1) with 2.
    assert (f / 2 ^ i mod 2 = Z.b2z (Z.testbit f i)) as -> by (by rewrite Z.testbit_spec').
    destruct (Z.testbit f i); simpl Z.b2z; lia. }
  rewrite <- IH by lia. destruct (Z.testbit f i).
  - rewrite decide_True by (pose proof (Z.pow_pos_nonneg 2 i); lia). done.
  - rewrite decide_False by tauto. lia.
Qed.

Lemma flags_sum f :
  0 <= f < 2 ^ 27 ->
  foldr Z.add 0 (map fst (filter (fun p => Z.land f (fst p) <> 0) response_flags)) = f.
Proof.
  intros Hf.
  assert (forall l, map fst (filter (fun p => Z.land f (fst p) <> 0) l) =
    filter (fun p => Z.land f p <> 0) (map (fst (B := string)) l)) as ->.
  { induction l as [|p l IH]; [done|]. simpl map. rewrite !filter_cons. case_decide; simpl; by rewrite IH. }
  change (map fst response_flags) with (powers 0 27). rewrite sum_powers by lia.
  change (2 ^ 0) with 1. rewrite Z.div_1_r, Z.mul_1_r. by apply Z.mod_small.
Qed.

(** ** Theorem *)

(** C29: spelling a response flag loses no information: every [uint64_t] is read
    back from its spelling, so no two flags are spelled alike. *)
Theorem read_parseResponseFlag f :
  0 <= f < 2 ^ 64 -> readResponseFlag (parseResponseFlag f) = f.
Proof.
  intros Hf. pose proof (names_ok f) as Hn. unfold parseResponseFlag.
  change "" with (join "," []). rewrite (append_flags_names f _ []); [|apply flags_ok|constructor].
  cbn [app]. set (l := names f response_flags) in *.
  assert (Forall (fun s => s <> EmptyString) l) as Hne by (eapply Forall_impl; [exact Hn|by intros s []]).
  change (Z.shiftl LastFlag 1) with (2 ^ 27).
  assert (readResponseFlag NONE = 0) as Hnone by reflexivity.
  destruct (decide (2 ^ 27 <= f)) as [Hbig|Hbig].
  - rewrite append_join by done. pose proof (to_string_value f Hf) as Hv.
    assert (has_char "," (to_string f) = false) as Hc by (apply digits_comma; lia).
    rewrite decide_False by (apply join_nonempty; [by destruct l|]; apply Forall_app; split;
      [done|apply Forall_singleton; intros Hs; by rewrite Hs in Hv]).
    unfold readResponseFlag. rewrite decide_False.
    + rewrite split_on_pieces_join; [|by destruct l|].
      * rewrite last_snoc. simpl. by rewrite Hv.
      * apply Forall_app. split; [|by apply Forall_singleton].
        eapply Forall_impl; [exact Hn|]. intros s Hs. apply Hs.
    + intros He. apply (f_equal (split_on ",")) in He.
      rewrite split_on_pieces_join in He; [|by destruct l|].
      * change (split_on "," NONE) with ([] ++ [NONE]) in He. apply app_inj_tail in He as [_ He].
        by rewrite He in Hv.
      * apply Forall_app. split; [|by apply Forall_singleton].
        eapply Forall_impl; [exact Hn|]. intros s Hs. apply Hs.
  - pose proof (flags_sum f ltac:(lia)) as Hsum. rewrite <- flags_of_names in Hsum. fold l in Hsum.
    destruct (decide (l = [])) as [->|Hl]; [simpl in Hsum; rewrite decide_True by done; by rewrite Hnone|].
    rewrite decide_False by (by apply join_nonempty).
    assert (Forall (fun p => has_char "," p = false) l) as Hcomma.
    { eapply Forall_impl; [exact Hn|]. intros s Hs. apply Hs. }
    unfold readResponseFlag. rewrite decide_False.
    + rewrite split_on_pieces_join by done.
      destruct (list.last l) as [p|] eqn:Hlast; [|done]. simpl.
      assert (atoi_u64 p = None) as ->; [|done].
      apply last_Some_elem_of in Hlast. rewrite Forall_forall in Hn. by apply Hn.
    + intros He. apply (f_equal (split_on ",")) in He. rewrite split_on_pieces_join in He by done.
      change (split_on "," NONE) with [NONE] in He. rewrite He in Hn.
      apply Forall_inv in Hn. destruct Hn as (_ & _ & _ & Hx). by apply Hx.
Qed.

Lemma read_parseResponseFlag_witness : readResponseFlag (parseResponseFlag (2 ^ 30 + 5)) = 2 ^ 30 + 5.
Proof. apply read_parseResponseFlag. lia. Defined.
