(* ===== verification/Context.v ===== *)
(** * Request and peer information ([extensions/common/context.{h,cc}])

    What the plugins of Istio share: reading the attributes of a request into a
    [RequestInfo], and the metadata of the local node and of the peer into a
    [FlatNode].  The flatbuffers library, which stores a [FlatNode], is a class of
    operations; [node_info.fbs] gives its fields. *)

From stdpp Require Import base tactics numbers list strings gmap.
From Stdlib Require Import ZArith Lia Ascii.
From S2P Require Import Prelude HostApi Absl ResponseFlags.
Local Open Scope Z_scope.

(** ** Constants *)

Definition kBlackHoleCluster : string := "BlackHoleCluster".
Definition kPassThroughCluster : string := "PassthroughCluster".
Definition kBlackHoleRouteName : string := "block_all".
Definition kPassThroughRouteName : string := "allow_any".
Definition kInboundPassthroughClusterIpv4 : string := "InboundPassthroughClusterIpv4".
Definition kInboundPassthroughClusterIpv6 : string := "InboundPassthroughClusterIpv6".
Definition GrpcStatsName : string := "envoy.filters.http.grpc_stats".

Definition kUpstreamMetadataIdKey : string := "upstream_peer_id".
Definition kUpstreamMetadataKey : string := "upstream_peer".
Definition kDownstreamMetadataIdKey : string := "downstream_peer_id".
Definition kDownstreamMetadataKey : string := "downstream_peer".
Definition kMetadataNotFoundValue : string := "envoy.wasm.metadata_exchange.peer_unknown".
Definition kRequestOperationKey : string := "istio_operationId".
Definition kMethodHeaderKey : string := ":method".
Definition kContentTypeHeaderKey : string := "content-type".
Definition kEnvoyOriginalDstHostKey : string := "x-envoy-original-dst-host".
Definition kEnvoyOriginalPathKey : string := "x-envoy-original-path".
Definition kProtocolHTTP : string := "http".
Definition kProtocolGRPC : string := "grpc".
Definition kProtocolTCP : string := "tcp".
Definition kMutualTLS : string := "MUTUAL_TLS".
Definition kNone : string := "NONE".
Definition kOpen : string := "OPEN".
Definition kConnected : string := "CONNECTED".
Definition kClose : string := "CLOSE".
Definition kCanonicalServiceLabelName : string := "service.istio.io/canonical-name".
Definition kCanonicalServiceRevisionLabelName : string := "service.istio.io/canonical-revision".
Definition kLatest : string := "latest".
Definition kGrpcContentTypes : list string :=
  ["application/grpc"; "application/grpc+proto"; "application/grpc+json"].

(** ** Data *)

Inductive ServiceAuthenticationPolicy := PolicyUnspecified | PolicyNone | MutualTLS.
Inductive TCPConnectionState := StateUnspecified | Open | Connected | Close.
Inductive Protocol := ProtocolUnspecified | TCP | HTTP | GRPC.
#[export] Instance Protocol_eq_dec : EqDecision Protocol.
Proof. solve_decision. Defined.

(** The members without initialiser are options. *)
Record RequestInfo := {
  start_time : option Z;
  duration : option Z;
  request_size : Z;
  response_size : Z;
  destination_port : Z;
  source_port : Z;
  request_protocol : Protocol;
  response_code : Z;
  grpc_status : Z;
  response_flag : string;
  destination_service_host : string;
  destination_service_name : string;
  request_operation : string;
  upstream_transport_failure_reason : string;
  service_auth_policy : ServiceAuthenticationPolicy;
  source_principal : string;
  destination_principal : string;
  connection_id : option Z;
  source_address : string;
  destination_address : string;
  response_details : string;
  route_name : string;
  upstream_host : string;
  upstream_cluster : string;
  requested_server_name : string;
  x_envoy_original_path : string;
  x_envoy_original_dst_host : string;
  referer : string;
  user_agent : string;
  request_id : string;
  b3_trace_id : string;
  b3_span_id : string;
  b3_trace_sampled : bool;
  path : string;
  url_path : string;
  url_host : string;
  url_scheme : string;
  tcp_connections_opened : Z;
  tcp_connections_closed : Z;
  tcp_sent_bytes : Z;
  tcp_received_bytes : Z;
  tcp_total_sent_bytes : Z;
  tcp_total_received_bytes : Z;
  tcp_connection_state : TCPConnectionState;
  is_populated : bool;
  log_sampled : bool;
  request_message_count : Z;
  response_message_count : Z;
  last_request_message_count : Z;
  last_response_message_count : Z
}.

#[export] Instance RequestInfo_fields : Fields RequestInfo := fun r => {|
  start_time := start_time r; duration := duration r; request_size := request_size r;
  response_size := response_size r; destination_port := destination_port r;
  source_port := source_port r; request_protocol := request_protocol r;
  response_code := response_code r; grpc_status := grpc_status r;
  response_flag := response_flag r; destination_service_host := destination_service_host r;
  destination_service_name := destination_service_name r;
  request_operation := request_operation r;
  upstream_transport_failure_reason := upstream_transport_failure_reason r;
  service_auth_policy := service_auth_policy r; source_principal := source_principal r;
  destination_principal := destination_principal r; connection_id := connection_id r;
  source_address := source_address r; destination_address := destination_address r;
  response_details := response_details r; route_name := route_name r;
  upstream_host := upstream_host r; upstream_cluster := upstream_cluster r;
  requested_server_name := requested_server_name r;
  x_envoy_original_path := x_envoy_original_path r;
  x_envoy_original_dst_host := x_envoy_original_dst_host r; referer := referer r;
  user_agent := user_agent r; request_id := request_id r; b3_trace_id := b3_trace_id r;
  b3_span_id := b3_span_id r; b3_trace_sampled := b3_trace_sampled r; path := path r;
  url_path := url_path r; url_host := url_host r; url_scheme := url_scheme r;
  tcp_connections_opened := tcp_connections_opened r;
  tcp_connections_closed := tcp_connections_closed r; tcp_sent_bytes := tcp_sent_bytes r;
  tcp_received_bytes := tcp_received_bytes r; tcp_total_sent_bytes := tcp_total_sent_bytes r;
  tcp_total_received_bytes := tcp_total_received_bytes r;
  tcp_connection_state := tcp_connection_state r; is_populated := is_populated r;
  log_sampled := log_sampled r; request_message_count := request_message_count r;
  response_message_count := response_message_count r;
  last_request_message_count := last_request_message_count r;
  last_response_message_count := last_response_message_count r
|}.

(** A new object. *)
Definition new_request_info : RequestInfo := {|
  start_time := None; duration := None; request_size := 0; response_size := 0;
  destination_port := 0; source_port := 0; request_protocol := ProtocolUnspecified;
  response_code := 0; grpc_status := 2; response_flag := ""; destination_service_host := "";
  destination_service_name := ""; request_operation := "";
  upstream_transport_failure_reason := ""; service_auth_policy := PolicyUnspecified;
  source_principal := ""; destination_principal := ""; connection_id := None;
  source_address := ""; destination_address := ""; response_details := ""; route_name := "";
  upstream_host := ""; upstream_cluster := ""; requested_server_name := "";
  x_envoy_original_path := ""; x_envoy_original_dst_host := ""; referer := ""; user_agent := "";
  request_id := ""; b3_trace_id := ""; b3_span_id := ""; b3_trace_sampled := false; path := "";
  url_path := ""; url_host := ""; url_scheme := ""; tcp_connections_opened := 0;
  tcp_connections_closed := 0; tcp_sent_bytes := 0; tcp_received_bytes := 0;
  tcp_total_sent_bytes := 0; tcp_total_received_bytes := 0;
  tcp_connection_state := StateUnspecified; is_populated := false; log_sampled := false;
  request_message_count := 0; response_message_count := 0; last_request_message_count := 0;
  last_response_message_count := 0
|}.

(** A [KeyVal] of a peer's buffer may lack its value. *)
Abbreviation key_vals := (list (string * option string)).

Record FlatNode := {
  name : option string;
  namespace_ : option string;
  labels : option key_vals;
  owner : option string;
  workload_name : option string;
  platform_metadata : option key_vals;
  istio_version : option string;
  mesh_id : option string;
  app_containers : option (list string);
  cluster_id : option string;
  instance_ips : option (list string)
}.

#[export] Instance FlatNode_fields : Fields FlatNode := fun n => {|
  name := name n; namespace_ := namespace_ n; labels := labels n; owner := owner n;
  workload_name := workload_name n; platform_metadata := platform_metadata n;
  istio_version := istio_version n; mesh_id := mesh_id n; app_containers := app_containers n;
  cluster_id := cluster_id n; instance_ips := instance_ips n
|}.

(** What [FlatNodeBuilder] finishes when nothing is added. *)
Definition extractEmptyNodeFlatBuffer : FlatNode := {|
  name := None; namespace_ := None; labels := None; owner := None; workload_name := None;
  platform_metadata := None; istio_version := None; mesh_id := None; app_containers := None;
  cluster_id := None; instance_ips := None
|}.

(** The flatbuffers library. *)
Class Flatbuffers := {
  CreateVectorOfSortedTables : list (string * string) -> key_vals;
  (** The [KeyVal] of a key: its value, or nothing when there is no such key. *)
  LookupByKey : key_vals -> string -> option (option string);
  (** Reading a buffer; [None] is a text that is not one. *)
  GetRoot : string -> option FlatNode;
  (** [FromUTF8] at the start of a text: the bytes of the character that it goes
      past, or [None] for an answer below zero. *)
  FromUTF8 : string -> option nat
}.

Class FlatbuffersLaws (F : Flatbuffers) : Prop := {
  lookup_sorted l k v :
    LookupByKey (CreateVectorOfSortedTables l) k = Some v -> exists w, v = Some w /\ (k, w) ∈ l;
  lookup_present l k : k ∈ map fst l -> is_Some (LookupByKey (CreateVectorOfSortedTables l) k);
  utf8_bound s n : FromUTF8 s = Some n -> (0 < n <= String.length s)%nat;
  (** A character is one whatever comes after it. *)
  utf8_local s t : FromUTF8 (s +:+ t) = Some (String.length s) ->
    forall u, FromUTF8 (s +:+ u) = Some (String.length s);
  utf8_space s : FromUTF8 (String " " s) = Some 1%nat
}.

(** ** Names of the enumerators *)

Definition AuthenticationPolicyString (policy : ServiceAuthenticationPolicy) : string :=
  match policy with PolicyNone => kNone | MutualTLS => kMutualTLS | PolicyUnspecified => "" end.

Definition TCPConnectionStateString (state : TCPConnectionState) : string :=
  match state with
  | Open => kOpen | Connected => kConnected | Close => kClose | StateUnspecified => ""
  end.

Definition ProtocolString (protocol : Protocol) : string :=
  match protocol with TCP => kProtocolTCP | HTTP => kProtocolHTTP | GRPC => kProtocolGRPC | ProtocolUnspecified => "" end.

(** [TrafficDirection] has every [int64_t] for a value; these are named. *)
Module TrafficDirection.
Definition Unspecified : Z := 0.
Definition Inbound : Z := 1.
Definition Outbound : Z := 2.
End TrafficDirection.

Definition getTrafficDirection : host_prog Z :=
  direction ← trigger (GetInt64 ["listener_direction"]); mret (default TrafficDirection.Unspecified direction).

(** [GetFromFbStringView] *)
Definition GetFromFbStringView (str : option string) : string := default "" str.

(** ** Reading values into a [RequestInfo] *)

(** [getValue(path, &r->f)]: whether there is a value, and the record with it. *)
Definition getValue {X T} (call : HostCall (option X)) (conv : X -> T) (f : RequestInfo -> T)
    `{!Field f} (r : RequestInfo) : host_prog (bool * RequestInfo) :=
  v ← trigger call;
  mret (match v with Some v => (true, r <| f := conv v |>) | None => (false, r) end).

(** The same where the answer does not matter. *)
Definition fill {X T} (call : HostCall (option X)) (conv : X -> T) (f : RequestInfo -> T)
    `{!Field f} (r : RequestInfo) : host_prog RequestInfo :=
  '(_, r) ← getValue call conv f r; mret r.

Abbreviation get_string p f r := (getValue (GetString p) (fun s => s) f r).
Abbreviation fill_string p f r := (fill (GetString p) (fun s => s) f r).

(** The first label of that name, of the local node. *)
Definition getServiceNameFallback : host_prog string :=
  buf ← trigger (GetPairs ["node"; "metadata"; "LABELS"]);
  mret (match buf with
        | Some pairs =>
            match List.find (fun kv => bool_decide (fst kv = kCanonicalServiceLabelName)) pairs with
            | Some (_, val) => val
            | None => "unknown"
            end
        | None => "unknown"
        end).

Definition service_attribute (attribute : string) : list string :=
  ["cluster_metadata"; "filter_metadata"; "istio"; "services"; "0"; attribute].

Definition populateDestinationService (outbound use_host_header : bool) (r : RequestInfo) :
    host_prog RequestInfo :=
  host ← (if use_host_header then mret (url_host r)
          else if outbound then mret "unknown" else getServiceNameFallback);
  let r := r <| destination_service_host := host |> in
  if decide (route_name r = kBlackHoleRouteName) then
    mret (r <| destination_service_name := kBlackHoleCluster |>)
  else if decide (route_name r = kPassThroughRouteName) then
    mret (r <| destination_service_name := kPassThroughCluster |>)
  else
  let cluster_name := upstream_cluster r in
  if decide (cluster_name = kBlackHoleCluster \/ cluster_name = kPassThroughCluster \/
             cluster_name = kInboundPassthroughClusterIpv4 \/
             cluster_name = kInboundPassthroughClusterIpv6) then
    mret (r <| destination_service_name := cluster_name |>)
  else
  '(found, r) ← get_string (service_attribute "name") destination_service_name r;
  if (found : bool) then fill_string (service_attribute "host") destination_service_host r
  else mret (r <| destination_service_name := destination_service_host r |>).

(** [populateRequestInfo] once the flag is set. *)
Definition populate_fields (outbound use_host_header_fallback : bool) (r : RequestInfo) :
    host_prog RequestInfo :=
  r ← fill_string ["cluster_name"] upstream_cluster r;
  r ← fill_string ["route_name"] route_name r;
  r ← populateDestinationService outbound use_host_header_fallback r;
  if outbound then
    port ← getValueOr (GetUint64 ["upstream"; "port"]) 0;
    r ← fill_string ["upstream"; "uri_san_peer_certificate"] destination_principal r;
    r ← fill_string ["upstream"; "uri_san_local_certificate"] source_principal r;
    mret (r <| destination_port := u32 port |>)
  else
    port ← getValueOr (GetUint64 ["destination"; "port"]) 0;
    r ← fill (GetBool ["connection"; "mtls"])
          (fun mtls : bool => if mtls then MutualTLS else PolicyNone) service_auth_policy r;
    r ← fill_string ["connection"; "uri_san_local_certificate"] destination_principal r;
    r ← fill_string ["connection"; "uri_san_peer_certificate"] source_principal r;
    mret (r <| destination_port := u32 port |>).

Definition populateRequestInfo (outbound use_host_header_fallback : bool) (r : RequestInfo) :
    host_prog RequestInfo :=
  if is_populated r then mret r
  else populate_fields outbound use_host_header_fallback (r <| is_populated := true |>).

Definition populateRequestProtocol (r : RequestInfo) : host_prog RequestInfo :=
  content_type ← trigger (GetHeader RequestHeaders kContentTypeHeaderKey);
  content_type ← deref content_type;
  mret (r <| request_protocol :=
          if decide (content_type ∈ kGrpcContentTypes) then GRPC else HTTP |>).

Definition populateTCPRequestInfo (outbound : bool) (r : RequestInfo) : host_prog RequestInfo :=
  r ← populateRequestInfo outbound false r;
  r ← fill (GetUint64 ["response"; "flags"]) parseResponseFlag response_flag r;
  mret (r <| request_protocol := TCP |>).

Definition getAuditPolicy : host_prog bool :=
  getValueOr (GetBool ["metadata"; "filter_metadata"; "envoy.common"; "access_log_hint"]) false.

Section context.
Context `{A : AbslStrings} `{F : Flatbuffers}.

(** [absl::SimpleAtoi(s, &r->f)] *)
Definition simple_atoi (s : string) (f : RequestInfo -> Z) `{!Field f} (r : RequestInfo) :
    bool * RequestInfo :=
  match SimpleAtoiU64 s with
  | Some v => (true, r <| f := v |>)
  | None => (false, r <| f := SimpleAtoiU64_failed s |>)
  end.

Definition populateGRPCInfo (r : RequestInfo) : host_prog (bool * RequestInfo) :=
  value ← trigger (GetString ["filter_state"; GrpcStatsName]);
  mret (match value with
        | None => (false, r)
        | Some value =>
            match StrSplit value "," with
            | [x; y] =>
                let '(ok, r) := simple_atoi x request_message_count r in
                if (ok : bool) then simple_atoi y response_message_count r else (false, r)
            | _ => (false, r)
            end
        end).

Definition populateHTTPRequestInfo (outbound use_host_header_fallback : bool) (r : RequestInfo) :
    host_prog RequestInfo :=
  r ← populateRequestProtocol r;
  r ← fill_string ["request"; "url_path"] url_path r;
  r ← populateRequestInfo outbound use_host_header_fallback r;
  r ← fill (GetInt64 ["response"; "code"]) u32 response_code r;
  r ← fill (GetUint64 ["response"; "flags"]) parseResponseFlag response_flag r;
  r ← (if decide (request_protocol r = GRPC) then
         grpc_status_code ← getValueOr (GetInt64 ["response"; "grpc_status"]) 2;
         '(_, r) ← populateGRPCInfo (r <| grpc_status := u32 grpc_status_code |>);
         mret r
       else mret r);
  operation_id ← trigger (GetString [kRequestOperationKey]);
  operation ← match operation_id with
              | Some id => mret id
              | None => method ← trigger (GetHeader RequestHeaders kMethodHeaderKey); deref method
              end;
  let r := r <| request_operation := operation |> in
  r ← fill (GetInt64 ["request"; "time"]) Some start_time r;
  r ← fill (GetInt64 ["request"; "duration"]) Some duration r;
  r ← fill (GetInt64 ["request"; "total_size"]) (fun v => v) request_size r;
  fill (GetInt64 ["response"; "total_size"]) (fun v => v) response_size r.

(** ** Sanitizing *)

(** [while (start < end)]: whether something was replaced, and the text.  [None]
    is the end of the fuel. *)
Fixpoint sanitize_loop (fuel : nat) (s : string) : option (bool * string) :=
  match s with
  | EmptyString => Some (false, EmptyString)
  | String c s' =>
      match fuel with
      | O => None
      | S fuel =>
          match FromUTF8 s with
          | None => '(_, t) ← sanitize_loop fuel s'; Some (true, String " " t)
          | Some n =>
              '(modified, t) ← sanitize_loop fuel (substr_drop n s);
              Some (modified, substr_take n s +:+ t)
          end
      end
  end.

(** Each iteration goes past a byte. *)
Definition sanitizeBytes (buf : string) : option (bool * string) :=
  sanitize_loop (String.length buf) buf.

Definition sanitize (f : RequestInfo -> string) `{!Field f} (r : RequestInfo) :
    host_prog RequestInfo :=
  match sanitizeBytes (f r) with
  | Some (_, s) => mret (r <| f := s |>)
  | None => OutOfFuel
  end.

Definition fill_sanitized (p : list string) (f : RequestInfo -> string) `{!Field f}
    (r : RequestInfo) : host_prog RequestInfo :=
  '(found, r) ← get_string p f r; if (found : bool) then sanitize f r else mret r.

(** An empty answer keeps the details that are there. *)
Definition fill_details (p : list string) (r : RequestInfo) : host_prog RequestInfo :=
  details ← getValueOr (GetString p) "";
  mret (if decide (details = EmptyString) then r else r <| response_details := details |>).

(** An absent header is a null pointer, and reads as the empty string here. *)
Definition sanitized_header (key : string) (f : RequestInfo -> string) `{!Field f}
    (r : RequestInfo) : host_prog RequestInfo :=
  header ← trigger (GetHeader RequestHeaders key);
  sanitize f (r <| f := default "" header |>).

Definition populateExtendedRequestInfo (r : RequestInfo) : host_prog RequestInfo :=
  r ← fill_string ["source"; "address"] source_address r;
  r ← fill_string ["destination"; "address"] destination_address r;
  r ← fill (GetUint64 ["source"; "port"]) (fun v => v) source_port r;
  r ← fill (GetUint64 ["connection_id"]) Some connection_id r;
  r ← fill_string ["upstream"; "address"] upstream_host r;
  r ← fill_string ["connection"; "requested_server_name"] requested_server_name r;
  r ← sanitized_header kEnvoyOriginalPathKey x_envoy_original_path r;
  r ← sanitized_header kEnvoyOriginalDstHostKey x_envoy_original_dst_host r;
  r ← fill_string ["upstream"; "transport_failure_reason"] upstream_transport_failure_reason r;
  fill_details ["connection"; "termination_details"] r.

Definition populateExtendedHTTPRequestInfo (r : RequestInfo) : host_prog RequestInfo :=
  r ← populateExtendedRequestInfo r;
  r ← fill_sanitized ["request"; "referer"] referer r;
  r ← fill_sanitized ["request"; "useragent"] user_agent r;
  r ← fill_sanitized ["request"; "id"] request_id r;
  trace_sampled ← trigger (GetString ["request"; "headers"; "x-b3-sampled"]);
  r ← (if decide (trace_sampled = Some "1") then
         r ← fill_sanitized ["request"; "headers"; "x-b3-traceid"] b3_trace_id r;
         r ← fill_sanitized ["request"; "headers"; "x-b3-spanid"] b3_span_id r;
         mret (r <| b3_trace_sampled := true |>)
       else mret r);
  r ← fill_string ["request"; "path"] path r;
  r ← fill_string ["request"; "host"] url_host r;
  r ← fill_string ["request"; "scheme"] url_scheme r;
  fill_details ["response"; "code_details"] r.

(** ** Nodes *)

Definition node_attribute (attribute : string) : list string := ["node"; "metadata"; attribute].

Definition get_pairs (p : list string) : host_prog header_list :=
  getValueOr (GetPairs p) [].

(** The pieces between commas; no pieces when there is no value. *)
Definition get_list (p : list string) : host_prog (list string) :=
  value ← trigger (GetString p);
  mret (match value with Some value => StrSplit value "," | None => [] end).

Definition extractLocalNodeFlatBuffer : host_prog FlatNode :=
  name ← trigger (GetString (node_attribute "NAME"));
  namespace_ ← trigger (GetString (node_attribute "NAMESPACE"));
  owner ← trigger (GetString (node_attribute "OWNER"));
  workload_name ← trigger (GetString (node_attribute "WORKLOAD_NAME"));
  istio_version ← trigger (GetString (node_attribute "ISTIO_VERSION"));
  mesh_id ← trigger (GetString (node_attribute "MESH_ID"));
  cluster_id ← trigger (GetString (node_attribute "CLUSTER_ID"));
  labels ← get_pairs (node_attribute "LABELS");
  platform_metadata ← get_pairs (node_attribute "PLATFORM_METADATA");
  app_containers ← get_list (node_attribute "APP_CONTAINERS");
  instance_ips ← get_list (node_attribute "INSTANCE_IPS");
  mret {| name := name; namespace_ := namespace_;
          labels := Some (CreateVectorOfSortedTables labels); owner := owner;
          workload_name := workload_name;
          platform_metadata := Some (CreateVectorOfSortedTables platform_metadata);
          istio_version := istio_version; mesh_id := mesh_id;
          app_containers := Some app_containers; cluster_id := cluster_id;
          instance_ips := Some instance_ips |}.

(** The node that is built, when the answer is [true]. *)
Definition extractPeerMetadataFromUpstreamMetadata (metadata_type : string) :
    host_prog (option FlatNode) :=
  endpoint_labels ← trigger (GetString [metadata_type; "filter_metadata"; "istio"; "workload"]);
  mret (match endpoint_labels with
        | None => None
        | Some endpoint_labels =>
            match StrSplit endpoint_labels ";" with
            | p0 :: p1 :: p2 :: p3 :: p4 :: _ =>
                let kvs :=
                  (if decide (p2 = EmptyString) then [] else [(kCanonicalServiceLabelName, p2)]) ++
                  (if decide (p3 = EmptyString) then []
                   else [(kCanonicalServiceRevisionLabelName, p3)]) in
                Some (extractEmptyNodeFlatBuffer
                  <| workload_name := Some p0 |> <| namespace_ := Some p1 |>
                  <| cluster_id := Some p4 |>
                  <| labels := Some (CreateVectorOfSortedTables kvs) |>)
            | _ => None
            end
        end).

Definition extractPeerMetadataFromUpstreamClusterMetadata : host_prog (option FlatNode) :=
  extractPeerMetadataFromUpstreamMetadata "cluster_metadata".

Definition extractPeerMetadataFromUpstreamHostMetadata : host_prog (option FlatNode) :=
  extractPeerMetadataFromUpstreamMetadata "upstream_host_metadata".

(** [fallback_peer_node_] is null until it is assigned. *)
Record PeerNodeInfo := {
  found_ : bool;
  peer_id_ : string;
  peer_node_ : string;
  fallback_peer_node_ : option FlatNode
}.

(** The constructor. *)
Definition make_PeerNodeInfo (peer_metadata_id_key peer_metadata_key : string) :
    host_prog PeerNodeInfo :=
  id ← trigger (GetString [peer_metadata_id_key]);
  let peer_id := default "" id in
  node ← (if decide (is_Some id /\ peer_id <> kMetadataNotFoundValue)
          then trigger (GetString [peer_metadata_key]) else mret None);
  match node with
  | Some node =>
      mret {| found_ := true; peer_id_ := peer_id; peer_node_ := node; fallback_peer_node_ := None |}
  | None =>
      fallback ←
        (if decide (peer_metadata_id_key = kDownstreamMetadataIdKey)
         then mret extractEmptyNodeFlatBuffer
         else n ← extractPeerMetadataFromUpstreamHostMetadata;
              mret (default extractEmptyNodeFlatBuffer n));
      mret {| found_ := false; peer_id_ := peer_id; peer_node_ := "";
              fallback_peer_node_ := Some fallback |}
  end.

Definition maybeWaiting (p : PeerNodeInfo) : bool :=
  negb (found_ p) && bool_decide (peer_id_ p <> kMetadataNotFoundValue).

(** [PeerNodeInfo::get] *)
Definition get_peer (p : PeerNodeInfo) : host_prog FlatNode :=
  if found_ p then
    match GetRoot (peer_node_ p) with
    | Some node => mret node
    | None => UB "not a flatbuffer"
    end
  else deref (fallback_peer_node_ p).
End context.

(** ** Lemmas *)

(** [r'] is [r] but for what [populateRequestInfo] may assign. *)
Definition populated_from (r r' : RequestInfo) : Prop :=
  r' = r <| is_populated := true |> <| upstream_cluster := upstream_cluster r' |>
         <| route_name := route_name r' |>
         <| destination_service_host := destination_service_host r' |>
         <| destination_service_name := destination_service_name r' |>
         <| destination_port := destination_port r' |>
         <| destination_principal := destination_principal r' |>
         <| source_principal := source_principal r' |>
         <| service_auth_policy := service_auth_policy r' |>.

Arguments populated_from : simpl never.
Arguments fill : simpl never.
Arguments getValue : simpl never.

Lemma populated_start r :
  is_populated r = false -> populated_from r (r <| is_populated := true |>).
Proof. by destruct r. Qed.

(** Each field that may be assigned may be. *)
Ltac populated_set :=
  match goal with
  | |- populated_from ?r ?r' =>
      match goal with
      | H : populated_from r ?r1 |- _ =>
          unfold populated_from in *; destruct r, r1; cbn in H |- *; injection H; intros; subst;
          reflexivity
      end
  end.

Lemma returns_fill {X T} (P : RequestInfo -> Prop) (call : HostCall (option X)) (conv : X -> T)
    (f : RequestInfo -> T) `{!Field f} r :
  P r -> (forall v, P (r <| f := v |>)) -> returns P (fill call conv f r).
Proof. intros Hr Hv. intros [v|]; simpl; auto. Qed.

Lemma returns_getValue {X T} (P : RequestInfo -> Prop) (call : HostCall (option X)) (conv : X -> T)
    (f : RequestInfo -> T) `{!Field f} r :
  P r -> (forall v, P (r <| f := v |>)) -> returns (fun p => P (snd p)) (getValue call conv f r).
Proof. intros Hr Hv. intros [v|]; simpl; auto. Qed.

Lemma destination_frame outbound fallback r r1 :
  populated_from r r1 -> returns (populated_from r) (populateDestinationService outbound fallback r1).
Proof.
  intros H. unfold populateDestinationService.
  apply (returns_bind (fun _ => True)).
  { destruct fallback; [done|]. destruct outbound; [done|]. by intros []. }
  intros host _. repeat case_decide; try (simpl; populated_set).
  apply (returns_bind (fun p => populated_from r (snd p))).
  { apply returns_getValue; [populated_set|]. intros. populated_set. }
  intros [[] r2] Hr; cbn [fst snd] in *; [|simpl; populated_set].
  apply returns_fill; [done|]. intros. populated_set.
Qed.

Lemma populate_frame outbound fallback r :
  is_populated r = false ->
  returns (populated_from r) (populateRequestInfo outbound fallback r).
Proof.
  intros Hp. unfold populateRequestInfo, populate_fields. rewrite Hp. apply populated_start in Hp.
  revert Hp. generalize (r <| is_populated := true |>). intros r0 Hr0.
  do 2 (apply (returns_bind (populated_from r)); [apply returns_fill; [done|intros; populated_set]|];
    intros ? ?).
  apply (returns_bind (populated_from r)); [by apply destination_frame|]. intros r1 H1.
  assert (forall g : Z -> host_prog RequestInfo, (forall v, returns (populated_from r) (g v)) ->
    forall c, returns (populated_from r) (getValueOr c 0 ≫= g)) as Hg.
  { intros g Hg c. apply (returns_bind (fun _ => True)); [by intros []|auto]. }
  destruct outbound; apply Hg; intros port;
    repeat (apply (returns_bind (populated_from r));
      [apply returns_fill; [done|intros; populated_set]|]; intros ? ?); simpl; populated_set.
Qed.

Lemma populated_is r r' : populated_from r r' -> is_populated r' = true.
Proof. unfold populated_from. by intros ->. Qed.

(** *** Updates that a program does not see *)

Section commutes.
Context (upd : RequestInfo -> RequestInfo).

Definition commutes (g : RequestInfo -> host_prog RequestInfo) : Prop :=
  forall r, g (upd r) ≡ (r' ← g r; mret (upd r')).

Lemma commutes_bind g1 g2 : commutes g1 -> commutes g2 -> commutes (fun r => r' ← g1 r; g2 r').
Proof.
  intros H1 H2 r. cbn beta. rewrite (H1 r), !bind_assoc. apply prog_bind_proper; [|done].
  intros r'. apply H2.
Qed.

Lemma commutes_call {X} (call : HostCall X) (g : X -> RequestInfo -> host_prog RequestInfo) :
  (forall x, commutes (g x)) -> commutes (fun r => x ← trigger call; g x r).
Proof. intros Hg r. apply vis_equiv. intros x. apply Hg. Qed.

Lemma commutes_ret g : (forall r, g (upd r) = upd (g r)) -> commutes (fun r => mret (g r)).
Proof. intros Hg r. rewrite Hg. reflexivity. Qed.

Lemma commutes_fill {X T} (call : HostCall (option X)) (conv : X -> T) f `{!Field f} :
  (forall r v, (upd r) <| f := v |> = upd (r <| f := v |>)) -> commutes (fill call conv f).
Proof. intros Hf r. apply vis_equiv. intros [v|]; simpl; by rewrite ?Hf. Qed.

Lemma commutes_if (b : bool) g1 g2 :
  commutes g1 -> commutes g2 -> commutes (fun r => if b then g1 r else g2 r).
Proof. by destruct b. Qed.
End commutes.

Section isolation.
Context (host : string).
Let upd (r : RequestInfo) : RequestInfo := r <| url_host := host |>.

Lemma destination_isolated outbound : commutes upd (populateDestinationService outbound false).
Proof.
  intros r. unfold populateDestinationService. rewrite bind_assoc.
  apply prog_bind_proper; [|done]. intros h.
  change (route_name (upd r) <| destination_service_host := h |>) with
    (route_name r <| destination_service_host := h |>).
  change (upstream_cluster (upd r) <| destination_service_host := h |>) with
    (upstream_cluster r <| destination_service_host := h |>).
  repeat case_decide; try reflexivity.
  apply vis_equiv. intros [v|]; [|reflexivity].
  exact (commutes_fill upd (GetString (service_attribute "host")) (fun s => s)
    destination_service_host (fun _ _ => eq_refl)
    (r <| destination_service_host := h |> <| destination_service_name := v |>)).
Qed.

Lemma fields_isolated outbound : commutes upd (populate_fields outbound false).
Proof.
  unfold populate_fields. do 2 (apply commutes_bind; [by apply commutes_fill|]).
  apply commutes_bind; [apply destination_isolated|]. apply commutes_if.
  - intros r. rewrite bind_assoc. apply prog_bind_proper; [|done]. intros port. revert r.
    apply (commutes_bind upd (fill _ _ destination_principal)); [by apply commutes_fill|].
    apply commutes_bind; [by apply commutes_fill|]. by apply commutes_ret.
  - intros r. rewrite bind_assoc. apply prog_bind_proper; [|done]. intros port. revert r.
    apply (commutes_bind upd (fill _ _ service_auth_policy)); [by apply commutes_fill|].
    do 2 (apply commutes_bind; [by apply commutes_fill|]). by apply commutes_ret.
Qed.
End isolation.

(** *** Sanitizing *)

Section sanitizing.
Context `{F : Flatbuffers} `{!FlatbuffersLaws F}.

(** Each byte is kept or is a space. *)
Definition blanked (s t : string) : Prop :=
  Forall2 (fun c d => d = c \/ d = " "%char) (String.list_ascii_of_string s) (String.list_ascii_of_string t).

Lemma list_ascii_app s t :
  String.list_ascii_of_string (s +:+ t) = String.list_ascii_of_string s ++ String.list_ascii_of_string t.
Proof. induction s; simpl; congruence. Qed.

Lemma blanked_app p s t : blanked s t -> blanked (p +:+ s) (p +:+ t).
Proof.
  unfold blanked. rewrite !list_ascii_app. intros H. apply Forall2_app; [|done].
  apply Forall2_same_length_lookup. split; [done|]. naive_solver.
Qed.

Lemma sanitize_loop_total fuel s :
  (String.length s <= fuel)%nat -> is_Some (sanitize_loop fuel s).
Proof.
  revert s. induction fuel as [|fuel IH]; intros [|c s] Hs; simpl in *; eauto; [lia|].
  destruct (FromUTF8 (String c s)) as [n|] eqn:E.
  - pose proof (utf8_bound _ _ E) as Hn. destruct (IH (substr_drop n (String c s))) as [[m t] ->]; [|eauto].
    rewrite substr_drop_length. simpl in *. lia.
  - destruct (IH s) as [[m t] ->]; [lia|eauto].
Qed.

Lemma sanitize_loop_spec fuel s m t :
  sanitize_loop fuel s = Some (m, t) -> blanked s t /\ (m = false <-> t = s).
Proof.
  revert s m t. induction fuel as [|fuel IH]; intros [|c s] m t; simpl; try done;
    try by (intros [= <- <-]; split; [constructor|]).
  destruct (FromUTF8 (String c s)) as [n|] eqn:E.
  - destruct (sanitize_loop _ _) as [[m1 t1]|] eqn:Hr; [|done]. simpl. intros [= <- <-].
    apply IH in Hr as [Hb Hm]. pose proof (substr_split n (String c s)) as Hs. split.
    + rewrite <- Hs at 1. by apply blanked_app.
    + rewrite Hm. split; [by intros ->|]. intros Ht. rewrite <- Hs in Ht at 2. by apply app_inj_l in Ht.
  - destruct (sanitize_loop _ _) as [[m1 t1]|] eqn:Hr; [|done]. simpl. intros [= <- <-].
    apply IH in Hr as [Hb Hm]. split; [by constructor; [right|]|].
    split; [done|]. intros [= <- _]. by rewrite utf8_space in E.
Qed.

Lemma sanitize_loop_again fuel s m t fuel' :
  sanitize_loop fuel s = Some (m, t) -> (String.length t <= fuel')%nat ->
  sanitize_loop fuel' t = Some (false, t).
Proof.
  revert s m t fuel'. induction fuel as [|fuel IH]; intros [|c s] m t fuel'; simpl; try done;
    try by (intros [= <- <-]; destruct fuel').
  destruct (FromUTF8 (String c s)) as [n|] eqn:E;
    (destruct (sanitize_loop _ _) as [[m1 t1]|] eqn:Hr; [|done]); simpl; intros [= <- <-] Hf.
  - pose proof (utf8_bound _ _ E) as Hn. pose proof (substr_take_length n (String c s)) as Hl.
    pose proof (substr_split n (String c s)) as Hs. rewrite <- Hs in E.
    set (p := substr_take n (String c s)) in *. rewrite <- Hl in E by lia.
    pose proof (utf8_local _ _ E t1) as E1. specialize (Hl ltac:(lia)).
    rewrite app_length_s in Hf. destruct p as [|d p]; [simpl in *; lia|].
    destruct fuel' as [|fuel']; [simpl in *; lia|].
    change (String d p +:+ t1) with (String d (p +:+ t1)) in *. cbn [sanitize_loop]. rewrite E1.
    change (String d (p +:+ t1)) with (String d p +:+ t1). rewrite substr_drop_app, substr_take_app.
    rewrite (IH _ _ _ fuel' Hr); [done|]. simpl in *. lia.
  - simpl in Hf. destruct fuel' as [|fuel']; [lia|]. cbn [sanitize_loop]. rewrite utf8_space. cbn [substr_drop].
    rewrite (IH _ _ _ fuel' Hr) by lia. simpl. done.
Qed.
End sanitizing.

(** ** Theorems *)

(** Without the host header fallback, the host of the request has no effect on
    what is populated: the same calls are made, and the result is the same but
    for the host itself.  In particular a client cannot choose its destination
    service. *)
Theorem host_header_isolated outbound host r :
  populateRequestInfo outbound false (r <| url_host := host |>) ≡
  (r' ← populateRequestInfo outbound false r; mret (r' <| url_host := host |>)).
Proof.
  unfold populateRequestInfo.
  change (is_populated (r <| url_host := host |>)) with (is_populated r).
  destruct (is_populated r); [reflexivity|].
  change (r <| url_host := host |> <| is_populated := true |>) with
    (r <| is_populated := true |> <| url_host := host |>).
  apply (fields_isolated host outbound (r <| is_populated := true |>)).
Qed.

(** C27: [sanitizeBytes] returns on every text.  The result has the same length, with
    some bytes replaced by spaces; the answer is whether it differs; and there is
    nothing left to replace, since sanitizing it again changes nothing. *)
Theorem sanitizeBytes_spec `{F : Flatbuffers} `{!FlatbuffersLaws F} (s : string) :
  exists modified t, sanitizeBytes s = Some (modified, t) /\
    Forall2 (fun c d => d = c \/ d = " "%char) (String.list_ascii_of_string s) (String.list_ascii_of_string t) /\
    (modified = false <-> t = s) /\ sanitizeBytes t = Some (false, t).
Proof.
  destruct (sanitize_loop_total (String.length s) s) as [[m t] E]; [done|].
  exists m, t. split; [done|]. destruct (sanitize_loop_spec _ _ _ _ E).
  split_and!; [done..|]. by eapply sanitize_loop_again.
Qed.

(** What is populated is computed once.  [populateRequestInfo] only assigns the
    fields of the destination, the principals and the policy, and on its result
    it does nothing, without a call, whatever its other arguments. *)
Theorem populated_once outbound fallback r tr r' :
  is_populated r = false -> traces (populateRequestInfo outbound fallback r) tr (Done r') ->
  populated_from r r' /\
  forall outbound' fallback', populateRequestInfo outbound' fallback' r' = mret r'.
Proof.
  intros Hp Ht. pose proof (populate_frame outbound fallback r Hp) as Hf.
  pose proof (returns_traces _ _ _ _ Hf Ht) as H. split; [exact H|]. intros o f.
  unfold populateRequestInfo. by rewrite (populated_is _ _ H).
Qed.

Section nodes.
Context `{A : AbslStrings} `{!AbslLaws A} `{F : Flatbuffers} `{!FlatbuffersLaws F}.

(** C40: the workload label of an endpoint, [workload;namespace;service;revision;
    cluster] and whatever follows, is read into a node with those values, whose
    labels give the service and the revision when they are not empty and
    nothing otherwise; a label of fewer parts is not read. *)
Theorem workload_label_read {S} (h : handler HostCall S) s s' type parts :
  h _ (GetString [type; "filter_metadata"; "istio"; "workload"]) s = (Some (join ";" parts), s') ->
  parts <> [] -> Forall (fun p => has_char ";" p = false) parts ->
  let o := result (run h (extractPeerMetadataFromUpstreamMetadata type) s) in
  match parts with
  | w :: ns :: service :: revision :: cluster :: _ =>
      exists node kvs, o = Done (Some node) /\ workload_name node = Some w /\
        namespace_ node = Some ns /\ cluster_id node = Some cluster /\ labels node = Some kvs /\
        LookupByKey kvs kCanonicalServiceLabelName =
          (if decide (service = EmptyString) then None else Some (Some service)) /\
        LookupByKey kvs kCanonicalServiceRevisionLabelName =
          (if decide (revision = EmptyString) then None else Some (Some revision))
  | _ => o = Done None
  end.
Proof.
  intros Hh Hn Hp. unfold extractPeerMetadataFromUpstreamMetadata. cbn -[join]. rewrite Hh.
  cbn -[join]. rewrite str_split_of_join by done.
  do 5 (destruct parts as [|? parts]; [reflexivity|]).
  eexists _, _. repeat (split; [reflexivity|]).
  set (l := _ ++ _).
  assert (forall k v, (k, v) ∈ l -> LookupByKey (CreateVectorOfSortedTables l) k = Some (Some v)) as Hin.
  { intros k v Hkv. destruct (lookup_present l k) as [x Hx].
    { apply list_elem_of_fmap. by exists (k, v). }
    rewrite Hx. apply lookup_sorted in Hx as (w & -> & Hw). subst l.
    repeat case_decide; set_solver. }
  assert (forall k, k ∉ map fst l -> LookupByKey (CreateVectorOfSortedTables l) k = None) as Hout.
  { intros k Hk. destruct (LookupByKey _ k) as [x|] eqn:Hx; [|done].
    apply lookup_sorted in Hx as (w & _ & Hw). destruct Hk. apply list_elem_of_fmap. by exists (k, w). }
  subst l. repeat case_decide; split; first [apply Hin; set_solver|apply Hout; set_solver].
Qed.

(** C26: the peer's node.  Constructing it always returns.  It is found exactly when the
    filter state has an id other than the sentinel and the metadata, and then it is that
    metadata, nothing is waited for, and [get] reads it when it is the buffer of a node.
    Otherwise there is a fallback, so that [get] returns, which downstream is empty and
    read from nowhere; and metadata is waited for unless the id is the sentinel. *)
Theorem peer_node_available id_key key tr o :
  traces (make_PeerNodeInfo id_key key) tr o ->
  exists p id tr', o = Done p /\ tr = Ev (GetString [id_key]) id :: tr' /\ peer_id_ p = default "" id /\
  if found_ p then
    is_Some id /\ id <> Some kMetadataNotFoundValue /\ maybeWaiting p = false /\
    tr' = [Ev (GetString [key]) (Some (peer_node_ p))] /\
    forall node, GetRoot (peer_node_ p) = Some node -> get_peer p = mret node
  else
    (id = None \/ id = Some kMetadataNotFoundValue \/
     exists tr'', tr' = Ev (GetString [key]) None :: tr'') /\
    (maybeWaiting p = true <-> id <> Some kMetadataNotFoundValue) /\
    exists node, get_peer p = mret node /\
      (id_key = kDownstreamMetadataIdKey ->
       node = extractEmptyNodeFlatBuffer /\ (length tr' <= 1)%nat).
Proof.
  unfold make_PeerNodeInfo. cbn -[extractPeerMetadataFromUpstreamHostMetadata].
  intros (id & tr' & -> & H).
  assert (forall d tr1 o1, traces
      (fallback ← (if decide (id_key = kDownstreamMetadataIdKey)
                   then mret extractEmptyNodeFlatBuffer
                   else n ← extractPeerMetadataFromUpstreamHostMetadata;
                        mret (default extractEmptyNodeFlatBuffer n));
       mret {| found_ := false; peer_id_ := d; peer_node_ := "";
               fallback_peer_node_ := Some fallback |}) tr1 o1 ->
      exists node, o1 = Done {| found_ := false; peer_id_ := d; peer_node_ := "";
                                fallback_peer_node_ := Some node |} /\
        (id_key = kDownstreamMetadataIdKey -> node = extractEmptyNodeFlatBuffer /\ tr1 = []))
    as Hfallback.
  { intros d tr1 o1. case_decide as Hk; simpl.
    - intros [-> ->]. eauto.
    - intros (l & t & -> & Hq). simpl in Hq. destruct Hq as [-> ->].
      eexists. split; [reflexivity|]. done. }
  destruct (decide (is_Some id /\ default "" id <> kMetadataNotFoundValue)) as [Hid|Hid].
  - destruct Hid as [[i ->] Hne]. simpl in H. destruct H as (node & tr1 & -> & H).
    destruct node as [node|].
    + destruct H as [-> ->]. eexists _, _, _. do 2 (split; [done|]). simpl. split_and!; eauto; [by intros [= ->]|].
      unfold get_peer. simpl. by intros n ->.
    + apply Hfallback in H as (n & -> & Hk). eexists _, _, _. do 2 (split; [done|]).
      unfold maybeWaiting, get_peer. simpl in *.
      split; [done|]. split; [eauto|]. split; [|exists n; split; [done|naive_solver]].
      rewrite bool_decide_eq_true_2 by done. naive_solver.
  - apply Hfallback in H as (n & -> & Hk). eexists _, _, _. do 2 (split; [done|]).
    unfold maybeWaiting, get_peer. simpl. split; [done|].
    split; [|split; [|exists n; split; [done|naive_solver (simpl; lia)]]].
    + destruct id; [|by left]. right; left. f_equal. destruct (decide (s = kMetadataNotFoundValue)); naive_solver.
    + destruct id as [i|]; simpl in *; [|done]. destruct (decide (i = kMetadataNotFoundValue)); [|naive_solver].
      subst. rewrite bool_decide_eq_false_2; naive_solver.
Qed.
End nodes.

(** ** Witnesses *)

(** Tables in the given order, and the ASCII part of UTF-8. *)
Definition flat_example : Flatbuffers := {|
  CreateVectorOfSortedTables l := map (fun kv => (fst kv, Some (snd kv))) l;
  LookupByKey kvs k := snd <$> List.find (fun kv => bool_decide (fst kv = k)) kvs;
  GetRoot s := if decide (s = EmptyString) then None else Some extractEmptyNodeFlatBuffer;
  FromUTF8 s :=
    match s with
    | String c _ => if decide (N_of_ascii c < 128)%N then Some 1%nat else None
    | EmptyString => None
    end
|}.

Lemma flat_example_laws : FlatbuffersLaws flat_example.
Proof.
  split; simpl.
  - intros l k v. destruct (List.find _ _) as [kv|] eqn:E; [|done]. intros [= <-].
    apply List.find_some in E as [Hin Hk]. apply bool_decide_eq_true in Hk.
    apply list_elem_of_In, list_elem_of_fmap in Hin as ([k' w] & -> & Hin). simpl in *. subst. eauto.
  - intros l k [[k' w] [-> Hin]]%list_elem_of_fmap. simpl. apply fmap_is_Some.
    destruct (List.find _ _) eqn:E; [done|].
    eapply List.find_none in E; [|apply list_elem_of_In, list_elem_of_fmap; by exists (k', w)].
    simpl in E. by rewrite bool_decide_eq_true_2 in E.
  - intros [|c s] n; [done|]. case_decide; [|done]. intros [= <-]. simpl. lia.
  - intros [|c s] t; simpl; [by destruct t as [|c t]; simpl; [|case_decide]|].
    case_decide; [|done]. done.
  - done.
Qed.

#[local] Existing Instance flat_example.
#[local] Existing Instance flat_example_laws.
#[local] Instance context_absl : AbslStrings := absl_reference.

(** A host that knows some string properties. *)
Definition property_host (properties : list (list string * string)) : handler HostCall unit :=
  fun X e s =>
    match e in HostCall X return X * unit with
    | GetString p => (snd <$> List.find (fun kv => bool_decide (fst kv = p)) properties, s)
    | e => (quiet_answer e, s)
    end.

Definition blocked_host : handler HostCall unit :=
  property_host [(["route_name"], "block_all"); (["cluster_name"], "outbound|80||a")].

Definition blocked_run := run blocked_host (populateRequestInfo true false new_request_info) tt.

Definition blocked_request : RequestInfo :=
  new_request_info <| is_populated := true |> <| upstream_cluster := "outbound|80||a" |>
    <| route_name := "block_all" |> <| destination_service_host := "unknown" |>
    <| destination_service_name := "BlackHoleCluster" |>.

Lemma populated_once_witness :
  populated_from new_request_info blocked_request /\
  forall outbound fallback, populateRequestInfo outbound fallback blocked_request = mret blocked_request.
Proof.
  apply (populated_once true false new_request_info (trace blocked_run) blocked_request).
  - reflexivity.
  - apply run_done_traces. vm_compute. reflexivity.
Defined.

Definition bad_text : string := String "a" (String "200" (String "b" EmptyString)).

Lemma sanitizeBytes_spec_witness :
  exists modified t, sanitizeBytes bad_text = Some (modified, t) /\
    Forall2 (fun c d => d = c \/ d = " "%char) (String.list_ascii_of_string bad_text)
      (String.list_ascii_of_string t) /\
    (modified = false <-> t = bad_text) /\ sanitizeBytes t = Some (false, t).
Proof. apply (sanitizeBytes_spec bad_text). Defined.

Example bad_text_sanitized : sanitizeBytes bad_text = Some (true, "a b").
Proof. reflexivity. Qed.

Definition endpoint_host (id : list (list string * string)) : handler HostCall unit :=
  property_host ((["upstream_host_metadata"; "filter_metadata"; "istio"; "workload"],
                  "productpage-v1;default;productpage;;cluster1") :: id).

Lemma workload_label_read_witness :
  let h := endpoint_host [] in
  exists node kvs, result (run h extractPeerMetadataFromUpstreamHostMetadata tt) = Done (Some node) /\
    workload_name node = Some "productpage-v1" /\ namespace_ node = Some "default" /\
    cluster_id node = Some "cluster1" /\ labels node = Some kvs /\
    LookupByKey kvs kCanonicalServiceLabelName = Some (Some "productpage") /\
    LookupByKey kvs kCanonicalServiceRevisionLabelName = None.
Proof.
  apply (workload_label_read (endpoint_host []) tt tt "upstream_host_metadata"
    ["productpage-v1"; "default"; "productpage"; ""; "cluster1"]).
  - reflexivity.
  - discriminate.
  - repeat constructor.
Defined.

(** The peer's id is known and its metadata is still on its way. *)
Definition waiting_host : handler HostCall unit := endpoint_host [(["upstream_peer_id"], "peer")].
Definition waiting_run :=
  run waiting_host (make_PeerNodeInfo kUpstreamMetadataIdKey kUpstreamMetadataKey) tt.
Definition waiting_peer : PeerNodeInfo :=
  {| found_ := false; peer_id_ := "peer"; peer_node_ := "";
     fallback_peer_node_ := Some (extractEmptyNodeFlatBuffer
       <| workload_name := Some "productpage-v1" |> <| namespace_ := Some "default" |>
       <| cluster_id := Some "cluster1" |>
       <| labels := Some [(kCanonicalServiceLabelName, Some "productpage")] |>) |}.

Lemma peer_node_available_witness :
  exists id tr', trace waiting_run = Ev (GetString ["upstream_peer_id"]) id :: tr' /\
    result waiting_run = Done waiting_peer /\
    (maybeWaiting waiting_peer = true <-> id <> Some kMetadataNotFoundValue) /\
    exists node, get_peer waiting_peer = mret node.
Proof.
  assert (result waiting_run = Done waiting_peer) as Hr by (vm_compute; reflexivity).
  destruct (peer_node_available kUpstreamMetadataIdKey kUpstreamMetadataKey (trace waiting_run)
    (result waiting_run) (run_traces _ _ _)) as (p & id & tr' & Ho & Ht & _ & Hp).
  rewrite Hr in Ho. injection Ho as <-. exists id, tr'. destruct Hp as (_ & Hw & node & Hn & _).
  split; [exact Ht|]. split; [exact Hr|]. split; [exact Hw|]. exists node. exact Hn.
Defined.
