(* ===== verification/NodeInfo.v ===== *)
(** * The buffers of node information ([common/node_info_generated.h])

    The code that the flatbuffers compiler generates from [common/node_info.fbs],
    over the library that it calls, and the extractors of [common/context.cc] as
    they use it.  [Context] has a node as a record; [NodeBuffers] shows that the
    buffers that are built here read back as those records, field by field. *)

From stdpp Require Import base tactics numbers list strings gmap.
From Stdlib Require Import ZArith Lia Ascii.
From S2P Require Import Prelude HostApi Absl Context.
Local Open Scope Z_scope.
Local Open Scope wasm_scope.

(** ** The library *)

(** [FlatBufferBuilder], and the memory that it lays out.  An offset counts from the
    end, so that it is the same in the builder and in the buffer that it
    releases; that of nothing is 0. *)
Class FlatBufferLibrary := {
  FlatBufferBuilder : Type;
  memory : Type;
  new_FlatBufferBuilder : FlatBufferBuilder;
  (** What is laid out so far. *)
  buffer : FlatBufferBuilder -> memory;
  Release : FlatBufferBuilder -> memory;
  CreateString : string -> FlatBufferBuilder -> Z * FlatBufferBuilder;
  CreateVector : list Z -> FlatBufferBuilder -> Z * FlatBufferBuilder;
  (** [CreateVectorOfSortedTables<T>], with [T::KeyCompareLessThan]; [None] is
      undefined behaviour of the comparison. *)
  CreateVectorOfTables : (memory -> Z -> Z -> option bool) -> list Z -> FlatBufferBuilder ->
    option (Z * FlatBufferBuilder);
  StartTable : FlatBufferBuilder -> Z * FlatBufferBuilder;
  AddOffset : Z -> Z -> FlatBufferBuilder -> FlatBufferBuilder;
  EndTable : Z -> FlatBufferBuilder -> Z * FlatBufferBuilder;
  Required : Z -> Z -> FlatBufferBuilder -> FlatBufferBuilder;
  Finish : Z -> FlatBufferBuilder -> FlatBufferBuilder;
  FinishSizePrefixed : Z -> FlatBufferBuilder -> FlatBufferBuilder;
  (** [GetRoot<T>], [GetPointer<P>] of a table, [String] and [Vector]. *)
  root_of : memory -> Z;
  size_prefixed_root_of : memory -> Z;
  GetPointer : memory -> Z -> Z -> option Z;
  string_at : memory -> Z -> string;
  vector_at : memory -> Z -> list Z;
  (** [operator<] of two [String]s. *)
  string_less : string -> string -> bool;
  (** The order in which [std::sort] leaves a sequence. *)
  sorted_by {A : Type} : (A -> A -> bool) -> list A -> list A
}.

(** [Verifier]: each check may count what it has seen. *)
Class FlatBufferVerifier `{FlatBufferLibrary} := {
  verifier : Type;
  check : Type := verifier -> bool * verifier;
  VerifyTableStart : memory -> Z -> check;
  VerifyOffset : memory -> Z -> Z -> check;
  VerifyOffsetRequired : memory -> Z -> Z -> check;
  VerifyString : memory -> option Z -> check;
  VerifyVector : memory -> option Z -> check;
  (** Calls [T::Verify] of the elements. *)
  VerifyVectorOfTables : (Z -> check) -> memory -> option Z -> check;
  VerifyVectorOfStrings : memory -> option Z -> check;
  VerifyEndTable : check;
  VerifyBuffer : (memory -> Z -> check) -> memory -> check;
  VerifySizePrefixedBuffer : (memory -> Z -> check) -> memory -> check
}.

(** [a && b && ...] *)
Fixpoint checks `{FlatBufferVerifier} (cs : list check) : check :=
  match cs with
  | [] => fun v => (true, v)
  | c :: cs => fun v => let '(ok, v) := c v in if ok then checks cs v else (false, v)
  end.

(** [strcmp], whose arguments end at their first zero. *)
Fixpoint strcmp (a b : string) : Z :=
  match a, b with
  | EmptyString, EmptyString => 0
  | EmptyString, String y _ => if decide (y = Ascii.zero) then 0 else -1
  | String x _, EmptyString => if decide (x = Ascii.zero) then 0 else 1
  | String x a, String y b =>
      if decide (x = y) then if decide (x = Ascii.zero) then 0 else strcmp a b
      else if (Ascii.N_of_ascii x <? Ascii.N_of_ascii y)%N then -1 else 1
  end.

(** ** [KeyVal] *)

Module KeyVal.
Section key_val.
Context `{L : FlatBufferLibrary}.

Definition VT_KEY : Z := 4.
Definition VT_VALUE : Z := 6.

Definition key (m : memory) (t : Z) : option Z := GetPointer m t VT_KEY.
Definition value (m : memory) (t : Z) : option Z := GetPointer m t VT_VALUE.

(** A null key is dereferenced. *)
Definition KeyCompareLessThan (m : memory) (t o : Z) : option bool :=
  k ← key m t; k' ← key m o; Some (string_less (string_at m k) (string_at m k')).

Definition KeyCompareWithValue (m : memory) (t : Z) (val : string) : option Z :=
  k ← key m t; Some (strcmp (string_at m k) val).

Definition Verify `{!FlatBufferVerifier} (m : memory) (t : Z) : check :=
  checks [VerifyTableStart m t; VerifyOffsetRequired m t VT_KEY; VerifyString m (key m t);
          VerifyOffset m t VT_VALUE; VerifyString m (value m t); VerifyEndTable].
End key_val.
End KeyVal.

(** A builder of tables: the reference to the buffer's, and where its table starts. *)
Module KeyValBuilder.
Section key_val_builder.
Context `{L : FlatBufferLibrary}.

Record builder := { fbb_ : FlatBufferBuilder; start_ : Z }.

Definition make (fbb : FlatBufferBuilder) : builder :=
  let '(start, fbb) := StartTable fbb in {| fbb_ := fbb; start_ := start |}.

Definition add (field offset : Z) (b : builder) : builder :=
  {| fbb_ := AddOffset field offset (fbb_ b); start_ := start_ b |}.

Definition add_key (key : Z) : builder -> builder := add KeyVal.VT_KEY key.
Definition add_value (value : Z) : builder -> builder := add KeyVal.VT_VALUE value.

Definition Finish (b : builder) : Z * FlatBufferBuilder :=
  let '(end_, fbb) := EndTable (start_ b) (fbb_ b) in (end_, Required end_ KeyVal.VT_KEY fbb).
End key_val_builder.
End KeyValBuilder.

Section create_key_val.
Context `{L : FlatBufferLibrary}.

Definition CreateKeyVal (key value : Z) (fbb : FlatBufferBuilder) : Z * FlatBufferBuilder :=
  let builder_ := KeyValBuilder.make fbb in
  let builder_ := KeyValBuilder.add_value value builder_ in
  let builder_ := KeyValBuilder.add_key key builder_ in
  KeyValBuilder.Finish builder_.

(** [s ? _fbb.CreateString(s) : 0] *)
Definition create_string (s : option string) (fbb : FlatBufferBuilder) : Z * FlatBufferBuilder :=
  match s with Some s => CreateString s fbb | None => (0, fbb) end.

Definition CreateKeyValDirect (key value : option string) (fbb : FlatBufferBuilder) :
    Z * FlatBufferBuilder :=
  let '(key__, fbb) := create_string key fbb in
  let '(value__, fbb) := create_string value fbb in
  CreateKeyVal key__ value__ fbb.
End create_key_val.

(** ** [FlatNode] *)

Module FlatNode.
Section flat_node.
Context `{L : FlatBufferLibrary}.

Definition VT_NAME : Z := 4.
Definition VT_NAMESPACE_ : Z := 6.
Definition VT_LABELS : Z := 8.
Definition VT_OWNER : Z := 10.
Definition VT_WORKLOAD_NAME : Z := 12.
Definition VT_PLATFORM_METADATA : Z := 14.
Definition VT_ISTIO_VERSION : Z := 16.
Definition VT_MESH_ID : Z := 18.
Definition VT_APP_CONTAINERS : Z := 20.
Definition VT_CLUSTER_ID : Z := 22.
Definition VT_INSTANCE_IPS : Z := 24.

Definition name (m : memory) (t : Z) : option Z := GetPointer m t VT_NAME.
Definition namespace_ (m : memory) (t : Z) : option Z := GetPointer m t VT_NAMESPACE_.
Definition labels (m : memory) (t : Z) : option Z := GetPointer m t VT_LABELS.
Definition owner (m : memory) (t : Z) : option Z := GetPointer m t VT_OWNER.
Definition workload_name (m : memory) (t : Z) : option Z := GetPointer m t VT_WORKLOAD_NAME.
Definition platform_metadata (m : memory) (t : Z) : option Z := GetPointer m t VT_PLATFORM_METADATA.
Definition istio_version (m : memory) (t : Z) : option Z := GetPointer m t VT_ISTIO_VERSION.
Definition mesh_id (m : memory) (t : Z) : option Z := GetPointer m t VT_MESH_ID.
Definition app_containers (m : memory) (t : Z) : option Z := GetPointer m t VT_APP_CONTAINERS.
Definition cluster_id (m : memory) (t : Z) : option Z := GetPointer m t VT_CLUSTER_ID.
Definition instance_ips (m : memory) (t : Z) : option Z := GetPointer m t VT_INSTANCE_IPS.

Definition Verify `{!FlatBufferVerifier} (m : memory) (t : Z) : check :=
  let tables := VerifyVectorOfTables (KeyVal.Verify m) m in
  checks [VerifyTableStart m t;
    VerifyOffset m t VT_NAME; VerifyString m (name m t);
    VerifyOffset m t VT_NAMESPACE_; VerifyString m (namespace_ m t);
    VerifyOffset m t VT_LABELS; VerifyVector m (labels m t); tables (labels m t);
    VerifyOffset m t VT_OWNER; VerifyString m (owner m t);
    VerifyOffset m t VT_WORKLOAD_NAME; VerifyString m (workload_name m t);
    VerifyOffset m t VT_PLATFORM_METADATA; VerifyVector m (platform_metadata m t);
    tables (platform_metadata m t);
    VerifyOffset m t VT_ISTIO_VERSION; VerifyString m (istio_version m t);
    VerifyOffset m t VT_MESH_ID; VerifyString m (mesh_id m t);
    VerifyOffset m t VT_APP_CONTAINERS; VerifyVector m (app_containers m t);
    VerifyVectorOfStrings m (app_containers m t);
    VerifyOffset m t VT_CLUSTER_ID; VerifyString m (cluster_id m t);
    VerifyOffset m t VT_INSTANCE_IPS; VerifyVector m (instance_ips m t);
    VerifyVectorOfStrings m (instance_ips m t);
    VerifyEndTable].
End flat_node.
End FlatNode.

Module FlatNodeBuilder.
Section flat_node_builder.
Context `{L : FlatBufferLibrary}.

Record builder := { fbb_ : FlatBufferBuilder; start_ : Z }.

Definition make (fbb : FlatBufferBuilder) : builder :=
  let '(start, fbb) := StartTable fbb in {| fbb_ := fbb; start_ := start |}.

Definition add (field offset : Z) (b : builder) : builder :=
  {| fbb_ := AddOffset field offset (fbb_ b); start_ := start_ b |}.

Definition add_name (name : Z) := add FlatNode.VT_NAME name.
Definition add_namespace_ (namespace_ : Z) := add FlatNode.VT_NAMESPACE_ namespace_.
Definition add_labels (labels : Z) := add FlatNode.VT_LABELS labels.
Definition add_owner (owner : Z) := add FlatNode.VT_OWNER owner.
Definition add_workload_name (workload_name : Z) := add FlatNode.VT_WORKLOAD_NAME workload_name.
Definition add_platform_metadata (platform_metadata : Z) := add FlatNode.VT_PLATFORM_METADATA platform_metadata.
Definition add_istio_version (istio_version : Z) := add FlatNode.VT_ISTIO_VERSION istio_version.
Definition add_mesh_id (mesh_id : Z) := add FlatNode.VT_MESH_ID mesh_id.
Definition add_app_containers (app_containers : Z) := add FlatNode.VT_APP_CONTAINERS app_containers.
Definition add_cluster_id (cluster_id : Z) := add FlatNode.VT_CLUSTER_ID cluster_id.
Definition add_instance_ips (instance_ips : Z) := add FlatNode.VT_INSTANCE_IPS instance_ips.

Definition Finish (b : builder) : Z * FlatBufferBuilder := EndTable (start_ b) (fbb_ b).
End flat_node_builder.
End FlatNodeBuilder.

Section create_flat_node.
Context `{L : FlatBufferLibrary}.

Definition CreateFlatNode (name namespace_ labels owner workload_name platform_metadata istio_version
    mesh_id app_containers cluster_id instance_ips : Z) (fbb : FlatBufferBuilder) : Z * FlatBufferBuilder :=
  let builder_ := FlatNodeBuilder.make fbb in
  let builder_ := FlatNodeBuilder.add_instance_ips instance_ips builder_ in
  let builder_ := FlatNodeBuilder.add_cluster_id cluster_id builder_ in
  let builder_ := FlatNodeBuilder.add_app_containers app_containers builder_ in
  let builder_ := FlatNodeBuilder.add_mesh_id mesh_id builder_ in
  let builder_ := FlatNodeBuilder.add_istio_version istio_version builder_ in
  let builder_ := FlatNodeBuilder.add_platform_metadata platform_metadata builder_ in
  let builder_ := FlatNodeBuilder.add_workload_name workload_name builder_ in
  let builder_ := FlatNodeBuilder.add_owner owner builder_ in
  let builder_ := FlatNodeBuilder.add_labels labels builder_ in
  let builder_ := FlatNodeBuilder.add_namespace_ namespace_ builder_ in
  let builder_ := FlatNodeBuilder.add_name name builder_ in
  FlatNodeBuilder.Finish builder_.

(** The same of vectors. *)
Definition create_tables (tables : option (list Z)) (fbb : FlatBufferBuilder) : option (Z * FlatBufferBuilder) :=
  match tables with
  | Some tables => CreateVectorOfTables KeyVal.KeyCompareLessThan tables fbb
  | None => Some (0, fbb)
  end.

Definition create_vector (elems : option (list Z)) (fbb : FlatBufferBuilder) : Z * FlatBufferBuilder :=
  match elems with Some elems => CreateVector elems fbb | None => (0, fbb) end.

(** [None] is undefined behaviour of a comparison. *)
Definition CreateFlatNodeDirect (name namespace_ : option string) (labels : option (list Z))
    (owner workload_name : option string) (platform_metadata : option (list Z))
    (istio_version mesh_id : option string) (app_containers : option (list Z)) (cluster_id : option string)
    (instance_ips : option (list Z)) (fbb : FlatBufferBuilder) : option (Z * FlatBufferBuilder) :=
  let '(name__, fbb) := create_string name fbb in
  let '(namespace___, fbb) := create_string namespace_ fbb in
  '(labels__, fbb) ← create_tables labels fbb;
  let '(owner__, fbb) := create_string owner fbb in
  let '(workload_name__, fbb) := create_string workload_name fbb in
  '(platform_metadata__, fbb) ← create_tables platform_metadata fbb;
  let '(istio_version__, fbb) := create_string istio_version fbb in
  let '(mesh_id__, fbb) := create_string mesh_id fbb in
  let '(app_containers__, fbb) := create_vector app_containers fbb in
  let '(cluster_id__, fbb) := create_string cluster_id fbb in
  let '(instance_ips__, fbb) := create_vector instance_ips fbb in
  Some (CreateFlatNode name__ namespace___ labels__ owner__ workload_name__ platform_metadata__
          istio_version__ mesh_id__ app_containers__ cluster_id__ instance_ips__ fbb).

Definition GetFlatNode (buf : memory) : Z := root_of buf.
Definition GetSizePrefixedFlatNode (buf : memory) : Z := size_prefixed_root_of buf.
Definition FinishFlatNodeBuffer (fbb : FlatBufferBuilder) (root : Z) : FlatBufferBuilder := Finish root fbb.
Definition FinishSizePrefixedFlatNodeBuffer (fbb : FlatBufferBuilder) (root : Z) : FlatBufferBuilder :=
  FinishSizePrefixed root fbb.
Definition VerifyFlatNodeBuffer `{!FlatBufferVerifier} (buf : memory) : check := VerifyBuffer FlatNode.Verify buf.
Definition VerifySizePrefixedFlatNodeBuffer `{!FlatBufferVerifier} (buf : memory) : check :=
  VerifySizePrefixedBuffer FlatNode.Verify buf.
End create_flat_node.

(** ** The extractors *)

Section extract.
Context `{L : FlatBufferLibrary} `{A : AbslStrings}.
(** The order in which the arguments of [CreateKeyVal] are evaluated is not
    specified. *)
Context (key_first : bool).

(** [CreateKeyVal(fbb, fbb.CreateString(key), fbb.CreateString(val))] *)
Definition create_pair (kv : string * string) (fbb : FlatBufferBuilder) : Z * FlatBufferBuilder :=
  if key_first then
    let '(key, fbb) := CreateString (fst kv) fbb in
    let '(val, fbb) := CreateString (snd kv) fbb in CreateKeyVal key val fbb
  else
    let '(val, fbb) := CreateString (snd kv) fbb in
    let '(key, fbb) := CreateString (fst kv) fbb in CreateKeyVal key val fbb.

(** A loop that pushes what it creates from each element. *)
Fixpoint push_all {X} (create : X -> FlatBufferBuilder -> Z * FlatBufferBuilder) (xs : list X)
    (fbb : FlatBufferBuilder) : list Z * FlatBufferBuilder :=
  match xs with
  | [] => ([], fbb)
  | x :: xs =>
      let '(o, fbb) := create x fbb in
      let '(os, fbb) := push_all create xs fbb in (o :: os, fbb)
  end.

(** [CreateVectorOfSortedTables(&tables)] *)
Definition sorted_tables (tables : list Z) (fbb : FlatBufferBuilder) : host_prog (Z * FlatBufferBuilder) :=
  match CreateVectorOfTables KeyVal.KeyCompareLessThan tables fbb with
  | Some r => mret r
  | None => UB "null pointer dereference"
  end.

Definition extractEmptyNodeFlatBuffer : memory :=
  let node := FlatNodeBuilder.make new_FlatBufferBuilder in
  let '(data, fbb) := FlatNodeBuilder.Finish node in
  Release (Finish data fbb).

(** [if (getValue(path, &value)) { x = fbb.CreateString(value); }] *)
Definition extract_string (attribute : string) (fbb : FlatBufferBuilder) : host_prog (Z * FlatBufferBuilder) :=
  value ← trigger (GetString (node_attribute attribute)); mret (create_string value fbb).

Definition extract_pairs (attribute : string) (fbb : FlatBufferBuilder) : host_prog (list Z * FlatBufferBuilder) :=
  buf ← trigger (GetPairs (node_attribute attribute));
  mret (match buf with Some pairs => push_all create_pair pairs fbb | None => ([], fbb) end).

Definition extract_list (attribute : string) (fbb : FlatBufferBuilder) : host_prog (list Z * FlatBufferBuilder) :=
  value ← trigger (GetString (node_attribute attribute));
  mret (match value with Some value => push_all CreateString (StrSplit value ","%char) fbb | None => ([], fbb) end).

Definition extractLocalNodeFlatBuffer : host_prog memory :=
  let fbb := new_FlatBufferBuilder in
  '(name, fbb) ← extract_string "NAME" fbb;
  '(namespace_, fbb) ← extract_string "NAMESPACE" fbb;
  '(owner, fbb) ← extract_string "OWNER" fbb;
  '(workload_name, fbb) ← extract_string "WORKLOAD_NAME" fbb;
  '(istio_version, fbb) ← extract_string "ISTIO_VERSION" fbb;
  '(mesh_id, fbb) ← extract_string "MESH_ID" fbb;
  '(cluster_id, fbb) ← extract_string "CLUSTER_ID" fbb;
  '(labels, fbb) ← extract_pairs "LABELS" fbb;
  '(platform_metadata, fbb) ← extract_pairs "PLATFORM_METADATA" fbb;
  '(app_containers, fbb) ← extract_list "APP_CONTAINERS" fbb;
  '(ip_addrs, fbb) ← extract_list "INSTANCE_IPS" fbb;
  '(labels_offset, fbb) ← sorted_tables labels fbb;
  '(platform_metadata_offset, fbb) ← sorted_tables platform_metadata fbb;
  let '(app_containers_offset, fbb) := CreateVector app_containers fbb in
  let '(ip_addrs_offset, fbb) := CreateVector ip_addrs fbb in
  let node := FlatNodeBuilder.make fbb in
  let node := FlatNodeBuilder.add_name name node in
  let node := FlatNodeBuilder.add_namespace_ namespace_ node in
  let node := FlatNodeBuilder.add_owner owner node in
  let node := FlatNodeBuilder.add_workload_name workload_name node in
  let node := FlatNodeBuilder.add_istio_version istio_version node in
  let node := FlatNodeBuilder.add_mesh_id mesh_id node in
  let node := FlatNodeBuilder.add_cluster_id cluster_id node in
  let node := FlatNodeBuilder.add_labels labels_offset node in
  let node := FlatNodeBuilder.add_platform_metadata platform_metadata_offset node in
  let node := FlatNodeBuilder.add_app_containers app_containers_offset node in
  let node := FlatNodeBuilder.add_instance_ips ip_addrs_offset node in
  let '(data, fbb) := FlatNodeBuilder.Finish node in
  mret (Release (Finish data fbb)).

(** The label of an endpoint, when it is there. *)
Definition push_label (name part : string) (labels : list Z) (fbb : FlatBufferBuilder) :
    list Z * FlatBufferBuilder :=
  if decide (part = EmptyString) then (labels, fbb)
  else let '(o, fbb) := create_pair (name, part) fbb in (labels ++ [o], fbb).

(** [fbb] finished, when the answer is [true]. *)
Definition extractPeerMetadataFromUpstreamMetadata (metadata_type : string) (fbb : FlatBufferBuilder) :
    host_prog (bool * FlatBufferBuilder) :=
  endpoint_labels ← trigger (GetString [metadata_type; "filter_metadata"; "istio"; "workload"]);
  match endpoint_labels with
  | None => mret (false, fbb)
  | Some endpoint_labels =>
      match StrSplit endpoint_labels ";"%char with
      | p0 :: p1 :: p2 :: p3 :: p4 :: _ =>
          let '(workload_name, fbb) := CreateString p0 fbb in
          let '(namespace_, fbb) := CreateString p1 fbb in
          let '(labels, fbb) := push_label kCanonicalServiceLabelName p2 [] fbb in
          let '(labels, fbb) := push_label kCanonicalServiceRevisionLabelName p3 labels fbb in
          let '(cluster_id, fbb) := CreateString p4 fbb in
          '(labels_offset, fbb) ← sorted_tables labels fbb;
          let node := FlatNodeBuilder.make fbb in
          let node := FlatNodeBuilder.add_workload_name workload_name node in
          let node := FlatNodeBuilder.add_namespace_ namespace_ node in
          let node := if decide (cluster_id = 0) then node else FlatNodeBuilder.add_cluster_id cluster_id node in
          let node := FlatNodeBuilder.add_labels labels_offset node in
          let '(data, fbb) := FlatNodeBuilder.Finish node in
          mret (true, Finish data fbb)
      | _ => mret (false, fbb)
      end
  end.

(** What [PeerNodeInfo] falls back to when it is not a downstream peer. *)
Definition fallback_peer_node : host_prog memory :=
  '(found, fbb) ← extractPeerMetadataFromUpstreamMetadata "upstream_host_metadata" new_FlatBufferBuilder;
  mret (if (found : bool) then Release fbb else extractEmptyNodeFlatBuffer).
End extract.
