(* ===== verification/NodeBuffers.v ===== *)
(** * The buffers of node information: what they hold

    What flatbuffers promises, as laws; that every field of a table has its place; and
    that the extractors of [NodeInfo] build the nodes that [Context] has as records.
    A reference library, on which the witnesses run, has the laws. *)

From stdpp Require Import base tactics numbers list strings gmap.
From Stdlib Require Import ZArith Lia Ascii.
From S2P Require Import Prelude HostApi Absl Context NodeInfo.
Local Open Scope Z_scope.
Local Open Scope wasm_scope.

(** ** What the library does *)

(** An object that was laid out. *)
Inductive object :=
| OString (s : string)
| OVector (elems : list Z)
| OTable (fields : gmap Z Z).

(** The documented behaviour: every creation lays out an object at a new offset, and
    changes no other; a table, while it is open, collects the offsets of its
    fields that are not null; reading an object gives what was laid out. *)
Class FlatBufferLaws (L : FlatBufferLibrary) := {
  contents : FlatBufferBuilder -> gmap Z object;
  (** The table that is open. *)
  opened : FlatBufferBuilder -> option (Z * gmap Z Z);
  laid_out (b : FlatBufferBuilder) (o : Z) (x : object) (b' : FlatBufferBuilder) : Prop :=
    o <> 0 /\ contents b !! o = None /\ contents b' = <[o := x]> (contents b) /\ opened b' = None;
  new_closed : opened new_FlatBufferBuilder = None;
  create_string_law s b : opened b = None ->
    laid_out b (fst (CreateString s b)) (OString s) (snd (CreateString s b));
  create_vector_law elems b : opened b = None ->
    laid_out b (fst (CreateVector elems b)) (OVector elems) (snd (CreateVector elems b));
  create_tables_law less (less' : Z -> Z -> bool) tables b : opened b = None ->
    (forall x y, x ∈ tables -> y ∈ tables -> less (buffer b) x y = Some (less' x y)) ->
    exists o b', CreateVectorOfTables less tables b = Some (o, b') /\
      laid_out b o (OVector (sorted_by less' tables)) b';
  start_table_law b : opened b = None ->
    contents (snd (StartTable b)) = contents b /\ opened (snd (StartTable b)) = Some (fst (StartTable b), ∅);
  add_offset_law field o b start fields : opened b = Some (start, fields) -> fields !! field = None ->
    contents (AddOffset field o b) = contents b /\
    opened (AddOffset field o b) = Some (start, if decide (o = 0) then fields else <[field := o]> fields);
  end_table_law b start fields : opened b = Some (start, fields) ->
    laid_out b (fst (EndTable start b)) (OTable fields) (snd (EndTable start b));
  required_law o field b fields : contents b !! o = Some (OTable fields) -> is_Some (fields !! field) ->
    Required o field b = b;
  finish_law o b : contents (Finish o b) = contents b /\ root_of (buffer (Finish o b)) = o;
  release_law b : Release b = buffer b;
  get_pointer_law b t fields field : contents b !! t = Some (OTable fields) ->
    GetPointer (buffer b) t field = fields !! field;
  string_law b o s : contents b !! o = Some (OString s) -> string_at (buffer b) o = s;
  vector_law b o elems : contents b !! o = Some (OVector elems) -> vector_at (buffer b) o = elems;
  string_less_law a b : string_less a b = String.ltb a b;
  (** [std::sort] reorders, and only looks at elements through the comparison. *)
  sorted_perm {X} (less : X -> X -> bool) l : sorted_by less l ≡ₚ l;
  sorted_map {X Y} (f : X -> Y) (less : X -> X -> bool) (less' : Y -> Y -> bool) l :
    (forall x y, x ∈ l -> y ∈ l -> less' (f x) (f y) = less x y) ->
    sorted_by less' (f <$> l) = f <$> sorted_by less l
}.

(** ** Reading a node *)

Section read.
Context `{L : FlatBufferLibrary}.

Definition read_key_val (m : memory) (t : Z) : string * option string :=
  (default "" (string_at m <$> KeyVal.key m t), string_at m <$> KeyVal.value m t).

(** The record of a table, as [Context] has it. *)
Definition read_node (m : memory) (t : Z) : Context.FlatNode := {|
  name := string_at m <$> FlatNode.name m t;
  namespace_ := string_at m <$> FlatNode.namespace_ m t;
  labels := (fun p => read_key_val m <$> vector_at m p) <$> FlatNode.labels m t;
  owner := string_at m <$> FlatNode.owner m t;
  workload_name := string_at m <$> FlatNode.workload_name m t;
  platform_metadata := (fun p => read_key_val m <$> vector_at m p) <$> FlatNode.platform_metadata m t;
  istio_version := string_at m <$> FlatNode.istio_version m t;
  mesh_id := string_at m <$> FlatNode.mesh_id m t;
  app_containers := (fun p => string_at m <$> vector_at m p) <$> FlatNode.app_containers m t;
  cluster_id := string_at m <$> FlatNode.cluster_id m t;
  instance_ips := (fun p => string_at m <$> vector_at m p) <$> FlatNode.instance_ips m t
|}.

Definition node_in (m : memory) : Context.FlatNode := read_node m (GetFlatNode m).

(** The entries of [CreateVectorOfSortedTables], sorted by their keys. *)
Definition sorted_pairs (l : list (string * string)) : key_vals :=
  (fun kv => (fst kv, Some (snd kv))) <$> sorted_by (fun a b => string_less (fst a) (fst b)) l.
End read.

(** [Context]'s node vectors are those of this library. *)
Class SortedBy (L : FlatBufferLibrary) (F : Flatbuffers) : Prop :=
  sorted_by_key l : CreateVectorOfSortedTables l = sorted_pairs l.

(** ** What is built *)

Section build.
Context `{L : FlatBufferLibrary} `{!FlatBufferLaws L}.

(** A builder grows: no table is open, and nothing that was there is lost. *)
Definition grows_to (b b' : FlatBufferBuilder) : Prop := opened b' = None /\ contents b ⊆ contents b'.

Definition has_string (b : FlatBufferBuilder) (o : Z) (s : string) : Prop :=
  o <> 0 /\ contents b !! o = Some (OString s).

Definition has_pair (b : FlatBufferBuilder) (o : Z) (kv : string * string) : Prop :=
  o <> 0 /\ exists ok ov, contents b !! o = Some (OTable {[KeyVal.VT_KEY := ok; KeyVal.VT_VALUE := ov]}) /\
    has_string b ok (fst kv) /\ has_string b ov (snd kv).

(** An offset that may be null. *)
Definition may_have {X} (has : FlatBufferBuilder -> Z -> X -> Prop) b (o : Z) (x : option X) : Prop :=
  match x with Some x => has b o x | None => o = 0 end.

Definition has_all {X} (has : FlatBufferBuilder -> Z -> X -> Prop) b (os : list Z) (xs : list X) : Prop :=
  Forall2 (has b) os xs.

Definition has_vector {X} (has : FlatBufferBuilder -> Z -> X -> Prop) b (o : Z) (xs : list X) : Prop :=
  o <> 0 /\ exists os, contents b !! o = Some (OVector os) /\ has_all has b os xs.

(** What stays as the builder grows. *)
Class Grows {X} (has : FlatBufferBuilder -> Z -> X -> Prop) : Prop :=
  has_grows b b' o x : contents b ⊆ contents b' -> has b o x -> has b' o x.

#[export] Instance has_string_grows : Grows has_string.
Proof. intros b b' o s Hb [Ho Hs]. split; [done|by eapply lookup_weaken]. Qed.

#[export] Instance has_pair_grows : Grows has_pair.
Proof.
  intros b b' o kv Hb (Ho & ok & ov & Ht & Hk & Hv). split; [done|]. exists ok, ov.
  split; [by eapply lookup_weaken|]. split; by eapply has_grows.
Qed.

#[export] Instance may_have_grows {X} (has : FlatBufferBuilder -> Z -> X -> Prop) :
  Grows has -> Grows (may_have has).
Proof. intros Hg b b' o [x|] Hb; [|done]. by apply Hg. Qed.

Lemma has_all_grows {X} (has : FlatBufferBuilder -> Z -> X -> Prop) `{!Grows has} b b' os xs :
  contents b ⊆ contents b' -> has_all has b os xs -> has_all has b' os xs.
Proof. intros Hb Hall. eapply Forall2_impl; [exact Hall|]. intros o x. by apply has_grows. Qed.

#[export] Instance has_vector_grows {X} (has : FlatBufferBuilder -> Z -> X -> Prop) :
  Grows has -> Grows (has_vector has).
Proof.
  intros Hg b b' o xs Hb (Ho & os & Hv & Ha). split; [done|]. exists os.
  split; [by eapply lookup_weaken|by eapply has_all_grows].
Qed.

Lemma grows_to_refl b : opened b = None -> grows_to b b.
Proof. by split. Qed.

Lemma grows_to_trans b1 b2 b3 : grows_to b1 b2 -> grows_to b2 b3 -> grows_to b1 b3.
Proof. intros [_ H1] [H2 H3]. split; [done|by etrans]. Qed.

Lemma laid_out_grows b o x b' : laid_out b o x b' -> grows_to b b'.
Proof. intros (_ & Hn & He & Hc). split; [done|]. rewrite He. by apply insert_subseteq. Qed.

Lemma laid_out_has b o x b' : laid_out b o x b' -> o <> 0 /\ contents b' !! o = Some x.
Proof. intros (Ho & _ & -> & _). by rewrite lookup_insert_eq. Qed.

(** A creation that lays out something that stays. *)
Definition creates {X} (has : FlatBufferBuilder -> Z -> X -> Prop) (x : X)
    (create : FlatBufferBuilder -> Z * FlatBufferBuilder) : Prop :=
  forall b, opened b = None -> grows_to b (snd (create b)) /\ has (snd (create b)) (fst (create b)) x.

Lemma CreateString_creates s : creates has_string s (CreateString s).
Proof.
  intros b Hb. pose proof (create_string_law s b Hb) as H. split; [by eapply laid_out_grows|].
  by eapply laid_out_has.
Qed.

Lemma create_string_creates s : creates (may_have has_string) s (create_string s).
Proof.
  intros b Hb. destruct s as [s|]; [by apply CreateString_creates|]. by split; [apply grows_to_refl|].
Qed.

(** ** Tables *)

(** The offset of a field, if it is not null. *)
Definition nonnull (o : Z) : option Z := if decide (o = 0) then None else Some o.

Definition with_field (field o : Z) (fields : gmap Z Z) : gmap Z Z :=
  if decide (o = 0) then fields else <[field := o]> fields.

Lemma with_field_eq field o fields : fields !! field = None -> with_field field o fields !! field = nonnull o.
Proof. unfold with_field, nonnull. case_decide; [done|]. by rewrite lookup_insert_eq. Qed.

Lemma with_field_ne field field' o fields :
  field <> field' -> with_field field o fields !! field' = fields !! field'.
Proof. unfold with_field. case_decide; [done|]. intros. by rewrite lookup_insert_ne. Qed.

(** A table that is being built on [b0]. *)
Definition building (b0 b : FlatBufferBuilder) (start : Z) (fields : gmap Z Z) : Prop :=
  contents b = contents b0 /\ opened b = Some (start, fields).

Lemma building_start b : opened b = None -> building b (snd (StartTable b)) (fst (StartTable b)) ∅.
Proof. apply start_table_law. Qed.

Lemma building_add b0 b start fields field o :
  fields !! field = None -> building b0 b start fields ->
  building b0 (AddOffset field o b) start (with_field field o fields).
Proof.
  intros Hf [Hc Ho]. destruct (add_offset_law field o b start fields Ho Hf) as [Hc' Ho'].
  split; [congruence|exact Ho'].
Qed.

Lemma building_end b0 b start fields :
  building b0 b start fields -> laid_out b0 (fst (EndTable start b)) (OTable fields) (snd (EndTable start b)).
Proof.
  intros [Hc Ho]. destruct (end_table_law b start fields Ho) as (H1 & H2 & H3 & H4).
  unfold laid_out. by rewrite <- Hc.
Qed.

Lemma CreateKeyVal_creates key value b :
  opened b = None -> key <> 0 ->
  laid_out b (fst (CreateKeyVal key value b))
    (OTable (with_field KeyVal.VT_KEY key (with_field KeyVal.VT_VALUE value ∅))) (snd (CreateKeyVal key value b)).
Proof.
  intros Hb Hk. pose proof (building_start b Hb) as H.
  unfold CreateKeyVal, KeyValBuilder.make, KeyValBuilder.Finish.
  destruct (StartTable b) as [start b1]. cbn [fst snd] in H. cbn.
  apply (building_add _ _ _ _ KeyVal.VT_VALUE value) in H; [|apply lookup_empty].
  apply (building_add _ _ _ _ KeyVal.VT_KEY key) in H; [|by rewrite with_field_ne, lookup_empty].
  apply building_end in H. set (fields := with_field _ _ _) in *. destruct (EndTable _ _) as [o b2]. cbn [fst snd] in *.
  rewrite (required_law o KeyVal.VT_KEY b2 fields); [done|exact (proj2 (laid_out_has _ _ _ _ H))|].
  unfold fields. rewrite with_field_eq by (by rewrite with_field_ne, lookup_empty).
  unfold nonnull. rewrite decide_False by done. eauto.
Qed.

Lemma CreateKeyVal_pair key value kv b :
  opened b = None -> has_string b key (fst kv) -> has_string b value (snd kv) ->
  grows_to b (snd (CreateKeyVal key value b)) /\
  has_pair (snd (CreateKeyVal key value b)) (fst (CreateKeyVal key value b)) kv.
Proof.
  intros Hb Hk Hv. pose proof (CreateKeyVal_creates key value b Hb (proj1 Hk)) as H.
  pose proof (laid_out_grows _ _ _ _ H) as Hg. split; [done|]. apply laid_out_has in H as [Ho H].
  split; [done|]. exists key, value. split; [|split; (eapply has_grows; [apply Hg|done])].
  unfold with_field in H. rewrite !decide_False in H by (apply Hk || apply Hv). by rewrite insert_empty in H.
Qed.

Lemma create_pair_creates key_first kv : creates has_pair kv (create_pair key_first kv).
Proof.
  intros b Hb. unfold create_pair. destruct key_first.
  - destruct (CreateString_creates (fst kv) b Hb) as [G1 H1]. destruct (CreateString _ b) as [o1 b1]. cbn [fst snd] in *.
    destruct (CreateString_creates (snd kv) b1 (proj1 G1)) as [G2 H2].
    destruct (CreateString _ b1) as [o2 b2]. cbn [fst snd] in *.
    destruct (CreateKeyVal_pair o1 o2 kv b2) as [G3 H3]; [apply G2|by eapply has_grows; [apply G2|]|done|].
    split; [|done]. eapply grows_to_trans; [exact G1|]. by eapply grows_to_trans.
  - destruct (CreateString_creates (snd kv) b Hb) as [G1 H1]. destruct (CreateString _ b) as [o1 b1]. cbn [fst snd] in *.
    destruct (CreateString_creates (fst kv) b1 (proj1 G1)) as [G2 H2].
    destruct (CreateString _ b1) as [o2 b2]. cbn [fst snd] in *.
    destruct (CreateKeyVal_pair o2 o1 kv b2) as [G3 H3]; [apply G2|done|by eapply has_grows; [apply G2|]|].
    split; [|done]. eapply grows_to_trans; [exact G1|]. by eapply grows_to_trans.
Qed.

Lemma push_all_creates {X} (has : FlatBufferBuilder -> Z -> X -> Prop) `{!Grows has} create xs b :
  (forall x, creates has x (create x)) -> opened b = None ->
  grows_to b (snd (push_all create xs b)) /\ has_all has (snd (push_all create xs b)) (fst (push_all create xs b)) xs.
Proof.
  intros Hc. revert b. induction xs as [|x xs IH]; intros b Hb; cbn [push_all].
  { split; [by apply grows_to_refl|constructor]. }
  destruct (Hc x b Hb) as [G1 H1]. destruct (create x b) as [o b1]. cbn [fst snd] in *.
  destruct (IH b1 (proj1 G1)) as [G2 H2]. destruct (push_all create xs b1) as [os b2]. cbn [fst snd] in *.
  split; [by eapply grows_to_trans|]. constructor; [|done]. eapply has_grows; [apply G2|done].
Qed.

(** ** Vectors *)

Lemma CreateVector_creates {X} (has : FlatBufferBuilder -> Z -> X -> Prop) `{!Grows has} os xs b :
  opened b = None -> has_all has b os xs ->
  grows_to b (snd (CreateVector os b)) /\ has_vector has (snd (CreateVector os b)) (fst (CreateVector os b)) xs.
Proof.
  intros Hb Ha. pose proof (create_vector_law os b Hb) as H. pose proof (laid_out_grows _ _ _ _ H) as Hg.
  split; [done|]. apply laid_out_has in H as [Ho Hv]. split; [done|]. exists os. split; [done|].
  eapply has_all_grows; [done|apply Hg|done].
Qed.

Lemma pair_key b t kv : has_pair b t kv -> exists k, KeyVal.key (buffer b) t = Some k /\ string_at (buffer b) k = fst kv.
Proof.
  intros (_ & ok & ov & Ht & [_ Hk] & _). exists ok. unfold KeyVal.key.
  rewrite (get_pointer_law _ _ _ _ Ht). split; [by rewrite lookup_insert_eq|by apply string_law].
Qed.

Lemma pair_less b t u kv kw : has_pair b t kv -> has_pair b u kw ->
  KeyVal.KeyCompareLessThan (buffer b) t u = Some (string_less (fst kv) (fst kw)).
Proof.
  intros (k & Hk & Hs)%pair_key (k' & Hk' & Hs')%pair_key. unfold KeyVal.KeyCompareLessThan.
  rewrite Hk, Hk'. simpl. by rewrite Hs, Hs'.
Qed.

(** Sorting tables by their keys sorts what they hold. *)
Lemma sorted_tables_has b (less : Z -> Z -> bool) ts kvs :
  has_all has_pair b ts kvs ->
  (forall x y, x ∈ ts -> y ∈ ts -> KeyVal.KeyCompareLessThan (buffer b) x y = Some (less x y)) ->
  has_all has_pair b (sorted_by less ts) (sorted_by (fun a c => string_less (fst a) (fst c)) kvs).
Proof.
  intros Ha Hl. set (l := zip ts kvs).
  assert (ts = l.*1) as Ht by (symmetry; apply fst_zip; apply Forall2_length in Ha; lia).
  assert (kvs = l.*2) as Hk by (symmetry; apply snd_zip; apply Forall2_length in Ha; lia).
  assert (Forall (fun p => has_pair b (fst p) (snd p)) l) as Hp.
  { unfold l. clear -Ha. induction Ha; by constructor. }
  rewrite Forall_forall in Hp.
  pose (less' := fun p q : Z * (string * string) => string_less (fst (snd p)) (fst (snd q))).
  rewrite Ht, Hk. rewrite (sorted_map fst less' less), (sorted_map snd less').
  - unfold has_all. rewrite Forall2_fmap. apply Forall_Forall2_diag, Forall_forall. intros p Hin.
    apply Hp. by rewrite <- (sorted_perm less' l).
  - done.
  - intros p q Hi Hj. specialize (Hl (fst p) (fst q)). rewrite (pair_less b _ _ (snd p) (snd q)) in Hl by auto.
    rewrite Ht in Hl. specialize (Hl ltac:(by apply list_elem_of_fmap_2) ltac:(by apply list_elem_of_fmap_2)).
    unfold less'. congruence.
Qed.

Lemma sorted_tables_creates ts kvs b :
  opened b = None -> has_all has_pair b ts kvs ->
  exists o b', CreateVectorOfTables KeyVal.KeyCompareLessThan ts b = Some (o, b') /\ grows_to b b' /\
    has_vector has_pair b' o (sorted_by (fun a c => string_less (fst a) (fst c)) kvs).
Proof.
  intros Hb Ha. pose (less := fun x y => default false (KeyVal.KeyCompareLessThan (buffer b) x y)).
  assert (forall x y, x ∈ ts -> y ∈ ts -> KeyVal.KeyCompareLessThan (buffer b) x y = Some (less x y)) as Hl.
  { intros x y Hx Hy. unfold less.
    assert (Forall (fun t => exists kv, has_pair b t kv) ts) as Hf.
    { apply (Forall2_Forall_l (has_pair b) _ ts kvs); [done|]. apply Forall_forall. intros kv _ t Ht. eauto. }
    rewrite Forall_forall in Hf. destruct (Hf x Hx) as [kv Hkv], (Hf y Hy) as [kw Hkw].
    by rewrite (pair_less _ _ _ _ _ Hkv Hkw). }
  destruct (create_tables_law KeyVal.KeyCompareLessThan less ts b Hb Hl) as (o & b' & He & H).
  exists o, b'. split; [done|]. pose proof (laid_out_grows _ _ _ _ H) as Hg. split; [done|].
  apply laid_out_has in H as [Ho Hv]. split; [done|]. exists (sorted_by less ts). split; [done|].
  eapply has_all_grows; [apply _|apply Hg|]. by apply sorted_tables_has.
Qed.

(** ** A table and its fields *)

Definition add_all (fields : list (Z * Z)) (b : FlatBufferBuilder) : FlatBufferBuilder :=
  foldl (fun b p => AddOffset (fst p) (snd p) b) b fields.

Definition with_all (fields : list (Z * Z)) (m : gmap Z Z) : gmap Z Z :=
  foldl (fun m p => with_field (fst p) (snd p) m) m fields.

Lemma with_all_other fields m field : field ∉ fields.*1 -> with_all fields m !! field = m !! field.
Proof.
  revert m. induction fields as [|[f o] fields IH]; intros m; [done|]. simpl.
  intros [Hne Hout]%not_elem_of_cons. rewrite (IH _ Hout). by rewrite with_field_ne.
Qed.

Lemma with_all_field fields m field o :
  NoDup fields.*1 -> (field, o) ∈ fields -> m !! field = None -> with_all fields m !! field = nonnull o.
Proof.
  revert m. induction fields as [|[f o'] fields IH]; intros m Hnd; [by intros ?%elem_of_nil|].
  apply NoDup_cons in Hnd as [Hf Hnd]. simpl. intros [[= <- <-]|Hin]%elem_of_cons Hm.
  - rewrite with_all_other by done. by apply with_field_eq.
  - apply IH; [done..|]. rewrite with_field_ne; [done|]. intros ->. apply Hf. by apply (list_elem_of_fmap_2 fst _ (field, o)).
Qed.

Lemma building_all b0 b start m fields :
  NoDup fields.*1 -> (forall f, f ∈ fields.*1 -> m !! f = None) -> building b0 b start m ->
  building b0 (add_all fields b) start (with_all fields m).
Proof.
  revert b m. induction fields as [|[f o] fields IH]; intros b m Hnd Hm Hb; [done|].
  apply NoDup_cons in Hnd as [Hf Hnd]. simpl. apply IH; [done| |apply building_add; [|done] ].
  - intros f' Hin. rewrite with_field_ne; [apply Hm; by right|]. intros ->. done.
  - apply Hm. by left.
Qed.

(** The offset that a table has for a field. *)
Definition field_of (fields : list (Z * Z)) (field : Z) : option Z :=
  '(_, p) ← list_find (fun p => fst p = field) fields; nonnull (snd p).

Lemma with_all_spec fields field : NoDup fields.*1 -> with_all fields ∅ !! field = field_of fields field.
Proof.
  intros Hnd. unfold field_of. destruct (list_find _ fields) as [[i [f o]]|] eqn:E; cbn.
  - apply list_find_Some in E as (Hi & Hf & _). simpl in Hf. subst f.
    apply with_all_field; [done|by eapply list_elem_of_lookup_2|apply lookup_empty].
  - apply list_find_None in E. rewrite with_all_other; [apply lookup_empty|].
    intros (p & -> & Hp)%list_elem_of_fmap. rewrite Forall_forall in E. by apply (E p).
Qed.

(** The memory has a table with these fields and no others. *)
Definition has_table (b : FlatBufferBuilder) (o : Z) (fields : list (Z * Z)) : Prop :=
  forall field, GetPointer (buffer b) o field = field_of fields field.

Lemma table_built b fields :
  opened b = None -> NoDup fields.*1 ->
  let r := EndTable (fst (StartTable b)) (add_all fields (snd (StartTable b))) in
  laid_out b (fst r) (OTable (with_all fields ∅)) (snd r).
Proof.
  intros Hb Hnd r. apply building_end. apply building_all; [done| |by apply building_start].
  intros f _. apply lookup_empty.
Qed.

(** The table that is finished. *)
Lemma table_finished b o fields b' :
  laid_out b o (OTable (with_all fields ∅)) b' -> NoDup fields.*1 ->
  contents (Finish o b') = contents b' /\ GetFlatNode (buffer (Finish o b')) = o /\
  contents b ⊆ contents (Finish o b') /\ has_table (Finish o b') o fields.
Proof.
  intros H Hnd. destruct (finish_law o b') as [Hc Hr]. split; [done|]. split; [done|].
  split; [rewrite Hc; apply (laid_out_grows _ _ _ _ H)|].
  intros f. apply laid_out_has in H as [_ Ht]. rewrite <- Hc in Ht.
  rewrite (get_pointer_law _ _ _ _ Ht). by apply with_all_spec.
Qed.

(** The table that the generated builder finishes, with the fields in the order in which they
    were added. *)
Definition node_with (fields : list (Z * Z)) (b : FlatBufferBuilder) : FlatNodeBuilder.builder :=
  foldl (fun n p => FlatNodeBuilder.add (fst p) (snd p) n) (FlatNodeBuilder.make b) fields.

Lemma node_finished fields b :
  opened b = None -> NoDup fields.*1 ->
  exists o b', FlatNodeBuilder.Finish (node_with fields b) = (o, b') /\ contents b ⊆ contents (Finish o b') /\
    GetFlatNode (buffer (Finish o b')) = o /\ has_table (Finish o b') o fields.
Proof.
  intros Hb Hnd. pose proof (table_built b fields Hb Hnd) as H. cbv zeta in H.
  assert (FlatNodeBuilder.Finish (node_with fields b) =
    EndTable (fst (StartTable b)) (add_all fields (snd (StartTable b)))) as He.
  { unfold node_with, FlatNodeBuilder.make. destruct (StartTable b) as [start b1]. cbn [fst snd]. clear.
    revert b1. induction fields as [|p fields IH]; intros b1; [done|]. apply IH. }
  rewrite <- He in H. destruct (FlatNodeBuilder.Finish _) as [o b']. exists o, b'. split; [done|].
  by destruct (table_finished b o fields b' H Hnd) as (_ & H1 & H2 & H3).
Qed.

(** ** Reading what was built *)

Lemma read_string b o s : may_have has_string b o s -> string_at (buffer b) <$> nonnull o = s.
Proof.
  unfold nonnull. destruct s as [s|]; [|by intros ->]. intros [Ho Hs]. rewrite decide_False by done.
  simpl. f_equal. by apply string_law.
Qed.

Lemma read_vector {X Y} (has : FlatBufferBuilder -> Z -> X -> Prop) (read : Z -> Y) (f : X -> Y) b o xs :
  (forall o x, has b o x -> read o = f x) -> has_vector has b o xs ->
  (fun p => read <$> vector_at (buffer b) p) <$> nonnull o = Some (f <$> xs).
Proof.
  intros Hr (Ho & os & Hv & Ha). unfold nonnull. rewrite decide_False by done. simpl. f_equal.
  rewrite (vector_law _ _ _ Hv). clear Hv. induction Ha as [|o' x os xs Hx _ IH]; [done|].
  csimpl. by rewrite (Hr _ _ Hx), IH.
Qed.

Lemma read_pair b o kv : has_pair b o kv -> read_key_val (buffer b) o = (fst kv, Some (snd kv)).
Proof.
  intros (_ & ok & ov & Ht & [_ Hk] & [_ Hv]). unfold read_key_val, KeyVal.key, KeyVal.value.
  rewrite !(get_pointer_law _ _ _ _ Ht), lookup_insert_eq, lookup_insert_ne, lookup_singleton_eq by done. simpl.
  by rewrite (string_law _ _ _ Hk), (string_law _ _ _ Hv).
Qed.

Lemma read_strings b o xs : has_vector has_string b o xs ->
  (fun p => string_at (buffer b) <$> vector_at (buffer b) p) <$> nonnull o = Some xs.
Proof.
  intros H. rewrite (read_vector has_string _ (fun s => s) _ _ xs); [by rewrite list_fmap_id| |done].
  intros o' s [_ Hs]. by apply string_law.
Qed.

Lemma read_pairs b o l :
  has_vector has_pair b o (sorted_by (fun a c => string_less (fst a) (fst c)) l) ->
  (fun p => read_key_val (buffer b) <$> vector_at (buffer b) p) <$> nonnull o = Some (sorted_pairs l).
Proof.
  intros H. by rewrite (read_vector has_pair _ (fun kv => (fst kv, Some (snd kv))) _ _ _ (read_pair b) H).
Qed.
End build.

(** ** Verifying *)

Lemma checks_all `{FlatBufferVerifier} cs v :
  fst (checks cs v) = true -> Forall (fun c => exists v', fst (c v') = true) cs.
Proof.
  revert v. induction cs as [|c cs IH]; intros v; [constructor|]. cbn [checks].
  destruct (c v) as [ok v1] eqn:Ec. destruct ok; [|done]. intros Hr. constructor; [|by eapply IH].
  exists v. by rewrite Ec.
Qed.

(** What the two checks that look further than one field accept. *)
Class VerifierLaws `{FlatBufferVerifier} : Prop := {
  required_checked m t field v : fst (VerifyOffsetRequired m t field v) = true -> is_Some (GetPointer m t field);
  tables_checked verify m p v : fst (VerifyVectorOfTables verify m (Some p) v) = true ->
    Forall (fun t => exists v', fst (verify t v') = true) (vector_at m p)
}.

Lemma verified_key `{VerifierLaws} m t v : fst (KeyVal.Verify m t v) = true -> is_Some (KeyVal.key m t).
Proof.
  intros Hv%checks_all. rewrite Forall_forall in Hv.
  destruct (Hv (VerifyOffsetRequired m t KeyVal.VT_KEY)) as [v' H']; [do 2 constructor|]. by eapply required_checked.
Qed.

(** The labels of a node that was verified can be sorted and searched. *)
Lemma verified_labels `{VerifierLaws} m t v p :
  fst (FlatNode.Verify m t v) = true -> FlatNode.labels m t = Some p ->
  forall x y, x ∈ vector_at m p -> y ∈ vector_at m p ->
    is_Some (KeyVal.KeyCompareLessThan m x y) /\ forall val, is_Some (KeyVal.KeyCompareWithValue m x val).
Proof.
  intros Hv%checks_all Hp. rewrite Forall_forall in Hv.
  destruct (Hv (VerifyVectorOfTables (KeyVal.Verify m) m (FlatNode.labels m t))) as [v' H'];
    [do 8 constructor|]. rewrite Hp in H'. apply tables_checked in H'. rewrite Forall_forall in H'.
  assert (forall x, x ∈ vector_at m p -> is_Some (KeyVal.key m x)) as Hk.
  { intros x [v1 Hx]%H'. by eapply verified_key. }
  intros x y [k Hx]%Hk [k' Hy]%Hk. unfold KeyVal.KeyCompareLessThan, KeyVal.KeyCompareWithValue.
  rewrite Hx, Hy. cbn. eauto.
Qed.

(** ** Comparing keys *)

Fixpoint zero_free (s : string) : bool :=
  match s with EmptyString => true | String c s => bool_decide (c <> Ascii.zero) && zero_free s end.

(** [strcmp] orders strings without a zero as [operator<] does. *)
Lemma strcmp_compare a b :
  zero_free a = true -> zero_free b = true ->
  String.ltb a b = (strcmp a b <? 0) /\ (strcmp a b = 0 <-> a = b).
Proof.
  revert b. induction a as [|x a IH]; intros [|y b]; cbn [zero_free strcmp]; try done.
  - intros _ [Hy%bool_decide_eq_true _]%andb_true_iff. by rewrite decide_False.
  - intros [Hx%bool_decide_eq_true _]%andb_true_iff _. by rewrite decide_False.
  - intros [Hx%bool_decide_eq_true Ha]%andb_true_iff [Hy%bool_decide_eq_true Hb]%andb_true_iff.
    unfold String.ltb. cbn [String.compare]. case_decide as Hxy.
    + subst y. rewrite decide_False by done. destruct (IH b Ha Hb) as [Hl He]. unfold String.ltb in Hl.
      unfold Ascii.compare. rewrite N.compare_refl, Hl. split; [done|]. rewrite He. split; [by intros ->|by intros [=] ].
    + unfold Ascii.compare. assert (N_of_ascii x <> N_of_ascii y) as Hn.
      { intros E. apply Hxy. by rewrite <- (ascii_N_embedding x), <- (ascii_N_embedding y), E. }
      destruct (N.compare_spec (N_of_ascii x) (N_of_ascii y)) as [E|E|E]; [done| |].
      * rewrite (proj2 (N.ltb_lt _ _) E). split; [done|]. split; [done|by intros [=] ].
      * rewrite (proj2 (N.ltb_ge _ _)) by lia. split; [done|]. split; [done|by intros [=] ].
Qed.

(** The two comparisons agree: a table that comes before another in a sorted vector
    compares below its key. *)
Lemma key_comparisons_agree `{L : FlatBufferLibrary} `{!FlatBufferLaws L} m t u k :
  KeyVal.key m u = Some k -> zero_free (string_at m k) = true ->
  (forall k', KeyVal.key m t = Some k' -> zero_free (string_at m k') = true) ->
  KeyVal.KeyCompareLessThan m t u = (fun c => c <? 0) <$> KeyVal.KeyCompareWithValue m t (string_at m k).
Proof.
  intros Hk Hz Ht. unfold KeyVal.KeyCompareLessThan, KeyVal.KeyCompareWithValue. rewrite Hk.
  destruct (KeyVal.key m t) as [k'|]; [|done]. simpl. rewrite string_less_law.
  by rewrite (proj1 (strcmp_compare _ _ (Ht _ eq_refl) Hz)).
Qed.

(** ** Refinement of programs *)

(** The same calls, whatever the answers, and related results. *)
Inductive refines {A B} (R : A -> B -> Prop) : host_prog A -> host_prog B -> Prop :=
| refines_ret a b : R a b -> refines R (Ret a) (Ret b)
| refines_vis X (e : HostCall X) k k' : (forall x, refines R (k x) (k' x)) -> refines R (Vis e k) (Vis e k').

Lemma refines_bind {A B A' B'} (R : A -> B -> Prop) (Q : A' -> B' -> Prop) m m' f f' :
  refines R m m' -> (forall a b, R a b -> refines Q (f a) (f' b)) -> refines Q (m ≫= f) (m' ≫= f').
Proof. intros Hm Hf. induction Hm as [a b Hab|X e k k' _ IH]; [by apply Hf|]. by constructor. Qed.

Lemma refines_run {A B S} (R : A -> B -> Prop) m m' (h : handler HostCall S) s :
  refines R m m' ->
  let r := run h m s in let r' := run h m' s in
  trace r = trace r' /\ final r = final r' /\ exists a b, result r = Done a /\ result r' = Done b /\ R a b.
Proof.
  intros Hm. revert s. induction Hm as [a b Hab|X e k k' _ IH]; intros s; cbn.
  - split; [done|]. split; [done|]. by exists a, b.
  - destruct (h X e s) as [x s']. destruct (IH x s') as (Ht & Hf & Hr). cbn. by rewrite Ht.
Qed.

Section refinement.
Context `{L : FlatBufferLibrary} `{!FlatBufferLaws L} `{A : AbslStrings} `{F : Flatbuffers} `{!SortedBy L F}.
Context (key_first : bool).

Definition created {X} (has : FlatBufferBuilder -> Z -> X -> Prop) (b : FlatBufferBuilder)
    (r : Z * FlatBufferBuilder) (x : X) : Prop := grows_to b (snd r) /\ has (snd r) (fst r) x.

Definition created_all {X} (has : FlatBufferBuilder -> Z -> X -> Prop) (b : FlatBufferBuilder)
    (r : list Z * FlatBufferBuilder) (xs : list X) : Prop := grows_to b (snd r) /\ has_all has (snd r) (fst r) xs.

Lemma extract_string_refines attribute b :
  opened b = None ->
  refines (created (may_have has_string) b) (extract_string attribute b)
    (trigger (GetString (node_attribute attribute))).
Proof. intros Hb. constructor. intros x. constructor. by apply create_string_creates. Qed.

Lemma extract_pairs_refines attribute b :
  opened b = None ->
  refines (created_all has_pair b) (extract_pairs key_first attribute b) (get_pairs (node_attribute attribute)).
Proof.
  intros Hb. constructor. intros [l|]; constructor.
  - apply push_all_creates; [apply _| |done]. intros kv. apply create_pair_creates.
  - split; [by apply grows_to_refl|constructor].
Qed.

Lemma extract_list_refines attribute b :
  opened b = None ->
  refines (created_all has_string b) (extract_list attribute b) (get_list (node_attribute attribute)).
Proof.
  intros Hb. constructor. intros [l|]; constructor.
  - apply push_all_creates; [apply _| |done]. intros s. apply CreateString_creates.
  - split; [by apply grows_to_refl|constructor].
Qed.
End refinement.

(** Facts about what the builder holds hold of the builder that it grows to. *)
Ltac grow G :=
  lazymatch type of G with
  | grows_to ?b ?b' =>
      repeat match goal with
      | H : may_have has_string b _ _ |- _ => apply (has_grows b b' _ _ (proj2 G)) in H
      | H : has_string b _ _ |- _ => apply (has_grows b b' _ _ (proj2 G)) in H
      | H : has_all _ b _ _ |- _ => apply (has_all_grows _ b b' _ _ (proj2 G)) in H
      | H : has_vector _ b _ _ |- _ => apply (has_grows b b' _ _ (proj2 G)) in H
      end;
      let Hb := fresh "Hb" in pose proof (proj1 G) as Hb; clear G
  end.

Section theorems.
Context `{L : FlatBufferLibrary} `{!FlatBufferLaws L} `{A : AbslStrings} `{F : Flatbuffers} `{!SortedBy L F}.
Context (key_first : bool).

(** Follow an extraction. *)
Ltac extract_tac lem :=
  eapply refines_bind; [by apply lem|];
  intros [? ?] ? [G ?]; cbn [fst snd] in *; grow G.

(** The sorted tables, and the vectors. *)
Lemma sorted_tables_bind {X Y} (R : X -> Y -> Prop) ts kvs b (f : Z * FlatBufferBuilder -> host_prog X) m :
  opened b = None -> has_all has_pair b ts kvs ->
  (forall o b', grows_to b b' ->
     has_vector has_pair b' o (sorted_by (fun a c => string_less (fst a) (fst c)) kvs) -> refines R (f (o, b')) m) ->
  refines R (sorted_tables ts b ≫= f) m.
Proof.
  intros Hb Ha Hf. destruct (sorted_tables_creates ts kvs b Hb Ha) as (o & b' & He & G & H).
  unfold sorted_tables. rewrite He, bind_ret. by apply Hf.
Qed.

Lemma node_read fields b n :
  opened b = None -> NoDup fields.*1 ->
  (forall o b', contents b ⊆ contents b' -> has_table b' o fields -> read_node (buffer b') o = n) ->
  refines (fun m n => node_in m = n)
    (let '(data, fbb) := FlatNodeBuilder.Finish (node_with fields b) in mret (Release (Finish data fbb))) (mret n).
Proof.
  intros Hb Hnd Hr. destruct (node_finished fields b Hb Hnd) as (o & b' & -> & Hc & Ho & Ht).
  constructor. unfold node_in. rewrite release_law, Ho. by apply Hr.
Qed.

Ltac vector_tac :=
  match goal with
  | H : has_all ?has ?b ?os ?xs, Hb : opened ?b = None |- context [CreateVector ?os ?b] =>
      destruct (CreateVector_creates has os xs b Hb H) as [G ?];
      destruct (CreateVector os b) as [? ?]; cbn [fst snd] in *; grow G
  end.

(** Each field of the table is read back. *)
Ltac read_tac :=
  intros ? ? G Ht; unfold read_node, FlatNode.name, FlatNode.namespace_, FlatNode.labels, FlatNode.owner,
    FlatNode.workload_name, FlatNode.platform_metadata, FlatNode.istio_version, FlatNode.mesh_id,
    FlatNode.app_containers, FlatNode.cluster_id, FlatNode.instance_ips;
  rewrite !Ht; cbn -[nonnull]; rewrite ?sorted_by_key; f_equal;
  first [ done
        | apply read_string; by eapply has_grows
        | apply (read_string _ _ (Some _)); by eapply has_grows
        | apply read_strings; by eapply has_grows
        | apply read_pairs; by eapply has_grows ].

Lemma local_node_buffer :
  refines (fun m n => node_in m = n) (extractLocalNodeFlatBuffer key_first) Context.extractLocalNodeFlatBuffer.
Proof.
  unfold extractLocalNodeFlatBuffer, Context.extractLocalNodeFlatBuffer.
  pose proof new_closed as Hb0.
  do 7 extract_tac extract_string_refines. do 2 extract_tac extract_pairs_refines.
  do 2 extract_tac extract_list_refines.
  do 2 (eapply sorted_tables_bind; [done|done|]; intros ? ? G ?; grow G).
  do 2 vector_tac.
  match goal with |- context [
      FlatNodeBuilder.add_instance_ips ?ips (FlatNodeBuilder.add_app_containers ?ac
        (FlatNodeBuilder.add_platform_metadata ?pm (FlatNodeBuilder.add_labels ?la
        (FlatNodeBuilder.add_cluster_id ?ci (FlatNodeBuilder.add_mesh_id ?mi (FlatNodeBuilder.add_istio_version ?iv
        (FlatNodeBuilder.add_workload_name ?wn (FlatNodeBuilder.add_owner ?ow (FlatNodeBuilder.add_namespace_ ?ns
        (FlatNodeBuilder.add_name ?na (FlatNodeBuilder.make ?b)))))))))))] =>
    apply (node_read [
      (FlatNode.VT_NAME, na); (FlatNode.VT_NAMESPACE_, ns); (FlatNode.VT_OWNER, ow);
      (FlatNode.VT_WORKLOAD_NAME, wn); (FlatNode.VT_ISTIO_VERSION, iv); (FlatNode.VT_MESH_ID, mi);
      (FlatNode.VT_CLUSTER_ID, ci); (FlatNode.VT_LABELS, la); (FlatNode.VT_PLATFORM_METADATA, pm);
      (FlatNode.VT_APP_CONTAINERS, ac); (FlatNode.VT_INSTANCE_IPS, ips)] b); [done|by apply (bool_decide_eq_true_1 _)|]
  end.
  read_tac.
Qed.

Lemma empty_node_buffer : node_in extractEmptyNodeFlatBuffer = Context.extractEmptyNodeFlatBuffer.
Proof.
  unfold extractEmptyNodeFlatBuffer.
  destruct (node_finished [] new_FlatBufferBuilder new_closed) as (o & b' & He & _ & Ho & Ht);
    [apply NoDup_nil_2|].
  change (FlatNodeBuilder.make new_FlatBufferBuilder) with (node_with [] new_FlatBufferBuilder). rewrite He.
  unfold node_in. rewrite release_law, Ho. unfold read_node, FlatNode.name, FlatNode.namespace_, FlatNode.labels,
    FlatNode.owner, FlatNode.workload_name, FlatNode.platform_metadata, FlatNode.istio_version, FlatNode.mesh_id,
    FlatNode.app_containers, FlatNode.cluster_id, FlatNode.instance_ips. by rewrite !Ht.
Qed.

Lemma push_label_creates name part ts kvs b :
  opened b = None -> has_all has_pair b ts kvs ->
  let r := push_label key_first name part ts b in
  grows_to b (snd r) /\
  has_all has_pair (snd r) (fst r) (kvs ++ if decide (part = EmptyString) then [] else [(name, part)]).
Proof.
  intros Hb Ha. unfold push_label. case_decide.
  { rewrite app_nil_r. by split; [apply grows_to_refl|]. }
  destruct (create_pair_creates key_first (name, part) b Hb) as [G H'].
  destruct (create_pair key_first (name, part) b) as [o b']. cbn [fst snd] in *. split; [done|].
  apply Forall2_app; [eapply has_all_grows; [apply _|apply G|done]|]. constructor; [done|constructor].
Qed.

Definition peer_found (r : bool * FlatBufferBuilder) (n : option Context.FlatNode) : Prop :=
  match n with Some n => fst r = true /\ node_in (Release (snd r)) = n | None => fst r = false end.

(** [CreateString] in the middle of a program. *)
Ltac string_tac :=
  match goal with
  | Hb : opened ?b = None |- context [CreateString ?s ?b] =>
      destruct (CreateString_creates s b Hb) as [G ?]; destruct (CreateString s b) as [? ?];
      cbn [fst snd] in *; grow G
  end.

Ltac label_tac :=
  match goal with
  | Hb : opened ?b = None, H : has_all has_pair ?b ?ts ?kvs |- context [push_label _ ?name ?part ?ts ?b] =>
      destruct (push_label_creates name part ts kvs b Hb H) as [G ?]; clear H;
      destruct (push_label key_first name part ts b) as [? ?]; cbn [fst snd] in *; grow G
  end.

Lemma peer_node_buffer metadata_type :
  refines peer_found (extractPeerMetadataFromUpstreamMetadata key_first metadata_type new_FlatBufferBuilder)
    (Context.extractPeerMetadataFromUpstreamMetadata metadata_type).
Proof.
  constructor. intros [text|]; [|by constructor]. cbn [prog_bind].
  destruct (StrSplit text _) as [|p0 [|p1 [|p2 [|p3 [|p4 ps] ] ] ] ]; try by constructor.
  pose proof new_closed as Hb. do 2 string_tac.
  assert (has_all has_pair f0 [] []) as Hnil by constructor.
  do 2 label_tac. string_tac.
  eapply sorted_tables_bind; [done|done|]. intros la b G Hla. grow G.
  rewrite decide_False by (by match goal with H : has_string _ _ p4 |- _ => apply H end).
  match goal with |- context [FlatNodeBuilder.Finish ?n] =>
    match n with
    | FlatNodeBuilder.add_labels _ (FlatNodeBuilder.add_cluster_id ?ci (FlatNodeBuilder.add_namespace_ ?ns
        (FlatNodeBuilder.add_workload_name ?wn _))) =>
        pose (fields := [(FlatNode.VT_WORKLOAD_NAME, wn); (FlatNode.VT_NAMESPACE_, ns);
                         (FlatNode.VT_CLUSTER_ID, ci); (FlatNode.VT_LABELS, la)]);
        change n with (node_with fields b)
    end
  end.
  destruct (node_finished fields b) as (o & b' & -> & G & Ho & Ht); [done|by apply (bool_decide_eq_true_1 _)|].
  constructor. split; [done|]. cbn [snd]. unfold node_in. rewrite release_law, Ho. revert G Ht.
  generalize (Finish o b'). revert o b' Ho. intros o _ _ b1. revert o b1. read_tac.
Qed.

Lemma fallback_node_buffer :
  refines (fun m n => node_in m = n) (fallback_peer_node key_first)
    (n ← Context.extractPeerMetadataFromUpstreamHostMetadata; mret (default Context.extractEmptyNodeFlatBuffer n)).
Proof.
  eapply refines_bind; [apply peer_node_buffer|]. intros [found b] [n|]; cbn.
  - intros [-> Hn]. by constructor.
  - intros ->. constructor. apply empty_node_buffer.
Qed.

(** C11: the buffers are the records.  Over every host, and whatever it answers, the code
    that builds the node of this proxy makes the calls that [Context] has, never
    dereferences a null pointer, and leaves a buffer from which the generated
    accessors read exactly the record that [Context] computes; so does the code
    that builds the node of a peer from the labels of its endpoint, or an empty one. *)
Theorem node_buffers_refine_records {S} (h : handler HostCall S) s :
  (let r := run h (extractLocalNodeFlatBuffer key_first) s in
   let r' := run h Context.extractLocalNodeFlatBuffer s in
   trace r = trace r' /\ final r = final r' /\
   exists m, result r = Done m /\ result r' = Done (node_in m)) /\
  (let r := run h (fallback_peer_node key_first) s in
   let r' := run h (n ← Context.extractPeerMetadataFromUpstreamHostMetadata;
                    mret (default Context.extractEmptyNodeFlatBuffer n)) s in
   trace r = trace r' /\ final r = final r' /\
   exists m, result r = Done m /\ result r' = Done (node_in m)) /\
  node_in extractEmptyNodeFlatBuffer = Context.extractEmptyNodeFlatBuffer.
Proof.
  split; [|split; [|apply empty_node_buffer] ].
  - destruct (refines_run _ _ _ h s local_node_buffer) as (Ht & Hf & m & n & Hm & Hn & <-). eauto.
  - destruct (refines_run _ _ _ h s fallback_node_buffer) as (Ht & Hf & m & n & Hm & Hn & <-). eauto.
Qed.

(** C17: every field has a place of its own.  In the buffer of a node that
    [CreateFlatNode] built, each of the eleven accessors gives back the offset that was passed
    for its field, or null when that was 0; and in a table that [CreateKeyVal] built, so do
    the key and the value. *)
Theorem created_fields_read_back (name namespace_ labels owner workload_name platform_metadata istio_version
    mesh_id app_containers cluster_id instance_ips key value : Z) fbb :
  opened fbb = None -> key <> 0 ->
  (let r := CreateFlatNode name namespace_ labels owner workload_name platform_metadata istio_version
              mesh_id app_containers cluster_id instance_ips fbb in
   let m := buffer (FinishFlatNodeBuffer (snd r) (fst r)) in
   let t := GetFlatNode m in
   FlatNode.name m t = nonnull name /\ FlatNode.namespace_ m t = nonnull namespace_ /\
   FlatNode.labels m t = nonnull labels /\ FlatNode.owner m t = nonnull owner /\
   FlatNode.workload_name m t = nonnull workload_name /\
   FlatNode.platform_metadata m t = nonnull platform_metadata /\
   FlatNode.istio_version m t = nonnull istio_version /\ FlatNode.mesh_id m t = nonnull mesh_id /\
   FlatNode.app_containers m t = nonnull app_containers /\ FlatNode.cluster_id m t = nonnull cluster_id /\
   FlatNode.instance_ips m t = nonnull instance_ips) /\
  (let r := CreateKeyVal key value fbb in
   KeyVal.key (buffer (snd r)) (fst r) = Some key /\ KeyVal.value (buffer (snd r)) (fst r) = nonnull value).
Proof.
  intros Hb Hk. split.
  - intros r.
    pose (fields := [(FlatNode.VT_INSTANCE_IPS, instance_ips); (FlatNode.VT_CLUSTER_ID, cluster_id);
      (FlatNode.VT_APP_CONTAINERS, app_containers); (FlatNode.VT_MESH_ID, mesh_id);
      (FlatNode.VT_ISTIO_VERSION, istio_version); (FlatNode.VT_PLATFORM_METADATA, platform_metadata);
      (FlatNode.VT_WORKLOAD_NAME, workload_name); (FlatNode.VT_OWNER, owner); (FlatNode.VT_LABELS, labels);
      (FlatNode.VT_NAMESPACE_, namespace_); (FlatNode.VT_NAME, name)]).
    destruct (node_finished fields fbb Hb) as (o & b' & He & _ & Ho & Ht); [by apply (bool_decide_eq_true_1 _)|].
    change (FlatNodeBuilder.Finish (node_with fields fbb)) with r in He. rewrite He.
    unfold FinishFlatNodeBuffer. cbn [fst snd]. cbv zeta. rewrite Ho.
    repeat split; apply Ht.
  - intros r. pose proof (CreateKeyVal_creates key value fbb Hb Hk) as [_ H]%laid_out_has. fold r in H.
    unfold KeyVal.key, KeyVal.value. rewrite !(get_pointer_law _ _ _ _ H). rewrite with_field_eq.
    + unfold nonnull at 1. rewrite decide_False by done. split; [done|].
      by rewrite with_field_ne, with_field_eq by (done || apply lookup_empty).
    + by rewrite with_field_ne, lookup_empty.
Qed.
End theorems.

(** ** A library *)

(** Offsets that are numbered as they come, and a sort by insertion. *)
Module Reference.
Record state := {
  objects : gmap Z object;
  open_table : option (gmap Z Z);
  root : Z
}.

Definition fresh_offset (b : state) : Z := fresh ({[0]} ∪ dom (objects b)).

Definition lay_out (x : object) (b : state) : Z * state :=
  (fresh_offset b, {| objects := <[fresh_offset b := x]> (objects b); open_table := None; root := root b |}).

Fixpoint insert_by {A} (less : A -> A -> bool) (x : A) (l : list A) : list A :=
  match l with
  | [] => [x]
  | y :: l => if less y x then y :: insert_by less x l else x :: y :: l
  end.

Definition sort_by {A} (less : A -> A -> bool) (l : list A) : list A := foldr (insert_by less) [] l.

Definition add_offset (field o : Z) (b : state) : state :=
  {| objects := objects b;
     open_table := (fun m => if decide (o = 0) then m else <[field := o]> m) <$> open_table b;
     root := root b |}.

Definition all_defined (less : Z -> Z -> option bool) (ts : list Z) : bool :=
  forallb (fun x => forallb (fun y => bool_decide (is_Some (less x y))) ts) ts.

Definition library : FlatBufferLibrary := {|
  FlatBufferBuilder := state;
  memory := state;
  new_FlatBufferBuilder := {| objects := ∅; open_table := None; root := 0 |};
  buffer b := b;
  Release b := b;
  CreateString s := lay_out (OString s);
  CreateVector elems := lay_out (OVector elems);
  CreateVectorOfTables less ts b :=
    if all_defined (less b) ts then Some (lay_out (OVector (sort_by (fun x y => default false (less b x y)) ts)) b)
    else None;
  StartTable b := (0, {| objects := objects b; open_table := Some ∅; root := root b |});
  AddOffset := add_offset;
  EndTable _ b := lay_out (OTable (default ∅ (open_table b))) b;
  Required _ _ b := b;
  Finish o b := {| objects := objects b; open_table := open_table b; root := o |};
  FinishSizePrefixed o b := {| objects := objects b; open_table := open_table b; root := o |};
  root_of := root;
  size_prefixed_root_of := root;
  GetPointer m t field := match objects m !! t with Some (OTable fields) => fields !! field | _ => None end;
  string_at m o := match objects m !! o with Some (OString s) => s | _ => "" end;
  vector_at m o := match objects m !! o with Some (OVector elems) => elems | _ => [] end;
  string_less := String.ltb;
  sorted_by := @sort_by
|}.

Lemma insert_by_map {X Y} (f : X -> Y) less less' x l :
  (forall y, y ∈ l -> less' (f y) (f x) = less y x) ->
  insert_by less' (f x) (f <$> l) = f <$> insert_by less x l.
Proof.
  induction l as [|y l IH]; intros Hl; [done|]. csimpl. rewrite (Hl y) by by left.
  destruct (less y x); [|done]. csimpl. rewrite IH; [done|]. intros z Hz. apply Hl. by right.
Qed.

Lemma insert_by_perm {X} (less : X -> X -> bool) x l : insert_by less x l ≡ₚ x :: l.
Proof.
  induction l as [|y l IH]; [done|]. simpl. destruct (less y x); [|done]. rewrite IH. apply Permutation_swap.
Qed.

Lemma sort_by_perm {X} (less : X -> X -> bool) l : sort_by less l ≡ₚ l.
Proof. induction l as [|x l IH]; [done|]. simpl. rewrite insert_by_perm. by rewrite IH. Qed.

Lemma sort_by_map {X Y} (f : X -> Y) less less' l :
  (forall x y, x ∈ l -> y ∈ l -> less' (f x) (f y) = less x y) ->
  sort_by less' (f <$> l) = f <$> sort_by less l.
Proof.
  induction l as [|x l IH]; intros Hl; [done|]. csimpl. rewrite IH.
  - apply insert_by_map. intros y Hy. rewrite sort_by_perm in Hy. apply Hl; [by right|by left].
  - intros y z Hy Hz. apply Hl; by right.
Qed.

Lemma sort_by_ext {X} (less less' : X -> X -> bool) l :
  (forall x y, x ∈ l -> y ∈ l -> less' x y = less x y) -> sort_by less' l = sort_by less l.
Proof.
  intros Hl. pose proof (sort_by_map (fun x => x) less less' l Hl) as H. by rewrite !list_fmap_id in H.
Qed.

Lemma fresh_offset_new b : fresh_offset b <> 0 /\ objects b !! fresh_offset b = None.
Proof.
  pose proof (is_fresh ({[0]} ∪ dom (objects b))) as Hf. fold (fresh_offset b) in Hf.
  apply not_elem_of_union in Hf as [H0 Hd]. split; [set_solver|by apply not_elem_of_dom].
Qed.

Lemma all_defined_spec less ts :
  (forall x y, x ∈ ts -> y ∈ ts -> is_Some (less x y)) -> all_defined less ts = true.
Proof.
  intros H. apply forallb_forall. intros x Hx%list_elem_of_In. apply forallb_forall. intros y Hy%list_elem_of_In.
  apply bool_decide_eq_true. by apply H.
Qed.

#[export] Instance library_laws : FlatBufferLaws library.
Proof.
  refine {|
    contents := objects : @FlatBufferBuilder library -> _;
    opened := (fun b => pair 0 <$> open_table b) : @FlatBufferBuilder library -> _
  |}.
  - done.
  - intros s b _. destruct (fresh_offset_new b). by repeat split.
  - intros elems b _. destruct (fresh_offset_new b). by repeat split.
  - intros less less' ts b _ Hl. cbn. rewrite all_defined_spec by (intros x y Hx Hy; rewrite Hl by done; eauto).
    rewrite (sort_by_ext less' (fun x y => default false (less b x y))) by (intros x y Hx Hy; by rewrite Hl).
    do 2 eexists. split; [done|]. destruct (fresh_offset_new b). by repeat split.
  - intros b _. done.
  - intros field o b start fields Ho _. cbn in *. destruct (open_table b); [|done]. simplify_eq/=. done.
  - intros b start fields Ho. cbn in *. destruct (open_table b); [|done]. simplify_eq/=.
    destruct (fresh_offset_new b). by repeat split.
  - done.
  - done.
  - done.
  - intros b t fields field Ht. cbn in *. by rewrite Ht.
  - intros b o s Ho. cbn in *. by rewrite Ho.
  - intros b o elems Ho. cbn in *. by rewrite Ho.
  - done.
  - intros X less l. apply sort_by_perm.
  - intros X Y f less less' l. apply sort_by_map.
Defined.

(** A verifier that checks what it must and counts nothing. *)
Definition strict : @FlatBufferVerifier library := {|
  verifier := unit;
  VerifyTableStart _ _ v := (true, v);
  VerifyOffset _ _ _ v := (true, v);
  VerifyOffsetRequired m t field v := (bool_decide (is_Some (GetPointer m t field)), v);
  VerifyString _ _ v := (true, v);
  VerifyVector _ _ v := (true, v);
  VerifyVectorOfTables verify m p v :=
    (match p with Some p => forallb (fun t => fst (verify t v)) (vector_at m p) | None => true end, v);
  VerifyVectorOfStrings _ _ v := (true, v);
  VerifyEndTable v := (true, v);
  VerifyBuffer verify m v := verify m (root_of m) v;
  VerifySizePrefixedBuffer verify m v := verify m (root_of m) v
|}.

#[export] Instance strict_laws : @VerifierLaws library strict.
Proof.
  split.
  - intros m t field v H. by apply bool_decide_eq_true in H.
  - intros verify m p v H. apply Forall_forall. intros t Ht. exists v. cbn in H.
    rewrite forallb_forall in H. by apply H, list_elem_of_In.
Qed.
End Reference.

(** ** Witnesses *)

Section witnesses.
#[local] Instance node_library : FlatBufferLibrary := Reference.library.
#[local] Instance node_laws : FlatBufferLaws node_library := Reference.library_laws.
#[local] Instance node_flat : Flatbuffers := {|
  CreateVectorOfSortedTables := sorted_pairs;
  LookupByKey := @LookupByKey flat_example; GetRoot := @GetRoot flat_example; FromUTF8 := @FromUTF8 flat_example
|}.
#[local] Instance node_absl : AbslStrings := absl_reference.
#[local] Instance node_sorted : SortedBy node_library node_flat.
Proof. intros l. reflexivity. Qed.

(** A proxy with a name, labels that are not sorted and two containers. *)
Definition node_host : handler HostCall unit :=
  fun X e s =>
    match e in HostCall X return X * unit with
    | GetString ["node"; "metadata"; "NAME"] => (Some "pod", s)
    | GetString ["node"; "metadata"; "APP_CONTAINERS"] => (Some "proxy,app", s)
    | GetString ["upstream_host_metadata"; _; _; _] => (Some "w;ns;svc;v1;c", s)
    | GetPairs _ => (Some [("version", "v1"); ("app", "web")], s)
    | e => (quiet_answer e, s)
    end.

Lemma node_buffers_refine_records_witness :
  exists m, result (run node_host (extractLocalNodeFlatBuffer true) tt) = Done m /\
    name (node_in m) = Some "pod" /\ labels (node_in m) = Some [("app", Some "web"); ("version", Some "v1")] /\
    app_containers (node_in m) = Some ["proxy"; "app"] /\ owner (node_in m) = None.
Proof.
  destruct (node_buffers_refine_records true node_host tt) as ((_ & _ & m & Hm & Hn) & _).
  exists m. split; [exact Hm|].
  assert (result (run node_host Context.extractLocalNodeFlatBuffer tt) =
    Done (Context.extractEmptyNodeFlatBuffer <| name := Some "pod" |>
      <| labels := Some [("app", Some "web"); ("version", Some "v1")] |>
      <| platform_metadata := Some [("app", Some "web"); ("version", Some "v1")] |>
      <| app_containers := Some ["proxy"; "app"] |> <| instance_ips := Some [] |>)) as Hc
    by (vm_compute; reflexivity).
  pose proof (f_equal (done_or Context.extractEmptyNodeFlatBuffer) (eq_trans (eq_sym Hc) Hn)) as He.
  change (done_or _ (Done (node_in m))) with (node_in m) in He. rewrite <- He. repeat split; reflexivity.
Defined.

Lemma created_fields_read_back_witness :
  let r := CreateFlatNode 0 3 0 0 7 0 0 0 0 0 9 new_FlatBufferBuilder in
  let m := buffer (FinishFlatNodeBuffer (snd r) (fst r)) in
  FlatNode.name m (GetFlatNode m) = None /\ FlatNode.workload_name m (GetFlatNode m) = Some 7.
Proof.
  destruct (created_fields_read_back 0 3 0 0 7 0 0 0 0 0 9 5 0 new_FlatBufferBuilder)
    as [(Hn & _ & _ & _ & Hw & _) _]; [reflexivity|lia|]. by split.
Defined.
End witnesses.
