(* ===== verification/Stats.v ===== *)
(** * The telemetry of Istio ([extensions/stats/plugin.{h,cc}]): reporting

    A stream collects its attributes and counters in a [RequestInfo]; when it
    ends, and on every tick while it lasts, the root context turns them into a
    vector of dimensions, resolves the metrics those name, with a cache, and
    records a value on each.  The root keeps pointers to the [RequestInfo]s of
    the streams in a queue for the ticks: here the streams are a map by id, which
    is what a pointer is.  [StatsConfig] has the configuration. *)

From stdpp Require Import base tactics numbers list strings gmap.
From Stdlib Require Import ZArith Lia.
From S2P Require Import Prelude HostApi Absl ResponseFlags Context.
Local Open Scope Z_scope.
Local Open Scope wasm_scope.

(** ** Dimensions *)

Definition STD_ISTIO_DIMENSIONS : list string := [
  "reporter"; "source_workload"; "source_workload_namespace"; "source_principal"; "source_app";
  "source_version"; "source_canonical_service"; "source_canonical_revision"; "source_cluster";
  "destination_workload"; "destination_workload_namespace"; "destination_principal";
  "destination_app"; "destination_version"; "destination_service"; "destination_service_name";
  "destination_service_namespace"; "destination_canonical_service";
  "destination_canonical_revision"; "destination_cluster"; "request_protocol"; "response_flags";
  "connection_security_policy"; "response_code"; "grpc_response_status"].

(** The positions that [DECLARE_CONSTANT] names. *)
Module Label.
Definition reporter := 0%nat.
Definition source_workload := 1%nat.
Definition source_workload_namespace := 2%nat.
Definition source_principal := 3%nat.
Definition source_app := 4%nat.
Definition source_version := 5%nat.
Definition source_canonical_service := 6%nat.
Definition source_canonical_revision := 7%nat.
Definition source_cluster := 8%nat.
Definition destination_workload := 9%nat.
Definition destination_workload_namespace := 10%nat.
Definition destination_principal := 11%nat.
Definition destination_app := 12%nat.
Definition destination_version := 13%nat.
Definition destination_service := 14%nat.
Definition destination_service_name := 15%nat.
Definition destination_service_namespace := 16%nat.
Definition destination_canonical_service := 17%nat.
Definition destination_canonical_revision := 18%nat.
Definition destination_cluster := 19%nat.
Definition request_protocol := 20%nat.
Definition response_flags := 21%nat.
Definition connection_security_policy := 22%nat.
Definition response_code := 23%nat.
Definition grpc_response_status := 24%nat.
End Label.

Definition count_standard_labels : nat := 25.
Definition count_peer_labels : nat := Label.destination_cluster + 1.
Definition count_tcp_labels : nat := Label.connection_security_policy + 1.

Definition unknown : string := "unknown".

(** A vector; the code only assigns positions below its size (see [map]). *)
Abbreviation IstioDimensions := (list string).

(** How the cache spreads the vectors over its buckets; [size_t] has 32 or 64 bits,
    and [std_hash] is [std::hash<std::string>]. *)
Definition HashIstioDimensions (bits : Z) (std_hash : string -> Z) (c : IstioDimensions) : Z :=
  let kMul := wrap bits 0x9ddfea08eb382d69 in
  foldl (fun h value => wrap bits (h + wrap bits (std_hash value * kMul))) 0 c.

(** It is a multiple of the sum of the hashes: vectors with the same values in other
    places, as are those of the two directions between two workloads, collide. *)
Lemma HashIstioDimensions_sum bits std_hash c :
  HashIstioDimensions bits std_hash c =
  wrap bits (foldr Z.add 0 (std_hash <$> c) * 0x9ddfea08eb382d69).
Proof.
  unfold HashIstioDimensions, wrap. set (k := 0x9ddfea08eb382d69).
  assert (forall h, foldl (fun h v => (h + std_hash v * (k mod 2 ^ bits) mod 2 ^ bits) mod 2 ^ bits)
                      (h mod 2 ^ bits) c =
                    (h + foldr Z.add 0 (std_hash <$> c) * k) mod 2 ^ bits) as H.
  { induction c as [|v c IH]; intros h; cbn [foldl foldr fmap list_fmap].
    - f_equal. lia.
    - rewrite Zmult_mod_idemp_r, <- Zplus_mod, IH. f_equal; lia. }
  exact (H 0).
Qed.

Lemma HashIstioDimensions_perm bits std_hash c c' :
  c ≡ₚ c' -> HashIstioDimensions bits std_hash c = HashIstioDimensions bits std_hash c'.
Proof.
  intros Hc. rewrite !HashIstioDimensions_sum. do 2 f_equal. induction Hc; csimpl; lia.
Qed.

(** ** Metrics *)

(** The value extractors, one constructor for each lambda. *)
Inductive ValueExtractor :=
| OneRequest
| RequestDuration
| RequestBytes
| ResponseBytes
| RequestMessages
| ResponseMessages
| TcpSentBytes
| TcpReceivedBytes
| TcpConnectionsOpened
| TcpConnectionsClosed
| IntExpression (token : Z).

(** [tags] are all strings. *)
Record MetricFactory := {
  factory_name : string;
  factory_type : MetricType;
  factory_extractor : ValueExtractor;
  factory_protocols : Z;
  factory_count_labels : nat;
  factory_recurrent : bool
}.

Record SimpleStat := {
  metric_id_ : Z;
  stat_recurrent : bool;
  value_fn_ : ValueExtractor;
  type_ : MetricType
}.

Record StatGen := {
  recurrent_ : bool;
  protocols_ : Z;
  indexes_ : list nat;
  extractor_ : ValueExtractor;
  metric_type : MetricType;
  metric_name : string;
  metric_tags : list string;
  field_separator : string;
  value_separator : string
}.

Definition protocol_mask (p : Protocol) : Z :=
  match p with ProtocolUnspecified => 0 | TCP => 1 | HTTP => 2 | GRPC => 4 end.

Definition matchesProtocol (g : StatGen) (p : Protocol) : bool :=
  bool_decide (Z.land (protocols_ g) (protocol_mask p) <> 0).

(** ** State *)

(** [metric_ids] of the [Metric]s is behind [ResolveFullName].  The fallback flag
    has no initialiser. *)
Record PluginRootContext := {
  local_node_info_ : FlatNode;
  istio_dimensions_ : IstioDimensions;
  expressions_ : list (Z * string);
  input_expressions_ : gmap string nat;
  int_expressions_ : list Z;
  outbound_ : bool;
  peer_metadata_id_key_ : string;
  peer_metadata_key_ : string;
  use_host_header_fallback_ : option bool;
  cache_hits_accumulator_ : Z;
  cache_hits_ : Z;
  cache_misses_ : Z;
  metrics_ : gmap IstioDimensions (list SimpleStat);
  request_queue_ : gmap Z Z;
  stats_ : list StatGen;
  initialized_ : bool
}.

#[export] Instance PluginRootContext_fields : Fields PluginRootContext := fun c => {|
  local_node_info_ := local_node_info_ c; istio_dimensions_ := istio_dimensions_ c;
  expressions_ := expressions_ c; input_expressions_ := input_expressions_ c;
  int_expressions_ := int_expressions_ c; outbound_ := outbound_ c;
  peer_metadata_id_key_ := peer_metadata_id_key_ c; peer_metadata_key_ := peer_metadata_key_ c;
  use_host_header_fallback_ := use_host_header_fallback_ c;
  cache_hits_accumulator_ := cache_hits_accumulator_ c; cache_hits_ := cache_hits_ c;
  cache_misses_ := cache_misses_ c; metrics_ := metrics_ c; request_queue_ := request_queue_ c;
  stats_ := stats_ c; initialized_ := initialized_ c
|}.

(** The constructor.  [local_node_info_] is null in the source until [configure] assigns
    it, which is before anything reads it. *)
Definition new_root (outbound : bool) : host_prog PluginRootContext :=
  hits ← trigger (ResolveMetric "metric_cache_count" ["stats_filter"; "hit"]);
  misses ← trigger (ResolveMetric "metric_cache_count" ["stats_filter"; "miss"]);
  mret {| local_node_info_ := extractEmptyNodeFlatBuffer; istio_dimensions_ := [];
          expressions_ := []; input_expressions_ := ∅; int_expressions_ := [];
          outbound_ := outbound;
          peer_metadata_id_key_ := if outbound then kUpstreamMetadataIdKey else kDownstreamMetadataIdKey;
          peer_metadata_key_ := if outbound then kUpstreamMetadataKey else kDownstreamMetadataKey;
          use_host_header_fallback_ := None; cache_hits_accumulator_ := 0; cache_hits_ := hits;
          cache_misses_ := misses; metrics_ := ∅; request_queue_ := ∅; stats_ := [];
          initialized_ := false |}.

(** ** From nodes and requests to dimensions *)

(** The positions that one branch of [map_node] assigns. *)
Record side := {
  workload : nat;
  workload_namespace : nat;
  cluster : nat;
  app : nat;
  version : nat;
  canonical_service : nat;
  canonical_revision : nat
}.

Definition source_side : side := {|
  workload := Label.source_workload; workload_namespace := Label.source_workload_namespace;
  cluster := Label.source_cluster; app := Label.source_app; version := Label.source_version;
  canonical_service := Label.source_canonical_service;
  canonical_revision := Label.source_canonical_revision
|}.

Definition destination_side : side := {|
  workload := Label.destination_workload;
  workload_namespace := Label.destination_workload_namespace;
  cluster := Label.destination_cluster; app := Label.destination_app;
  version := Label.destination_version;
  canonical_service := Label.destination_canonical_service;
  canonical_revision := Label.destination_canonical_revision
|}.

Section stats.
Context `{A : AbslStrings} `{F : Flatbuffers}.

(** [app_iter ? app_iter->value() : nullptr] *)
Definition label_value (kvs : key_vals) (key : string) : string :=
  GetFromFbStringView (default None (LookupByKey kvs key)).

Definition map_side (s : side) (instance : IstioDimensions) (node : FlatNode) : IstioDimensions :=
  let instance := <[workload s := GetFromFbStringView (workload_name node)]> instance in
  let instance := <[workload_namespace s := GetFromFbStringView (namespace_ node)]> instance in
  let instance := <[cluster s := GetFromFbStringView (cluster_id node)]> instance in
  match labels node with
  | Some kvs =>
      let instance := <[app s := label_value kvs "app"]> instance in
      let instance := <[version s := label_value kvs "version"]> instance in
      let name := default (workload_name node) (LookupByKey kvs kCanonicalServiceLabelName) in
      let instance := <[canonical_service s := GetFromFbStringView name]> instance in
      let revision :=
        match LookupByKey kvs kCanonicalServiceRevisionLabelName with
        | Some rev => GetFromFbStringView rev
        | None => kLatest
        end in
      <[canonical_revision s := revision]> instance
  | None =>
      let instance := <[app s := ""]> instance in
      let instance := <[version s := ""]> instance in
      let instance := <[canonical_service s := ""]> instance in
      <[canonical_revision s := kLatest]> instance
  end.

Definition map_node (instance : IstioDimensions) (is_source : bool) (node : FlatNode) :
    IstioDimensions :=
  if is_source then map_side source_side instance node
  else <[Label.destination_service_namespace := GetFromFbStringView (namespace_ node)]>
         (map_side destination_side instance node).

Definition map_peer (instance : IstioDimensions) (outbound : bool) (peer_node : FlatNode) :
    IstioDimensions :=
  map_node instance (negb outbound) peer_node.

(** [SET_IF_EMPTY] of each standard dimension. *)
Definition map_unknown_if_empty (instance : IstioDimensions) : IstioDimensions :=
  imap (fun i v => if decide ((i < count_standard_labels)%nat /\ v = EmptyString) then unknown else v)
    instance.

Definition map_request (instance : IstioDimensions) (request : RequestInfo) : IstioDimensions :=
  let instance := <[Label.source_principal := source_principal request]> instance in
  let instance := <[Label.destination_principal := destination_principal request]> instance in
  let instance := <[Label.destination_service := destination_service_host request]> instance in
  let instance := <[Label.destination_service_name := destination_service_name request]> instance in
  let instance := <[Label.request_protocol := ProtocolString (request_protocol request)]> instance in
  let instance := <[Label.response_code := to_string (response_code request)]> instance in
  let instance := <[Label.response_flags := response_flag request]> instance in
  <[Label.connection_security_policy :=
      AsciiStrToLower (AuthenticationPolicyString (service_auth_policy request))]> instance.

Definition map_dimensions (instance : IstioDimensions) (outbound : bool) (peer_node : FlatNode)
    (request : RequestInfo) : IstioDimensions :=
  let instance := map_peer instance outbound peer_node in
  let instance := map_request instance request in
  let instance := map_unknown_if_empty instance in
  <[Label.grpc_response_status :=
      if decide (request_protocol request = GRPC) then to_string (grpc_status request) else ""]>
    instance.

(** [map] assigns positions below 25. *)
Definition map (instance : IstioDimensions) (outbound : bool) (peer_node : FlatNode)
    (request : RequestInfo) : host_prog IstioDimensions :=
  if decide (length instance < count_standard_labels)%nat
  then UB "assignment past the end of a vector"
  else mret (map_dimensions instance outbound peer_node request).

(** ** Recording *)

(** The value, and the request whose counters it may have flushed. *)
Definition extract (e : ValueExtractor) (r : RequestInfo) : host_prog (Z * RequestInfo) :=
  match e with
  | OneRequest => mret (1, r)
  | RequestDuration =>
      match duration r with
      | Some d => mret (u64 (d ÷ 1000000), r)
      | None => UB "read of an indeterminate duration"
      end
  | RequestBytes => mret (u64 (request_size r), r)
  | ResponseBytes => mret (u64 (response_size r), r)
  | RequestMessages =>
      mret (request_message_count r -64 last_request_message_count r,
            r <| last_request_message_count := request_message_count r |>)
  | ResponseMessages =>
      mret (response_message_count r -64 last_response_message_count r,
            r <| last_response_message_count := response_message_count r |>)
  | TcpSentBytes => mret (tcp_sent_bytes r, r <| tcp_sent_bytes := 0 |>)
  | TcpReceivedBytes => mret (tcp_received_bytes r, r <| tcp_received_bytes := 0 |>)
  | TcpConnectionsOpened => mret (tcp_connections_opened r, r <| tcp_connections_opened := 0 |>)
  | TcpConnectionsClosed => mret (tcp_connections_closed r, r)
  | IntExpression token =>
      result ← trigger (EvaluateInt token); mret (u64 (default 0 result), r)
  end.

(** [SimpleStat::record] *)
Definition record (stat : SimpleStat) (r : RequestInfo) : host_prog RequestInfo :=
  '(val, r) ← extract (value_fn_ stat) r;
  if decide (type_ stat = Counter /\ val = 0) then mret r
  else _ ← trigger (RecordMetric (metric_id_ stat) val); mret r.

(** The text that [resolve] builds, the prefix being empty: [None] reads past the
    end of the dimensions. *)
Fixpoint full_name (field_separator value_separator : string) (tags : list string)
    (indexes : list nat) (instance : IstioDimensions) (name : string) : option string :=
  match tags, indexes with
  | [], _ => Some name
  | tag :: tags, i :: indexes =>
      v ← instance !! i;
      n ← full_name field_separator value_separator tags indexes instance name;
      Some (tag +:+ value_separator +:+ v +:+ field_separator +:+ n)
  | _ :: _, [] => None
  end.

Definition stat_name (g : StatGen) (instance : IstioDimensions) : option string :=
  full_name (field_separator g) (value_separator g) (metric_tags g) (indexes_ g) instance
    (metric_name g).

Definition resolve (g : StatGen) (instance : IstioDimensions) : host_prog SimpleStat :=
  match stat_name g instance with
  | None => UB "read past the end of a vector"
  | Some n =>
      metric_id ← trigger (ResolveFullName (metric_type g) n);
      mret {| metric_id_ := metric_id; stat_recurrent := recurrent_ g; value_fn_ := extractor_ g;
              type_ := metric_type g |}
  end.

(** ** [report] *)

(** The two loops over statistics. *)
Fixpoint record_all (stats : list SimpleStat) (end_stream : bool) (r : RequestInfo) :
    host_prog RequestInfo :=
  match stats with
  | [] => mret r
  | stat :: stats =>
      r ← (if end_stream || stat_recurrent stat then record stat r else mret r);
      record_all stats end_stream r
  end.

Fixpoint resolve_all (gens : list StatGen) (instance : IstioDimensions) (end_stream : bool)
    (r : RequestInfo) : host_prog (list SimpleStat * RequestInfo) :=
  match gens with
  | [] => mret ([], r)
  | g :: gens =>
      if negb (matchesProtocol g (request_protocol r)) then resolve_all gens instance end_stream r
      else
        stat ← resolve g instance;
        r ← (if end_stream || stat_recurrent stat then record stat r else mret r);
        '(stats, r) ← resolve_all gens instance end_stream r;
        mret (stat :: stats, r)
  end.

(** The values of the string expressions from position [i] on. *)
Fixpoint evaluate_expressions (expressions : list (Z * string)) (i : nat)
    (instance : IstioDimensions) : host_prog IstioDimensions :=
  match expressions with
  | [] => mret instance
  | (token, _) :: expressions =>
      value ← trigger (EvaluateString token);
      if decide (i < length instance)%nat then
        evaluate_expressions expressions (S i) (<[i := default "unknown" value]> instance)
      else UB "at past the end of a vector"
  end.

(** What is populated before the dimensions; nothing when the report must wait. *)
Definition populate (ctx : PluginRootContext) (peer : PeerNodeInfo) (end_stream : bool)
    (fallback : bool) (r : RequestInfo) : host_prog (option RequestInfo) :=
  if decide (request_protocol r = TCP) then
    if maybeWaiting peer && negb end_stream then mret None
    else r ← populateTCPRequestInfo (outbound_ ctx) r; mret (Some r)
  else if end_stream then
    r ← populateHTTPRequestInfo (outbound_ ctx) fallback r; mret (Some r)
  else
    r ← populateRequestInfo (outbound_ ctx) fallback r;
    if decide (request_protocol r = GRPC) then '(_, r) ← populateGRPCInfo r; mret (Some r)
    else mret (Some r).

Definition useHostHeaderFallback (ctx : PluginRootContext) : host_prog bool :=
  match use_host_header_fallback_ ctx with
  | Some b => mret b
  | None => UB "read of an indeterminate flag"
  end.

(** The lookup in [metrics_] and what follows. *)
Definition report_stats (r : RequestInfo) (end_stream : bool) (ctx : PluginRootContext) :
    host_prog (RequestInfo * PluginRootContext) :=
  match metrics_ ctx !! istio_dimensions_ ctx with
  | Some stats =>
      r ← record_all stats end_stream r;
      let hits := cache_hits_accumulator_ ctx + 1 in
      if decide (hits = 100) then
        _ ← trigger (IncrementMetric (cache_hits_ ctx) hits);
        mret (r, ctx <| cache_hits_accumulator_ := 0 |>)
      else mret (r, ctx <| cache_hits_accumulator_ := hits |>)
  | None =>
      '(stats, r) ← resolve_all (stats_ ctx) (istio_dimensions_ ctx) end_stream r;
      _ ← trigger (IncrementMetric (cache_misses_ ctx) 1);
      mret (r, ctx <| metrics_ := <[istio_dimensions_ ctx := stats]> (metrics_ ctx) |>)
  end.

(** [report] up to the lookup: the request as populated and the dimensions. *)
Definition prepare (r : RequestInfo) (end_stream : bool) (ctx : PluginRootContext) :
    host_prog (option (RequestInfo * IstioDimensions)) :=
  peer ← make_PeerNodeInfo (peer_metadata_id_key_ ctx) (peer_metadata_key_ ctx);
  (* Only requests of HTTP read the flag. *)
  fallback ← (if decide (request_protocol r = TCP) then mret false
              else useHostHeaderFallback ctx);
  populated ← populate ctx peer end_stream fallback r;
  match populated with
  | None => mret None
  | Some r =>
      peer_node ← get_peer peer;
      instance ← map (istio_dimensions_ ctx) (outbound_ ctx) peer_node r;
      instance ← evaluate_expressions (expressions_ ctx) count_standard_labels instance;
      mret (Some (r, instance))
  end.

Definition report (r : RequestInfo) (end_stream : bool) (ctx : PluginRootContext) :
    host_prog (RequestInfo * PluginRootContext) :=
  if negb (initialized_ ctx) then mret (r, ctx) else
  prepared ← prepare r end_stream ctx;
  match prepared with
  | None => mret (r, ctx)
  | Some (r, instance) => report_stats r end_stream (ctx <| istio_dimensions_ := instance |>)
  end.

(** ** Streams and the queue *)

(** The root and, by id, the [request_info_] of the streams there are. *)
Record world := {
  root : PluginRootContext;
  streams : gmap Z RequestInfo
}.

#[export] Instance world_fields : Fields world := fun w => {| root := root w; streams := streams w |}.

(** [*p] for a pointer to the [request_info_] of a stream. *)
Definition request_info_ (id : Z) (w : world) : host_prog RequestInfo :=
  match streams w !! id with
  | Some r => mret r
  | None => UB "dangling pointer to a RequestInfo"
  end.

Definition set_request_info (id : Z) (r : RequestInfo) (w : world) : world :=
  w <| streams := <[id := r]> (streams w) |>.

Definition addToRequestQueue (context_id request_info : Z) (ctx : PluginRootContext) :
    PluginRootContext :=
  ctx <| request_queue_ := <[context_id := request_info]> (request_queue_ ctx) |>.

Definition deleteFromRequestQueue (context_id : Z) (ctx : PluginRootContext) : PluginRootContext :=
  ctx <| request_queue_ := delete context_id (request_queue_ ctx) |>.

(** [report] on the request of a stream. *)
Definition report_stream (id : Z) (end_stream : bool) (w : world) : host_prog world :=
  r ← request_info_ id w;
  '(r, ctx) ← report r end_stream (root w);
  mret (set_request_info id r (w <| root := ctx |>)).

Definition onLog (id : Z) (w : world) : host_prog world :=
  let w := w <| root := deleteFromRequestQueue id (root w) |> in
  r ← request_info_ id w;
  let r := if decide (request_protocol r = TCP)
           then r <| tcp_connections_closed := u8 (tcp_connections_closed r + 1) |> else r in
  report_stream id true (set_request_info id r w).

Definition onRequestHeaders (id : Z) (w : world) : host_prog (FilterHeadersStatus * world) :=
  r ← request_info_ id w;
  r ← populateRequestProtocol r;
  fallback ← useHostHeaderFallback (root w);
  r ← (if (fallback : bool) then fill_string ["request"; "host"] url_host r else mret r);
  mret (Continue, set_request_info id r w).

Definition onResponseHeaders (id : Z) (w : world) : host_prog (FilterHeadersStatus * world) :=
  mret (Continue, w <| root := addToRequestQueue id id (root w) |>).

Definition onNewConnection (id : Z) (w : world) : host_prog (FilterStatus * world) :=
  r ← request_info_ id w;
  let r := r <| request_protocol := TCP |>
             <| tcp_connections_opened := u8 (tcp_connections_opened r + 1) |> in
  mret (StreamContinue,
        set_request_info id r (w <| root := addToRequestQueue id id (root w) |>)).

Definition onDownstreamData (id size : Z) (w : world) : host_prog (FilterStatus * world) :=
  r ← request_info_ id w;
  mret (StreamContinue,
        set_request_info id (r <| tcp_received_bytes := tcp_received_bytes r +64 size |>) w).

Definition onUpstreamData (id size : Z) (w : world) : host_prog (FilterStatus * world) :=
  r ← request_info_ id w;
  mret (StreamContinue,
        set_request_info id (r <| tcp_sent_bytes := tcp_sent_bytes r +64 size |>) w).

(** The loop of [onTick] over the entries of the queue.  Its test for a null
    pointer has no counterpart: every entry is the address of a stream's member. *)
Fixpoint tick_all (queue : list (Z * Z)) (w : world) : host_prog world :=
  match queue with
  | [] => mret w
  | (context_id, request_info) :: queue =>
      exists_ ← trigger (GetContext context_id);
      if negb exists_ then tick_all queue w
      else
        _ ← trigger (SetEffectiveContext context_id);
        w ← report_stream request_info false w;
        tick_all queue w
  end.
End stats.

(** The order of iteration of a [std::unordered_map], which is unspecified: some
    permutation of the entries, the same whenever the entries are. *)
Class UnorderedMap := {
  iteration {K V} `{Countable K} : gmap K V -> list (K * V);
  iteration_perm {K V} `{Countable K} (m : gmap K V) : iteration m ≡ₚ map_to_list m
}.

Section events.
Context `{A : AbslStrings} `{F : Flatbuffers} `{U : UnorderedMap}.

Definition onTick (w : world) : host_prog world :=
  tick_all (iteration (request_queue_ (root w))) w.

(** ** Histories *)

(** The events of the streams; the host creates and destroys them. *)
Inductive stats_event :=
| Create (id : Z)
| Destroy (id : Z)
| RequestHeaders (id : Z)
| ResponseHeaders (id : Z)
| NewConnection (id : Z)
| DownstreamData (id size : Z)
| UpstreamData (id size : Z)
| Log (id : Z)
| Tick.

Definition handle (ev : stats_event) (w : world) : host_prog world :=
  match ev with
  | Create id => mret (set_request_info id new_request_info w)
  | Destroy id => mret (w <| streams := delete id (streams w) |>)
  | RequestHeaders id => '(_, w) ← onRequestHeaders id w; mret w
  | ResponseHeaders id => '(_, w) ← onResponseHeaders id w; mret w
  | NewConnection id => '(_, w) ← onNewConnection id w; mret w
  | DownstreamData id size => '(_, w) ← onDownstreamData id size w; mret w
  | UpstreamData id size => '(_, w) ← onUpstreamData id size w; mret w
  | Log id => onLog id w
  | Tick => onTick w
  end.

Fixpoint handle_all (evs : list stats_event) (w : world) : host_prog world :=
  match evs with
  | [] => mret w
  | ev :: evs => w ← handle ev w; handle_all evs w
  end.
End events.

(** ** Lemmas on dimensions *)

Section dimensions.
Context `{A : AbslStrings} `{F : Flatbuffers}.

(** The dimensions that only the configuration assigns. *)
Definition local_labels (outbound : bool) : list nat :=
  if outbound then
    [Label.reporter; Label.source_workload; Label.source_workload_namespace; Label.source_app;
     Label.source_version; Label.source_canonical_service; Label.source_canonical_revision;
     Label.source_cluster]
  else
    [Label.reporter; Label.destination_workload; Label.destination_workload_namespace;
     Label.destination_app; Label.destination_version; Label.destination_service_namespace;
     Label.destination_canonical_service; Label.destination_canonical_revision;
     Label.destination_cluster].

(** The dimensions of one peer and request. *)
Definition peer_labels (outbound : bool) : list nat :=
  filter (fun i => i ∉ local_labels outbound) (seq 0 count_standard_labels).

Lemma map_side_length sd d n : length (map_side sd d n) = length d.
Proof. unfold map_side. destruct (labels n); by rewrite !length_insert. Qed.

Lemma map_peer_length d o n : length (map_peer d o n) = length d.
Proof.
  unfold map_peer, map_node. destruct o; cbn [negb]; by rewrite ?length_insert, map_side_length.
Qed.

Lemma map_request_length d r : length (map_request d r) = length d.
Proof. unfold map_request. by rewrite !length_insert. Qed.

Lemma map_dimensions_length d o n r : length (map_dimensions d o n r) = length d.
Proof.
  unfold map_dimensions, map_unknown_if_empty.
  by rewrite length_insert, length_imap, map_request_length, map_peer_length.
Qed.

(** Two vectors of one size agree at a position. *)
Definition agree (i : nat) (d d' : IstioDimensions) : Prop :=
  length d = length d' /\ (count_standard_labels <= length d)%nat /\ d !! i = d' !! i.

Definition same_size (d d' : IstioDimensions) : Prop :=
  length d = length d' /\ (count_standard_labels <= length d)%nat.

Lemma agree_insert i j v d d' :
  (j < count_standard_labels)%nat -> same_size d d' -> (i = j \/ agree i d d') ->
  agree i (<[j := v]> d) (<[j := v]> d').
Proof.
  intros Hj [Hl Hd] Hi. split; [by rewrite !length_insert|]. split; [by rewrite length_insert|].
  destruct (decide (i = j)) as [->|Hn].
  - rewrite !list_lookup_insert_eq; [done|lia..].
  - rewrite !list_lookup_insert_ne by done. destruct Hi as [?|(_ & _ & ?)]; done.
Qed.

Lemma agree_unknown i d d' :
  agree i d d' -> agree i (map_unknown_if_empty d) (map_unknown_if_empty d').
Proof.
  unfold map_unknown_if_empty. intros (Hl & Hd & Hi).
  split; [by rewrite !length_imap|]. split; [by rewrite length_imap|].
  by rewrite !list_lookup_imap, Hi.
Qed.

Lemma same_size_insert j v d d' : same_size d d' -> same_size (<[j := v]> d) (<[j := v]> d').
Proof. unfold same_size. by rewrite !length_insert. Qed.

Lemma same_size_unknown d d' :
  same_size d d' -> same_size (map_unknown_if_empty d) (map_unknown_if_empty d').
Proof. unfold same_size, map_unknown_if_empty. by rewrite !length_imap. Qed.

(** A chain of assignments. *)
Ltac agree_tac :=
  repeat (apply agree_insert; [cbv; lia|repeat apply same_size_insert; done|];
          match goal with |- _ \/ _ => first [left; reflexivity|right] end).

Definition side_labels (sd : side) : list nat :=
  [workload sd; workload_namespace sd; cluster sd; app sd; version sd; canonical_service sd;
   canonical_revision sd].

Definition request_labels : list nat :=
  [Label.source_principal; Label.destination_principal; Label.destination_service;
   Label.destination_service_name; Label.request_protocol; Label.response_code;
   Label.response_flags; Label.connection_security_policy].

Lemma map_side_agree sd d d' n i :
  sd = source_side \/ sd = destination_side -> same_size d d' ->
  (i ∈ side_labels sd \/ agree i d d') -> agree i (map_side sd d n) (map_side sd d' n).
Proof.
  intros Hsd Hs [Hi|Hi]; unfold map_side.
  - apply list_elem_of_In in Hi. destruct Hsd; subst sd;
      destruct (labels n); repeat destruct Hi as [<-|Hi]; try done; agree_tac.
  - destruct Hsd; subst sd; destruct (labels n); agree_tac; done.
Qed.

Lemma map_request_agree d d' r i :
  same_size d d' -> (i ∈ request_labels \/ agree i d d') ->
  agree i (map_request d r) (map_request d' r).
Proof.
  intros Hs [Hi|Hi]; unfold map_request; [|agree_tac; done].
  apply list_elem_of_In in Hi. repeat destruct Hi as [<-|Hi]; try done; agree_tac.
Qed.

Lemma map_peer_agree (o : bool) d d' n (i : nat) :
  same_size d d' ->
  (i ∈ side_labels (if o then destination_side else source_side) \/
   (o = true /\ i = Label.destination_service_namespace) \/ agree i d d') ->
  agree i (map_peer d o n) (map_peer d' o n).
Proof.
  intros Hs Hi. unfold map_peer, map_node. destruct o; cbn [negb].
  - apply agree_insert; [cbv; lia|unfold same_size in *; by rewrite !map_side_length|].
    destruct (decide (i = Label.destination_service_namespace)); [by left|right].
    apply map_side_agree; [by right|done|naive_solver].
  - apply map_side_agree; [by left|done|naive_solver].
Qed.

(** The dimensions of a peer and a request are all assigned. *)
Lemma peer_labels_cover (o : bool) (i : nat) :
  i ∈ peer_labels o ->
  i = Label.grpc_response_status \/ i ∈ request_labels \/
  i ∈ side_labels (if o then destination_side else source_side) \/
  (o = true /\ i = Label.destination_service_namespace).
Proof.
  intros Hi%list_elem_of_In. destruct o; vm_compute in Hi; repeat destruct Hi as [<-|Hi]; try done;
    first [by left|right; left; apply list_elem_of_In; vm_compute; tauto
          |right; right; left; apply list_elem_of_In; vm_compute; tauto|by right; right; right].
Qed.

(** What [map] leaves at a position depends on nothing that was there before,
    but for the local dimensions. *)
Lemma map_dimensions_agree d d' o n r i :
  same_size d d' -> (i ∈ peer_labels o \/ agree i d d') ->
  agree i (map_dimensions d o n r) (map_dimensions d' o n r).
Proof.
  intros Hs Hi. unfold map_dimensions.
  assert (same_size (map_peer d o n) (map_peer d' o n)) as Hp
    by (unfold same_size in *; by rewrite !map_peer_length).
  assert (same_size (map_request (map_peer d o n) r) (map_request (map_peer d' o n) r)) as Hr
    by (unfold same_size in *; by rewrite !map_request_length).
  apply agree_insert; [cbv; lia|by apply same_size_unknown|].
  destruct (decide (i = Label.grpc_response_status)); [by left|right]. apply agree_unknown.
  apply map_request_agree; [done|]. destruct (decide (i ∈ request_labels)); [by left|right].
  apply map_peer_agree; [done|]. destruct Hi as [Hi%peer_labels_cover|Hi]; naive_solver.
Qed.

Lemma map_dimensions_nonempty d o n r i :
  (count_standard_labels <= length d)%nat -> (i < Label.grpc_response_status)%nat ->
  exists v, map_dimensions d o n r !! i = Some v /\ v <> EmptyString.
Proof.
  intros Hd Hi. pose proof (map_dimensions_length d o n r) as Hl. revert Hl.
  unfold map_dimensions. set (d1 := map_request _ _). intros Hl.
  unfold map_unknown_if_empty in *. rewrite list_lookup_insert_ne by lia.
  rewrite length_insert, length_imap in Hl. rewrite list_lookup_imap.
  unfold Label.grpc_response_status, count_standard_labels in *.
  destruct (lookup_lt_is_Some_2 d1 i) as [v ->]; [lia|]. simpl. eexists. split; [done|].
  case_decide; [done|]. intros ->. naive_solver lia.
Qed.

Lemma evaluate_agree es i d d' :
  length d = (i + length es)%nat -> length d' = length d -> take i d = take i d' ->
  evaluate_expressions es i d ≡ evaluate_expressions es i d'.
Proof.
  revert i d d'. induction es as [|[token e] es IH]; intros i d d' Hd Hd' Ht; cbn [evaluate_expressions].
  - simpl in Hd. rewrite !take_ge in Ht by lia. by subst.
  - simpl in Hd. apply vis_equiv. intros v. rewrite !decide_True by lia.
    apply IH; rewrite ?length_insert; try lia.
    rewrite (take_S_r _ i (default "unknown" v)), (take_S_r _ i (default "unknown" v))
      by (rewrite list_lookup_insert_eq; [done|lia]).
    by rewrite !take_insert_ge, Ht.
Qed.
End dimensions.

(** ** Lemmas on the metric cache *)

(** [SET_IF_EMPTY] spells the empty name. *)
Definition protocol_label (p : Protocol) : string :=
  match p with ProtocolUnspecified => unknown | _ => ProtocolString p end.

Lemma protocol_label_inj p q : protocol_label p = protocol_label q -> p = q.
Proof. by destruct p, q. Qed.

(** A host that names metrics: the id of a full name is always the same, and
    looking it up changes nothing that a report reads. *)
Class NamingHost {S} (h : handler HostCall S) (id_of : MetricType -> string -> Z) : Prop :=
  resolve_answer t n s : h _ (ResolveFullName t n) s = (id_of t n, s).

Section cache.
Context `{A : AbslStrings} `{F : Flatbuffers} `{U : UnorderedMap}.
Context {S : Type} (h : handler HostCall S) (id_of : MetricType -> string -> Z) `{!NamingHost h id_of}.

(** The statistics that a report without a cache resolves. *)
Fixpoint fresh (gens : list StatGen) (p : Protocol) (d : IstioDimensions) : option (list SimpleStat) :=
  match gens with
  | [] => Some []
  | g :: gens =>
      if negb (matchesProtocol g p) then fresh gens p d
      else
        n ← stat_name g d;
        stats ← fresh gens p d;
        Some ({| metric_id_ := id_of (metric_type g) n; stat_recurrent := recurrent_ g;
                 value_fn_ := extractor_ g; type_ := metric_type g |} :: stats)
  end.

Definition label_of (d : IstioDimensions) (p : Protocol) : Prop :=
  d !! Label.request_protocol = Some (protocol_label p).

(** The cache holds what would be resolved. *)
Definition coherent (ctx : PluginRootContext) : Prop :=
  forall d stats p, metrics_ ctx !! d = Some stats -> label_of d p ->
    fresh (stats_ ctx) p d = Some stats.

Lemma record_protocol stat r :
  returns (fun r' => request_protocol r' = request_protocol r) (record stat r).
Proof.
  unfold record. apply (returns_bind (fun vr => request_protocol (snd vr) = request_protocol r)).
  - destruct (value_fn_ stat); simpl; try done. by destruct (duration r).
  - intros [v r'] Hr. case_decide; simpl; done.
Qed.

Lemma map_label d o n r :
  returns (fun d' => label_of d' (request_protocol r) /\ length d' = length d) (map d o n r).
Proof.
  unfold map. case_decide as Hd; [done|]. simpl. split; [|by rewrite map_dimensions_length].
  unfold label_of, map_dimensions, map_unknown_if_empty, map_request.
  set (d1 := map_peer d o n).
  assert (length d1 = length d) as Hl.
  { apply map_peer_length. }
  unfold count_standard_labels in *.
  rewrite list_lookup_insert_ne by done. rewrite list_lookup_imap.
  do 3 (rewrite list_lookup_insert_ne by done). rewrite list_lookup_insert_eq.
  - simpl. by destruct (request_protocol r).
  - rewrite !length_insert, Hl. unfold Label.request_protocol. lia.
Qed.

Lemma evaluate_label es i d p :
  (count_standard_labels <= i)%nat -> label_of d p ->
  returns (fun d' => label_of d' p) (evaluate_expressions es i d).
Proof.
  revert i d. induction es as [|[token e] es IH]; intros i d Hi Hd; simpl; [done|].
  intros v. case_decide; [|done]. apply IH; [lia|]. unfold label_of in *.
  rewrite list_lookup_insert_ne; [done|]. unfold Label.request_protocol, count_standard_labels in *. lia.
Qed.

Lemma prepare_label r e ctx :
  returns (fun o => forall r' d, o = Some (r', d) -> label_of d (request_protocol r')) (prepare r e ctx).
Proof.
  unfold prepare. apply (returns_bind (fun _ => True)); [by apply returns_true|]. intros peer _.
  apply (returns_bind (fun _ => True)); [by apply returns_true|]. intros fallback _.
  apply (returns_bind (fun _ => True)); [by apply returns_true|]. intros [r'|] _; [|done].
  apply (returns_bind (fun _ => True)); [by apply returns_true|]. intros node _.
  eapply returns_bind; [apply map_label|]. intros d [Hd _].
  eapply returns_bind; [by apply evaluate_label|]. intros d' Hd'. simpl.
  by intros ? ? [= <- <-].
Qed.

(** Resolving as it goes records what recording the resolved statistics does. *)
Lemma run_resolve_all gens d e r stats s :
  fresh gens (request_protocol r) d = Some stats ->
  let fused := run h (resolve_all gens d e r) s in
  let split := run h (record_all stats e r) s in
  result fused = match result split with
                 | Done r' => Done (stats, r') | Undefined why => Undefined why | NoFuel => NoFuel
                 end /\
  final fused = final split /\ observe record_of (trace fused) = observe record_of (trace split).
Proof.
  revert r stats s. induction gens as [|g gens IH]; intros r stats s; cbn [fresh resolve_all].
  { intros [= <-]. done. }
  destruct (matchesProtocol g (request_protocol r)); cbn [negb]; [|apply IH].
  destruct (stat_name g d) as [n|] eqn:En; cbn [mbind option_bind]; [|done].
  destruct (fresh gens (request_protocol r) d) as [stats'|] eqn:Ef; cbn [mbind option_bind]; [|done].
  intros [= <-]. unfold resolve. rewrite En. cbn [record_all].
  set (stat := {| metric_id_ := _ |}).
  cbn -[record resolve_all record_all omap]. rewrite (resolve_answer (h := h)).
  cbn -[record resolve_all record_all omap run]. fold stat. change (recurrent_ g) with (stat_recurrent stat).
  set (m := if e || stat_recurrent stat then record stat r else mret r).
  assert (returns (fun r' => request_protocol r' = request_protocol r) m) as Hm.
  { unfold m. destruct (e || _); [apply record_protocol|done]. }
  rewrite !run_bind. change (omap record_of (Ev ?e ?x :: ?t)) with (omap record_of t).
  destruct (result (run h m s)) as [r1| |] eqn:Em; [|done..].
  pose proof (returns_run _ _ _ _ _ Hm Em) as Hr. rewrite run_bind.
  rewrite <- Hr in Ef. destruct (IH r1 stats' (final (run h m s)) Ef) as (H1 & H2 & H3).
  rewrite H1. destruct (result (run h (record_all stats' e r1) (final (run h m s)))) eqn:Er;
    cbn -[omap]; rewrite ?Er, ?H2, ?app_nil_r, ?omap_app, ?H3; done.
Qed.

(** Without statistics to record, resolving reads out of range. *)
Lemma resolve_all_undefined gens d e r s :
  fresh gens (request_protocol r) d = None ->
  forall a, result (run h (resolve_all gens d e r) s) <> Done a.
Proof.
  revert r s. induction gens as [|g gens IH]; intros r s; cbn [fresh resolve_all]; [done|].
  destruct (matchesProtocol g (request_protocol r)); cbn [negb]; [|apply IH].
  unfold resolve. destruct (stat_name g d) as [n|]; [|done].
  destruct (fresh gens (request_protocol r) d) eqn:Ef; [done|]. intros _ a.
  cbn -[record resolve_all omap run]. cbn -[record resolve_all omap]. rewrite (resolve_answer (h := h)).
  cbn -[record resolve_all omap run]. set (stat := {| metric_id_ := _ |}).
  change (recurrent_ g) with (stat_recurrent stat).
  set (m := if e || stat_recurrent stat then record stat r else mret r).
  assert (returns (fun r' => request_protocol r' = request_protocol r) m) as Hm.
  { unfold m. destruct (e || _); [apply record_protocol|done]. }
  rewrite run_bind. destruct (result (run h m s)) as [r1| |] eqn:Em; [|done..].
  pose proof (returns_run _ _ _ _ _ Hm Em) as Hr. rewrite run_bind. cbn beta in Hr. rewrite <- Hr in Ef.
  pose proof (IH r1 (final (run h m s)) Ef) as IH1.
  destruct (result (run h (resolve_all gens d e r1) _)) as [[]| |]; naive_solver.
Qed.

(** One report, by its dimensions. *)
Lemma run_report_stats r e ctx s :
  coherent ctx -> label_of (istio_dimensions_ ctx) (request_protocol r) ->
  let run_ := run h (report_stats r e ctx) s in
  match fresh (stats_ ctx) (request_protocol r) (istio_dimensions_ ctx) with
  | None => forall a, result run_ <> Done a
  | Some stats =>
      let split := run h (record_all stats e r) s in
      observe record_of (trace run_) = observe record_of (trace split) /\
      match result split with
      | Done r' => exists ctx', result run_ = Done (r', ctx') /\ coherent ctx' /\ stats_ ctx' = stats_ ctx
      | Undefined why => result run_ = Undefined why
      | NoFuel => result run_ = NoFuel
      end
  end.
Proof.
  intros Hc Hl. unfold report_stats. destruct (metrics_ ctx !! istio_dimensions_ ctx) as [stats|] eqn:Em.
  - rewrite (Hc _ _ _ Em Hl). cbn zeta. rewrite run_bind.
    destruct (result (run h (record_all stats e r) s)) as [r'| |]; [|done..].
    set (hits := _ + 1). case_decide; cbn -[omap].
    + destruct (h _ _ _). cbn -[omap]. rewrite omap_app, app_nil_r. split; [done|]. eauto.
    + rewrite app_nil_r. split; [done|]. eauto.
  - destruct (fresh _ _ _) as [stats|] eqn:Ef.
    + destruct (run_resolve_all _ _ e r stats s Ef) as (H1 & H2 & H3). cbn zeta. rewrite run_bind, H1.
      destruct (result (run h (record_all stats e r) s)) as [r'| |]; [|done..]. rewrite H2.
      cbn -[omap]. destruct (h _ _ _). cbn -[omap]. rewrite omap_app, app_nil_r, H3. split; [done|].
      eexists. split; [reflexivity|]. split; [|done]. intros d stats' p. cbn. rewrite lookup_insert_Some.
      intros [[<- <-]|[Hne Hm]] Hp; [|by eapply Hc].
      assert (protocol_label p = protocol_label (request_protocol r)) as ->%protocol_label_inj; [|done].
      unfold label_of in *. congruence.
    + intros a. rewrite run_bind. pose proof (resolve_all_undefined _ _ e r s Ef) as Hu.
      destruct (result (run h (resolve_all _ _ _ _) s)) as [[]| |]; naive_solver.
Qed.

Lemma coherent_dims ctx d : coherent ctx -> coherent (ctx <| istio_dimensions_ := d |>).
Proof. done. Qed.

Lemma coherent_empty ctx : metrics_ ctx = ∅ -> coherent ctx.
Proof. intros He d stats p. by rewrite He. Qed.

Lemma report_coherent r e ctx :
  coherent ctx ->
  runs h (fun p => coherent (snd p) /\ stats_ (snd p) = stats_ ctx) (report r e ctx).
Proof.
  intros Hc. unfold report. destruct (initialized_ ctx); cbn [negb]; [|by apply runs_ret].
  eapply runs_bind; [apply returns_runs, prepare_label|]. intros [[r' d]|] Hl; [|by apply runs_ret].
  intros s [r'' ctx'] Hr.
  specialize (Hl _ _ eq_refl). set (ctx1 := ctx <| istio_dimensions_ := d |>) in *.
  pose proof (run_report_stats r' e ctx1 s Hc Hl) as H. cbv zeta in H. rewrite Hr in H. destruct (fresh _ _ _) as [stats|]; [|naive_solver].
  destruct H as [_ H]. destruct (result (run h (record_all stats e r') s)); naive_solver.
Qed.

(** The invariant of a history: the root changes only by reports and the queue. *)
Lemma report_stream_coherent id e w :
  coherent (root w) ->
  runs h (fun w' => coherent (root w') /\ stats_ (root w') = stats_ (root w)) (report_stream id e w).
Proof.
  intros Hc. unfold report_stream. eapply (runs_bind _ (fun _ => True)); [done|]. intros r _.
  eapply runs_bind; [by apply report_coherent|]. intros [r' ctx] Hr. by apply runs_ret.
Qed.

Lemma tick_all_coherent queue w :
  coherent (root w) ->
  runs h (fun w' => coherent (root w') /\ stats_ (root w') = stats_ (root w)) (tick_all queue w).
Proof.
  revert w. induction queue as [|[id p] queue IH]; intros w Hc; cbn [tick_all]; [by apply runs_ret|].
  eapply (runs_bind _ (fun _ => True)); [done|]. intros [] _; cbn [negb]; [|by apply IH].
  eapply (runs_bind _ (fun _ => True)); [done|]. intros _ _.
  eapply runs_bind; [by apply report_stream_coherent|]. intros w' [Hc' Hs].
  rewrite <- Hs. by apply IH.
Qed.

(** The events that do not report. *)
Definition quiet_event (ev : stats_event) : bool :=
  match ev with Log _ | Tick => false | _ => true end.

Lemma handle_quiet ev w :
  quiet_event ev ->
  returns (fun w' => exists q, root w' = (root w) <| request_queue_ := q |>) (handle ev w).
Proof.
  assert (exists q, root w = (root w) <| request_queue_ := q |>) as Hw.
  { exists (request_queue_ (root w)). by destruct (root w). }
  intros Hq. destruct ev; try done; cbn [handle]; try by (simpl; eauto).
  2-4: unfold onNewConnection, onDownstreamData, onUpstreamData, request_info_;
    destruct (streams w !! id); simpl; eauto.
  eapply (returns_bind (fun p => exists q, root (snd p) = (root w) <| request_queue_ := q |>));
    [|by intros [st w']].
  unfold onRequestHeaders. do 4 (apply (returns_bind (fun _ => True)); [apply returns_true|]; intros ? _).
  simpl. eauto.
Qed.

Lemma handle_coherent ev w :
  coherent (root w) ->
  runs h (fun w' => coherent (root w') /\ stats_ (root w') = stats_ (root w)) (handle ev w).
Proof.
  intros Hc. destruct (quiet_event ev) eqn:Hq.
  - apply returns_runs. eapply returns_mono; [|apply handle_quiet; by rewrite Hq]. by intros w' [q ->].
  - destruct ev; try done; simpl; [|by apply tick_all_coherent].
    unfold onLog. eapply (runs_bind _ (fun _ => True)); [done|]. intros r _.
    match goal with |- runs _ _ (report_stream _ _ ?w0) => by apply (report_stream_coherent id true w0) end.
Qed.

Lemma handle_all_coherent evs w :
  coherent (root w) ->
  runs h (fun w' => coherent (root w') /\ stats_ (root w') = stats_ (root w)) (handle_all evs w).
Proof.
  revert w. induction evs as [|ev evs IH]; intros w Hc; simpl; [by apply runs_ret|].
  eapply runs_bind; [by apply handle_coherent|]. intros w' [Hc' <-]. by apply IH.
Qed.
End cache.

(** ** Theorems *)

(** C25: the dimensions of a report are those of its own peer and request.  The vector
    is shared by all reports, but whatever a report finds in it, as long as the
    local dimensions are those that the configuration assigned, what it
    computes is the same; and no standard dimension but the gRPC status is
    empty. *)
Theorem dimensions_not_leaked `{A : AbslStrings} `{F : Flatbuffers} es d d' outbound peer r :
  length d = (count_standard_labels + length es)%nat -> length d' = length d ->
  (forall i, i ∈ local_labels outbound -> d !! i = d' !! i) ->
  (instance ← map d outbound peer r; evaluate_expressions es count_standard_labels instance) ≡
  (instance ← map d' outbound peer r; evaluate_expressions es count_standard_labels instance) /\
  Forall (fun v => v <> EmptyString)
    (take Label.grpc_response_status (map_dimensions d outbound peer r)).
Proof.
  intros Hd Hd' Hlocal. split.
  - unfold map. rewrite !decide_False by lia. rewrite !bind_ret.
    apply evaluate_agree; rewrite ?map_dimensions_length; [done..|].
    apply list_eq_same_length with (n := count_standard_labels).
    1, 2: rewrite length_take, map_dimensions_length; lia.
    intros i x y Hi. rewrite !lookup_take_lt by done.
    assert (agree i (map_dimensions d outbound peer r) (map_dimensions d' outbound peer r))
      as (_ & _ & ->); [|congruence].
    apply map_dimensions_agree; [split; lia|].
    destruct (decide (i ∈ local_labels outbound)) as [Hl|Hl].
    + right. split; [done|]. split; [lia|auto].
    + left. apply list_elem_of_filter. split; [done|]. apply elem_of_seq. lia.
  - apply Forall_lookup. intros i v Hi. apply lookup_take_Some in Hi as [Hi Hlt].
    destruct (map_dimensions_nonempty d outbound peer r i) as (w & Hw & Hne); [lia|done|]. congruence.
Qed.

Section cache_theorems.
Context `{A : AbslStrings} `{F : Flatbuffers} `{U : UnorderedMap}.
Context {S : Type} (h : handler HostCall S) (id_of : MetricType -> string -> Z) `{!NamingHost h id_of}.

Lemma prepare_cache r e ctx m : prepare r e (ctx <| metrics_ := m |>) = prepare r e ctx.
Proof. reflexivity. Qed.

(** Two caches that both hold what would be resolved serve a report alike. *)
Lemma report_stats_transparent r e ctx1 ctx2 s :
  coherent id_of ctx1 -> coherent id_of ctx2 ->
  stats_ ctx1 = stats_ ctx2 -> istio_dimensions_ ctx1 = istio_dimensions_ ctx2 ->
  label_of (istio_dimensions_ ctx1) (request_protocol r) ->
  let run1 := run h (report_stats r e ctx1) s in
  let run2 := run h (report_stats r e ctx2) s in
  observe record_of (trace run1) = observe record_of (trace run2) /\
  forall r', (exists c, result run1 = Done (r', c)) <-> (exists c, result run2 = Done (r', c)).
Proof.
  intros H1 H2 Hs Hd Hl.
  pose proof (run_report_stats h id_of r e ctx1 s H1 Hl) as R1.
  rewrite Hd in Hl. pose proof (run_report_stats h id_of r e ctx2 s H2 Hl) as R2.
  rewrite Hs, Hd in R1. cbv zeta in *.
  destruct (fresh id_of (stats_ ctx2) (request_protocol r) (istio_dimensions_ ctx2)) as [stats|] eqn:Ef.
  - destruct R1 as [-> R1], R2 as [-> R2]. split; [done|]. intros r'.
    destruct (result (run h (record_all stats e r) s)); [|rewrite R1, R2; split; by intros [? ?]..].
    destruct R1 as (c1 & -> & _), R2 as (c2 & -> & _). split; intros [c [= ->]]; eauto.
  - split; [|intros r'; split; intros [c Hc]; [destruct (R1 _ Hc)|destruct (R2 _ Hc)]].
    assert (forall ctx, coherent id_of ctx -> stats_ ctx = stats_ ctx2 ->
      istio_dimensions_ ctx = istio_dimensions_ ctx2 ->
      trace (run h (report_stats r e ctx) s) =
      trace (run h (resolve_all (stats_ ctx2) (istio_dimensions_ ctx2) e r) s)) as Ht.
    { intros ctx Hc Hs' Hd'. unfold report_stats. rewrite Hd', Hs'.
      destruct (metrics_ ctx !! _) eqn:Em.
      { rewrite <- Hd' in Em. apply (Hc _ _ (request_protocol r)) in Em; [|by rewrite Hd'].
        rewrite Hs', Hd' in Em. congruence. }
      rewrite run_bind.
      destruct (result (run h (resolve_all _ _ _ _) s)) as [a| |] eqn:Er; [|done..].
      by destruct (resolve_all_undefined h id_of _ _ e r s Ef a). }
    by rewrite (Ht ctx1), (Ht ctx2).
Qed.

(** C7: the metric cache is transparent while the plugin is not configured again.  After
    any history of what happens to streams that started with an empty cache, with requests,
    logs and ticks in any order but no configuration, and over a host that always gives a
    name the same id, a report records the same values on the same metrics,
    and leaves the request the same, as it would with an empty cache. *)
Theorem metric_cache_transparent evs w s w' r e s' :
  metrics_ (root w) = ∅ -> result (run h (handle_all evs w) s) = Done w' ->
  let cached := run h (report r e (root w')) s' in
  let uncached := run h (report r e ((root w') <| metrics_ := ∅ |>)) s' in
  observe record_of (trace cached) = observe record_of (trace uncached) /\
  forall r', (exists c, result cached = Done (r', c)) <-> (exists c, result uncached = Done (r', c)).
Proof.
  intros He Hr.
  destruct (handle_all_coherent h id_of evs w (coherent_empty id_of _ He) _ _ Hr) as [Hc _].
  unfold report. cbn zeta. rewrite prepare_cache.
  change (initialized_ ((root w') <| metrics_ := ∅ |>)) with (initialized_ (root w')).
  destruct (initialized_ (root w')); cbn [negb];
    [|split; [done|]; intros r'; simpl; split; intros [c [= ->]]; eauto].
  rewrite !run_bind. destruct (result (run h (prepare r e (root w')) s')) as [[[r1 d]|]| |] eqn:Ep.
  - pose proof (returns_run _ _ _ _ _ (prepare_label r e (root w')) Ep _ _ eq_refl) as Hl.
    set (s1 := final _). set (ctx1 := (root w') <| istio_dimensions_ := d |>).
    set (ctx2 := (root w') <| metrics_ := ∅ |> <| istio_dimensions_ := d |>).
    assert (coherent id_of ctx2) as Hc2 by by apply coherent_empty.
    destruct (report_stats_transparent r1 e ctx1 ctx2 s1 Hc Hc2 eq_refl eq_refl Hl) as [H1 H2].
    cbn [result trace]. rewrite !omap_app, H1. split; [done|apply H2].
  - split; [done|]. intros r'. simpl. split; intros [c [= ->]]; eauto.
  - split; [done|]. intros r'. simpl. split; by intros [c ?].
  - split; [done|]. intros r'. simpl. split; by intros [c ?].
Qed.
End cache_theorems.

(** ** Witnesses *)

#[local] Existing Instance flat_example.
#[local] Instance stats_absl : AbslStrings := absl_reference.

(** The order of the model's own maps. *)
Definition map_order : UnorderedMap :=
  Build_UnorderedMap (fun K V EqK CK m => map_to_list m) (fun K V EqK CK m => reflexivity _).
#[local] Existing Instance map_order.

(** A host whose metric ids are the lengths of the names, and where the peer has no
    metadata. *)
Definition length_id (type : MetricType) (name : string) : Z := Z.of_nat (String.length name).

Definition naming_host : handler HostCall unit :=
  fun X e s =>
    match e in HostCall X return X * unit with
    | ResolveFullName t n => (length_id t n, s)
    | GetString path =>
        (if decide (path = [kUpstreamMetadataIdKey]) then Some kMetadataNotFoundValue else None, s)
    | e => (quiet_answer e, s)
    end.

#[local] Instance naming_host_names : NamingHost naming_host length_id.
Proof. intros t n s. reflexivity. Qed.

(** A client's plugin that counts the bytes sent to each destination. *)
Definition sent_bytes_gen : StatGen := {|
  recurrent_ := true; protocols_ := 1; indexes_ := [Label.destination_service];
  extractor_ := TcpSentBytes; metric_type := Counter; metric_name := "istio_tcp_sent_bytes_total";
  metric_tags := ["destination_service"]; field_separator := ";.;"; value_separator := "=.="
|}.

Definition example_root : PluginRootContext := {|
  local_node_info_ := extractEmptyNodeFlatBuffer;
  istio_dimensions_ := replicate count_standard_labels ""; expressions_ := [];
  input_expressions_ := ∅; int_expressions_ := []; outbound_ := true;
  peer_metadata_id_key_ := kUpstreamMetadataIdKey; peer_metadata_key_ := kUpstreamMetadataKey;
  use_host_header_fallback_ := Some true; cache_hits_accumulator_ := 0; cache_hits_ := 0;
  cache_misses_ := 1; metrics_ := ∅; request_queue_ := ∅; stats_ := [sent_bytes_gen];
  initialized_ := true
|}.

Definition example_world : world := {| root := example_root; streams := ∅ |}.

(** A connection that sends ten bytes, in two parts, and ends. *)
Definition connection (id : Z) : list stats_event :=
  [Create id; NewConnection id; UpstreamData id 4; Tick; UpstreamData id 6; Log id].

Lemma dimensions_not_leaked_witness :
  let d := replicate count_standard_labels "" in
  let d' := <[Label.destination_app := "left over"]> d in
  (instance ← map d true extractEmptyNodeFlatBuffer new_request_info;
   evaluate_expressions [] count_standard_labels instance) ≡
  (instance ← map d' true extractEmptyNodeFlatBuffer new_request_info;
   evaluate_expressions [] count_standard_labels instance) /\
  Forall (fun v => v <> EmptyString)
    (take Label.grpc_response_status
       (map_dimensions d true extractEmptyNodeFlatBuffer new_request_info)).
Proof.
  apply dimensions_not_leaked; [reflexivity..|].
  intros i Hi. apply list_elem_of_In in Hi. simpl in Hi.
  repeat destruct Hi as [<-|Hi]; reflexivity || done.
Defined.

Definition cached_world : world :=
  done_or example_world (result (run naming_host (handle_all (connection 1) example_world) tt)).

Lemma metric_cache_transparent_witness :
  let r := (set_field tcp_sent_bytes 7 new_request_info) <| request_protocol := TCP |> in
  let cached := run naming_host (report r true (root cached_world)) tt in
  let uncached := run naming_host (report r true ((root cached_world) <| metrics_ := ∅ |>)) tt in
  observe record_of (trace cached) = observe record_of (trace uncached) /\
  forall r', (exists c, result cached = Done (r', c)) <-> (exists c, result uncached = Done (r', c)).
Proof.
  apply (metric_cache_transparent naming_host length_id (connection 1) example_world tt).
  - reflexivity.
  - apply is_done_or. vm_compute. reflexivity.
Defined.

Example cached_world_caches : size (metrics_ (root cached_world)) = 1%nat.
Proof. vm_compute. reflexivity. Qed.
