(* ===== verification/StatsFlow.v ===== *)
(** * The telemetry of Istio: bytes and streams

    What the reports of [Stats] do to the counters of the streams: the bytes of a
    TCP stream are recorded once, on one metric, and those of a stream that has
    ended have all been recorded. *)

From stdpp Require Import base tactics numbers list strings gmap fin_maps.
From Stdlib Require Import ZArith Lia.
From S2P Require Import Prelude HostApi Absl ResponseFlags Context Stats.
Local Open Scope Z_scope.
Local Open Scope wasm_scope.

(** ** The counters of the two directions *)

Inductive direction := Sent | Received.

Definition counter (d : direction) (r : RequestInfo) : Z :=
  match d with Sent => tcp_sent_bytes r | Received => tcp_received_bytes r end.

Definition flushes (d : direction) : ValueExtractor :=
  match d with Sent => TcpSentBytes | Received => TcpReceivedBytes end.

#[export] Instance ValueExtractor_eq_dec : EqDecision ValueExtractor.
Proof. solve_decision. Defined.

(** The bytes that an event brings. *)
Definition size_of (d : direction) (ev : stats_event) : Z :=
  match d, ev with
  | Sent, UpstreamData _ size => size
  | Received, DownstreamData _ size => size
  | _, _ => 0
  end.

(** *** Populating leaves the counters alone *)

Section frame.
Context `{A : AbslStrings} `{F : Flatbuffers}.
Context (d : direction).

Definition keeps (r r' : RequestInfo) : Prop := counter d r' = counter d r.

Lemma keeps_fill {X T} (call : HostCall (option X)) (conv : X -> T) f `{!Field f} r0 r :
  keeps r0 r -> (forall v, counter d (r <| f := v |>) = counter d r) ->
  returns (keeps r0) (fill call conv f r).
Proof. intros Hr Hf. apply returns_fill; [done|]. intros v. unfold keeps. by rewrite Hf. Qed.

Lemma keeps_populate o fb r0 r :
  keeps r0 r -> returns (keeps r0) (populateRequestInfo o fb r).
Proof.
  intros Hr. destruct (is_populated r) eqn:Ep.
  - unfold populateRequestInfo. by rewrite Ep.
  - eapply returns_mono; [|by apply populate_frame]. intros r' Hp. unfold keeps in *. rewrite <- Hr.
    rewrite Hp. by destruct d.
Qed.

Lemma keeps_grpc r0 r : keeps r0 r -> returns (fun p => keeps r0 (snd p)) (populateGRPCInfo r).
Proof.
  intros Hr. unfold populateGRPCInfo, simple_atoi. simpl. intros [v|]; simpl; [|done].
  unfold keeps in *. repeat case_match; simplify_eq; simpl; rewrite <- Hr; by destruct d.
Qed.

Ltac keeps_tac :=
  repeat (eapply returns_bind;
    [first [apply keeps_fill; [eassumption|by destruct d]|by apply keeps_populate]|]; intros ? ?).

Lemma keeps_http o fb r : returns (keeps r) (populateHTTPRequestInfo o fb r).
Proof.
  unfold populateHTTPRequestInfo. apply (returns_bind (keeps r)).
  { simpl. intros [t|]; simpl; [|done]. by destruct d. }
  intros r1 H1. keeps_tac. eapply (returns_bind (keeps r)).
  { case_decide; [|done]. intros st. cbn [prog_mbind prog_bind mret prog_mret].
    eapply returns_bind; [apply keeps_grpc; unfold keeps in *; rewrite <- H3; by destruct d|].
    by intros [ok r2]. }
  intros r2 H4. apply (returns_bind (fun _ => True)); [apply returns_true|]. intros id _.
  apply (returns_bind (fun _ => True)); [apply returns_true|]. intros op _.
  assert (keeps r (r2 <| request_operation := op |>)) as H5
    by (unfold keeps in *; rewrite <- H4; by destruct d).
  revert H5. generalize (r2 <| request_operation := op |>). intros r3 H5.
  keeps_tac. apply keeps_fill; [eassumption|by destruct d].
Qed.

Lemma keeps_populate_all ctx peer e fb r :
  returns (fun o => forall r', o = Some r' -> keeps r r') (populate ctx peer e fb r).
Proof.
  unfold populate. case_decide.
  - destruct (maybeWaiting peer && negb e); [done|].
    eapply returns_bind; [|intros r' Hr; simpl; by intros ? [= <-]].
    unfold populateTCPRequestInfo. eapply returns_bind; [by apply keeps_populate|]. intros r1 H1.
    eapply returns_bind; [apply keeps_fill; [eassumption|by destruct d]|]. intros r2 H2. simpl.
    unfold keeps in *. rewrite <- H2. by destruct d.
  - destruct e.
    + eapply returns_bind; [apply keeps_http|]. intros r' Hr. simpl. by intros ? [= <-].
    + eapply returns_bind; [by apply keeps_populate|]. intros r1 H1. case_decide.
      * eapply returns_bind; [by apply keeps_grpc|]. intros [ok r2] H2. simpl in *. by intros ? [= <-].
      * simpl. by intros ? [= <-].
Qed.

Lemma keeps_prepare r e ctx :
  returns (fun o => forall r' i, o = Some (r', i) -> keeps r r') (prepare r e ctx).
Proof.
  unfold prepare. apply (returns_bind (fun _ => True)); [apply returns_true|]. intros peer _.
  apply (returns_bind (fun _ => True)); [apply returns_true|]. intros fb _.
  eapply returns_bind; [apply keeps_populate_all|]. intros [r'|] Hr; [|done].
  do 3 (apply (returns_bind (fun _ => True)); [apply returns_true|]; intros ? _).
  simpl. intros ? ? [= <- _]. by apply Hr.
Qed.
End frame.

(** ** The flow of a counter *)

Section flow.
Context `{A : AbslStrings} `{F : Flatbuffers} `{U : UnorderedMap}.
Context {S : Type} (h : handler HostCall S) (id_of : MetricType -> string -> Z) `{!NamingHost h id_of}.
(** The direction, and the ids of its metrics. *)
Context (d : direction) (counted : Z -> bool).

(** What was recorded on those metrics. *)
Fixpoint total (records : list (Z * Z)) : Z :=
  match records with
  | [] => 0
  | (id, v) :: records => (if counted id then v else 0) + total records
  end.

Definition recorded (tr : list host_event) : Z := total (observe record_of tr).

Lemma recorded_app t1 t2 : recorded (t1 ++ t2) = recorded t1 + recorded t2.
Proof.
  unfold recorded. rewrite omap_app. induction (omap record_of t1) as [|[id v] l IH]; simpl; [done|]. lia.
Qed.

Lemma recorded_none tr : observe record_of tr = [] -> recorded tr = 0.
Proof. unfold recorded. by intros ->. Qed.

(** The ids tell the direction's metrics from the others. *)
Definition stat_ok (st : SimpleStat) : Prop :=
  counted (metric_id_ st) = bool_decide (value_fn_ st = flushes d).

Definition gen_ok (g : StatGen) : Prop :=
  forall i n, stat_name g i = Some n ->
    counted (id_of (metric_type g) n) = bool_decide (extractor_ g = flushes d).

Record root_ok (ctx : PluginRootContext) : Prop := {
  cache_ok : forall i stats, metrics_ ctx !! i = Some stats -> Forall stat_ok stats;
  gens_ok : Forall gen_ok (stats_ ctx)
}.

(** A program that moves what it takes from the counter to the metrics. *)
Definition moves (r : RequestInfo) (tr : list host_event) (r' : RequestInfo) : Prop :=
  recorded tr + counter d r' = counter d r.

Lemma record_moves st r : stat_ok st -> runs_with h (moves r) (record st r).
Proof.
  unfold stat_ok. intros Hst. apply runs_with_traces. intros tr r'.
  unfold moves, recorded.
  destruct st as [id rec e ty]. unfold record. cbn [value_fn_ type_ metric_id_] in *.
  assert (forall (e : ValueExtractor) v r1 t, e <> flushes d -> counter d r1 = counter d r ->
    counted id = bool_decide (e = flushes d) ->
    traces (if decide (ty = Counter /\ v = 0) then mret r1
            else _ ← trigger (RecordMetric id v); mret r1) t (Done r') ->
    total (observe record_of t) + counter d r' = counter d r) as Hother.
  { intros e' v r1 t He Hr Hc. rewrite bool_decide_eq_false_2 in Hc by done.
    destruct (decide (ty = Counter /\ v = 0)).
    - intros [-> [= ->]]. done.
    - cbn. intros ([] & t' & -> & -> & [= ->]). cbn. by rewrite Hc. }
  assert (forall v r1 t, v = counter d r -> counter d r1 = 0 -> counted id = true ->
    traces (if decide (ty = Counter /\ v = 0) then mret r1
            else _ ← trigger (RecordMetric id v); mret r1) t (Done r') ->
    total (observe record_of t) + counter d r' = counter d r) as Hmine.
  { intros v r1 t Hv Hr Hc. destruct (decide (ty = Counter /\ v = 0)) as [Hz|Hz].
    - intros [-> [= ->]]. cbn. lia.
    - cbn. intros ([] & t' & -> & -> & [= ->]). cbn. rewrite Hc. lia. }
  destruct e; cbn [extract]; try (destruct d; cbn [flushes] in *);
    try (cbn [mret prog_mret mbind prog_mbind prog_bind]; intros Ht;
         first [by eapply Hother; [| |exact Hst|exact Ht]
               |by eapply Hmine; [| |exact Hst|exact Ht] ]).
  - destruct (duration r); [|by intros [_ ?]]. by apply (Hother RequestDuration).
  - destruct (duration r); [|by intros [_ ?]]. by apply (Hother RequestDuration).
  - cbn -[total omap]. intros (v & t & -> & Ht). by apply (Hother (IntExpression token)) in Ht.
  - cbn -[total omap]. intros (v & t & -> & Ht). by apply (Hother (IntExpression token)) in Ht.
Qed.

Lemma record_all_moves stats e r :
  Forall stat_ok stats -> runs_with h (moves r) (record_all stats e r).
Proof.
  intros Hf. revert r. induction Hf as [|st stats Hst _ IH]; intros r; cbn [record_all].
  { by apply runs_with_ret. }
  apply (runs_with_bind h (moves r)).
  - destruct (e || stat_recurrent st); [by apply record_moves|by apply runs_with_ret].
  - intros t r1 H1. eapply runs_with_mono; [|apply IH]. unfold moves in *. intros t' r2 H2.
    rewrite recorded_app. lia.
Qed.

Lemma resolve_all_moves gens i e r :
  Forall gen_ok gens ->
  runs_with h (fun tr p => Forall stat_ok (fst p) /\ moves r tr (snd p)) (resolve_all gens i e r).
Proof.
  intros Hf. revert r. induction Hf as [|g gens Hg _ IH]; intros r; cbn [resolve_all].
  { by apply runs_with_ret. }
  destruct (matchesProtocol g (request_protocol r)); cbn [negb]; [|apply IH].
  apply (runs_with_bind h (fun tr st => stat_ok st /\ recorded tr = 0)).
  { unfold resolve. destruct (stat_name g i) as [n|] eqn:En; [|by intros s a].
    intros s st. cbn -[recorded]. rewrite (resolve_answer (h := h)). cbn -[recorded]. intros [= <-].
    split; [|done]. unfold stat_ok. simpl. by eapply Hg. }
  intros t0 st [Hst Ht0]. apply (runs_with_bind h (moves r)).
  { destruct (e || stat_recurrent st); [by apply record_moves|by apply runs_with_ret]. }
  intros t1 r1 H1. eapply runs_with_bind; [apply IH|]. intros t2 [stats r2] [Hs H2].
  apply runs_with_ret. unfold moves in *. simpl in *. rewrite app_nil_r, !recorded_app.
  split; [by constructor|lia].
Qed.

(** What a report does to the root. *)
Record root_step (ctx ctx' : PluginRootContext) : Prop := {
  step_ok : root_ok ctx';
  step_stats : stats_ ctx' = stats_ ctx;
  step_queue : request_queue_ ctx' = request_queue_ ctx
}.

Lemma root_step_refl ctx : root_ok ctx -> root_step ctx ctx.
Proof. by split. Qed.

Lemma report_stats_moves r e ctx :
  root_ok ctx ->
  runs_with h (fun tr p => moves r tr (fst p) /\ root_step ctx (snd p)) (report_stats r e ctx).
Proof.
  intros [Hc Hg]. unfold report_stats. destruct (metrics_ ctx !! istio_dimensions_ ctx) as [stats|] eqn:Em.
  - eapply runs_with_bind; [apply record_all_moves; by eapply Hc|]. intros t r1 H1. cbn zeta.
    case_decide; [|apply runs_with_ret; rewrite app_nil_r; by split].
    apply (runs_with_bind h (fun tr _ => recorded tr = 0)).
    { intros s []. cbn -[recorded]. by destruct (h _ _ _). }
    intros t2 _ H2. apply runs_with_ret. unfold moves in *. rewrite app_nil_r, recorded_app, H2.
    split; [simpl; lia|by split].
  - eapply runs_with_bind; [by apply resolve_all_moves|]. intros t [stats r1] [Hs H1].
    apply (runs_with_bind h (fun tr _ => recorded tr = 0)).
    { intros s []. cbn -[recorded]. by destruct (h _ _ _). }
    intros t2 _ H2. apply runs_with_ret. unfold moves in *. rewrite app_nil_r, recorded_app, H2.
    split; [simpl in *; lia|]. split; [|done..]. split; [|done]. simpl. intros i stats'.
    rewrite lookup_insert_Some. intros [[<- <-]|[_ Hi]]; [done|by eapply Hc].
Qed.

Lemma prepare_silent r e ctx : never record_of (prepare r e ctx).
Proof.
  unfold prepare, make_PeerNodeInfo, useHostHeaderFallback, populate, populateTCPRequestInfo,
    populateHTTPRequestInfo, populateRequestProtocol, populateRequestInfo, populate_fields,
    populateDestinationService, getServiceNameFallback, populateGRPCInfo, fill, getValue,
    getValueOr, get_peer, map, deref, extractPeerMetadataFromUpstreamHostMetadata,
    extractPeerMetadataFromUpstreamMetadata.
  never_tac. generalize count_standard_labels. generalize dependent a2.
  induction (expressions_ ctx) as [|[token x] es IH]; intros a2 i; cbn [evaluate_expressions]; [done|].
  intros v. split; [done|]. case_decide; [apply IH|done].
Qed.

Lemma report_moves r e ctx :
  root_ok ctx -> runs_with h (fun tr p => moves r tr (fst p) /\ root_step ctx (snd p)) (report r e ctx).
Proof.
  intros Hok. unfold report. destruct (initialized_ ctx); cbn [negb];
    [|apply runs_with_ret; split; [done|by apply root_step_refl]].
  apply (runs_with_bind h (fun tr o => recorded tr = 0 /\
    forall r' i, o = Some (r', i) -> keeps d r r')).
  { apply runs_with_traces. intros t o Ht. split.
    - apply recorded_none. eapply never_traces; [|exact Ht]. apply prepare_silent.
    - apply (returns_traces _ _ _ _ (keeps_prepare d r e ctx) Ht). }
  intros t [[r1 i]|] [Ht Hr]; [|apply runs_with_ret; rewrite app_nil_r; split;
    [unfold moves; by rewrite Ht|by apply root_step_refl]].
  set (ctx1 := ctx <| istio_dimensions_ := i |>). assert (root_ok ctx1) as Hok1 by (by destruct Hok).
  eapply runs_with_mono; [|by apply report_stats_moves]. intros t' [r2 ctx2] [Hm Hs]. simpl in *.
  split; [|by destruct Hs]. unfold moves in *. rewrite recorded_app, Ht. specialize (Hr _ _ eq_refl).
  unfold keeps in Hr. lia.
Qed.

(** *** All the streams *)

(** The bytes that no report has recorded yet. *)
Definition pending (m : gmap Z RequestInfo) : Z := map_fold (fun _ r acc => counter d r + acc) 0 m.

Lemma pending_new m id r : m !! id = None -> pending (<[id := r]> m) = counter d r + pending m.
Proof. intros Hm. unfold pending. rewrite map_fold_insert_L; [done|intros; lia|done]. Qed.

Lemma pending_set m id r r' :
  m !! id = Some r -> pending (<[id := r']> m) = pending m - counter d r + counter d r'.
Proof.
  intros Hm. rewrite <- (insert_delete_id m id r Hm) at 2. rewrite <- (insert_delete_eq m id r').
  rewrite !pending_new by apply lookup_delete_eq. lia.
Qed.

(** A step of the whole plugin that brings [n] bytes: nothing is recorded twice
    and nothing is lost, modulo the width of the counter. *)
Record world_step (n : Z) (w : world) (tr : list host_event) (w' : world) : Prop := {
  bytes_kept : exists k, recorded tr + pending (streams w') = pending (streams w) + n + k * 2 ^ 64;
  root_kept : root_ok (root w');
  streams_kept : dom (streams w') = dom (streams w)
}.

Lemma world_step_refl w : root_ok (root w) -> world_step 0 w [] w.
Proof. intros Hw. split; [exists 0; cbn; lia|done..]. Qed.

Lemma world_step_trans n1 n2 w1 w2 w3 t1 t2 :
  world_step n1 w1 t1 w2 -> world_step n2 w2 t2 w3 -> world_step (n1 + n2) w1 (t1 ++ t2) w3.
Proof.
  intros [[k1 H1] _ D1] [[k2 H2] R D2]. split; [|done|congruence].
  exists (k1 + k2). rewrite recorded_app. lia.
Qed.

(** Changing the request of one stream, the root step being known. *)
Lemma world_step_set n w tr id r r' w' k :
  streams w !! id = Some r -> streams w' = <[id := r']> (streams w) -> root_ok (root w') ->
  recorded tr + counter d r' = counter d r + n + k * 2 ^ 64 -> world_step n w tr w'.
Proof.
  intros Hr Hw Hok Hc. split; [|done|].
  - exists k. rewrite Hw, (pending_set _ _ _ _ Hr). lia.
  - rewrite Hw. apply dom_insert_lookup_L. eauto.
Qed.

Lemma report_stream_moves id e w :
  root_ok (root w) -> runs_with h (fun tr w' => world_step 0 w tr w' /\
    request_queue_ (root w') = request_queue_ (root w)) (report_stream id e w).
Proof.
  intros Hok. unfold report_stream, request_info_. destruct (streams w !! id) as [r|] eqn:Er;
    [|by intros s a]. rewrite bind_ret.
  eapply runs_with_bind; [by apply report_moves|]. intros t [r1 ctx1] [Hm [H1 _ H3]].
  apply runs_with_ret. rewrite app_nil_r. split; [|done].
  eapply (world_step_set _ _ _ id r r1 _ 0); [done..|]. unfold moves in Hm. simpl in *. lia.
Qed.

Lemma tick_all_moves queue w :
  root_ok (root w) -> runs_with h (world_step 0 w) (tick_all queue w).
Proof.
  revert w. induction queue as [|[id p] queue IH]; intros w Hok; cbn [tick_all].
  { apply runs_with_ret. by apply world_step_refl. }
  apply (runs_with_bind h (fun t _ => t = t /\ recorded t = 0)).
  { intros s b. cbn -[recorded]. by destruct (h _ _ _). }
  intros t0 b [_ Ht0].
  assert (forall m, runs_with h (world_step 0 w) m -> runs_with h (fun t => world_step 0 w (t0 ++ t)) m) as Hskip.
  { intros m. apply runs_with_mono. intros t w' [[k Hk] H1 H2]. split; [|done..].
    exists k. rewrite recorded_app. lia. }
  destruct b; cbn [negb]; [|apply Hskip; by apply IH]. apply Hskip.
  apply (runs_with_bind h (fun t _ => recorded t = 0)).
  { intros s []. cbn -[recorded]. by destruct (h _ _ _). }
  intros t1 _ Ht1. eapply runs_with_bind; [by apply report_stream_moves|].
  intros t2 w2 [H2 _]. eapply runs_with_mono; [|apply IH; apply H2]. intros t3 w3 H3.
  pose proof (world_step_trans _ _ _ _ _ _ _ H2 H3) as [[k Hk] Hr Hd]. split; [|done..].
  exists k. rewrite !recorded_app in *. lia.
Qed.

Lemma runs_with_quiet {X} (Q : X -> Prop) (m : host_prog X) :
  never record_of m -> returns Q m -> runs_with h (fun tr a => recorded tr = 0 /\ Q a) m.
Proof.
  intros Hn HQ. apply runs_with_traces. intros t a Ht. split.
  - apply recorded_none. by eapply never_traces.
  - by eapply returns_traces.
Qed.

(** The events that neither create nor destroy a stream. *)
Definition lasting (ev : stats_event) : bool :=
  match ev with Create _ | Destroy _ => false | _ => true end.

Lemma quiet_moves ev w :
  quiet_event ev -> lasting ev -> root_ok (root w) ->
  returns (fun w' => root_ok (root w') /\
    (streams w' = streams w /\ size_of d ev = 0 \/
     exists id r r' k, streams w !! id = Some r /\ streams w' = <[id := r']> (streams w) /\
       counter d r' = counter d r + size_of d ev + k * 2 ^ 64)) (handle ev w).
Proof.
  intros Hq Hl Hok.
  assert (forall x n, exists k, u64 (x + n) = x + n + k * 2 ^ 64) as Hu.
  { intros x n. exists (- ((x + n) / 2 ^ 64)). unfold u64, wrap.
    rewrite Z.mod_eq by done. lia. }
  assert (forall q, root_ok ((root w) <| request_queue_ := q |>)) as Hokq by (destruct Hok; by split).
  destruct ev; try done; cbn [handle].
  - unfold onRequestHeaders, request_info_. destruct (streams w !! id) as [r|] eqn:Er; [|done].
    eapply (returns_bind (fun p => root_ok (root (snd p)) /\ exists r', streams (snd p) =
      <[id := r']> (streams w) /\ counter d r' = counter d r)).
    + rewrite bind_ret. eapply (returns_bind (keeps d r)).
      { simpl. intros [t|]; simpl; [by destruct d|done]. }
      intros r1 H1. apply (returns_bind (fun _ => True)); [apply returns_true|]. intros b _.
      apply (returns_bind (keeps d r)).
      { destruct b; [|done]. apply keeps_fill; [done|]. by destruct d. }
      intros r2 H2. simpl. eauto.
    + intros [st w'] (H1 & r' & H2 & H3). simpl in *. split; [done|]. right.
      exists id, r, r', 0. rewrite H3. split_and!; [done..|]. destruct d; simpl in *; lia.
  - simpl. split; [apply Hokq|]. left. split; [done|]. by destruct d.
  - unfold onNewConnection, request_info_. destruct (streams w !! id) as [r|] eqn:Er; [|done].
    simpl. split; [apply Hokq|]. right. exists id, r. eexists _, 0. split_and!; [done..|].
    destruct d; simpl; lia.
  - unfold onDownstreamData, request_info_. destruct (streams w !! id) as [r|] eqn:Er; [|done].
    simpl. split; [done|]. right. destruct (Hu (tcp_received_bytes r) size) as [k Hk].
    destruct d; [exists id, r; eexists _, 0|exists id, r; eexists _, k];
      (split_and!; [done..|]); simpl; lia.
  - unfold onUpstreamData, request_info_. destruct (streams w !! id) as [r|] eqn:Er; [|done].
    simpl. split; [done|]. right. destruct (Hu (tcp_sent_bytes r) size) as [k Hk].
    destruct d; [exists id, r; eexists _, k|exists id, r; eexists _, 0];
      (split_and!; [done..|]); simpl; lia.
Qed.

Lemma handle_silent ev w : quiet_event ev -> never record_of (handle ev w).
Proof.
  intros Hq. destruct ev; try done; cbn [handle]; unfold onRequestHeaders, onResponseHeaders,
    onNewConnection, onDownstreamData, onUpstreamData, request_info_, populateRequestProtocol,
    useHostHeaderFallback, fill, getValue, deref; never_tac.
Qed.

Lemma handle_moves ev w :
  lasting ev -> root_ok (root w) -> runs_with h (world_step (size_of d ev) w) (handle ev w).
Proof.
  intros Hl Hok. destruct (quiet_event ev) eqn:Hq.
  - eapply runs_with_mono; [|apply runs_with_quiet; [apply handle_silent; by rewrite Hq|
      apply quiet_moves; [by rewrite Hq|done..] ] ].
    intros t w' (Ht & Hr & [[Hs Hz]|(id & r & r' & k & H1 & H2 & H3)]).
    + split; [|done|by rewrite Hs]. exists 0. rewrite Ht, Hs, Hz. lia.
    + eapply (world_step_set _ _ _ id r r' _ k); [done..|]. lia.
  - destruct ev; try done; cbn [handle].
    + replace (size_of d (Log id)) with 0 by by destruct d. unfold onLog, request_info_. cbn zeta.
      set (w1 := w <| root := _ |>). change (streams w1) with (streams w).
      destruct (streams w !! id) as [r|] eqn:Er; [|by intros s a]. rewrite bind_ret.
      set (r1 := if decide (request_protocol r = TCP) then _ else r).
      assert (counter d r1 = counter d r) as Hr1 by (unfold r1; case_decide; by destruct d).
      assert (root_ok (root w1)) as Hok1 by (destruct Hok; by split).
      eapply runs_with_mono; [|by apply report_stream_moves]. intros t w' [Hs _].
      change t with ([] ++ t). change 0 with (0 + 0).
      eapply world_step_trans; [|exact Hs].
      eapply (world_step_set _ _ _ id r r1 _ 0); [done..|]. cbn. lia.
    + replace (size_of d Tick) with 0 by by destruct d. by apply tick_all_moves.
Qed.

Definition sizes (evs : list stats_event) : Z := foldr (fun ev n => size_of d ev + n) 0 evs.

Lemma handle_all_moves evs w :
  Forall lasting evs -> root_ok (root w) ->
  runs_with h (world_step (sizes evs) w) (handle_all evs w).
Proof.
  intros Hl. revert w. induction Hl as [|ev evs Hev _ IH]; intros w Hok; cbn [handle_all sizes foldr].
  { apply runs_with_ret. by apply world_step_refl. }
  eapply runs_with_bind; [by apply handle_moves|]. intros t w1 H1.
  eapply runs_with_mono; [|apply IH; apply H1]. intros t' w2 H2. by eapply world_step_trans.
Qed.
End flow.

(** ** A stream that has ended *)

Section ended.
Context `{A : AbslStrings} `{F : Flatbuffers} `{U : UnorderedMap}.
Context {S : Type} (h : handler HostCall S) (id_of : MetricType -> string -> Z) `{!NamingHost h id_of}.
Context (d : direction).

(** After the extractor, and whatever is extracted after it. *)
Lemma extract_flushed e r :
  e = flushes d \/ counter d r = 0 -> returns (fun p => counter d (snd p) = 0) (extract e r).
Proof.
  intros He. destruct e; simpl; try destruct (duration r); destruct d; simpl in *; try intros ?;
    by destruct He.
Qed.

Lemma record_flushed st r :
  value_fn_ st = flushes d \/ counter d r = 0 -> returns (fun r' => counter d r' = 0) (record st r).
Proof.
  intros Hst. unfold record. eapply returns_bind; [by apply extract_flushed|].
  intros [v r1] H1. case_decide; simpl; auto.
Qed.

Lemma record_all_flushed stats r :
  Exists (fun st => value_fn_ st = flushes d) stats \/ counter d r = 0 ->
  returns (fun r' => counter d r' = 0) (record_all stats true r).
Proof.
  revert r. induction stats as [|st stats IH]; intros r; cbn [record_all orb].
  - intros [Hn|Hr]; [by apply Exists_nil in Hn|done].
  - intros [[Hst|Hs]%Exists_cons|Hr].
    + eapply returns_bind; [apply record_flushed; by left|]. auto.
    + apply (returns_bind (fun _ => True)); [apply returns_true|]. auto.
    + eapply returns_bind; [apply record_flushed; by right|]. auto.
Qed.

Lemma fresh_has gens p i stats g :
  fresh id_of gens p i = Some stats -> g ∈ gens -> matchesProtocol g p = true ->
  Exists (fun st => value_fn_ st = extractor_ g) stats.
Proof.
  revert stats. induction gens as [|g0 gens IH]; intros stats; cbn [fresh].
  { by intros _ ?%elem_of_nil. }
  intros Hf Hg Hm. apply elem_of_cons in Hg.
  destruct (matchesProtocol g0 p) eqn:E; cbn [negb] in Hf; [|destruct Hg as [->|Hg]; [congruence|auto]].
  destruct (stat_name g0 i) as [n|]; [|done]. destruct (fresh id_of gens p i) as [l|]; [|done].
  injection Hf as <-. apply Exists_cons. destruct Hg as [->|Hg]; [by left|right; auto].
Qed.

Lemma prepare_tcp r ctx :
  request_protocol r = TCP ->
  returns (fun o => exists r' i, o = Some (r', i) /\ request_protocol r' = TCP) (prepare r true ctx).
Proof.
  intros Hr. unfold prepare. apply (returns_bind (fun _ => True)); [apply returns_true|]. intros peer _.
  apply (returns_bind (fun _ => True)); [apply returns_true|]. intros fb _.
  eapply (returns_bind (fun o => exists r', o = Some r' /\ request_protocol r' = TCP)).
  { unfold populate. rewrite decide_True, andb_false_r by done.
    eapply (returns_bind (fun r' => request_protocol r' = TCP)); [|simpl; eauto].
    unfold populateTCPRequestInfo. do 2 (apply (returns_bind (fun _ => True)); [apply returns_true|]; intros ? _).
    done. }
  intros o (r' & -> & H'). do 3 (apply (returns_bind (fun _ => True)); [apply returns_true|]; intros ? _).
  simpl. eauto.
Qed.

Lemma report_flushed r ctx g :
  coherent id_of ctx -> initialized_ ctx = true -> request_protocol r = TCP ->
  g ∈ stats_ ctx -> extractor_ g = flushes d -> matchesProtocol g TCP = true ->
  runs h (fun p => counter d (fst p) = 0) (report r true ctx).
Proof.
  intros Hc Hi Hr Hg He Hm. unfold report. rewrite Hi. cbn [negb].
  eapply (runs_bind h (fun o => exists r' i, o = Some (r', i) /\ request_protocol r' = TCP /\
    label_of i (request_protocol r'))).
  { intros s o Ho. pose proof (returns_run _ _ _ _ _ (prepare_label r true ctx) Ho) as Hl.
    destruct (returns_run _ _ _ _ _ (prepare_tcp r ctx Hr) Ho) as (r' & i & -> & H'). eauto 10. }
  intros o (r' & i & -> & H' & Hl). set (ctx1 := ctx <| istio_dimensions_ := i |>).
  intros s [r2 ctx2] H2. pose proof (run_report_stats h id_of r' true ctx1 s Hc Hl) as Hs. cbv zeta in Hs.
  rewrite H2 in Hs. destruct (fresh _ _ _ _) as [stats|] eqn:Ef; [|by destruct (Hs _ eq_refl)].
  destruct Hs as [_ Hs]. rewrite H' in Ef. apply (fresh_has _ _ _ _ _ Ef) in Hg; [|done].
  rewrite He in Hg. destruct (result (run h (record_all stats true r') s)) as [r3| |] eqn:E3; [|done..].
  destruct Hs as (c & [= <- <-] & _). simpl.
  apply (returns_run _ _ _ _ _ (record_all_flushed stats r' (or_introl Hg)) E3).
Qed.
End ended.

(** ** Theorems *)

Section flow_theorems.
Context `{A : AbslStrings} `{F : Flatbuffers} `{U : UnorderedMap}.
Context {S : Type} (h : handler HostCall S) (id_of : MetricType -> string -> Z) `{!NamingHost h id_of}.

(** C12: every byte of TCP is recorded once.  Over any history of the streams there are,
    with any reports in between, what was recorded on the metrics of a direction
    and what its counters still hold make up what they held and what arrived,
    modulo [2 ^ 64]. *)
Theorem tcp_bytes_counted (d : direction) (counted : Z -> bool) evs w s w' :
  metrics_ (root w) = ∅ -> Forall (gen_ok id_of d counted) (stats_ (root w)) ->
  Forall lasting evs -> result (run h (handle_all evs w) s) = Done w' ->
  u64 (recorded counted (trace (run h (handle_all evs w) s)) + pending d (streams w')) =
  u64 (pending d (streams w) + sizes d evs).
Proof.
  intros He Hg Hl Hr. assert (root_ok id_of d counted (root w)) as Hok.
  { split; [|done]. intros i stats. by rewrite He. }
  destruct (handle_all_moves h id_of d counted evs w Hl Hok _ _ Hr) as [[k Hk] _ _].
  rewrite Hk. unfold u64, wrap. by rewrite Z.mod_add.
Qed.

(** A TCP stream that has ended holds nothing back.  After any history, the last
    report of a stream, when the metric of a direction is configured, leaves its
    counter at zero. *)
Theorem ended_stream_flushed (d : direction) evs w s w1 id r g s' w2 :
  metrics_ (root w) = ∅ -> result (run h (handle_all evs w) s) = Done w1 ->
  streams w1 !! id = Some r -> request_protocol r = TCP -> initialized_ (root w1) = true ->
  g ∈ stats_ (root w1) -> extractor_ g = flushes d -> matchesProtocol g TCP = true ->
  result (run h (handle (Log id) w1) s') = Done w2 ->
  exists r2, streams w2 !! id = Some r2 /\ counter d r2 = 0.
Proof.
  intros He Hr Hid Hp Hi Hg Hx Hm H2.
  destruct (handle_all_coherent h id_of evs w (coherent_empty id_of _ He) _ _ Hr) as [Hc _].
  cbn [handle] in H2. unfold onLog, report_stream, request_info_ in H2. cbn zeta in H2.
  set (ctx1 := deleteFromRequestQueue id (root w1)) in H2.
  change (streams (w1 <| root := ctx1 |>)) with (streams w1) in H2. rewrite Hid, bind_ret, decide_True in H2 by done.
  set (r1 := r <| tcp_connections_closed := _ |>) in H2.
  change (streams (set_request_info id r1 (w1 <| root := ctx1 |>))) with (<[id := r1]> (streams w1)) in H2.
  rewrite lookup_insert_eq, bind_ret in H2.
  change (root (set_request_info id r1 (w1 <| root := ctx1 |>))) with ctx1 in H2.
  assert (coherent id_of ctx1) as Hc1 by exact Hc.
  pose proof (report_flushed h id_of d r1 ctx1 g Hc1 Hi Hp Hg Hx Hm) as Hf.
  match type of H2 with result (run h ?m _) = _ =>
    enough (runs h (fun w => exists r2, streams w !! id = Some r2 /\ counter d r2 = 0) m) as HQ
      by exact (HQ _ _ H2) end.
  eapply (runs_bind h); [exact Hf|]. intros [r2 ctx2] H0. apply runs_ret.
  exists r2. simpl in *. by rewrite lookup_insert_eq.
Qed.
End flow_theorems.

(** ** Witnesses *)

#[local] Existing Instance flat_example.
#[local] Instance flow_absl : AbslStrings := absl_reference.
#[local] Existing Instance map_order.
#[local] Existing Instance naming_host_names.

(** The connection exists, and goes on after the reports. *)
Definition open_world : world := set_request_info 1 new_request_info example_world.

Definition busy : list stats_event :=
  [NewConnection 1; UpstreamData 1 4; Tick; UpstreamData 1 (2 ^ 64 - 1); Tick; UpstreamData 1 3].

Definition busy_run := run naming_host (handle_all busy open_world) tt.
Definition busy_world : world := done_or open_world (result busy_run).

Lemma tcp_bytes_counted_witness :
  u64 (recorded (fun _ => true) (trace busy_run) + pending Sent (streams busy_world)) =
  u64 (pending Sent (streams open_world) + sizes Sent busy).
Proof.
  apply (tcp_bytes_counted naming_host length_id Sent (fun _ => true) busy open_world tt busy_world).
  - reflexivity.
  - repeat constructor.
  - repeat constructor.
  - apply is_done_or. vm_compute. reflexivity.
Defined.

(** The ticks recorded the bytes but for the last three. *)
Example busy_recorded :
  observe record_of (trace busy_run) = [(58, 4); (58, 2 ^ 64 - 1)] /\
  pending Sent (streams busy_world) = 3.
Proof. split; vm_compute; reflexivity. Qed.

Lemma ended_stream_flushed_witness :
  exists r2, streams (done_or busy_world (result (run naming_host (handle (Log 1) busy_world) tt))) !! 1 = Some r2
    /\ counter Sent r2 = 0.
Proof.
  apply (ended_stream_flushed naming_host length_id Sent busy open_world tt busy_world 1
    (default new_request_info (streams busy_world !! 1)) sent_bytes_gen tt).
  - reflexivity.
  - apply is_done_or. vm_compute. reflexivity.
  - assert (is_Some (streams busy_world !! 1)) as [r Hr].
    { apply not_eq_None_Some. vm_compute. discriminate. }
    rewrite Hr. reflexivity.
  - vm_compute. reflexivity.
  - vm_compute. reflexivity.
  - assert (stats_ (root busy_world) = [sent_bytes_gen]) as -> by (vm_compute; reflexivity).
    apply list_elem_of_singleton. reflexivity.
  - reflexivity.
  - reflexivity.
  - apply is_done_or. vm_compute. reflexivity.
Defined.
