(* ===== verification/StatsConfig.v ===== *)
(** * The telemetry of Istio: configuration ([extensions/stats/plugin.{h,cc}])

    The configuration defines metrics beside the default ones, drops metrics, and
    removes and overrides their tags, the new ones being expressions that the host
    compiles.  What comes out of it are the statistics, with the positions of
    their tags in the vector of dimensions, whose end holds the values of the
    expressions.  The order in which the maps are gone through is a parameter. *)

From stdpp Require Import base tactics numbers list strings gmap sorting fin_maps.
From Stdlib Require Import ZArith Lia.
From S2P Require Import Prelude HostApi Absl Json Expressions ResponseFlags Context Stats.
Local Open Scope Z_scope.
Local Open Scope wasm_scope.

Definition kDefaultTCPReportDurationMilliseconds : Z := 15000.
Definition default_field_separator : string := ";.;".
Definition default_value_separator : string := "=.=".
Definition default_stat_prefix : string := "istio".

(** ** Default metrics *)

Definition defaultTags : list string := STD_ISTIO_DIMENSIONS.

Definition http_and_grpc : Z := Z.lor (protocol_mask HTTP) (protocol_mask GRPC).

Definition default_metric name type extractor protocols count_labels recurrent : MetricFactory := {|
  factory_name := name; factory_type := type; factory_extractor := extractor;
  factory_protocols := protocols; factory_count_labels := count_labels;
  factory_recurrent := recurrent
|}.

Definition defaultMetrics : list MetricFactory := [
  default_metric "requests_total" Counter OneRequest http_and_grpc count_standard_labels false;
  default_metric "request_duration_milliseconds" Histogram RequestDuration http_and_grpc
    count_standard_labels false;
  default_metric "request_bytes" Histogram RequestBytes http_and_grpc count_standard_labels false;
  default_metric "response_bytes" Histogram ResponseBytes http_and_grpc count_standard_labels false;
  default_metric "request_messages_total" Counter RequestMessages (protocol_mask GRPC)
    count_peer_labels true;
  default_metric "response_messages_total" Counter ResponseMessages (protocol_mask GRPC)
    count_peer_labels true;
  default_metric "tcp_sent_bytes_total" Counter TcpSentBytes (protocol_mask TCP) count_tcp_labels true;
  default_metric "tcp_received_bytes_total" Counter TcpReceivedBytes (protocol_mask TCP)
    count_tcp_labels true;
  default_metric "tcp_connections_opened_total" Counter TcpConnectionsOpened (protocol_mask TCP)
    count_tcp_labels true;
  default_metric "tcp_connections_closed_total" Counter TcpConnectionsClosed (protocol_mask TCP)
    count_tcp_labels false].

(** ** Expressions *)

Definition cleanupExpressions (ctx : PluginRootContext) : host_prog PluginRootContext :=
  _ ← delete_all (expressions_ ctx).*1;
  _ ← delete_all (int_expressions_ ctx);
  mret (ctx <| expressions_ := [] |> <| input_expressions_ := ∅ |> <| int_expressions_ := [] |>).

Definition addStringExpression (input : string) (ctx : PluginRootContext) :
    host_prog (option nat * PluginRootContext) :=
  match input_expressions_ ctx !! input with
  | None =>
      '(status, token) ← trigger (CreateExpression input);
      if decide (status <> Ok) then mret (None, ctx)
      else
        let result := length (expressions_ ctx) in
        mret (Some result,
              ctx <| input_expressions_ := <[input := result]> (input_expressions_ ctx) |>
                  <| expressions_ := expressions_ ctx ++ [(token, input)] |>)
  | Some result => mret (Some result, ctx)
  end.

Definition addIntExpression (input : string) (ctx : PluginRootContext) :
    host_prog (option Z * PluginRootContext) :=
  '(status, token) ← trigger (CreateExpression input);
  if decide (status <> Ok) then mret (None, ctx)
  else mret (Some token, ctx <| int_expressions_ := int_expressions_ ctx ++ [token] |>).

(** ** The locals of [initializeDimensions] *)

(** With the members of the root, which change in between.  An index that is [None]
    means that the tag is removed. *)
Module Locals.
Record locals := {
  this : PluginRootContext;
  factories : gmap string MetricFactory;
  metric_tags : gmap string (list string);
  metric_indexes : gmap string (gmap string (option nat))
}.

#[global] Instance locals_fields : Fields locals := fun l => {|
  this := this l; factories := factories l; metric_tags := metric_tags l;
  metric_indexes := metric_indexes l
|}.
End Locals.

(** [absl::ParseDuration], and the division of a duration by a millisecond. *)
Class AbslTime := {
  Duration : Type;
  ParseDuration : string -> option Duration;
  div_milliseconds : Duration -> Z
}.

Section config.
Context `{A : AbslStrings} `{F : Flatbuffers} `{U : UnorderedMap} `{J : NlohmannJson} `{T : AbslTime}.

(** The body of the loop that seeds the locals; [defaultTags] has no tag twice. *)
Definition seed (l : Locals.locals) (factory : MetricFactory) : Locals.locals :=
  let name := factory_name factory in
  let tags := take (factory_count_labels factory) defaultTags in
  l <| Locals.factories := <[name := factory]> (Locals.factories l) |>
    <| Locals.metric_tags := <[name := tags]> (Locals.metric_tags l) |>
    <| Locals.metric_indexes :=
         <[name := list_to_map (imap (fun i tag => (tag, Some i)) tags)]> (Locals.metric_indexes l) |>.

Definition seeded (ctx : PluginRootContext) : Locals.locals :=
  foldl seed {| Locals.this := ctx; Locals.factories := ∅; Locals.metric_tags := ∅;
                Locals.metric_indexes := ∅ |} defaultMetrics.

(** ** Definitions of metrics *)

Definition type_of (type : string) : MetricType :=
  if decide (type = "GAUGE") then Gauge
  else if decide (type = "HISTOGRAM") then Histogram else Counter.

(** A factory that is new has the zero of [count_labels]. *)
Definition visit_definition (definition : json) (l : Locals.locals) : host_prog (bool * Locals.locals) :=
  let name := value_or (JsonGetField JsonValueAs_string definition "name") "" in
  let value := value_or (JsonGetField JsonValueAs_string definition "value") "" in
  if decide (name = EmptyString \/ value = EmptyString) then mret (false, l)
  else
    '(token, ctx) ← addIntExpression value (Locals.this l);
    let l := l <| Locals.this := ctx |> in
    match token with
    | None => mret (false, l)
    | Some token =>
        let type := value_or (JsonGetField JsonValueAs_string_view definition "type") "" in
        let factory := {|
          factory_name := name;
          factory_type := type_of type;
          factory_extractor := IntExpression token;
          factory_protocols := http_and_grpc;
          factory_count_labels := from_option factory_count_labels 0%nat (Locals.factories l !! name);
          factory_recurrent := false
        |} in
        mret (true, l <| Locals.factories := <[name := factory]> (Locals.factories l) |>)
    end.

(** ** Overrides *)

Definition remove_tag (tag : json) (indexes : gmap string (option nat)) :
    host_prog (bool * gmap string (option nat)) :=
  match JsonValueAs_string tag with
  | (Some tag_string, OK) =>
      mret (true, match indexes !! tag_string with
                  | Some _ => <[tag_string := None]> indexes
                  | None => indexes
                  end)
  | _ => mret (false, indexes)
  end.

(** What follows the search of [indexes] for the tag. *)
Definition set_tag (factory tag : string) (value : option nat) (l : Locals.locals) : Locals.locals :=
  let indexes := default ∅ (Locals.metric_indexes l !! factory) in
  let l :=
    match indexes !! tag with
    | Some _ => l
    | None =>
        let tags := default [] (Locals.metric_tags l !! factory) in
        l <| Locals.metric_tags := <[factory := tags ++ [tag]]> (Locals.metric_tags l) |>
    end in
  l <| Locals.metric_indexes := <[factory := <[tag := value]> indexes]> (Locals.metric_indexes l) |>.

(** [metric["dimensions"][tag]]: a constant object has the keys it is indexed with. *)
Definition dimension (metric : json) (tag : string) : host_prog json :=
  match find metric "dimensions" ≫= fun dimensions => find dimensions tag with
  | Some expr => mret expr
  | None => UB "operator[] of a missing key"
  end.

Fixpoint override_tags (tags : list string) (metric : json) (factory : string) (l : Locals.locals) :
    host_prog (bool * Locals.locals) :=
  match tags with
  | [] => mret (true, l)
  | tag :: tags =>
      expr ← dimension metric tag;
      match JsonValueAs_string expr with
      | (Some expr_string, OK) =>
          '(expr_index, ctx) ← addStringExpression expr_string (Locals.this l);
          let value := Nat.add count_standard_labels <$> expr_index in
          override_tags tags metric factory (set_tag factory tag value (l <| Locals.this := ctx |>))
      | _ => mret (false, l)
      end
  end.

(** The loop over the factories, from the names that are left. *)
Fixpoint override_factories (keys : list string) (name : string) (tags : list string) (metric : json)
    (l : Locals.locals) : host_prog (bool * Locals.locals) :=
  match keys with
  | [] => mret (true, l)
  | factory :: keys =>
      if decide (name <> EmptyString /\ name <> factory) then
        override_factories keys name tags metric l
      else if (value_or (JsonGetField JsonValueAs_bool metric "drop") false : bool) then
        override_factories keys name tags metric
          (l <| Locals.factories := delete factory (Locals.factories l) |>)
      else
        let indexes := default ∅ (Locals.metric_indexes l !! factory) in
        '(ok, indexes) ← JsonArrayIterate metric "tags_to_remove" remove_tag indexes;
        let l := l <| Locals.metric_indexes := <[factory := indexes]> (Locals.metric_indexes l) |> in
        if negb ok then mret (false, l)
        else
          '(ok, l) ← override_tags tags metric factory l;
          if negb ok then mret (false, l) else override_factories keys name tags metric l
  end.

(** [std::sort] of strings. *)
Definition sort_tags : list string -> list string := merge_sort (fun a b => Is_true (String.leb a b)).

Definition visit_metric (metric : json) (l : Locals.locals) : host_prog (bool * Locals.locals) :=
  '(ok, tags) ← JsonObjectIterate metric "dimensions" (fun dim tags => mret (true, tags ++ [dim])) [];
  if negb ok then mret (false, l)
  else
    let name := value_or (JsonGetField JsonValueAs_string metric "name") "" in
    override_factories (iteration (Locals.factories l)).*1 name (sort_tags tags) metric l.

(** ** Statistics *)

(** The tags that a factory keeps, with their positions. *)
Definition kept_tags (l : Locals.locals) (factory : string) : list (string * nat) :=
  let indexes := default ∅ (Locals.metric_indexes l !! factory) in
  omap (fun tag => pair tag <$> mjoin (indexes !! tag)) (default [] (Locals.metric_tags l !! factory)).

(** The constructor of [StatGen]. *)
Definition make_StatGen (stat_prefix : string) (factory : MetricFactory) (tags : list string)
    (indexes : list nat) (field_separator value_separator : string) : host_prog StatGen :=
  if decide (length tags <> length indexes) then UB "logAbort"
  else mret {|
    recurrent_ := factory_recurrent factory;
    protocols_ := factory_protocols factory;
    indexes_ := indexes;
    extractor_ := factory_extractor factory;
    metric_type := factory_type factory;
    metric_name := stat_prefix +:+ factory_name factory;
    metric_tags := tags;
    field_separator := field_separator;
    value_separator := value_separator
  |}.

Fixpoint make_stats (factories : list (string * MetricFactory)) (l : Locals.locals)
    (stat_prefix field_separator value_separator : string) : host_prog (list StatGen) :=
  match factories with
  | [] => mret []
  | (name, factory) :: factories =>
      let kept := kept_tags l name in
      stat ← make_StatGen stat_prefix factory kept.*1 kept.*2 field_separator value_separator;
      stats ← make_stats factories l stat_prefix field_separator value_separator;
      mret (stat :: stats)
  end.

(** ** [initializeDimensions] *)

(** The locals when the two arrays have been processed, whatever the iterations
    return. *)
Definition process (j : json) (ctx : PluginRootContext) : host_prog Locals.locals :=
  '(_, l) ← JsonArrayIterate j "definitions" visit_definition (seeded ctx);
  '(_, l) ← JsonArrayIterate j "metrics" visit_metric l;
  mret l.

Definition local_dimensions (ctx : PluginRootContext) : IstioDimensions :=
  let d := resize (count_standard_labels + length (expressions_ ctx)) "" (istio_dimensions_ ctx) in
  let d := <[Label.reporter := if outbound_ ctx then "source" else "destination"]> d in
  map_node d (outbound_ ctx) (local_node_info_ ctx).

Definition build_version (node : FlatNode) : string :=
  let istio_version := default "" (istio_version node) in
  if decide (istio_version = EmptyString) then unknown +:+ ";" else istio_version +:+ ";".

Definition initializeDimensions (j : json) (ctx : PluginRootContext) :
    host_prog (bool * PluginRootContext) :=
  ctx ← cleanupExpressions ctx;
  l ← process j ctx;
  let ctx := Locals.this l in
  let ctx := ctx <| istio_dimensions_ := local_dimensions ctx |> in
  let field_separator :=
    value_or (JsonGetField JsonValueAs_string j "field_separator") default_field_separator in
  let value_separator :=
    value_or (JsonGetField JsonValueAs_string j "value_separator") default_value_separator in
  let stat_prefix := default_stat_prefix +:+ "_" in
  stats ← make_stats (iteration (Locals.factories l)) l stat_prefix field_separator value_separator;
  let ctx := ctx <| stats_ := stats |> in
  build ← trigger (ResolveMetric (stat_prefix +:+ "build")
                     ["proxy"; build_version (local_node_info_ ctx)]);
  _ ← trigger (RecordMetric build 1);
  mret (true, ctx).

(** ** [onConfigure] *)

Definition tcp_report_duration_milis (j : json) : Z :=
  match JsonGetField JsonValueAs_string j "tcp_reporting_duration" with
  | (Some field, OK) =>
      match ParseDuration field with
      | Some duration => u32 (div_milliseconds duration)
      | None => kDefaultTCPReportDurationMilliseconds
      end
  | _ => kDefaultTCPReportDurationMilliseconds
  end.

Definition configure (configuration_size : Z) (ctx : PluginRootContext) :
    host_prog (bool * PluginRootContext) :=
  configuration_data ← trigger (GetBuffer PluginConfiguration 0 configuration_size);
  node ← extractLocalNodeFlatBuffer;
  let ctx := ctx <| local_node_info_ := node |> in
  text ← deref configuration_data;
  match JsonParse text with
  | None => mret (false, ctx)
  | Some j =>
      let disable := value_or (JsonGetField JsonValueAs_bool j "disable_host_header_fallback") false in
      let ctx := ctx <| use_host_header_fallback_ := Some (negb disable) |> in
      '(ok, ctx) ← initializeDimensions j ctx;
      if negb ok then mret (false, ctx)
      else _ ← trigger (SetTickPeriodMilliseconds (tcp_report_duration_milis j)); mret (true, ctx)
  end.

Definition onConfigure (size : Z) (ctx : PluginRootContext) : host_prog (bool * PluginRootContext) :=
  '(ok, ctx) ← configure size ctx;
  mret (true, ctx <| initialized_ := ok |>).

Definition onDone (ctx : PluginRootContext) : host_prog (bool * PluginRootContext) :=
  ctx ← cleanupExpressions ctx; mret (true, ctx).

(** ** The plugin's life *)

Inductive root_event :=
| Configure (size : Z)
| Done'
| Stream (ev : stats_event).

Definition handle_root (ev : root_event) (w : world) : host_prog world :=
  match ev with
  | Configure size => '(_, ctx) ← onConfigure size (root w); mret (w <| root := ctx |>)
  | Done' => '(_, ctx) ← onDone (root w); mret (w <| root := ctx |>)
  | Stream ev => handle ev w
  end.

Fixpoint handle_life (evs : list root_event) (w : world) : host_prog world :=
  match evs with
  | [] => mret w
  | ev :: evs => w ← handle_root ev w; handle_life evs w
  end.

(** From the constructor on. *)
Definition life (outbound : bool) (evs : list root_event) : host_prog world :=
  ctx ← new_root outbound; handle_life evs {| root := ctx; streams := ∅ |}.
End config.

(** ** Lemmas on positions *)

(** The undefined behaviours that are accesses out of range. *)
Definition out_of_range : list string := [
  "assignment past the end of a vector"; "read past the end of a vector";
  "at past the end of a vector"; "operator[] of a missing key"; "logAbort"].

(** With those of the pointers in the queue. *)
Definition memory_errors : list string := "dangling pointer to a RequestInfo" :: out_of_range.

(** The vector has a position for every tag of a statistic. *)
Definition stat_wf (n : nat) (g : StatGen) : Prop :=
  length (metric_tags g) = length (indexes_ g) /\ Forall (fun i => i < n)%nat (indexes_ g).

Definition inputs_wf (ctx : PluginRootContext) : Prop :=
  map_Forall (fun _ i => i < length (expressions_ ctx))%nat (input_expressions_ ctx).

Record root_wf (ctx : PluginRootContext) : Prop := {
  dimensions_fit : initialized_ ctx = true ->
    (count_standard_labels + length (expressions_ ctx) <= length (istio_dimensions_ ctx))%nat;
  stats_fit : Forall (stat_wf (length (istio_dimensions_ ctx))) (stats_ ctx);
  inputs_fit : inputs_wf ctx
}.

Lemma full_name_total fs vs tags indexes d n :
  length tags = length indexes -> Forall (fun i => i < length d)%nat indexes ->
  is_Some (full_name fs vs tags indexes d n).
Proof.
  revert tags. induction indexes as [|i indexes IH]; intros [|tag tags]; simpl; try done; [by eauto..|].
  intros [= Hl] [Hi Hf]%Forall_cons. destruct (lookup_lt_is_Some_2 d i Hi) as [v ->].
  destruct (IH tags Hl Hf) as [t Ht]. simpl. rewrite Ht. simpl. eauto.
Qed.

Section in_range.
Context `{A : AbslStrings} `{F : Flatbuffers} `{U : UnorderedMap} `{J : NlohmannJson} `{T : AbslTime}.

Local Abbreviation safe := (ensures (other_than memory_errors)).
Local Abbreviation in_range := (ensures (other_than out_of_range)).

Lemma safe_in_range {X} (Q : X -> Prop) (m : host_prog X) : safe Q m -> in_range Q m.
Proof.
  apply ensures_mono; [|done]. unfold other_than, memory_errors. intros why.
  rewrite !bool_decide_eq_false, not_elem_of_cons. tauto.
Qed.

(** *** Reports *)

(** What a report leaves alone. *)
Record same_shape (ctx ctx' : PluginRootContext) : Prop := {
  same_length : length (istio_dimensions_ ctx') = length (istio_dimensions_ ctx);
  same_expressions : expressions_ ctx' = expressions_ ctx;
  same_inputs : input_expressions_ ctx' = input_expressions_ ctx;
  same_stats : stats_ ctx' = stats_ ctx;
  same_state : initialized_ ctx' = initialized_ ctx;
  same_queue : request_queue_ ctx' = request_queue_ ctx
}.

Lemma same_shape_wf ctx ctx' : same_shape ctx ctx' -> root_wf ctx -> root_wf ctx'.
Proof.
  intros [Hl He Hi Hs Hinit _] [H1 H2 H3]. split; unfold inputs_wf in *.
  - rewrite Hinit, Hl, He. done.
  - by rewrite Hl, Hs.
  - by rewrite He, Hi.
Qed.

Lemma record_safe st r : safe (fun _ => True) (record st r).
Proof. unfold record, extract. ensures_tac. Qed.

Lemma record_all_safe stats e r : safe (fun _ => True) (record_all stats e r).
Proof.
  revert r. induction stats as [|st stats IH]; intros r; cbn [record_all]; [done|].
  apply ensures_any; [|done]. destruct (e || _); [apply record_safe|done].
Qed.

Lemma resolve_all_safe gens d e r :
  Forall (stat_wf (length d)) gens -> safe (fun _ => True) (resolve_all gens d e r).
Proof.
  intros Hf. revert r. induction Hf as [|g gens [Hl Hg] _ IH]; intros r; cbn [resolve_all]; [done|].
  destruct (negb _); [done|]. apply ensures_any.
  { unfold resolve, stat_name. destruct (full_name_total (field_separator g) (value_separator g) _ _ d
      (metric_name g) Hl Hg) as [n ->]. done. }
  intros st. apply ensures_any; [destruct (e || _); [apply record_safe|done]|]. intros r1.
  apply ensures_any; [done|]. by intros [stats r2].
Qed.

Lemma report_stats_safe r e ctx :
  Forall (stat_wf (length (istio_dimensions_ ctx))) (stats_ ctx) ->
  safe (fun p => same_shape ctx (snd p)) (report_stats r e ctx).
Proof.
  intros Hs. unfold report_stats. destruct (metrics_ ctx !! _).
  - apply ensures_any; [apply record_all_safe|]. intros r1. cbn zeta. case_decide; [intros []|]; by split.
  - apply ensures_any; [by apply resolve_all_safe|]. intros [stats r1] []. by split.
Qed.

Lemma evaluate_safe es i d :
  (i + length es <= length d)%nat ->
  safe (fun d' => length d' = length d) (evaluate_expressions es i d).
Proof.
  revert i d. induction es as [|[token x] es IH]; intros i d Hd; cbn [evaluate_expressions]; [done|].
  simpl in Hd. rewrite bind_trigger. cbn [ensures]. intros v. rewrite decide_True by lia.
  eapply ensures_mono; [done| |apply IH]; [|rewrite length_insert; lia]. intros d'. by rewrite length_insert.
Qed.

Lemma fill_safe {X Y} (call : HostCall (option X)) (conv : X -> Y) f `{!Field f} r :
  safe (fun _ => True) (fill call conv f r).
Proof. unfold fill, getValue. ensures_tac. Qed.

Lemma deref_safe {X} (o : option X) : safe (fun _ => True) (deref o).
Proof. unfold deref. ensures_tac. Qed.

Lemma populate_request_safe o fb r : safe (fun _ => True) (populateRequestInfo o fb r).
Proof.
  unfold populateRequestInfo, populate_fields, populateDestinationService, getServiceNameFallback,
    getValueOr.
  ensures_tac; by apply fill_safe.
Qed.

Lemma populate_grpc_safe r : safe (fun _ => True) (populateGRPCInfo r).
Proof. unfold populateGRPCInfo, simple_atoi. ensures_tac. Qed.

Lemma populate_http_safe o fb r : safe (fun _ => True) (populateHTTPRequestInfo o fb r).
Proof.
  unfold populateHTTPRequestInfo, populateRequestProtocol, getValueOr.
  ensures_tac; first [by apply fill_safe|by apply deref_safe|by apply populate_request_safe|by apply populate_grpc_safe].
Qed.

Lemma populate_safe ctx peer e fb r : safe (fun _ => True) (populate ctx peer e fb r).
Proof.
  unfold populate, populateTCPRequestInfo.
  ensures_tac; first [by apply fill_safe|by apply deref_safe|by apply populate_request_safe
    |by apply populate_grpc_safe|by apply populate_http_safe].
Qed.

Lemma prepare_safe r e ctx :
  (count_standard_labels + length (expressions_ ctx) <= length (istio_dimensions_ ctx))%nat ->
  safe (fun o => forall r' d, o = Some (r', d) -> length d = length (istio_dimensions_ ctx))
    (prepare r e ctx).
Proof.
  intros Hd. unfold prepare. apply ensures_any.
  { unfold make_PeerNodeInfo, extractPeerMetadataFromUpstreamHostMetadata,
      extractPeerMetadataFromUpstreamMetadata, getValue. ensures_tac. }
  intros peer. apply ensures_any; [unfold useHostHeaderFallback; ensures_tac|]. intros fb.
  apply ensures_any; [by apply populate_safe|].
  intros [r'|]; [|done]. apply ensures_any; [unfold get_peer, deref; ensures_tac|]. intros node.
  unfold map. rewrite decide_False by lia. rewrite bind_ret.
  eapply ensures_bind; [apply evaluate_safe; rewrite map_dimensions_length; lia|].
  intros d Hl. simpl. intros ? ? [= <- <-]. by rewrite Hl, map_dimensions_length.
Qed.

Lemma report_safe r e ctx :
  root_wf ctx -> safe (fun p => same_shape ctx (snd p)) (report r e ctx).
Proof.
  intros [Hd Hs _]. unfold report. destruct (initialized_ ctx) eqn:Hi; cbn [negb]; [|by split].
  eapply ensures_bind; [by apply prepare_safe, Hd|]. intros [[r' d]|] Hl; [|by split].
  specialize (Hl _ _ eq_refl). set (ctx1 := ctx <| istio_dimensions_ := d |>).
  eapply ensures_mono; [done| |apply (report_stats_safe r' e ctx1); by rewrite <- Hl in Hs].
  intros [r'' ctx'] [H1 H2 H3 H4 H5 H6]. simpl in *. split; simpl; congruence.
Qed.

(** The events, on streams that may not exist. *)
Lemma report_stream_in_range id e w :
  root_wf (root w) -> in_range (fun w' => root_wf (root w')) (report_stream id e w).
Proof.
  intros Hw. unfold report_stream. apply ensures_any; [unfold request_info_; ensures_tac|]. intros r.
  eapply ensures_bind; [by apply safe_in_range, report_safe|]. intros [r' ctx'] Hs.
  by eapply same_shape_wf.
Qed.

Lemma tick_all_in_range queue w :
  root_wf (root w) -> in_range (fun w' => root_wf (root w')) (tick_all queue w).
Proof.
  revert w. induction queue as [|[id p] queue IH]; intros w Hw; cbn [tick_all]; [done|].
  apply ensures_any; [done|]. intros b. destruct b; cbn [negb]; [|by apply IH].
  apply ensures_any; [done|]. intros _. eapply ensures_bind; [by apply report_stream_in_range|]. auto.
Qed.

Lemma handle_in_range ev w :
  root_wf (root w) -> in_range (fun w' => root_wf (root w')) (handle ev w).
Proof.
  intros Hw. destruct (quiet_event ev) eqn:Hq.
  - eapply ensures_mono; [done| |apply (ensures_returns _ (fun _ => True));
      [|apply handle_quiet; by rewrite Hq] ].
    + intros w' [_ [q ->]]. by destruct Hw.
    + destruct ev; try done; cbn [handle]; unfold onRequestHeaders, onResponseHeaders, onNewConnection,
        onDownstreamData, onUpstreamData, request_info_, populateRequestProtocol, useHostHeaderFallback,
        fill, getValue, deref; ensures_tac.
  - destruct ev; try done; cbn [handle]; [|by apply tick_all_in_range]. unfold onLog. cbn zeta.
    apply ensures_any; [unfold request_info_; ensures_tac|]. intros r. apply report_stream_in_range.
    by destruct Hw.
Qed.

(** *** Configuration *)

Section configuration.

(** Every index of a map of tags is below a bound. *)
Definition index_wf (n : nat) (indexes : gmap string (option nat)) : Prop :=
  map_Forall (fun _ o => forall i, o = Some i -> i < n)%nat indexes.

Definition bound (ctx : PluginRootContext) : nat := count_standard_labels + length (expressions_ ctx).

(** The root's queue, which the configuration leaves alone. *)
Context (queue : gmap Z Z).

Record locals_wf (l : Locals.locals) : Prop := {
  locals_queue : request_queue_ (Locals.this l) = queue;
  locals_inputs : inputs_wf (Locals.this l);
  locals_indexes : map_Forall (fun _ => index_wf (bound (Locals.this l))) (Locals.metric_indexes l)
}.

Lemma index_wf_mono n n' indexes : (n <= n')%nat -> index_wf n indexes -> index_wf n' indexes.
Proof. intros Hn Hi t o Ht i Ho. specialize (Hi t o Ht i Ho). simpl in Hi. lia. Qed.

Lemma indexes_wf_mono n n' (m : gmap string (gmap string (option nat))) :
  (n <= n')%nat -> map_Forall (fun _ => index_wf n) m -> map_Forall (fun _ => index_wf n') m.
Proof. intros Hn Hm. eapply map_Forall_impl; [exact Hm|]. intros k ix. by apply index_wf_mono. Qed.

Lemma index_wf_default l factory :
  locals_wf l -> index_wf (bound (Locals.this l)) (default ∅ (Locals.metric_indexes l !! factory)).
Proof.
  intros [_ _ Hl]. destruct (Locals.metric_indexes l !! factory) eqn:E; simpl; [by eapply Hl|].
  apply map_Forall_empty.
Qed.

Lemma seed_wf l factory :
  (factory_count_labels factory <= count_standard_labels)%nat -> locals_wf l -> locals_wf (seed l factory).
Proof.
  intros Hf [Hq Hi Hl]. split; [done..|]. simpl. apply map_Forall_insert_2; [|done].
  intros t o Ht i ->. apply elem_of_list_to_map_2, elem_of_lookup_imap in Ht as (j & y & [= <- ->] & Hj).
  apply lookup_lt_Some in Hj. rewrite length_take in Hj. unfold bound. lia.
Qed.

Lemma seeded_wf ctx : request_queue_ ctx = queue -> inputs_wf ctx -> locals_wf (seeded ctx).
Proof.
  intros Hq Hi. unfold seeded.
  assert (Forall (fun f => factory_count_labels f <= count_standard_labels)%nat defaultMetrics) as Hd.
  { repeat constructor. }
  assert (forall l, locals_wf l -> locals_wf (foldl seed l defaultMetrics)) as Hf.
  { induction Hd as [|f fs Hf _ IH]; intros l Hl; simpl; [done|]. apply IH. by apply seed_wf. }
  apply Hf. split; [done..|apply map_Forall_empty].
Qed.

Lemma cleanup_safe ctx :
  safe (fun ctx' => ctx' = ctx <| expressions_ := [] |> <| input_expressions_ := ∅ |>
                               <| int_expressions_ := [] |>) (cleanupExpressions ctx).
Proof.
  assert (forall tokens, safe (fun _ => True) (delete_all tokens)) as Hd.
  { induction tokens; simpl; auto. }
  unfold cleanupExpressions. do 2 (apply ensures_any; [apply Hd|]; intros _). done.
Qed.

Lemma add_string_safe input ctx :
  inputs_wf ctx ->
  safe (fun p => request_queue_ (snd p) = request_queue_ ctx /\ inputs_wf (snd p) /\
                 (bound ctx <= bound (snd p))%nat /\
                 forall i, fst p = Some i -> (i < length (expressions_ (snd p)))%nat)
    (addStringExpression input ctx).
Proof.
  intros Hi. unfold addStringExpression. destruct (input_expressions_ ctx !! input) as [i|] eqn:E.
  { simpl. split_and!; [done..|]. intros ? [= <-]. by apply Hi in E. }
  intros [status token]. cbn. case_decide; cbn; [by split_and!|]. unfold bound. cbn.
  rewrite length_app. simpl. split_and!; [done| |lia|intros i [= <-]; lia].
  unfold inputs_wf. cbn. apply map_Forall_insert_2; [rewrite length_app; simpl; lia|].
  eapply map_Forall_impl; [exact Hi|]. intros k i Hk. simpl in *. rewrite length_app. simpl. lia.
Qed.

Lemma visit_definition_safe j l :
  locals_wf l -> safe (fun p => locals_wf (snd p)) (visit_definition j l).
Proof.
  intros Hl. unfold visit_definition. cbn zeta. case_decide; [done|]. unfold addIntExpression.
  intros [status token]. cbn. case_decide; cbn; by destruct Hl.
Qed.

Lemma remove_tag_safe n tag indexes :
  index_wf n indexes -> safe (fun p => index_wf n (snd p)) (remove_tag tag indexes).
Proof.
  intros Hi. unfold remove_tag. destruct (JsonValueAs_string tag) as [[t|] []]; try done.
  destruct (indexes !! t); [|done]. simpl. by apply map_Forall_insert_2.
Qed.

Lemma set_tag_wf factory tag value l :
  locals_wf l -> (forall i, value = Some i -> i < bound (Locals.this l))%nat ->
  locals_wf (set_tag factory tag value l).
Proof.
  intros Hl Hv. unfold set_tag. pose proof (index_wf_default l factory Hl) as Hd.
  destruct (default ∅ _ !! tag); (split; [apply Hl..|]); simpl;
    (apply map_Forall_insert_2; [by apply map_Forall_insert_2|apply Hl]).
Qed.

Lemma override_tags_safe tags metric factory l :
  Forall (fun t => is_Some (find metric "dimensions" ≫= fun o => find o t)) tags -> locals_wf l ->
  safe (fun p => locals_wf (snd p)) (override_tags tags metric factory l).
Proof.
  intros Ht. revert l. induction Ht as [|tag tags [expr He] _ IH]; intros l Hl; cbn [override_tags]; [done|].
  unfold dimension. rewrite He, bind_ret. destruct (JsonValueAs_string expr) as [[s|] []]; try done.
  eapply ensures_bind; [apply add_string_safe, Hl|]. intros [o ctx] (Hq & H1 & H2 & H3). simpl in *.
  apply IH, set_tag_wf.
  - split; [simpl; rewrite Hq; apply Hl|done|]. simpl. eapply indexes_wf_mono; [exact H2|apply Hl].
  - simpl. unfold bound. intros i. destruct o as [k|]; simpl; [|done]. intros [= <-].
    specialize (H3 k eq_refl). lia.
Qed.

Lemma override_factories_safe keys name tags metric l :
  Forall (fun t => is_Some (find metric "dimensions" ≫= fun o => find o t)) tags -> locals_wf l ->
  safe (fun p => locals_wf (snd p)) (override_factories keys name tags metric l).
Proof.
  intros Ht. revert l. induction keys as [|factory keys IH]; intros l Hl; cbn [override_factories]; [done|].
  case_decide; [by apply IH|]. destruct (value_or _ _); [apply IH; by destruct Hl|].
  eapply ensures_bind.
  { apply (array_iterate_ensures (index_wf (bound (Locals.this l)))); [|by apply index_wf_default].
    intros x ix. apply remove_tag_safe. }
  intros [ok ix] Hix. cbn zeta. set (l1 := l <| Locals.metric_indexes := _ |>).
  assert (locals_wf l1) as H1 by (split; [apply Hl..|]; by apply map_Forall_insert_2; [|apply Hl]).
  destruct ok; cbn [negb]; [|done]. eapply ensures_bind; [by apply override_tags_safe|].
  intros [ok l2] H2. destruct ok; cbn [negb]; [by apply IH|done].
Qed.

Lemma visit_metric_safe metric l :
  locals_wf l -> safe (fun p => locals_wf (snd p)) (visit_metric metric l).
Proof.
  intros Hl. unfold visit_metric.
  destruct (object_iterate_keys (E := HostCall) metric "dimensions" []) as (ok & keys & -> & Hk).
  rewrite bind_ret. destruct ok; cbn [negb]; [|done]. apply override_factories_safe; [|done].
  unfold sort_tags. rewrite merge_sort_Permutation. apply Forall_forall. intros k. by apply Hk.
Qed.

Lemma process_safe j ctx :
  request_queue_ ctx = queue -> inputs_wf ctx -> safe locals_wf (process j ctx).
Proof.
  intros Hq Hi. unfold process. eapply ensures_bind.
  { apply (array_iterate_ensures locals_wf); [apply visit_definition_safe|by apply seeded_wf]. }
  intros [ok l] Hl. eapply ensures_bind.
  { apply (array_iterate_ensures locals_wf); [apply visit_metric_safe|done]. }
  by intros [ok' l'] Hl'.
Qed.

Lemma map_node_length d s n : length (map_node d s n) = length d.
Proof. unfold map_node. destruct s; by rewrite ?length_insert, map_side_length. Qed.

Lemma local_dimensions_length ctx : length (local_dimensions ctx) = bound ctx.
Proof. unfold local_dimensions. cbn zeta. by rewrite map_node_length, length_insert, length_resize. Qed.

Lemma make_stats_safe fs l sp fsep vsep :
  locals_wf l -> safe (Forall (stat_wf (bound (Locals.this l)))) (make_stats fs l sp fsep vsep).
Proof.
  intros Hl. induction fs as [|[name f] fs IH]; cbn [make_stats]; [constructor|]. cbn zeta.
  unfold make_StatGen. rewrite decide_False by (rewrite !length_fmap; auto). rewrite bind_ret.
  eapply ensures_bind; [exact IH|]. intros stats Hs. constructor; [|done].
  split; simpl; [by rewrite !length_fmap|]. apply Forall_fmap, Forall_forall. intros [t i] Hti. simpl.
  apply list_elem_of_omap in Hti as (tag & _ & Ht). apply fmap_Some in Ht as (i' & Hi & [= -> ->]).
  destruct (default ∅ _ !! tag) as [o|] eqn:Eo; [|done]. simpl in Hi.
  by apply (index_wf_default l name Hl tag o Eo).
Qed.

End configuration.

Lemma initialize_safe j ctx :
  safe (fun p => fst p = true /\ request_queue_ (snd p) = request_queue_ ctx /\ bound (snd p) = length (istio_dimensions_ (snd p)) /\
         Forall (stat_wf (length (istio_dimensions_ (snd p)))) (stats_ (snd p)) /\ inputs_wf (snd p))
    (initializeDimensions j ctx).
Proof.
  unfold initializeDimensions. eapply ensures_bind; [apply cleanup_safe|]. intros c1 ->.
  eapply ensures_bind; [by apply (process_safe (request_queue_ ctx)), map_Forall_empty|]. intros l Hl. cbn zeta.
  eapply ensures_bind; [by eapply make_stats_safe|]. intros stats Hs. simpl. intros build [].
  rewrite local_dimensions_length. split_and!; [done|apply Hl|done..|apply Hl].
Qed.

Lemma configure_ends_safe size ctx :
  root_wf ctx ->
  safe (fun p => root_wf ((snd p) <| initialized_ := fst p |>) /\
                 request_queue_ (snd p) = request_queue_ ctx) (configure size ctx).
Proof.
  intros [H1 H2 H3]. unfold configure. apply ensures_any; [done|]. intros data.
  apply ensures_any.
  { unfold extractLocalNodeFlatBuffer, get_pairs, get_list, getValueOr. ensures_tac. }
  intros node. cbn zeta. apply ensures_any; [apply deref_safe|]. intros text.
  destruct (JsonParse text) as [j|]; [|by repeat split].
  eapply ensures_bind; [apply initialize_safe|]. intros [ok c] (Hok & Hq & Hb & Hs & Hi). simpl in *. subst ok.
  intros []. split; [|done]. split; simpl; [intros _; by rewrite <- Hb|done..].
Qed.

Lemma onConfigure_safe size ctx :
  root_wf ctx ->
  safe (fun p => root_wf (snd p) /\ request_queue_ (snd p) = request_queue_ ctx) (onConfigure size ctx).
Proof.
  intros Hw. unfold onConfigure. eapply ensures_bind; [by apply configure_ends_safe|]. by intros [ok c].
Qed.

Lemma onDone_safe ctx :
  root_wf ctx ->
  safe (fun p => root_wf (snd p) /\ request_queue_ (snd p) = request_queue_ ctx) (onDone ctx).
Proof.
  intros [H1 H2 H3]. unfold onDone. eapply ensures_bind; [apply cleanup_safe|]. intros c ->.
  split; [|done]. split; [|done|apply map_Forall_empty]. intros Hi. specialize (H1 Hi). etrans; [|exact H1].
  apply Nat.add_le_mono_l, Nat.le_0_l.
Qed.

Lemma handle_root_in_range ev w :
  root_wf (root w) -> in_range (fun w' => root_wf (root w')) (handle_root ev w).
Proof.
  intros Hw. destruct ev as [size| |ev]; cbn [handle_root]; [| |by apply handle_in_range].
  - eapply ensures_bind; [by apply safe_in_range, onConfigure_safe|]. by intros [ok c] [Hc _].
  - eapply ensures_bind; [by apply safe_in_range, onDone_safe|]. by intros [ok c] [Hc _].
Qed.

Lemma handle_life_in_range evs w :
  root_wf (root w) -> in_range (fun w' => root_wf (root w')) (handle_life evs w).
Proof.
  revert w. induction evs as [|ev evs IH]; intros w Hw; cbn [handle_life]; [done|].
  eapply ensures_bind; [by apply handle_root_in_range|]. auto.
Qed.

(** ** The lives of the streams *)

(** Whether each stream there is has been logged.  Nothing happens to a stream
    after it has been logged but its destruction: [None] is an event that the
    host does not send. *)
Definition next_states (states : gmap Z bool) (ev : root_event) : option (gmap Z bool) :=
  match ev with
  | Stream (Create id) =>
      if decide (states !! id = None) then Some (<[id := false]> states) else None
  | Stream (Log id) =>
      if decide (states !! id = Some false) then Some (<[id := true]> states) else None
  | Stream (Destroy id) => if decide (states !! id = Some true) then Some (delete id states) else None
  | Stream (RequestHeaders id | ResponseHeaders id | NewConnection id | DownstreamData id _
           | UpstreamData id _) =>
      if decide (states !! id = Some false) then Some states else None
  | Stream Tick | Configure _ | Done' => Some states
  end.

Fixpoint stream_states (states : gmap Z bool) (evs : list root_event) : option (gmap Z bool) :=
  match evs with
  | [] => Some states
  | ev :: evs => states ← next_states states ev; stream_states states evs
  end.

(** The streams of the queue have not been logged. *)
Record world_wf (states : gmap Z bool) (w : world) : Prop := {
  world_root : root_wf (root w);
  world_streams : forall id, is_Some (states !! id) -> is_Some (streams w !! id);
  world_queue : map_Forall (fun c p => c = p /\ states !! p = Some false) (request_queue_ (root w))
}.

Lemma request_info_wf states w id b :
  world_wf states w -> states !! id = Some b -> exists r, request_info_ id w = mret r.
Proof.
  intros Hw Hid. destruct (world_streams _ _ Hw id) as [r Hr]; [eauto|].
  exists r. unfold request_info_. by rewrite Hr.
Qed.

Lemma set_request_info_wf states w id r : world_wf states w -> world_wf states (set_request_info id r w).
Proof.
  intros [H1 H2 H3]. split; [done| |done]. intros id'. simpl. intros Hid.
  destruct (decide (id = id')) as [->|Hn]; [rewrite lookup_insert_eq; eauto|].
  rewrite lookup_insert_ne by done. auto.
Qed.

Lemma set_root_wf states w ctx :
  world_wf states w -> root_wf ctx -> request_queue_ ctx = request_queue_ (root w) ->
  world_wf states (w <| root := ctx |>).
Proof. intros [H1 H2 H3] Hc Hq. split; [done|done|]. simpl. by rewrite Hq. Qed.

Lemma enqueue_wf states w id :
  world_wf states w -> states !! id = Some false ->
  world_wf states (w <| root := addToRequestQueue id id (root w) |>).
Proof. intros [H1 H2 H3] Hid. split; [by destruct H1|done|]. simpl. by apply map_Forall_insert_2. Qed.

Lemma report_stream_safe states id e w b :
  world_wf states w -> states !! id = Some b ->
  safe (fun w' => world_wf states w' /\ request_queue_ (root w') = request_queue_ (root w))
    (report_stream id e w).
Proof.
  intros Hw Hid. unfold report_stream. destruct (request_info_wf _ _ _ _ Hw Hid) as [r ->].
  rewrite bind_ret. eapply ensures_bind; [apply report_safe, Hw|]. intros [r' ctx'] Hs.
  split; [|apply Hs]. apply set_request_info_wf, set_root_wf; [done| |apply Hs].
  eapply same_shape_wf; [exact Hs|apply Hw].
Qed.

Lemma tick_all_safe states queue w :
  world_wf states w -> Forall (fun e => is_Some (states !! snd e)) queue ->
  safe (world_wf states) (tick_all queue w).
Proof.
  intros Hw Hq. revert w Hw. induction Hq as [|[id p] queue [b Hp] _ IH]; intros w Hw;
    cbn [tick_all]; [done|].
  apply ensures_any; [done|]. intros x. destruct x; cbn [negb]; [|by apply IH].
  apply ensures_any; [done|]. intros _. eapply ensures_bind; [by eapply report_stream_safe|].
  intros w' [Hw' _]. by apply IH.
Qed.

(** A stream that is logged leaves the queue. *)
Lemma log_wf states w id :
  world_wf states w -> states !! id = Some false ->
  world_wf (<[id := true]> states) (w <| root := deleteFromRequestQueue id (root w) |>).
Proof.
  intros [H1 H2 H3] Hid. split; [by destruct H1| |]; simpl.
  - intros id'. rewrite lookup_insert_is_Some. intros [<-|[_ Hi]]; [apply H2; eauto|auto].
  - intros c p. rewrite lookup_delete_Some. intros [Hc Hp]. destruct (H3 c p Hp) as [<- Hs].
    split; [done|]. by rewrite lookup_insert_ne.
Qed.

Lemma create_wf states w id :
  world_wf states w -> states !! id = None ->
  world_wf (<[id := false]> states) (set_request_info id new_request_info w).
Proof.
  intros [H1 H2 H3] Hid. split; [done| |]; simpl.
  - intros id'. rewrite !lookup_insert_is_Some. naive_solver.
  - intros c p Hp. destruct (H3 c p Hp) as [<- Hs]. split; [done|].
    destruct (decide (id = c)) as [->|Hn]; [by rewrite lookup_insert_eq|by rewrite lookup_insert_ne].
Qed.

Lemma destroy_wf states w id :
  world_wf states w -> states !! id = Some true ->
  world_wf (delete id states) (w <| streams := delete id (streams w) |>).
Proof.
  intros [H1 H2 H3] Hid. split; [done| |]; simpl.
  - intros id'. rewrite !lookup_delete_is_Some. naive_solver.
  - intros c p Hp. destruct (H3 c p Hp) as [<- Hs]. split; [done|].
    rewrite lookup_delete_ne; [done|congruence].
Qed.

Lemma stream_safe ev states states' w :
  world_wf states w -> next_states states (Stream ev) = Some states' ->
  safe (world_wf states') (handle ev w).
Proof.
  intros Hw Hn. destruct ev as [id|id|id|id|id|id size|id size|id|]; cbn [next_states] in Hn;
    try (destruct (decide _) as [Hd|]; [|done]); injection Hn as <-; cbn [handle];
    try destruct (request_info_wf _ _ _ _ Hw Hd) as [r Hr].
  - by apply create_wf.
  - by apply destroy_wf.
  - unfold onRequestHeaders. rewrite Hr, bind_ret. eapply (ensures_bind _ (fun p => world_wf states (snd p)));
      [|by intros [st w']].
    apply ensures_any; [unfold populateRequestProtocol, deref; ensures_tac|]. intros r1.
    apply ensures_any; [unfold useHostHeaderFallback; ensures_tac|]. intros fb.
    apply ensures_any; [destruct fb; [apply fill_safe|done]|]. intros r2. by apply set_request_info_wf.
  - by apply enqueue_wf.
  - unfold onNewConnection. rewrite Hr, bind_ret. by apply set_request_info_wf, enqueue_wf.
  - unfold onDownstreamData. rewrite Hr, bind_ret. by apply set_request_info_wf.
  - unfold onUpstreamData. rewrite Hr, bind_ret. by apply set_request_info_wf.
  - unfold onLog. cbn zeta. pose proof (log_wf _ _ _ Hw Hd) as Hw'.
    destruct (request_info_wf _ _ id true Hw') as [r' ->]; [by apply lookup_insert_eq|].
    rewrite bind_ret. eapply ensures_mono; [done| |eapply (report_stream_safe (<[id := true]> states));
      [by apply set_request_info_wf|by apply lookup_insert_eq] ]. by intros w' [? _].
  - unfold onTick. apply tick_all_safe; [done|]. rewrite iteration_perm.
    apply Forall_forall. intros [c p] Hp%elem_of_map_to_list. simpl.
    destruct (world_queue _ _ Hw c p Hp) as [_ ->]. eauto.
Qed.

Lemma handle_root_safe ev states states' w :
  world_wf states w -> next_states states ev = Some states' ->
  safe (world_wf states') (handle_root ev w).
Proof.
  intros Hw Hn. destruct ev as [size| |ev]; cbn [handle_root]; [| |by eapply stream_safe];
    injection Hn as <-.
  - eapply ensures_bind; [apply onConfigure_safe, Hw|]. intros [ok c] [Hc Hq]. by apply set_root_wf.
  - eapply ensures_bind; [apply onDone_safe, Hw|]. intros [ok c] [Hc Hq]. by apply set_root_wf.
Qed.

Lemma handle_life_safe evs states states' w :
  world_wf states w -> stream_states states evs = Some states' ->
  safe (world_wf states') (handle_life evs w).
Proof.
  revert states w. induction evs as [|ev evs IH]; intros states w Hw; cbn [handle_life stream_states].
  { by intros [= <-]. }
  destruct (next_states states ev) as [states1|] eqn:E; [|done]. intros H.
  eapply ensures_bind; [by eapply handle_root_safe|]. intros w1 H1. by eapply IH.
Qed.

Lemma new_root_safe outbound :
  safe (fun ctx => root_wf ctx /\ request_queue_ ctx = ∅) (new_root outbound).
Proof.
  intros hits misses. split; [|done]. split; simpl; [done|constructor|apply map_Forall_empty].
Qed.
End in_range.

(** ** Theorems *)

Section config_theorems.
Context `{A : AbslStrings} `{F : Flatbuffers} `{U : UnorderedMap} `{J : NlohmannJson} `{T : AbslTime}.

(** C19: every access is in range.  Whatever the configurations say, and whatever
    happens to the streams, no assignment, no lookup of a tag's dimension and no
    expression's value falls outside the vector of dimensions, and the tags and
    indexes of a statistic have one size; so that at any time every statistic has
    a name. *)
Theorem dimensions_in_range outbound evs tr o :
  traces (life outbound evs) tr o ->
  match o with
  | Done w => Forall (fun g => is_Some (stat_name g (istio_dimensions_ (root w)))) (stats_ (root w))
  | Undefined why => why ∉ out_of_range
  | NoFuel => True
  end.
Proof.
  intros Ht. assert (ensures (other_than out_of_range) (fun w => root_wf (root w)) (life outbound evs)) as H.
  { unfold life. eapply ensures_bind; [apply safe_in_range, new_root_safe|]. intros ctx [Hc _].
    by apply handle_life_in_range. }
  destruct o as [w|why|]; [| |done].
  - pose proof (returns_traces _ _ _ _ (returns_ensures _ _ _ H) Ht) as [_ Hs _].
    eapply Forall_impl; [exact Hs|]. intros g [Hl Hg]. by apply full_name_total.
  - pose proof (ensures_undefined _ _ _ _ _ H Ht) as Hu. by apply bool_decide_eq_false in Hu.
Qed.

(** C18: no report reaches a request that is gone.  When nothing happens to a stream
    after its log but its destruction, the pointers in the queue of the ticks are
    to streams that exist and have not been logged, and none is followed after
    its stream is destroyed. *)
Theorem no_dangling_request outbound evs states tr o :
  stream_states ∅ evs = Some states -> traces (life outbound evs) tr o ->
  match o with
  | Done w => forall c p, request_queue_ (root w) !! c = Some p ->
      states !! p = Some false /\ is_Some (streams w !! p)
  | Undefined why => why ∉ memory_errors
  | NoFuel => True
  end.
Proof.
  intros Hs Ht. assert (ensures (other_than memory_errors) (world_wf states) (life outbound evs)) as H.
  { unfold life. eapply ensures_bind; [apply new_root_safe|]. intros ctx [Hc Hq].
    eapply handle_life_safe; [|exact Hs]. split; [done| |].
    - intros id. rewrite lookup_empty. by intros [? ?].
    - simpl. rewrite Hq. apply map_Forall_empty. }
  destruct o as [w|why|]; [| |done].
  - pose proof (returns_traces _ _ _ _ (returns_ensures _ _ _ H) Ht) as [_ Hst Hq].
    intros c p Hp. destruct (Hq c p Hp) as [_ Hf]. split; [done|]. apply Hst. eauto.
  - pose proof (ensures_undefined _ _ _ _ _ H Ht) as Hu. by apply bool_decide_eq_false in Hu.
Qed.
End config_theorems.

(** ** Witnesses *)

#[local] Existing Instance flat_example.
#[local] Instance config_absl : AbslStrings := absl_reference.
#[local] Existing Instance map_order.

(** A library without durations, and one document: a metric of its own, a tag that is
    an expression and a tag that is removed. *)
Definition no_time : AbslTime := {|
  Duration := unit; ParseDuration s := None; div_milliseconds d := 0
|}.
#[local] Existing Instance no_time.

Definition example_document : json := JObject [
  ("definitions", JArray [JObject [("name", JString "sizes"); ("value", JString "request.size")]]);
  ("metrics", JArray [JObject [("dimensions", JObject [("host", JString "request.host")]);
                               ("tags_to_remove", JArray [JString "response_flags"])]])].

Definition example_json : NlohmannJson := one_document "{...}" example_document.
#[local] Existing Instance example_json.

(** A host that gives out tokens in order and evaluates every expression. *)
Definition config_host (text : string) : handler HostCall Z :=
  fun X e s =>
    match e in HostCall X return X * Z with
    | CreateExpression _ => ((Ok, s + 1), s + 1)
    | EvaluateString _ => (Some "v", s)
    | EvaluateInt _ => (Some 7, s)
    | GetInt64 _ => (Some 200, s)
    | GetBuffer PluginConfiguration _ _ => (Some text, s)
    | ResolveFullName t n => (length_id t n, s)
    | e => (quiet_answer e, s)
    end.

(** A request from its headers to its log and its end. *)
Definition request (id : Z) : list root_event :=
  Stream <$> [Create id; RequestHeaders id; ResponseHeaders id; Tick; Log id; Tick; Destroy id].

Definition example_life : list root_event := Configure 0 :: request 1 ++ request 2 ++ [Configure 0; Done'].

Definition example_run := run (config_host "{...}") (life false example_life) 0.

Lemma dimensions_in_range_witness :
  match result example_run with
  | Done w => Forall (fun g => is_Some (stat_name g (istio_dimensions_ (root w)))) (stats_ (root w))
  | Undefined why => why ∉ out_of_range
  | NoFuel => True
  end.
Proof. apply (dimensions_in_range false example_life (trace example_run)). apply run_traces. Defined.

Lemma no_dangling_request_witness :
  match result example_run with
  | Done w => forall c p, request_queue_ (root w) !! c = Some p ->
      (∅ : gmap Z bool) !! p = Some false /\ is_Some (streams w !! p)
  | Undefined why => why ∉ memory_errors
  | NoFuel => True
  end.
Proof.
  apply (no_dangling_request false example_life ∅ (trace example_run)); [|apply run_traces].
  vm_compute. reflexivity.
Defined.

(** The statistics of the example: eleven, with a tag more and one less. *)
Definition statistics {X Y} (e : exec HostCall X world) (f : StatGen -> Y) : list Y :=
  match result e with Done w => f <$> stats_ (root w) | _ => [] end.

Example example_statistics :
  length (statistics example_run metric_name) = 11%nat /\
  forallb (fun g => bool_decide ("host" ∈ metric_tags g) && bool_decide ("response_flags" ∉ metric_tags g))
    (statistics example_run id) = true.
Proof. split; vm_compute; reflexivity. Qed.

(** A configuration that is rejected leaves the fallback flag without a value, and
    the next request reads it. *)
Example rejected_configuration_reads_flag :
  result (run (config_host "not JSON") (life false (Configure 0 :: request 1)) 0) =
  Undefined "read of an indeterminate flag".
Proof. vm_compute. reflexivity. Qed.
