(* ===== verification/StatsExpressions.v ===== *)
(** * The telemetry of Istio: the expressions of the host

    The plugin of [Stats] and [StatsConfig] against the host's table of
    expressions ([Expressions]): what it creates it deletes, and the values of
    dimensions are those of live expressions.  The values of metrics are not,
    once the plugin is configured again: the cached statistics keep the tokens of
    the configuration that resolved them. *)

From stdpp Require Import base tactics numbers list strings gmap fin_maps.
From Stdlib Require Import ZArith Lia.
From S2P Require Import Prelude HostApi Absl Json Expressions ResponseFlags Context Stats StatsConfig.
Local Open Scope Z_scope.
Local Open Scope wasm_scope.

(** The expressions that the plugin holds. *)
Definition tokens (ctx : PluginRootContext) : list Z := (expressions_ ctx).*1 ++ int_expressions_ ctx.

(** The extractor's expression, if it has one, is one of [ints]. *)
Definition extractor_in (ints : Z -> Prop) (e : ValueExtractor) : Prop :=
  match e with IntExpression t => ints t | _ => True end.

Record ints_in (ints : Z -> Prop) (ctx : PluginRootContext) : Prop := {
  stats_in : Forall (fun g => extractor_in ints (extractor_ g)) (stats_ ctx);
  cache_in : map_Forall (fun _ => Forall (fun st => extractor_in ints (value_fn_ st))) (metrics_ ctx)
}.

(** What a report keeps. *)
Definition keeps_expressions (ints : Z -> Prop) (ctx ctx' : PluginRootContext) : Prop :=
  expressions_ ctx' = expressions_ ctx /\ int_expressions_ ctx' = int_expressions_ ctx /\
  (ints_in ints ctx -> ints_in ints ctx').

Section reports.
Context `{A : AbslStrings} `{F : Flatbuffers} `{U : UnorderedMap} (strings ints : Z -> Prop).

Local Abbreviation evaluating := (calls (fun X => @evaluates strings ints X)).

Lemma record_calls st r : extractor_in ints (value_fn_ st) -> evaluating (record st r).
Proof.
  intros He. unfold record. apply calls_bind; [|intros [v r1]; calls_tac].
  destruct (value_fn_ st); simpl in *; try done. by destruct (duration r).
Qed.

Lemma record_all_calls stats e r :
  Forall (fun st => extractor_in ints (value_fn_ st)) stats -> evaluating (record_all stats e r).
Proof.
  intros Hf. revert r. induction Hf as [|st stats Hs _ IH]; intros r; cbn [record_all]; [done|].
  apply calls_bind; [|done]. destruct (e || _); [by apply record_calls|done].
Qed.

Lemma resolve_all_calls gens d e r :
  Forall (fun g => extractor_in ints (extractor_ g)) gens ->
  evaluating (resolve_all gens d e r) /\
  returns (fun p => Forall (fun st => extractor_in ints (value_fn_ st)) (fst p)) (resolve_all gens d e r).
Proof.
  intros Hf. revert r. induction Hf as [|g gens Hg _ IH]; intros r; cbn [resolve_all]; [split; [done|constructor]|].
  destruct (negb _); [apply IH|].
  assert (evaluating (resolve g d) /\ returns (fun st => extractor_in ints (value_fn_ st)) (resolve g d))
    as [Hc Hr] by (unfold resolve; destruct (stat_name g d); simpl; auto). split.
  - eapply calls_returns_bind; [exact Hc|exact Hr|]. intros st Hst.
    apply calls_bind; [destruct (e || _); [by apply record_calls|done]|]. intros r1.
    apply calls_bind; [apply IH|]. by intros [stats r2].
  - eapply returns_bind; [exact Hr|]. intros st Hst. eapply (returns_bind (fun _ => True)).
    { apply returns_true. }
    intros r1 _. eapply returns_bind; [apply IH|]. intros [stats r2] Hs. by constructor.
Qed.

Lemma report_stats_calls r e ctx :
  ints_in ints ctx -> evaluating (report_stats r e ctx).
Proof.
  intros [Hs Hc]. unfold report_stats. destruct (metrics_ ctx !! _) as [stats|] eqn:E.
  - apply calls_bind; [apply record_all_calls; by eapply Hc|]. intros r1. cbn zeta. calls_tac.
  - apply calls_bind; [by apply resolve_all_calls|]. intros [stats r1]. calls_tac.
Qed.

Lemma report_stats_keeps r e ctx :
  returns (fun p => keeps_expressions ints ctx (snd p)) (report_stats r e ctx).
Proof.
  unfold report_stats. destruct (metrics_ ctx !! _) as [stats|] eqn:E.
  - apply (returns_bind (fun _ => True)); [apply returns_true|]. intros r1 _. cbn zeta.
    case_decide; [intros []|]; (split_and!; [done..|]); intros [H1 H2]; by split.
  - eapply (returns_bind (fun p => ints_in ints ctx ->
      Forall (fun st => extractor_in ints (value_fn_ st)) (fst p))).
    { apply returns_impl. intros [Hs _]. by apply resolve_all_calls. }
    intros [stats r1] Hst []. (split_and!; [done..|]). intros Hi. specialize (Hst Hi). destruct Hi as [H1 H2].
    split; [done|]. by apply map_Forall_insert_2.
Qed.
Lemma prepare_calls r e ctx :
  (forall t, t ∈ (expressions_ ctx).*1 -> strings t) -> evaluating (prepare r e ctx).
Proof.
  intros Ht. unfold prepare, make_PeerNodeInfo, useHostHeaderFallback, populate, populateTCPRequestInfo,
    populateHTTPRequestInfo, populateRequestProtocol, populateRequestInfo, populate_fields,
    populateDestinationService, getServiceNameFallback, populateGRPCInfo, fill, getValue,
    getValueOr, get_peer, map, deref, extractPeerMetadataFromUpstreamHostMetadata,
    extractPeerMetadataFromUpstreamMetadata.
  calls_tac. generalize count_standard_labels. generalize dependent a2. clear -Ht.
  induction (expressions_ ctx) as [|[token x] es IH]; intros a2 i; cbn [evaluate_expressions]; [done|].
  split; [apply Ht; by left|]. intros v. case_decide; [|done]. apply IH. intros t Hin. apply Ht. by right.
Qed.

Lemma report_calls r e ctx :
  ints_in ints ctx -> (forall t, t ∈ (expressions_ ctx).*1 -> strings t) -> evaluating (report r e ctx).
Proof.
  intros Hi Ht. unfold report. destruct (negb _); [done|]. apply calls_bind; [by apply prepare_calls|].
  intros [[r1 d]|]; [|done]. apply report_stats_calls. by destruct Hi.
Qed.

Lemma report_keeps r e ctx : returns (fun p => keeps_expressions ints ctx (snd p)) (report r e ctx).
Proof.
  unfold report. destruct (negb _); [done|]. apply (returns_bind (fun _ => True)); [apply returns_true|].
  intros [[r1 d]|] _; [|done]. set (ctx1 := ctx <| istio_dimensions_ := d |>).
  eapply returns_mono; [|apply (report_stats_keeps r1 e ctx1)]. intros [r2 c] (H1 & H2 & H3).
  split_and!; [done..|]. intros [? ?]. by apply H3.
Qed.
(** A root whose expressions may be evaluated. *)
Definition may_report (ctx : PluginRootContext) : Prop :=
  ints_in ints ctx /\ forall t, t ∈ (expressions_ ctx).*1 -> strings t.

Lemma may_report_keeps ctx ctx' : keeps_expressions ints ctx ctx' -> may_report ctx -> may_report ctx'.
Proof. intros (H1 & H2 & H3) [Hi Ht]. split; [auto|by rewrite H1]. Qed.

(** A step of the world that only reports. *)
Definition reports (w : world) (m : host_prog world) : Prop :=
  (may_report (root w) -> evaluating m) /\
  returns (fun w' => keeps_expressions ints (root w) (root w')) m.

Lemma keeps_refl ctx : keeps_expressions ints ctx ctx.
Proof. done. Qed.

Lemma report_stream_reports id e w : reports w (report_stream id e w).
Proof.
  unfold report_stream, request_info_. destruct (streams w !! id); [|done]. rewrite bind_ret. split.
  - intros [Hi Ht]. apply calls_bind; [by apply report_calls|]. by intros [r' ctx'].
  - eapply returns_bind; [apply report_keeps|]. by intros [r' ctx'] Hk.
Qed.

Lemma tick_all_reports queue w : reports w (tick_all queue w).
Proof.
  revert w. induction queue as [|[id p] queue IH]; intros w; cbn [tick_all]; [by split|].
  destruct (report_stream_reports p false w) as [Hc Hr]. split.
  - intros Hm. split; [exact I|]. intros b. destruct b; cbn [negb]; [|by apply IH].
    split; [exact I|]. intros []. eapply calls_returns_bind; [by apply Hc|exact Hr|].
    intros w' Hk. apply IH. exact (may_report_keeps _ _ Hk Hm).
  - intros b. destruct b; cbn [negb]; [|apply IH]. intros []. eapply returns_bind; [exact Hr|].
    intros w' (H1 & H2 & H3). eapply returns_mono; [|apply IH]. intros w2 (G1 & G2 & G3).
    split_and!; [congruence..|auto].
Qed.

Lemma handle_reports ev w : reports w (handle ev w).
Proof.
  destruct (quiet_event ev) eqn:Hq.
  - split.
    + intros _. destruct ev; try done; cbn [handle]; unfold onRequestHeaders, onResponseHeaders,
        onNewConnection, onDownstreamData, onUpstreamData, request_info_, populateRequestProtocol,
        useHostHeaderFallback, fill, getValue, deref; calls_tac.
    + eapply returns_mono; [|apply handle_quiet; by rewrite Hq]. intros w' [q ->].
      split_and!; [done..|]. intros [? ?]. by split.
  - destruct ev; try done; cbn [handle]; [|apply tick_all_reports]. unfold onLog, request_info_.
    cbn zeta. destruct (streams _ !! id); [|done]. rewrite bind_ret.
    set (w1 := set_request_info _ _ _). destruct (report_stream_reports id true w1) as [Hc Hr].
    split; [intros [[? ?] ?]; by apply Hc|]. eapply returns_mono; [|exact Hr]. intros w' (H1 & H2 & H3).
    split_and!; [done..|]. intros [? ?]. by apply H3.
Qed.
End reports.

(** ** The table *)

Section table.
Context `{A : AbslStrings} `{F : Flatbuffers} `{U : UnorderedMap} `{J : NlohmannJson} `{T : AbslTime}.
Context {S : Type} (h : handler HostCall S).

(** The events that are looked at: all but, perhaps, the values of metrics. *)
Context (seen : host_event -> bool) (seen_others : forall ev, is_int ev = false -> seen ev = true).

Definition observed (tr : list host_event) : list host_event := filter (fun ev => seen ev = true) tr.

(** A program that takes the live tokens [live] to others, which its result
    tells. *)
Definition tracks {X} (live : list Z) (Q : X -> list Z -> Prop) (m : host_prog X) : Prop :=
  runs_with h (fun tr a => exists live', owns live (observed tr) live' /\ Q a live') m.

Lemma tracks_ret {X} live (Q : X -> list Z -> Prop) a : Q a live -> tracks live Q (mret a).
Proof. intros HQ. apply runs_with_ret. exists live. split; [apply owns_nil|done]. Qed.

Lemma tracks_bind {X Y} live (P : X -> list Z -> Prop) (Q : Y -> list Z -> Prop)
    (m : host_prog X) (k : X -> host_prog Y) :
  tracks live P m -> (forall a live', P a live' -> tracks live' Q (k a)) -> tracks live Q (m ≫= k).
Proof.
  intros Hm Hk. eapply runs_with_bind; [exact Hm|]. intros t a (l1 & H1 & Ha).
  eapply runs_with_mono; [|by apply (Hk a l1)]. intros t' b (l2 & H2 & Hb).
  exists l2. unfold observed. rewrite filter_app. split; [by eapply owns_app|done].
Qed.

Lemma tracks_perm {X} live live' (Q : X -> list Z -> Prop) (m : host_prog X) :
  live ≡ₚ live' -> tracks live Q m -> tracks live' Q m.
Proof.
  intros Hl. apply runs_with_mono. intros t a (l & Ho & Ha). exists l. split; [by rewrite <- Hl|done].
Qed.

Lemma tracks_create {X} input live (Q : X -> list Z -> Prop) (k : WasmResult * Z -> host_prog X) :
  (forall r t, tracks (if decide (r = Ok) then live ++ [t] else live) Q (k (r, t))) ->
  tracks live Q (trigger (CreateExpression input) ≫= k).
Proof.
  intros Hk. eapply (tracks_bind _ (fun rt l => l = if decide (fst rt = Ok) then live ++ [snd rt] else live)).
  - apply runs_with_traces. intros tr [r t] (x & tr' & -> & -> & [= <-]). eexists. split; [|done].
    unfold observed. rewrite filter_cons_True by (by apply seen_others). eexists. split; [done|]. done.
  - intros [r t] l ->. apply Hk.
Qed.

Lemma tracks_delete tokens rest : tracks (tokens ++ rest) (fun _ l => l = rest) (delete_all tokens).
Proof.
  apply runs_with_traces. intros tr u Ht. exists rest. split; [|done].
  assert (observed tr = tr) as ->.
  { unfold observed. clear rest. revert tr Ht. induction tokens as [|t tokens IH]; intros tr; cbn.
    - by intros [-> _].
    - intros ([] & tr' & -> & Ht). rewrite filter_cons_True by (by apply seen_others).
      by rewrite IH. }
  apply (delete_all_table_app _ rest) in Ht. by exists rest.
Qed.

(** A program that only evaluates. *)
Lemma tracks_evaluates {X} strings ints live (Q : X -> Prop) (m : host_prog X) :
  calls (fun X => @evaluates strings ints X) m -> returns Q m ->
  (forall t, strings t -> t ∈ live) ->
  (forall t x, seen (Ev (EvaluateInt t) x) = true -> ints t -> t ∈ live) ->
  tracks live (fun a l => l = live /\ Q a) m.
Proof.
  intros Hc Hr Hs Hi. apply runs_with_traces. intros tr a Ht. exists live.
  split; [|split; [done|by eapply returns_traces] ].
  pose proof (calls_traces _ _ _ _ Hc Ht) as Hf. exists live. split; [|done]. clear -Hf Hs Hi.
  induction Hf as [|ev tr He _ IH]; [done|]. unfold observed in *. rewrite filter_cons.
  case_decide as Hd; [|done]. destruct ev as [Y e y]. simpl in He. cbn [table].
  rewrite (evaluates_table strings (fun t => ints t /\ t ∈ live)); [done| |done|tauto].
  destruct e; try done. split; [done|]. by eapply Hi.
Qed.
(** *** Configuration *)

Lemma tracks_iterate {X St} (I : St -> list Z -> Prop) (visitor : X -> St -> host_prog (bool * St)%type)
    l st live :
  (forall x st live, I st live -> tracks live (fun p l => I (snd p) l) (visitor x st)) ->
  I st live -> tracks live (fun p l => I (snd p) l) (iterate visitor l st).
Proof.
  intros Hv. revert st live. induction l as [|x l IH]; intros st live Hi; cbn [iterate].
  { by apply tracks_ret. }
  eapply tracks_bind; [by apply Hv|]. intros [ok st1] l1 H1. destruct ok; [by apply IH|by apply tracks_ret].
Qed.

Lemma tracks_array {St} (I : St -> list Z -> Prop) j field
    (visitor : json -> St -> host_prog (bool * St)%type) st live :
  (forall x st live, I st live -> tracks live (fun p l => I (snd p) l) (visitor x st)) ->
  I st live -> tracks live (fun p l => I (snd p) l) (JsonArrayIterate j field visitor st).
Proof.
  intros Hv Hi. unfold JsonArrayIterate. destruct (find j field) as [[]|]; try by apply tracks_ret.
  by apply tracks_iterate.
Qed.

Section config.
Context (cache : gmap IstioDimensions (list SimpleStat)).

(** The cache is left alone. *)
Definition root_owns (ctx : PluginRootContext) (live : list Z) : Prop :=
  live ≡ₚ tokens ctx /\ metrics_ ctx = cache.

Definition held (ctx : PluginRootContext) (e : ValueExtractor) : Prop :=
  extractor_in (fun t => t ∈ int_expressions_ ctx) e.

Definition locals_own (l : Locals.locals) (live : list Z) : Prop :=
  root_owns (Locals.this l) live /\
  map_Forall (fun _ f => held (Locals.this l) (factory_extractor f)) (Locals.factories l).

Lemma held_mono ctx ctx' e :
  (forall t, t ∈ int_expressions_ ctx -> t ∈ int_expressions_ ctx') -> held ctx e -> held ctx' e.
Proof. unfold held. destruct e; simpl; auto. Qed.

Lemma cleanup_tracks ctx live :
  root_owns ctx live ->
  tracks live (fun ctx' l => root_owns ctx' l /\ tokens ctx' = [] /\ stats_ ctx' = stats_ ctx)
    (cleanupExpressions ctx).
Proof.
  intros [Hl Hc]. eapply tracks_perm; [symmetry; exact Hl|]. unfold cleanupExpressions, tokens.
  eapply tracks_bind; [apply tracks_delete|]. intros _ l ->.
  pose proof (tracks_delete (int_expressions_ ctx) []) as Hd. rewrite app_nil_r in Hd.
  eapply tracks_bind; [exact Hd|].
  intros _ l ->. apply tracks_ret. by repeat split.
Qed.

Lemma add_string_tracks input ctx live :
  root_owns ctx live ->
  tracks live (fun p l => root_owns (snd p) l /\ int_expressions_ (snd p) = int_expressions_ ctx)
    (addStringExpression input ctx).
Proof.
  intros [Hl Hc]. unfold addStringExpression. destruct (input_expressions_ ctx !! input).
  { by apply tracks_ret. }
  apply tracks_create. intros r t. destruct (decide (r = Ok)) as [->|Hr].
  - rewrite decide_False by tauto. apply tracks_ret. split; [|done]. split; [|done]. unfold tokens. cbn.
    rewrite fmap_app, Hl. unfold tokens. cbn. rewrite <- !app_assoc. apply Permutation_app_head.
    apply Permutation_app_comm.
  - rewrite decide_True by done. by apply tracks_ret.
Qed.

Lemma visit_definition_tracks j l live :
  locals_own l live -> tracks live (fun p l => locals_own (snd p) l) (visit_definition j l).
Proof.
  intros [[Hl Hc] Hf]. unfold visit_definition. cbn zeta.
  case_decide; [by apply tracks_ret|]. unfold addIntExpression.
  eapply (tracks_bind _ (fun (p : option Z * PluginRootContext) live' =>
    locals_own (l <| Locals.this := snd p |>) live' /\
    forall t, fst p = Some t -> t ∈ int_expressions_ (snd p))).
  - apply tracks_create. intros r t. destruct (decide (r = Ok)) as [->|Hr].
    + rewrite decide_False by tauto. apply tracks_ret. split.
      * split; [split; [|done]|].
        -- unfold tokens. cbn. rewrite Hl. unfold tokens. by rewrite app_assoc.
        -- eapply map_Forall_impl; [exact Hf|]. intros k f. apply held_mono. cbn. intros t' Ht.
           apply elem_of_app. by left.
      * intros t' [= <-]. cbn. apply elem_of_app. right. by left.
    + rewrite decide_True by done. apply tracks_ret. split; [|done]. by split.
  - intros [[t|] ctx] live' [[Ho Hf'] Ht]; [|by apply tracks_ret]. apply tracks_ret. split; [done|].
    simpl in *. apply map_Forall_insert_2; [|done]. by apply Ht.
Qed.

Lemma override_tags_tracks tags metric factory l live :
  locals_own l live -> tracks live (fun p l => locals_own (snd p) l) (override_tags tags metric factory l).
Proof.
  revert l live. induction tags as [|tag tags IH]; intros l live Ho; cbn [override_tags].
  { by apply tracks_ret. }
  unfold dimension. destruct (find metric "dimensions" ≫= _) as [expr|]; [|by intros s a].
  rewrite bind_ret. destruct (JsonValueAs_string expr) as [[e|] []]; try by apply tracks_ret.
  destruct Ho as [Ho Hf]. eapply tracks_bind; [by apply add_string_tracks|].
  intros [o ctx] live' [Ho' Hi]. apply IH. unfold set_tag.
  destruct (default ∅ _ !! tag); (split; [done|]); (eapply map_Forall_impl; [exact Hf|]);
    intros k f; apply held_mono; simpl in *; by rewrite Hi.
Qed.

Lemma override_factories_tracks keys name tags metric l live :
  locals_own l live ->
  tracks live (fun p l => locals_own (snd p) l) (override_factories keys name tags metric l).
Proof.
  revert l live. induction keys as [|factory keys IH]; intros l live Ho; cbn [override_factories].
  { by apply tracks_ret. }
  case_decide; [by apply IH|]. destruct (value_or _ _).
  { apply IH. destruct Ho as [Ho Hf]. split; [done|]. simpl. by apply map_Forall_delete. }
  eapply tracks_bind.
  { apply (tracks_array (fun _ live' => live' = live)); [|done]. intros x ix live' ->. unfold remove_tag.
    destruct (JsonValueAs_string x) as [[t|] []]; by apply tracks_ret. }
  intros [ok ix] ? ->. cbn zeta. destruct ok; cbn [negb]; [|by apply tracks_ret].
  eapply tracks_bind; [by apply override_tags_tracks|]. intros [ok l2] live2 H2.
  destruct ok; cbn [negb]; [by apply IH|by apply tracks_ret].
Qed.

Lemma visit_metric_tracks metric l live :
  locals_own l live -> tracks live (fun p l => locals_own (snd p) l) (visit_metric metric l).
Proof.
  intros Ho. unfold visit_metric.
  destruct (object_iterate_keys (E := HostCall) metric "dimensions" []) as (ok & keys & -> & Hk).
  rewrite bind_ret. destruct ok; cbn [negb]; [by apply override_factories_tracks|by apply tracks_ret].
Qed.

Lemma seeded_owns ctx live : root_owns ctx live -> locals_own (seeded ctx) live.
Proof.
  intros Ho. unfold seeded.
  assert (Forall (fun f => forall ctx, held ctx (factory_extractor f)) defaultMetrics) as Hd.
  { repeat constructor. }
  assert (forall l, locals_own l live -> locals_own (foldl seed l defaultMetrics) live) as Hf.
  { induction Hd as [|f fs Hf _ IH]; intros l [Hl Hm]; simpl; [by split|]. apply IH. split; [done|].
    simpl. by apply map_Forall_insert_2. }
  apply Hf. split; [done|apply map_Forall_empty].
Qed.

Lemma process_tracks j ctx live : root_owns ctx live -> tracks live locals_own (process j ctx).
Proof.
  intros Ho. unfold process. eapply tracks_bind.
  { apply (tracks_array locals_own); [apply visit_definition_tracks|by apply seeded_owns]. }
  intros [ok l] live1 H1. eapply tracks_bind.
  { apply (tracks_array locals_own); [apply visit_metric_tracks|exact H1]. }
  intros [ok' l'] live2 H2. by apply tracks_ret.
Qed.
(** Programs without expressions. *)
Lemma tracks_quiet {X} live (Q : X -> Prop) (m : host_prog X) :
  calls (fun X => @evaluates (fun _ => False) (fun _ => False) X) m -> returns Q m ->
  tracks live (fun a l => l = live /\ Q a) m.
Proof. intros Hc Hr. by eapply tracks_evaluates. Qed.

Definition stats_held (ctx : PluginRootContext) : Prop :=
  Forall (fun g => held ctx (extractor_ g)) (stats_ ctx).

Lemma make_stats_held ctx fs l sp fsep vsep live :
  Forall (fun nf => held ctx (factory_extractor (snd nf))) fs ->
  tracks live (fun stats l => l = live /\ Forall (fun g => held ctx (extractor_ g)) stats)
    (make_stats fs l sp fsep vsep).
Proof.
  intros Hf. apply tracks_quiet; induction Hf as [|[name f] fs Hx _ IH]; cbn [make_stats]; try done;
    unfold make_StatGen; cbn zeta.
  - case_decide; [done|]. rewrite bind_ret. apply calls_bind; [exact IH|done].
  - simpl. constructor.
  - case_decide; [done|]. rewrite bind_ret. eapply returns_bind; [exact IH|].
    intros stats Hs. simpl. by constructor.
Qed.

Lemma initialize_tracks j ctx live :
  root_owns ctx live ->
  tracks live (fun p l => root_owns (snd p) l /\ stats_held (snd p)) (initializeDimensions j ctx).
Proof.
  intros Ho. unfold initializeDimensions. eapply tracks_bind; [by apply cleanup_tracks|].
  intros c1 l1 (H1 & _). eapply tracks_bind; [by apply process_tracks|]. intros l l2 [H2 Hf]. cbn zeta.
  eapply tracks_bind.
  { apply (make_stats_held (Locals.this l)). apply Forall_forall. intros [n f].
    rewrite iteration_perm, elem_of_map_to_list. apply Hf. }
  intros stats ? [-> Hs]. eapply tracks_bind; [by apply (tracks_quiet _ (fun _ => True))|].
  intros build ? [-> _]. eapply tracks_bind; [by apply (tracks_quiet _ (fun _ => True))|].
  intros ? ? [-> _]. by apply tracks_ret.
Qed.

Lemma onConfigure_tracks size ctx live :
  root_owns ctx live ->
  tracks live (fun p l => root_owns (snd p) l /\ (stats_held ctx -> stats_held (snd p)))
    (onConfigure size ctx).
Proof.
  intros Ho. unfold onConfigure, configure.
  eapply (tracks_bind _ (fun (p : bool * PluginRootContext) l =>
    root_owns (snd p) l /\ (stats_held ctx -> stats_held (snd p))));
    [|intros [ok c] l H; by apply tracks_ret].
  eapply tracks_bind; [by apply (tracks_quiet _ (fun _ => True))|]. intros data ? [-> _].
  eapply tracks_bind.
  { apply (tracks_quiet _ (fun _ => True)); [|apply returns_true].
    unfold extractLocalNodeFlatBuffer, get_pairs, get_list, getValueOr. calls_tac. }
  intros node ? [-> _]. cbn zeta. destruct data as [text|]; [|by intros s a]. cbn [deref]. rewrite bind_ret.
  destruct (JsonParse text) as [j|]; [|by apply tracks_ret].
  eapply tracks_bind; [by apply initialize_tracks|]. intros [ok c] l [H1 H2].
  destruct ok; cbn [negb]; [|by apply tracks_ret].
  eapply tracks_bind; [by apply (tracks_quiet _ (fun _ => True))|]. intros ? ? [-> _]. by apply tracks_ret.
Qed.
End config.

(** *** Histories *)

Lemma stream_tracks ints ev w live :
  live ≡ₚ tokens (root w) -> ints_in ints (root w) ->
  (forall t x, seen (Ev (EvaluateInt t) x) = true -> ints t -> t ∈ int_expressions_ (root w)) ->
  tracks live (fun w' l => l ≡ₚ tokens (root w') /\ keeps_expressions ints (root w) (root w'))
    (handle ev w).
Proof.
  intros Hl Hi Hseen. set (strings := fun t => t ∈ (expressions_ (root w)).*1).
  destruct (handle_reports strings ints ev w) as [Hc Hr].
  eapply runs_with_mono; [|apply (tracks_evaluates strings ints live _ _ (Hc (conj Hi (fun t Ht => Ht))) Hr)].
  - intros t w' (l & Ho & -> & Hk). exists live. split; [done|]. split; [|exact Hk].
    destruct Hk as (H1 & H2 & _). rewrite Hl. unfold tokens. by rewrite H1, H2.
  - intros t Ht. rewrite Hl. apply elem_of_app. by left.
  - intros t x Hx Ht. rewrite Hl. apply elem_of_app. right. by eapply Hseen.
Qed.

Lemma handle_root_tracks ev w live :
  (forall t x, seen (Ev (EvaluateInt t) x) = false) -> live ≡ₚ tokens (root w) ->
  tracks live (fun w' l => l ≡ₚ tokens (root w')) (handle_root ev w).
Proof.
  intros Hunseen Hl. destruct ev as [size| |ev]; cbn [handle_root].
  - eapply tracks_bind; [by apply (onConfigure_tracks (metrics_ (root w)))|].
    intros [ok c] l [[H _] _]. by apply tracks_ret.
  - eapply (tracks_bind _ (fun (p : bool * PluginRootContext) l => l ≡ₚ tokens (snd p)));
      [|intros [ok c] l H; by apply tracks_ret].
    unfold onDone. eapply tracks_bind; [by apply (cleanup_tracks (metrics_ (root w)))|].
    intros c l [[H _] _]. by apply tracks_ret.
  - eapply runs_with_mono; [|eapply (stream_tracks (fun _ => True)); [exact Hl| |] ].
    + intros t w' (l & Ho & H & _). eauto.
    + split; [apply Forall_forall; intros g _; by destruct (extractor_ g)|].
      intros d stats _. apply Forall_forall. intros st _. by destruct (value_fn_ st).
    + intros t x Hx. by rewrite Hunseen in Hx.
Qed.

Lemma life_tracks evs w live :
  (forall t x, seen (Ev (EvaluateInt t) x) = false) -> live ≡ₚ tokens (root w) ->
  tracks live (fun w' l => l ≡ₚ tokens (root w')) (handle_life evs w).
Proof.
  intros Hunseen. revert w live. induction evs as [|ev evs IH]; intros w live Hl; cbn [handle_life].
  { by apply tracks_ret. }
  eapply tracks_bind; [by apply handle_root_tracks|]. intros w' l H. by apply IH.
Qed.

Lemma streams_track evs w live :
  live ≡ₚ tokens (root w) -> ints_in (fun t => t ∈ int_expressions_ (root w)) (root w) ->
  tracks live (fun w' l => l ≡ₚ tokens (root w')) (handle_life (Stream <$> evs) w).
Proof.
  revert w live. induction evs as [|ev evs IH]; intros w live Hl Hi; cbn [handle_life fmap list_fmap handle_root].
  { by apply tracks_ret. }
  eapply tracks_bind; [by apply (stream_tracks (fun t => t ∈ int_expressions_ (root w)))|].
  intros w' l [H1 (_ & H2 & H3)]. apply IH; [done|]. rewrite H2. auto.
Qed.
End table.

(** All events but the values of metrics. *)
Definition not_int (ev : host_event) : bool := negb (is_int ev).

Lemma not_int_seen ev : is_int ev = false -> not_int ev = true.
Proof. unfold not_int. by intros ->. Qed.

Lemma not_int_observed tr : without_ints tr = observed not_int tr.
Proof.
  unfold without_ints, observed, not_int. apply list_filter_iff. intros ev. by destruct (is_int ev).
Qed.

(** ** Theorems *)

Section expression_theorems.
Context `{A : AbslStrings} `{F : Flatbuffers} `{U : UnorderedMap} `{J : NlohmannJson} `{T : AbslTime}.
Context {S : Type} (h : handler HostCall S).

(** C23: the plugin leaks no expression and deletes none twice.  Over every history of
    configurations, also of rejected ones, of ends and of streams, the live
    expressions are those that the root has recorded; the values of dimensions
    are evaluated from live ones; and the end of the plugin deletes them all. *)
Theorem stats_expressions_not_leaked outbound evs s w :
  result (run h (life outbound evs) s) = Done w ->
  let tr := without_ints (trace (run h (life outbound evs) s)) in
  owns [] tr (tokens (root w)) /\
  forall s' w', result (run h (handle_root Done' w) s') = Done w' ->
    owns [] (tr ++ without_ints (trace (run h (handle_root Done' w) s'))) [].
Proof.
  pose proof not_int_seen as Hseen. pose proof not_int_observed as Hobs.
  intros Hr. cbn zeta. rewrite !Hobs.
  assert (owns [] (observed not_int (trace (run h (life outbound evs) s))) (tokens (root w))) as Ho.
  { assert (tracks h not_int [] (fun w' l => l ≡ₚ tokens (root w')) (life outbound evs)) as Ht.
    { unfold life. eapply (tracks_bind _ _ _ (fun ctx l => l = [] /\ tokens ctx = [])).
      - eapply tracks_evaluates with (strings := fun _ => False) (ints := fun _ => False); done.
      - intros ctx l [-> Hc]. apply life_tracks; [done|done|]. simpl. by rewrite Hc. }
    destruct (Ht _ _ Hr) as (l & Ho & Hl). by rewrite <- Hl. }
  split; [done|]. intros s' w' Hd. rewrite Hobs. eapply owns_app; [exact Ho|].
  assert (tracks h not_int (tokens (root w)) (fun _ l => l ≡ₚ []) (handle_root Done' w)) as Ht.
  { cbn [handle_root]. unfold onDone.
    eapply (tracks_bind _ _ _ (fun _ l => l ≡ₚ [])); [|intros [ok c] l H; by apply tracks_ret].
    eapply tracks_bind; [by apply (cleanup_tracks _ _ Hseen (metrics_ (root w)))|].
    intros c l ([H _] & H' & _). apply tracks_ret. by rewrite H, H'. }
  destruct (Ht _ _ Hd) as (l & H & Hl). by rewrite <- Hl.
Qed.

(** A plugin that is configured once evaluates live expressions only, those of
    metrics included, whatever happens to its streams. *)
Theorem configured_once_evaluates_live outbound size evs s w :
  result (run h (life outbound (Configure size :: (Stream <$> evs))) s) = Done w ->
  owns [] (trace (run h (life outbound (Configure size :: (Stream <$> evs))) s)) (tokens (root w)).
Proof.
  intros Hr. set (seen := fun _ : host_event => true).
  assert (forall tr, observed seen tr = tr) as Hobs.
  { intros tr. unfold observed, seen. induction tr as [|ev tr IH]; [done|].
    by rewrite filter_cons_True, IH. }
  assert (tracks h seen [] (fun w' l => l ≡ₚ tokens (root w'))
    (life outbound (Configure size :: (Stream <$> evs)))) as Ht.
  { unfold life. cbn [handle_life handle_root root].
    eapply (tracks_bind _ _ _ (fun ctx l => l = [] /\ (tokens ctx = [] /\ metrics_ ctx = ∅ /\ stats_ ctx = []))).
    { eapply tracks_evaluates with (strings := fun _ => False) (ints := fun _ => False); done. }
    intros ctx l (-> & Hc & Hm & Hs).
    eapply (tracks_bind _ _ _ (fun w1 l => root_owns ∅ (root w1) l /\ (stats_held ctx -> stats_held (root w1)))).
    { eapply tracks_bind; [apply (onConfigure_tracks h seen (fun _ _ => eq_refl) ∅);
        split; [by rewrite Hc|exact Hm]|].
      intros [ok c] l H. apply tracks_ret. exact H. }
    intros w1 l [[H1 H2] H3]. apply streams_track; [done|].
    split; [apply H3; unfold stats_held; by rewrite Hs|]. rewrite H2. apply map_Forall_empty. }
  destruct (Ht _ _ Hr) as (l & Ho & Hl). rewrite Hobs in Ho. by rewrite <- Hl.
Qed.
End expression_theorems.

(** ** Witnesses *)

#[local] Existing Instance flat_example.
#[local] Instance expressions_absl : AbslStrings := absl_reference.
#[local] Existing Instance map_order.
#[local] Existing Instance no_time.
#[local] Existing Instance example_json.

Definition run_life (evs : list root_event) := run (config_host "{...}") (life false evs) 0.
Definition end_of (evs : list root_event) : world := done_or example_world (result (run_life evs)).

Lemma stats_expressions_not_leaked_witness :
  owns [] (without_ints (trace (run_life example_life)))
    (tokens (root (end_of example_life))).
Proof.
  unfold run_life.
  refine (proj1 (stats_expressions_not_leaked (config_host "{...}") false example_life 0
    (end_of example_life) _)).
  apply is_done_or. vm_compute. reflexivity.
Defined.

Definition two_requests : list stats_event :=
  [Create 1; RequestHeaders 1; Log 1; Create 2; RequestHeaders 2; Log 2].

Lemma configured_once_evaluates_live_witness :
  owns [] (trace (run_life (Configure 0 :: (Stream <$> two_requests))))
    (tokens (root (end_of (Configure 0 :: (Stream <$> two_requests))))).
Proof.
  unfold run_life.
  refine (configured_once_evaluates_live (config_host "{...}") false 0 two_requests 0
    (end_of (Configure 0 :: (Stream <$> two_requests))) _).
  apply is_done_or. vm_compute. reflexivity.
Defined.

(** Configured again, the plugin finds the statistics of the first configuration in
    the cache, and evaluates an expression that it has deleted. *)
Definition configured_twice : list root_event :=
  Configure 0 :: request 1 ++ Configure 0 :: request 2.

Example stale_metric_evaluates_deleted :
  is_done (result (run_life configured_twice)) = true /\ table [] (trace (run_life configured_twice)) = None.
Proof. split; vm_compute; reflexivity. Qed.
