(* ===== verification/ExpressionClients.v ===== *)
(** * Plugins that share a host's table of expressions

    A virtual machine of the proxy runs several root contexts, such as
    [stats_inbound] and [stats_outbound], over one table of expressions.  What a
    plugin promises to the others is a class, [ExpressionClient]: it takes what it
    holds to what it holds, whatever else is live.  [AttributeGen] and [Stats]
    keep the promise, and any plugins that do can be mixed. *)

From stdpp Require Import base tactics numbers list strings gmap.
From Stdlib Require Import ZArith Lia.
From S2P Require Import Prelude HostApi Absl Json Expressions ResponseFlags Context AttributeGen Stats.
From S2P Require Import StatsConfig StatsExpressions.
Local Open Scope Z_scope.

(** ** The promise *)

(** The values of metrics are left out: see [StatsExpressions]. *)
Class ExpressionClient (St Ev : Type) := {
  react : Ev -> St -> host_prog St;
  held_tokens : St -> list Z;
  holds : St -> Prop;
  react_owns {S} (h : handler HostCall S) ev st :
    holds st ->
    runs_with h (fun tr st' => owns (held_tokens st) (without_ints tr) (held_tokens st') /\ holds st')
      (react ev st)
}.

#[export] Program Instance attributegen_client `{ConfigParser} :
    ExpressionClient AttributeGen.PluginRootContext AttributeGen.gen_event := {|
  react := AttributeGen.handle;
  held_tokens := tokens_;
  holds := context_live
|}.
Next Obligation.
  intros P S h ev ctx Hl. apply runs_with_traces. intros tr ctx' Ht.
  apply handle_table in Ht as [Htab Hl']; [|done]. split; [|done].
  apply owns_without_ints. by exists (tokens_ ctx').
Qed.

Section stats_client.
Context `{A : AbslStrings} `{F : Flatbuffers} `{U : UnorderedMap} `{J : NlohmannJson} `{T : AbslTime}.

#[export] Program Instance stats_client : ExpressionClient Stats.world root_event := {|
  react := handle_root;
  held_tokens w := tokens (root w);
  holds _ := True
|}.
Next Obligation.
  intros S h ev w _.
  pose proof (handle_root_tracks h not_int not_int_seen ev w (tokens (root w)) ltac:(done) ltac:(done)) as Ht.
  eapply runs_with_mono; [|exact Ht]. intros tr w' (l & Ho & Hl). split; [|done].
  by rewrite not_int_observed, <- Hl.
Qed.
End stats_client.

(** ** Plugins together *)

(** A plugin of some kind, with its state. *)
Record plugin := {
  St : Type;
  Ev : Type;
  client : ExpressionClient St Ev;
  state : St
}.
#[local] Existing Instance client.

Definition with_state (p : plugin) (st : St p) : plugin :=
  {| St := St p; Ev := Ev p; client := client p; state := st |}.

Definition tokens_of (p : plugin) : list Z := held_tokens (state p).
Definition all_tokens (ps : list plugin) : list Z := ps ≫= tokens_of.

Section system.
Context {S : Type} (h : handler HostCall S).

(** The host gives the plugins events, one at a time, in any order. *)
Inductive system : list plugin -> S -> list host_event -> list plugin -> S -> Prop :=
  | system_done ps s : system ps s [] ps s
  | system_event ps s i p ev st tr ps' s' :
      ps !! i = Some p -> result (run h (react ev (state p)) s) = Done st ->
      system (<[i := with_state p st]> ps) (final (run h (react ev (state p)) s)) tr ps' s' ->
      system ps s (trace (run h (react ev (state p)) s) ++ tr) ps' s'.

Definition all_hold (ps : list plugin) : Prop := Forall (fun p => holds (state p)) ps.

Lemma all_tokens_split ps i p :
  ps !! i = Some p -> exists rest, forall q, all_tokens (<[i := q]> ps) ≡ₚ tokens_of q ++ rest.
Proof using Type.
  intros Hi. exists (all_tokens (take i ps) ++ all_tokens (drop (Datatypes.S i) ps)). intros q.
  unfold all_tokens. rewrite insert_take_drop by (by eapply lookup_lt_Some).
  rewrite bind_app. cbn [mbind list_bind]. rewrite Permutation_app_swap_app. done.
Qed.

Lemma system_owns ps s tr ps' s' :
  all_hold ps -> system ps s tr ps' s' ->
  owns (all_tokens ps) (without_ints tr) (all_tokens ps') /\ all_hold ps'.
Proof.
  intros Hh Hs. induction Hs as [|ps s i p ev st tr ps' s' Hi Hr _ IH]; [split; [apply owns_nil|done]|].
  destruct (react_owns h ev (state p) (proj1 (Forall_lookup _ _) Hh _ _ Hi) _ _ Hr) as [Ho Hst].
  destruct IH as [IH Hall]; [by apply Forall_insert|]. split; [|done].
  unfold without_ints. rewrite filter_app. eapply owns_app; [|exact IH].
  destruct (all_tokens_split _ _ _ Hi) as [rest Hrest].
  assert (all_tokens ps ≡ₚ tokens_of p ++ rest) as Hp
    by (rewrite <- (list_insert_id ps i p Hi) at 1; apply Hrest).
  rewrite Hp, Hrest. exact (owns_frame _ rest _ _ Ho).
Qed.
End system.

(** ** Theorems *)

(** C21: plugins can share the host's expressions.  Whatever plugins keep the promise,
    such as [attributegen] and [stats] with any number of roots, start with
    nothing and get events in any order, each deletes only expressions that are live, and
    evaluates only live ones for strings and conditions, and what is live at the end is
    exactly what the plugins hold: none leaks, and none is lost to another plugin.
    The evaluations of integers, the values of defined metrics, are left out
    ([without_ints]): after a second configuration of [stats] they may be of
    expressions that are deleted. *)
Theorem plugins_share_expressions {S} (h : handler HostCall S) ps s tr ps' s' :
  all_hold ps -> all_tokens ps = [] -> system h ps s tr ps' s' ->
  owns [] (without_ints tr) (all_tokens ps').
Proof. intros Hh <- Hs. by apply (system_owns h ps s tr ps' s'). Qed.

(** ** Witnesses *)

Section client_witnesses.
#[local] Existing Instance flat_example.
#[local] Existing Instance expressions_absl.
#[local] Existing Instance map_order.
#[local] Existing Instance no_time.
#[local] Existing Instance example_json.
#[local] Existing Instance example_parser.

Definition shared_host : handler HostCall Z := config_host "{...}".

(** The two roots of [stats], and a root of [attributegen]. *)
Definition stats_plugin (outbound : bool) : plugin := {|
  St := Stats.world; Ev := root_event; client := stats_client;
  state := {| root := done_or example_root (result (run shared_host (new_root outbound) 0)); streams := ∅ |}
|}.

Definition gen_plugin (ctx : AttributeGen.PluginRootContext) : plugin := {|
  St := AttributeGen.PluginRootContext; Ev := AttributeGen.gen_event; client := attributegen_client; state := ctx
|}.

Definition three_plugins : list plugin := [stats_plugin false; gen_plugin blank; stats_plugin true].

(** One event, whose end is computed. *)
Lemma system_run {S} (h : handler HostCall S) ps s i p ev tr ps' s' :
  ps !! i = Some p -> is_done (result (run h (react ev (state p)) s)) = true ->
  system h (<[i := with_state p (done_or (state p) (result (run h (react ev (state p)) s)))]> ps)
    (final (run h (react ev (state p)) s)) tr ps' s' ->
  system h ps s (trace (run h (react ev (state p)) s) ++ tr) ps' s'.
Proof.
  intros Hi Hd. apply (system_event h ps s i p ev); [done|]. by apply is_done_or.
Qed.

Lemma plugins_share_expressions_witness :
  exists tr ps' s', system shared_host three_plugins 0 tr ps' s' /\
    length (all_tokens ps') = 7%nat /\ owns [] (without_ints tr) (all_tokens ps').
Proof.
  eexists _, _, _.
  eassert (system shared_host three_plugins 0 _ _ _) as Hs.
  { eapply (system_run _ _ _ 0 (stats_plugin false) (StatsConfig.Configure 0)); [reflexivity|vm_compute; reflexivity|].
    eapply (system_run _ _ _ 1 (gen_plugin _) (AttributeGen.Configure 0)); [reflexivity|vm_compute; reflexivity|].
    eapply (system_run _ _ _ 2 (stats_plugin true) (StatsConfig.Configure 0)); [reflexivity|vm_compute; reflexivity|].
    eapply (system_run _ _ _ 1 (gen_plugin _) (AttributeGen.Request)); [reflexivity|vm_compute; reflexivity|].
    apply system_done. }
  split; [exact Hs|]. split; [vm_compute; reflexivity|].
  eapply (plugins_share_expressions shared_host three_plugins 0).
  - apply Forall_cons. split; [exact I|]. apply Forall_cons. split; [constructor|].
    apply Forall_cons. split; [exact I|constructor].
  - vm_compute. reflexivity.
  - exact Hs.
Defined.
End client_witnesses.
