(* ===== verification/StatsTags.v ===== *)
(** * The telemetry of Istio: the tags of a metric

    What an entry of [metrics] in the configuration makes of the tags of the
    metrics it names: a tag with an expression is at the expression's position, a
    tag that is removed is gone, and the others are where they were.  An entry that
    is malformed stops in the middle of the first metric that it names, and an
    expression that the host rejects removes its tag. *)

From stdpp Require Import base tactics numbers list strings gmap fin_maps sorting.
From Stdlib Require Import ZArith Lia.
From S2P Require Import Prelude HostApi Absl Json Expressions ResponseFlags Context Stats StatsConfig.
Local Open Scope Z_scope.

(** ** What an entry says *)

(** The entry is about the metric: an empty name is about all. *)
Definition selects (name factory : string) : bool :=
  bool_decide (name = EmptyString) || bool_decide (name = factory).

(** What the entry has for a tag. *)
Definition dimension_of (metric : json) (tag : string) : option json :=
  dimensions ← find metric "dimensions"; find dimensions tag.

(** The expression that the entry gives to a tag. *)
Definition expression_of (metric : json) (tag : string) : option string :=
  expr ← dimension_of metric tag;
  match expr with JString e => Some e | _ => None end.

Definition is_tag (tag : string) (x : json) : bool :=
  match x with JString s => bool_decide (s = tag) | _ => false end.

Definition is_string (x : json) : bool := match x with JString _ => true | _ => false end.

(** The entry removes the tag. *)
Definition removes (metric : json) (tag : string) : bool :=
  match find metric "tags_to_remove" with
  | Some (JArray elems) => existsb (is_tag tag) (take_ok is_string elems)
  | _ => false
  end.

(** All the tags to remove can be read. *)
Definition removes_all (metric : json) : bool :=
  match find metric "tags_to_remove" with
  | None => true
  | Some (JArray elems) => forallb is_string elems
  | Some _ => false
  end.

(** The dimensions that are no expressions. *)
Definition bad_tags (metric : json) : list string :=
  match find metric "dimensions" with
  | Some (JObject members) =>
      List.filter (fun tag => match expression_of metric tag with Some _ => false | None => true end) members.*1
  | _ => []
  end.

(** The entry fails in the first metric that it is processed for. *)
Definition malformed (metric : json) : bool :=
  negb (removes_all metric && match bad_tags metric with [] => true | _ => false end).

(** The expressions that are processed: in the order of the tags, up to the first that
    is none, and after all the tags to remove. *)
Definition overrides (metric : json) (tag : string) : option string :=
  if removes_all metric && forallb (String.leb tag) (bad_tags metric) then expression_of metric tag else None.

(** The host compiles an expression or not, as its text is. *)
Definition answered (accepts : string -> bool) (ev : host_event) : Prop :=
  match ev with Ev (CreateExpression e) (r, _) => r = Ok <-> accepts e = true | _ => True end.

(** The host compiled every expression. *)
Definition created (ev : host_event) : Prop :=
  match ev with Ev (CreateExpression _) (r, _) => r = Ok | _ => True end.

Lemma created_answered ev : created ev -> answered (fun _ => true) ev.
Proof. destruct ev as [? [] a]; simpl; try done. by destruct a. Qed.

Lemma overrides_all metric tag : malformed metric = false -> overrides metric tag = expression_of metric tag.
Proof.
  unfold malformed, overrides. intros [-> Hb]%negb_false_iff%andb_true_iff. by destruct (bad_tags metric).
Qed.

(** ** Invariants *)

(** The cache of inputs is the inverse of the expressions. *)
Definition inputs_exact (ctx : PluginRootContext) : Prop :=
  forall e k, input_expressions_ ctx !! e = Some k <-> snd <$> expressions_ ctx !! k = Some e.

Definition tag_index (l : Locals.locals) (factory tag : string) : option (option nat) :=
  default ∅ (Locals.metric_indexes l !! factory) !! tag.

Definition tags_of (l : Locals.locals) (factory : string) : list string :=
  default [] (Locals.metric_tags l !! factory).

(** The tags are those that have an index or had one. *)
Definition indexed (l : Locals.locals) (factory : string) : Prop :=
  forall tag, tag ∈ tags_of l factory <-> is_Some (tag_index l factory tag).

Lemma kept_tags_spec l factory tag i :
  indexed l factory -> (tag, i) ∈ kept_tags l factory <-> tag_index l factory tag = Some (Some i).
Proof.
  intros Hi. unfold kept_tags. rewrite list_elem_of_omap. split.
  - intros (t & _ & H). apply fmap_Some in H as (j & Hj & [= -> ->]).
    unfold tag_index. destruct (default ∅ _ !! t) as [o|]; [|done]. simpl in Hj. by subst.
  - intros H. exists tag. split; [apply Hi; by rewrite H|]. unfold tag_index in H. by rewrite H.
Qed.

(** The expressions that the root has were accepted. *)
Definition inputs_accepted (accepts : string -> bool) (ctx : PluginRootContext) : Prop :=
  forall e k, input_expressions_ ctx !! e = Some k -> accepts e = true.

(** Two states of the locals that agree on a metric. *)
Definition same_tags (l l' : Locals.locals) (factory : string) : Prop :=
  Locals.metric_indexes l' !! factory = Locals.metric_indexes l !! factory /\
  Locals.metric_tags l' !! factory = Locals.metric_tags l !! factory.

Lemma same_tags_trans l1 l2 l3 factory :
  same_tags l1 l2 factory -> same_tags l2 l3 factory -> same_tags l1 l3 factory.
Proof. unfold same_tags. by intros [-> ->]. Qed.

Lemma same_tags_index l l' factory tag :
  same_tags l l' factory -> tag_index l' factory tag = tag_index l factory tag.
Proof. unfold tag_index. by intros [-> _]. Qed.

Lemma same_tags_indexed l l' factory : same_tags l l' factory -> indexed l factory -> indexed l' factory.
Proof. unfold indexed, tag_index, tags_of. by intros [-> ->]. Qed.

Lemma same_tags_kept l l' factory : same_tags l l' factory -> kept_tags l' factory = kept_tags l factory.
Proof. unfold kept_tags. by intros [-> ->]. Qed.

(** What an expression adds to the root. *)
Record grows (accepts : string -> bool) (ctx ctx' : PluginRootContext) : Prop := {
  grows_exact : inputs_exact ctx -> inputs_exact ctx';
  grows_accepted : inputs_accepted accepts ctx -> inputs_accepted accepts ctx';
  grows_inputs : input_expressions_ ctx ⊆ input_expressions_ ctx'
}.

Lemma grows_refl accepts ctx : grows accepts ctx ctx.
Proof. by split. Qed.

Lemma grows_trans accepts c1 c2 c3 : grows accepts c1 c2 -> grows accepts c2 c3 -> grows accepts c1 c3.
Proof. intros [H1 H2 H3] [H4 H5 H6]. split; [auto|auto|by etrans]. Qed.

Lemma selects_spec name factory : selects name factory = true <-> ~ (name <> EmptyString /\ name <> factory).
Proof.
  unfold selects. rewrite orb_true_iff, !bool_decide_eq_true.
  destruct (decide (name = EmptyString)), (decide (name = factory)); tauto.
Qed.

Lemma iterate_pure {E X St} (f : X -> St -> St) xs st :
  iterate (M := prog E) (fun x st => mret (true, f x st)) xs st = mret (true, foldl (fun st x => f x st) st xs).
Proof. revert st. induction xs as [|x xs IH]; intros st; [done|]. cbn [iterate foldl]. by rewrite bind_ret. Qed.

Section tags.
Context `{A : AbslStrings} `{F : Flatbuffers} `{U : UnorderedMap} `{J : NlohmannJson} `{T : AbslTime}.
(** The expressions that the host compiles. *)
Context (accepts : string -> bool).

(** The position of an expression, when it has one. *)
Lemma add_string_spec e ctx tr o ctx' :
  inputs_accepted accepts ctx ->
  traces (addStringExpression e ctx) tr (Done (o, ctx')) -> Forall (answered accepts) tr ->
  grows accepts ctx ctx' /\
  if accepts e then exists k, o = Some k /\ input_expressions_ ctx' !! e = Some k else o = None.
Proof.
  intros Ha. unfold addStringExpression. destruct (input_expressions_ ctx !! e) as [k|] eqn:Ek.
  { intros [-> [= -> ->]] _. split; [apply grows_refl|]. rewrite (Ha e k Ek). eauto. }
  rewrite bind_trigger. cbn [traces]. intros ([r t] & tr' & -> & H) [Hr Hc]%Forall_cons. cbn in Hr. cbn beta iota in H.
  destruct (decide (r <> Ok)) as [Hn|Hn%dec_stable].
  { destruct H as [-> [= -> ->]]. split; [apply grows_refl|]. destruct (accepts e); naive_solver. }
  destruct H as [-> [= -> ->]]. rewrite (proj1 Hr Hn). cbn.
  split; [|by rewrite lookup_insert_eq; eauto]. split.
  - intros Hi e' k. cbn. destruct (decide (e = e')) as [<-|Hne].
    + rewrite lookup_insert_eq. split.
      * intros [= <-]. by rewrite list_lookup_middle.
      * intros Hk. f_equal. destruct (decide (k < length (expressions_ ctx))%nat) as [Hlt|Hge].
        -- rewrite lookup_app_l in Hk by done. apply Hi in Hk. congruence.
        -- apply fmap_Some in Hk as (x & Hk & _). apply lookup_lt_Some in Hk.
           rewrite length_app in Hk. simpl in Hk. lia.
    + rewrite lookup_insert_ne by done. rewrite (Hi e' k). split; intros Hk.
      * rewrite lookup_app_l; [done|]. apply fmap_Some in Hk as (x & Hk & _). by eapply lookup_lt_Some.
      * destruct (decide (k < length (expressions_ ctx))%nat) as [Hlt|Hge].
        -- by rewrite lookup_app_l in Hk.
        -- apply fmap_Some in Hk as (x & Hk & He). rewrite lookup_app_r in Hk by lia.
           apply list_lookup_singleton_Some in Hk as [_ <-]. simpl in He. congruence.
  - intros _ e' k. cbn. intros [[<- _]|[_ Hk] ]%lookup_insert_Some; [by apply Hr|by eapply Ha].
  - cbn. by apply insert_subseteq.
Qed.

Lemma set_tag_same factory tag value l :
  tag_index (set_tag factory tag value l) factory tag = Some value.
Proof. unfold tag_index, set_tag. simpl. rewrite lookup_insert_eq. simpl. by rewrite lookup_insert_eq. Qed.

Lemma set_tag_index factory tag value l tag' :
  tag <> tag' -> tag_index (set_tag factory tag value l) factory tag' = tag_index l factory tag'.
Proof.
  intros Hne. unfold tag_index, set_tag. simpl. rewrite lookup_insert_eq. simpl.
  by rewrite lookup_insert_ne.
Qed.

Lemma set_tag_indexed factory tag value l : indexed l factory -> indexed (set_tag factory tag value l) factory.
Proof.
  intros Hi tag'. destruct (decide (tag = tag')) as [<-|Hne].
  - rewrite set_tag_same. split; [by eauto|]. intros _. unfold set_tag, tags_of.
    fold (tag_index l factory tag). destruct (tag_index l factory tag) eqn:E.
    + change (tag ∈ tags_of l factory). apply Hi. by rewrite E.
    + simpl. rewrite lookup_insert_eq. simpl. apply elem_of_app. right. by left.
  - rewrite set_tag_index by done. rewrite <- (Hi tag'). unfold set_tag, tags_of.
    destruct (default ∅ _ !! tag); [done|]. simpl. rewrite lookup_insert_eq. simpl.
    rewrite elem_of_app, list_elem_of_singleton. naive_solver.
Qed.

Lemma set_tag_others factory tag value l other :
  factory <> other -> same_tags l (set_tag factory tag value l) other.
Proof.
  intros Hne. unfold set_tag. destruct (default ∅ _ !! tag); split; simpl; by rewrite ?lookup_insert_ne.
Qed.

Lemma set_tag_this factory tag value l :
  Locals.this (set_tag factory tag value l) = Locals.this l /\
  Locals.factories (set_tag factory tag value l) = Locals.factories l.
Proof. unfold set_tag. by destruct (default ∅ _ !! tag). Qed.

(** ** One metric *)

(** Where a tag with an expression is. *)
Definition placed (l' : Locals.locals) (factory tag e : string) : Prop :=
  if accepts e then exists k, input_expressions_ (Locals.this l') !! e = Some k /\
    tag_index l' factory tag = Some (Some (count_standard_labels + k)%nat)
  else tag_index l' factory tag = Some None.

(** The loop over the tags of the entry. *)
Record overridden (tags : list string) (metric : json) (factory : string) (l l' : Locals.locals) : Prop := {
  overridden_grows : grows accepts (Locals.this l) (Locals.this l');
  overridden_factories : Locals.factories l' = Locals.factories l;
  overridden_others : forall other, factory <> other -> same_tags l l' other;
  overridden_indexed : indexed l factory -> indexed l' factory;
  overridden_tag : forall tag, tag ∈ tags ->
    exists e, expression_of metric tag = Some e /\ placed l' factory tag e;
  overridden_index : forall tag, tag ∉ tags -> tag_index l' factory tag = tag_index l factory tag
}.

Lemma override_tags_spec tags metric factory l tr b l' :
  inputs_accepted accepts (Locals.this l) ->
  traces (override_tags tags metric factory l) tr (Done (b, l')) -> Forall (answered accepts) tr ->
  exists reached rest, tags = reached ++ rest /\ overridden reached metric factory l l' /\
    match rest with [] => b = true | bad :: _ => b = false /\ expression_of metric bad = None end.
Proof.
  revert l tr. induction tags as [|tag tags IH]; intros l tr Ha; cbn [override_tags].
  { intros [_ [= -> <-]] _. exists [], []. split; [done|]. split; [|done]. split; try done; [].
    by intros tag ?%elem_of_nil. }
  unfold dimension. change (find metric "dimensions" ≫= fun d => find d tag) with (dimension_of metric tag).
  destruct (dimension_of metric tag) as [expr|] eqn:Ed; [|by intros [_ ?]]. rewrite bind_ret.
  assert (match JsonValueAs_string expr with (Some e, OK) => expression_of metric tag = Some e
          | _ => expression_of metric tag = None end) as Hexp.
  { unfold expression_of. rewrite Ed. by destruct expr. }
  destruct (JsonValueAs_string expr) as [[e|] [] ];
    try (intros [_ [= -> <-]] _; exists [], (tag :: tags); split; [done|]; split; [|done];
         split; try done; by intros t ?%elem_of_nil).
  intros ([o ctx] & t1 & t2 & -> & H1 & H2)%traces_bind_done [Hc1 Hc2]%Forall_app.
  apply add_string_spec in H1 as [Hg Ho]; [|done..]. cbn beta iota zeta in H2.
  set (l0 := set_field Locals.this ctx l) in H2. set (l1 := set_tag _ _ _ l0) in H2.
  assert (Locals.this l1 = ctx /\ Locals.factories l1 = Locals.factories l) as [Ht Hf].
  { exact (set_tag_this factory tag _ l0). }
  apply IH in H2 as (reached & rest & -> & [G1 G2 G3 G4 G5 G6] & Hb); [|rewrite Ht; by apply Hg|done].
  rewrite Ht in G1. exists (tag :: reached), rest. split; [done|]. split; [|done]. split.
  - by eapply grows_trans.
  - congruence.
  - intros other Hne. eapply same_tags_trans; [|by apply G3].
    exact (set_tag_others factory tag _ l0 other Hne).
  - intros Hi. apply G4. exact (set_tag_indexed factory tag _ l0 Hi).
  - intros t [->|Hin]%elem_of_cons; [|by apply G5].
    destruct (decide (tag ∈ reached)) as [Hin|Hout]; [by apply G5|]. exists e. split; [done|].
    unfold placed. rewrite G6 by done. pose proof (set_tag_same factory tag (Nat.add count_standard_labels <$> o) l0) as Hs.
    destruct (accepts e); [|by subst o]. destruct Ho as (k & -> & Hk). exists k.
    split; [by eapply lookup_weaken; [|apply G1]|exact Hs].
  - intros t [Hne Hout]%not_elem_of_cons. rewrite G6 by done. exact (set_tag_index factory tag _ l0 t (not_eq_sym Hne)).
Qed.

(** The loop over the tags to remove. *)
Lemma remove_tags_spec elems indexes tr ok indexes' :
  traces (iterate remove_tag elems indexes) tr (Done (ok, indexes')) ->
  tr = [] /\ ok = forallb is_string elems /\ forall tag, indexes' !! tag =
    if existsb (is_tag tag) (take_ok is_string elems) then (fun _ => None) <$> indexes !! tag else indexes !! tag.
Proof.
  revert indexes. induction elems as [|x elems IH]; intros indexes; cbn [iterate take_ok forallb].
  { by intros [-> [= -> ->]]. }
  unfold remove_tag. destruct x; try (by intros [-> [= -> ->]]).
  simpl. intros (-> & -> & Ht)%IH. do 2 (split; [done|]). intros tag. rewrite (Ht tag).
  case_bool_decide as Hs; simpl.
  - subst s. destruct (indexes !! tag) as [i|] eqn:E; [rewrite lookup_insert_eq|rewrite E];
      by destruct (existsb _ _).
  - destruct (indexes !! s) eqn:E; [|done]. by rewrite lookup_insert_ne.
Qed.

(** Where a tag is after an entry. *)
Definition position (metric : json) (l l' : Locals.locals) (factory tag : string) : Prop :=
  match overrides metric tag with
  | Some e => placed l' factory tag e
  | None =>
      tag_index l' factory tag =
        if removes metric tag then (fun _ => None) <$> tag_index l factory tag
        else tag_index l factory tag
  end.

(** What an entry does to the metrics in [affected], and to the others. *)
Record entry_step (metric : json) (affected : string -> Prop) (l l' : Locals.locals) : Prop := {
  entry_grows : grows accepts (Locals.this l) (Locals.this l');
  entry_factories : Locals.factories l' = Locals.factories l;
  entry_affected : forall factory tag, affected factory -> position metric l l' factory tag;
  entry_others : forall factory, ~ affected factory -> same_tags l l' factory;
  entry_indexed : (forall factory, indexed l factory) -> forall factory, indexed l' factory
}.

Lemma remove_array_spec metric indexes tr ok indexes' :
  traces (JsonArrayIterate metric "tags_to_remove" remove_tag indexes) tr (Done (ok, indexes')) ->
  ok = removes_all metric /\ forall tag, indexes' !! tag =
    if removes metric tag then (fun _ => None) <$> indexes !! tag else indexes !! tag.
Proof.
  unfold JsonArrayIterate, removes, removes_all. destruct (find metric "tags_to_remove") as [v|]; [|by intros [_ [= -> <-]] ].
  destruct v; try by intros [_ [= -> <-]]. intros (_ & -> & H)%remove_tags_spec. auto.
Qed.

(** The keys of the entry's dimensions, in their order. *)
Record keys_of (metric : json) (tags : list string) : Prop := {
  keys_all k : k ∈ tags <-> is_Some (dimension_of metric k);
  keys_sorted : StronglySorted (fun a b => Is_true (String.leb a b)) tags
}.

Lemma bad_tags_spec metric tag :
  tag ∈ bad_tags metric <-> is_Some (dimension_of metric tag) /\ expression_of metric tag = None.
Proof.
  unfold bad_tags, expression_of, dimension_of.
  destruct (find metric "dimensions") as [d|]; [destruct d as [| | | |elems|members]|]; cbn [mbind option_bind find];
    try (split; [by intros ?%elem_of_nil|by intros [[? ?] ?] ]).
  rewrite list_elem_of_In, filter_In, <- list_elem_of_In.
  change members.*1 with (List.map fst members). rewrite assoc_find_key.
  destruct (assoc_find members tag) as [[]|]; simpl; naive_solver.
Qed.

(** What the loop reaches is what comes before each tag without an expression. *)
Lemma overrides_reached metric reached rest tag :
  removes_all metric = true -> keys_of metric (reached ++ rest) ->
  (forall t, t ∈ reached -> is_Some (expression_of metric t)) ->
  match rest with [] => True | bad :: _ => expression_of metric bad = None end ->
  overrides metric tag = if decide (tag ∈ reached) then expression_of metric tag else None.
Proof.
  intros Hr [Hk Hs] Hd Hb. unfold overrides. rewrite Hr. cbn [andb].
  apply StronglySorted_app in Hs as (Hs & _ & Hs').
  destruct (decide (tag ∈ reached)) as [Hin|Hout].
  - assert (forallb (String.leb tag) (bad_tags metric) = true) as ->; [|done].
    apply forallb_forall. intros b Hin'%list_elem_of_In. apply bad_tags_spec in Hin' as [Hx Hn].
    apply Hk in Hx. apply elem_of_app in Hx as [Hx|Hx]; [|by apply Is_true_true, Hs].
    apply Hd in Hx as [? ?]. congruence.
  - destruct (forallb _ _) eqn:Ef; [|done]. destruct (expression_of metric tag) eqn:Ee; [|done].
    assert (tag ∈ rest) as Hin.
    { assert (is_Some (dimension_of metric tag)) as Hx.
      { unfold expression_of in Ee. destruct (dimension_of metric tag); [eauto|done]. }
      apply Hk in Hx. by apply elem_of_app in Hx as [Hx|Hx]. }
    destruct rest as [|bad rest]; [by apply elem_of_nil in Hin|].
    assert (bad ∈ bad_tags metric) as Hbad.
    { apply bad_tags_spec. split; [|done]. apply Hk, elem_of_app. right. by left. }
    rewrite forallb_forall in Ef. specialize (Ef bad (proj1 (list_elem_of_In _ _) Hbad)).
    apply elem_of_cons in Hin as [->|Hin]; [congruence|].
    apply StronglySorted_inv in Hs' as [_ Hf]. rewrite Forall_forall in Hf.
    specialize (Hf tag Hin). apply Is_true_true in Hf.
    rewrite (String.leb_antisym _ _ Hf Ef) in Hb. congruence.
Qed.

(** One metric of an entry; [b] tells whether the entry goes on. *)
Lemma factory_step metric tags factory l t1 t2 ok indexes b l' :
  inputs_accepted accepts (Locals.this l) -> keys_of metric tags ->
  traces (JsonArrayIterate metric "tags_to_remove" remove_tag
            (default ∅ (Locals.metric_indexes l !! factory))) t1 (Done (ok, indexes)) ->
  let l1 := l <| Locals.metric_indexes := <[factory := indexes]> (Locals.metric_indexes l) |> in
  traces (if negb ok then mret (false, l1) else override_tags tags metric factory l1) t2 (Done (b, l')) ->
  Forall (answered accepts) t2 ->
  b = negb (malformed metric) /\ entry_step metric (fun f => f = factory) l l'.
Proof.
  intros Ha Hk [-> Hr]%remove_array_spec l1 Ho Hc.
  assert (forall tag, tag_index l1 factory tag =
    if removes metric tag then (fun _ => None) <$> tag_index l factory tag else tag_index l factory tag) as H1.
  { intros tag. unfold tag_index. simpl. rewrite lookup_insert_eq. simpl. apply Hr. }
  assert (exists reached rest, tags = reached ++ rest /\ overridden reached metric factory l1 l' /\
    b = negb (malformed metric) /\
    forall tag, overrides metric tag = if decide (tag ∈ reached) then expression_of metric tag else None)
    as (reached & rest & -> & [G1 G2 G3 G4 G5 G6] & -> & Hov).
  { unfold malformed. rewrite negb_involutive. destruct (removes_all metric) eqn:Er; cbn [negb andb] in *.
    - apply override_tags_spec in Ho as (reached & rest & -> & Ho & Hb); [|done..]. exists reached, rest.
      split; [done|]. split; [done|].
      assert (forall t, t ∈ reached -> is_Some (expression_of metric t)) as Hd.
      { intros t Ht. destruct (overridden_tag _ _ _ _ _ Ho t Ht) as (e & -> & _). eauto. }
      split; [|intros tag; apply (overrides_reached metric reached rest tag Er Hk Hd); by destruct rest as [|? ?]; [|apply Hb] ].
      destruct rest as [|bad rest].
      + subst b. destruct (bad_tags metric) as [|t bad] eqn:Eb; [done|].
        destruct (proj1 (bad_tags_spec metric t)) as [Hx Hn]; [rewrite Eb; by left|].
        apply (keys_all _ _ Hk) in Hx. rewrite app_nil_r in Hx. apply Hd in Hx as [? ?]. congruence.
      + destruct Hb as [-> Hn]. assert (bad ∈ bad_tags metric) as Hin.
        { apply bad_tags_spec. split; [|done]. apply (keys_all _ _ Hk), elem_of_app. right. by left. }
        destruct (bad_tags metric); [by apply elem_of_nil in Hin|done].
    - destruct Ho as [-> [= -> ->]]. exists [], tags. split; [done|]. split; [|split; [done|] ].
      + split; try done; by intros t ?%elem_of_nil.
      + intros tag. unfold overrides. by rewrite Er. }
  split; [done|]. split; [done|done| | |].
  - intros ? tag ->. unfold position. rewrite Hov. destruct (decide (tag ∈ reached)) as [Hin|Hout].
    + destruct (G5 tag Hin) as (e & -> & He). done.
    + rewrite G6 by done. apply H1.
  - intros other Hne. eapply same_tags_trans; [|by apply G3; congruence].
    split; simpl; [|done]. by rewrite lookup_insert_ne by congruence.
  - intros Hi other. destruct (decide (factory = other)) as [<-|Hne].
    + apply G4. intros tag. rewrite H1. change (tags_of l1 factory) with (tags_of l factory).
      rewrite (Hi factory tag). destruct (removes metric tag); [|done]. by rewrite fmap_is_Some.
    + eapply same_tags_indexed; [by apply G3|]. eapply same_tags_indexed; [|apply Hi].
      split; simpl; [|done]. by rewrite lookup_insert_ne.
Qed.

Lemma placed_same l l' factory tag e :
  input_expressions_ (Locals.this l) ⊆ input_expressions_ (Locals.this l') -> same_tags l l' factory ->
  placed l factory tag e -> placed l' factory tag e.
Proof.
  unfold placed. intros Hs Ht. rewrite (same_tags_index _ _ _ _ Ht). destruct (accepts e); [|done].
  intros (k & Hk & Hi). exists k. split; [by eapply lookup_weaken|done].
Qed.

Lemma entry_step_trans metric (P Q : string -> Prop) l1 l2 l3 :
  (forall f, P f -> ~ Q f) -> (forall f, Decision (P f)) ->
  entry_step metric P l1 l2 -> entry_step metric Q l2 l3 -> entry_step metric (fun f => P f \/ Q f) l1 l3.
Proof.
  intros Hpq Hdec [G1 G2 G3 G4 G5] [K1 K2 K3 K4 K5]. split; [by eapply grows_trans|congruence| | |auto].
  - intros f tag [Hp|Hq]; unfold position in *.
    + specialize (G3 f tag Hp). pose proof (K4 f (Hpq f Hp)) as Hs.
      destruct (overrides metric tag); [by eapply placed_same; [apply K1| |]|].
      by rewrite (same_tags_index _ _ _ _ Hs).
    + specialize (K3 f tag Hq). assert (~ P f) as Hp by (intros Hp; by apply (Hpq f)).
      rewrite <- (same_tags_index _ _ _ _ (G4 f Hp)). done.
  - intros f Hn. eapply same_tags_trans; [apply G4|apply K4]; tauto.
Qed.

Lemma entry_step_iff metric (P Q : string -> Prop) l l' :
  (forall f, P f <-> Q f) -> entry_step metric P l l' -> entry_step metric Q l l'.
Proof.
  intros H [G1 G2 G3 G4 G5]. split; [done..| | |done].
  - intros f tag Hf. apply G3. by apply H.
  - intros f Hf. apply G4. by rewrite H.
Qed.

Lemma entry_step_refl metric l : entry_step metric (fun _ => False) l l.
Proof. by split. Qed.

(** The metrics that an entry affects: those it is about, or the first of them that
    it reaches when it is malformed. *)
Definition affects (keys : list string) (name : string) (metric : json) (b : bool) (affected : string -> Prop) : Prop :=
  if malformed metric && existsb (selects name) keys then
    b = false /\ exists victim, victim ∈ keys /\ selects name victim = true /\ forall f, affected f <-> f = victim
  else b = true /\ forall f, affected f <-> f ∈ keys /\ selects name f = true.

Lemma override_factories_spec keys name tags metric l tr b l' :
  inputs_accepted accepts (Locals.this l) -> NoDup keys -> keys_of metric tags ->
  value_or (JsonGetField JsonValueAs_bool metric "drop") false = false ->
  traces (override_factories keys name tags metric l) tr (Done (b, l')) -> Forall (answered accepts) tr ->
  exists affected, entry_step metric affected l l' /\ affects keys name metric b affected.
Proof.
  intros Ha Hnd Hk Hd. unfold affects. revert l tr Ha. induction Hnd as [|factory keys Hf Hnd IH]; intros l tr Ha;
    cbn [override_factories existsb].
  { intros [_ [= -> <-]] _. exists (fun _ => False). split; [apply entry_step_refl|]. rewrite andb_false_r.
    split; [done|]. intros f. rewrite elem_of_nil. tauto. }
  rewrite Hd. destruct (decide (name <> EmptyString /\ name <> factory)) as [Hn|Hn%selects_spec].
  { assert (selects name factory = false) as Es by (apply not_true_iff_false; rewrite selects_spec; tauto).
    rewrite Es. intros Ht Hc. destruct (IH l tr Ha Ht Hc) as (affected & Hs & Hb). exists affected. split; [done|].
    cbn [orb]. destruct (malformed metric && _).
    - destruct Hb as (-> & v & Hv & ?). split; [done|]. exists v. split; [by right|done].
    - destruct Hb as [-> Hb]. split; [done|]. intros f. rewrite Hb, elem_of_cons. split; [tauto|].
      intros [[->|?] ?]; [congruence|done]. }
  rewrite Hn. cbn [orb]. rewrite andb_true_r.
  intros ([ok ix] & t1 & t2 & -> & H1 & H2)%traces_bind_done [_ Hc]%Forall_app. cbn zeta in H2.
  set (l1 := set_field _ _ l) in H2.
  assert (exists b1 l2 t3 t4, t2 = t3 ++ t4 /\
    traces (if negb ok then mret (false, l1) else override_tags tags metric factory l1) t3 (Done (b1, l2)) /\
    traces (if negb b1 then mret (false, l2) else override_factories keys name tags metric l2) t4 (Done (b, l')))
    as (b1 & l2 & t3 & t4 & -> & H3 & H4).
  { destruct ok; cbn [negb] in *.
    - apply traces_bind_done in H2 as ([b1 l2] & t3 & t4 & -> & H3 & H4). by exists b1, l2, t3, t4.
    - destruct H2 as [-> [= -> ->]]. by exists false, l1, [], []. }
  apply Forall_app in Hc as [Hc3 Hc4].
  destruct (factory_step metric tags factory l t1 t3 ok ix b1 l2 Ha Hk H1 H3 Hc3) as [-> Hs]. rewrite negb_involutive in H4.
  destruct (malformed metric) eqn:Em; cbn [andb] in *.
  - destruct H4 as [-> [= -> ->]]. eexists. split; [exact Hs|]. split; [done|]. exists factory. by split; [left|].
  - destruct (IH l2 t4) as (affected & Hs2 & -> & Hb); [by apply Hs|done..|]. eexists.
    split; [eapply entry_step_trans; [| |exact Hs|exact Hs2]|].
    + intros f -> [Hin _]%Hb. done.
    + intros f. apply _.
    + split; [done|]. intros f. rewrite Hb, elem_of_cons. split; [|tauto].
      intros [->|[? ?] ]; [by split; [left|]|by split; [right|] ].
Qed.

(** ** One entry *)

Lemma factory_key l factory :
  factory ∈ (iteration (Locals.factories l)).*1 <-> is_Some (Locals.factories l !! factory).
Proof.
  rewrite iteration_perm, list_elem_of_fmap. split.
  - intros ([k f] & -> & Hf%elem_of_map_to_list). eauto.
  - intros [f Hf]. exists (factory, f). split; [done|]. by apply elem_of_map_to_list.
Qed.

(** The tags of an entry; it is given up at once when its dimensions are no object. *)
Lemma visit_metric_eq metric :
  match find metric "dimensions" with None => True | Some (JObject _) => True | Some _ => False end ->
  exists tags, keys_of metric tags /\ forall l, visit_metric metric l =
    override_factories (iteration (Locals.factories l)).*1
      (value_or (JsonGetField JsonValueAs_string metric "name") "") tags metric l.
Proof.
  intros Hv. destruct (object_iterate_keys (E := HostCall) metric "dimensions" []) as (ok & keys & Ek & Hk).
  assert (ok = true) as ->.
  { unfold JsonObjectIterate in Ek. destruct (find metric "dimensions") as [[]|]; try done;
      [rewrite iterate_pure in Ek|]; by injection Ek as <-. }
  exists (sort_tags ([] ++ keys)). split.
  - split.
    + intros k. unfold dimension_of. rewrite <- Hk by done. unfold sort_tags. by rewrite merge_sort_Permutation.
    + apply StronglySorted_merge_sort.
      * intros a b c Hab Hbc. apply Is_true_true in Hab, Hbc. apply Is_true_true. by eapply string_leb_trans.
      * intros a b. rewrite !Is_true_true. apply String.leb_total.
  - intros l. unfold visit_metric. by rewrite Ek, bind_ret.
Qed.

Lemma visit_metric_spec metric l tr b l' :
  inputs_accepted accepts (Locals.this l) ->
  value_or (JsonGetField JsonValueAs_bool metric "drop") false = false ->
  traces (visit_metric metric l) tr (Done (b, l')) -> Forall (answered accepts) tr ->
  match find metric "dimensions" with None => True | Some (JObject _) => True | Some _ => False end ->
  exists affected, entry_step metric affected l l' /\
    affects (iteration (Locals.factories l)).*1 (value_or (JsonGetField JsonValueAs_string metric "name") "")
      metric b affected.
Proof.
  intros Ha Hd Ht Hc Hv. destruct (visit_metric_eq metric Hv) as (tags & Hk & He). rewrite He in Ht.
  eapply override_factories_spec; [done| |done..]. rewrite iteration_perm. apply NoDup_fst_map_to_list.
Qed.

(** The seed of the locals has the invariant. *)
Lemma seeded_indexed ctx factory : indexed (seeded ctx) factory.
Proof.
  assert (forall fs l, (forall f, indexed l f) -> forall f, indexed (foldl seed l fs) f) as Hs.
  { induction fs as [|x fs IH]; intros l Hl; simpl; [done|]. apply IH. intros f tag.
    unfold tags_of, tag_index, seed. simpl. destruct (decide (factory_name x = f)) as [<-|Hne].
    - rewrite !lookup_insert_eq. simpl. rewrite <- not_eq_None_Some, <- not_elem_of_list_to_map.
      assert (forall tags, (imap (fun i (tag : string) => (tag, Some i)) tags).*1 = tags) as ->.
      { intros tags. rewrite fmap_imap. apply list_eq. intros i. rewrite list_lookup_imap.
        by destruct (tags !! i). }
      split; [auto|]. apply dec_stable.
    - rewrite !lookup_insert_ne by done. apply Hl. }
  apply Hs. intros f tag. unfold tags_of, tag_index. simpl. rewrite !lookup_empty. simpl.
  rewrite lookup_empty. split; [by intros ?%elem_of_nil|by intros [? ?] ].
Qed.
End tags.

(** ** Theorems *)

Section tag_theorems.
Context `{A : AbslStrings} `{F : Flatbuffers} `{U : UnorderedMap} `{J : NlohmannJson} `{T : AbslTime}.

(** An entry of [metrics] that does not drop does what it says.  When it is
    processed to its end and the host compiles its expressions, for every metric
    that it names: a tag that it gives an expression is kept, at the position
    where that expression's value is put, one that it removes is not kept, and
    any other is kept where it was; and it leaves the other metrics and the set
    of metrics as they were. *)
Theorem entry_overrides_tags metric l tr l' factory :
  value_or (JsonGetField JsonValueAs_bool metric "drop") false = false ->
  traces (visit_metric metric l) tr (Done (true, l')) -> Forall created tr ->
  inputs_exact (Locals.this l) -> (forall f, indexed l f) -> is_Some (Locals.factories l !! factory) ->
  Locals.factories l' = Locals.factories l /\
  if selects (value_or (JsonGetField JsonValueAs_string metric "name") "") factory then
    forall tag i, (tag, i) ∈ kept_tags l' factory <->
      match expression_of metric tag with
      | Some e => exists k, i = (count_standard_labels + k)%nat /\
          snd <$> expressions_ (Locals.this l') !! k = Some e
      | None => (tag, i) ∈ kept_tags l factory /\ removes metric tag = false
      end
  else kept_tags l' factory = kept_tags l factory.
Proof.
  intros Hd Ht Hc Hin Hix Hf.
  destruct (visit_metric_spec (fun _ => true) metric l tr true l') as (affected & [G1 G2 G3 G4 G5] & Ha);
    [by intros|done|done|by eapply Forall_impl; [|apply created_answered]| |].
  { unfold visit_metric, JsonObjectIterate in Ht. by destruct (find metric "dimensions") as [[]|]; try by destruct Ht. }
  unfold affects in Ha. set (name := value_or _ "") in *.
  destruct (malformed metric && _)%bool eqn:Em; [by destruct Ha|]. destruct Ha as [_ Ha].
  apply andb_false_iff in Em. split; [done|]. destruct (selects name factory) eqn:Es.
  - intros tag i. rewrite kept_tags_spec by (by apply G5).
    assert (factory ∈ (iteration (Locals.factories l)).*1) as Hkey by (by apply factory_key).
    assert (malformed metric = false) as Hm.
    { destruct Em as [?|Em]; [done|]. rewrite <- not_true_iff_false, existsb_exists in Em.
      destruct Em. exists factory. by rewrite <- list_elem_of_In. }
    assert (position (fun _ => true) metric l l' factory tag) as G by (by apply G3, Ha).
    unfold position in G. rewrite overrides_all in G by done.
    destruct (expression_of metric tag) as [e|].
    + destruct G as (k & Hk' & ->). apply (grows_exact _ _ _ G1 Hin) in Hk' as Hx. split.
      * intros [= <-]. eauto.
      * intros (k' & -> & Hx'%(grows_exact _ _ _ G1 Hin)). congruence.
    + rewrite kept_tags_spec, G by done. destruct (removes metric tag); [|naive_solver].
      split; [|naive_solver]. destruct (tag_index l factory tag); by intros ?.
  - apply same_tags_kept, G4. rewrite Ha. intros [_ ?]. congruence.
Qed.
End tag_theorems.

(** ** Witnesses *)

#[local] Existing Instance flat_example.
#[local] Instance tags_absl : AbslStrings := absl_reference.
#[local] Existing Instance map_order.
#[local] Existing Instance no_time.
#[local] Existing Instance example_json.

Definition example_entry : json :=
  JObject [("dimensions", JObject [("source_app", JString "request.host")]);
           ("tags_to_remove", JArray [JString "response_flags"])].

(** The entry, on the default metrics. *)
Definition entry_run := run (config_host "{...}") (visit_metric example_entry (seeded example_root)) 0.
Definition entry_end : Locals.locals := snd (done_or (false, seeded example_root) (result entry_run)).

Lemma entry_overrides_tags_witness :
  Locals.factories entry_end = Locals.factories (seeded example_root) /\
  forall tag i, (tag, i) ∈ kept_tags entry_end "requests_total" <->
    match expression_of example_entry tag with
    | Some e => exists k, i = (count_standard_labels + k)%nat /\
        snd <$> expressions_ (Locals.this entry_end) !! k = Some e
    | None => (tag, i) ∈ kept_tags (seeded example_root) "requests_total" /\
        removes example_entry tag = false
    end.
Proof.
  apply (entry_overrides_tags example_entry (seeded example_root) (trace entry_run) entry_end "requests_total").
  - reflexivity.
  - apply run_done_traces. fold entry_run.
    assert (is_done (result entry_run) = true) as ->%(is_done_or (false, seeded example_root))
      by (vm_compute; reflexivity).
    rewrite (surjective_pairing (done_or _ _)). f_equal.
  - vm_compute. repeat constructor.
  - assert (Locals.this (seeded example_root) = example_root) as -> by reflexivity.
    intros e k. simpl. split; [by intros ?%lookup_empty_Some|done].
  - apply seeded_indexed.
  - vm_compute. eauto.
Defined.

(** The source's application is at the end, and the response flags are gone. *)
Example entry_tags :
  bool_decide (("source_app", count_standard_labels) ∈ kept_tags entry_end "requests_total") = true /\
  length (kept_tags entry_end "requests_total") = 24%nat.
Proof. split; vm_compute; reflexivity. Qed.
