(* ===== verification/StatsRequests.v ===== *)
(** * The telemetry of Istio: every request is counted once

    A metric that is not recurrent gets one sample from each request of HTTP or
    gRPC, when the request is logged, and none from the ticks and from TCP:
    whatever the dimensions, the cache and the host make of its name. *)

From stdpp Require Import base tactics numbers list strings gmap.
From Stdlib Require Import ZArith Lia Ascii.
From S2P Require Import Prelude HostApi Absl Json ResponseFlags Context Stats StatsFlow StatsConfig.
Local Open Scope Z_scope.
Local Open Scope wasm_scope.

(** ** Specification *)

(** The streams of TCP, by their events. *)
Definition next_tcp (tcp : gset Z) (ev : stats_event) : gset Z :=
  match ev with
  | Create id | Destroy id | RequestHeaders id => tcp ∖ {[id]}
  | NewConnection id => tcp ∪ {[id]}
  | _ => tcp
  end.

Definition logs_request (tcp : gset Z) (ev : stats_event) : nat :=
  match ev with Log id => if decide (id ∈ tcp) then 0 else 1 | _ => 0 end.

(** The requests that a history logs. *)
Fixpoint logged_requests (tcp : gset Z) (evs : list stats_event) : nat :=
  match evs with
  | [] => 0
  | ev :: evs => logs_request tcp ev + logged_requests (next_tcp tcp ev) evs
  end.

(** A statistic of requests: of every request, at its end, and whatever its value. *)
Record per_request (g : StatGen) : Prop := {
  at_end : recurrent_ g = false;
  of_requests : protocols_ g = http_and_grpc;
  always_sampled : extractor_ g = OneRequest \/ metric_type g <> Counter
}.

(** The values recorded on some metrics, in order. *)
Definition values (counted : Z -> bool) (tr : list host_event) : list Z :=
  omap (fun p => if counted (fst p) then Some (snd p) else None) (observe record_of tr).

Lemma values_app counted t1 t2 : values counted (t1 ++ t2) = values counted t1 ++ values counted t2.
Proof. unfold values. by rewrite !omap_app. Qed.

Lemma values_none counted tr : observe record_of tr = [] -> values counted tr = [].
Proof. unfold values. by intros ->. Qed.

(** ** Protocols *)

Definition is_request (p : Protocol) : Prop := p = HTTP \/ p = GRPC.

#[export] Instance is_request_dec p : Decision (is_request p).
Proof. unfold is_request. apply _. Defined.

Section protocols.
Context `{A : AbslStrings} `{F : Flatbuffers}.

Definition keeps_protocol (r r' : RequestInfo) : Prop := request_protocol r' = request_protocol r.

Lemma fill_protocol {X T} (call : HostCall (option X)) (conv : X -> T) f `{!Field f} r0 r :
  keeps_protocol r0 r -> (forall v, request_protocol (r <| f := v |>) = request_protocol r) ->
  returns (keeps_protocol r0) (fill call conv f r).
Proof. intros Hr Hf. apply returns_fill; [done|]. intros v. unfold keeps_protocol. by rewrite Hf. Qed.

Lemma populate_protocol o fb r0 r :
  keeps_protocol r0 r -> returns (keeps_protocol r0) (populateRequestInfo o fb r).
Proof.
  intros Hr. destruct (is_populated r) eqn:Ep.
  - unfold populateRequestInfo. by rewrite Ep.
  - eapply returns_mono; [|by apply populate_frame]. intros r' Hp. unfold keeps_protocol in *.
    by rewrite <- Hr, Hp.
Qed.

Lemma grpc_protocol r0 r :
  keeps_protocol r0 r -> returns (fun p => keeps_protocol r0 (snd p)) (populateGRPCInfo r).
Proof.
  intros Hr. unfold populateGRPCInfo, simple_atoi. simpl. intros [v|]; simpl; [|done].
  unfold keeps_protocol in *. repeat case_match; simplify_eq; simpl; by rewrite <- Hr.
Qed.

Ltac protocol_tac :=
  repeat (eapply returns_bind;
    [first [apply fill_protocol; [eassumption|done]|by apply populate_protocol]|]; intros ? ?).

Lemma http_protocol o fb r :
  returns (fun r' => is_request (request_protocol r')) (populateHTTPRequestInfo o fb r).
Proof.
  unfold populateHTTPRequestInfo. eapply (returns_bind (fun r' => is_request (request_protocol r'))).
  { simpl. intros [t|]; simpl; [|done]. unfold is_request. case_decide; simpl; auto. }
  intros r1 H1. apply (returns_mono (keeps_protocol r1)).
  { unfold keeps_protocol. by intros r' ->. }
  assert (keeps_protocol r1 r1) as Hk by done. protocol_tac.
  eapply (returns_bind (keeps_protocol r1)).
  { case_decide; [|done]. intros st. cbn [prog_mbind prog_bind mret prog_mret].
    eapply returns_bind; [by apply grpc_protocol|]. by intros [ok r2]. }
  intros r2 Hr2. apply (returns_bind (fun _ => True)); [apply returns_true|]. intros id _.
  apply (returns_bind (fun _ => True)); [apply returns_true|]. intros op _.
  assert (keeps_protocol r1 (r2 <| request_operation := op |>)) as Hr3 by done.
  revert Hr3. generalize (r2 <| request_operation := op |>). intros r3 Hr3.
  protocol_tac. by apply fill_protocol.
Qed.

(** What the last report of a stream, or one before it, makes of the protocol. *)
Definition next_protocol (last : bool) (p p' : Protocol) : Prop :=
  if decide (p = TCP) then p' = TCP else p' <> TCP /\ (last = true -> is_request p').

Lemma populate_next ctx peer e fb r :
  returns (fun o => match o with
                    | Some r' => next_protocol e (request_protocol r) (request_protocol r')
                    | None => e = false
                    end) (populate ctx peer e fb r).
Proof.
  unfold populate, next_protocol. case_decide as Hp.
  - destruct e; rewrite ?andb_false_r, ?andb_true_r; cbn [negb]; [|destruct (maybeWaiting peer); [done|] ];
      (eapply (returns_bind (fun r' => request_protocol r' = TCP)); [|done]);
      unfold populateTCPRequestInfo;
      by do 2 (apply (returns_bind (fun _ => True)); [apply returns_true|]; intros ? _).
  - destruct e.
    + eapply returns_bind; [apply http_protocol|]. intros r' [H|H]; simpl; unfold is_request; rewrite H; auto.
    + eapply returns_bind; [by apply (populate_protocol _ _ r)|]. intros r1 H1. unfold keeps_protocol in H1.
      case_decide; [|simpl; by rewrite H1].
      eapply returns_bind; [by apply (grpc_protocol r)|]. intros [ok r2] H2. unfold keeps_protocol in H2.
      simpl in *. by rewrite H2.
Qed.

Lemma prepare_next r e ctx :
  returns (fun o => match o with
                    | Some (r', d) => next_protocol e (request_protocol r) (request_protocol r') /\
                                      label_of d (request_protocol r')
                    | None => e = false
                    end) (prepare r e ctx).
Proof.
  unfold prepare. do 2 (apply (returns_bind (fun _ => True)); [apply returns_true|]; intros ? _).
  eapply returns_bind; [apply populate_next|]. intros [r'|] Hr; [|done].
  apply (returns_bind (fun _ => True)); [apply returns_true|]. intros node _.
  eapply returns_bind; [apply map_label|]. intros d [Hd _].
  eapply returns_bind; [by apply evaluate_label|]. intros d' Hd'. by split.
Qed.

Lemma record_all_protocol stats e r :
  returns (fun r' => request_protocol r' = request_protocol r) (record_all stats e r).
Proof.
  revert r. induction stats as [|st stats IH]; intros r; cbn [record_all]; [done|].
  eapply (returns_bind (fun r' => request_protocol r' = request_protocol r)).
  - destruct (e || _); [apply record_protocol|done].
  - intros r1 H1. rewrite <- H1. apply IH.
Qed.

(** A report neither stops the plugin nor touches its queue. *)
Lemma report_stats_root r e ctx :
  returns (fun p => initialized_ (snd p) = initialized_ ctx /\
                    request_queue_ (snd p) = request_queue_ ctx) (report_stats r e ctx).
Proof.
  unfold report_stats. destruct (metrics_ ctx !! _);
    (apply (returns_bind (fun _ => True)); [apply returns_true|]).
  - intros r1 _. cbn zeta. by case_decide.
  - by intros [stats r1] _.
Qed.

(** ** Samples *)

Section samples.
Context `{U : UnorderedMap}.
Context {S : Type} (h : handler HostCall S) (id_of : MetricType -> string -> Z) `{!NamingHost h id_of}.
(** The metric, and the ids of its names. *)
Context (g0 : StatGen) (counted : Z -> bool).
Hypothesis g0_ok : per_request g0.

(** [n] samples, those of a counter being 1. *)
Definition sampled (n : nat) (tr : list host_event) : Prop :=
  length (values counted tr) = n /\
  (extractor_ g0 = OneRequest -> values counted tr = replicate n 1).

Lemma sampled_app n m t1 t2 : sampled n t1 -> sampled m t2 -> sampled (n + m) (t1 ++ t2).
Proof.
  intros [H1 H1'] [H2 H2']. split; rewrite values_app.
  - rewrite length_app. lia.
  - intros He. by rewrite H1', H2', replicate_add.
Qed.

Lemma sampled_none tr : observe record_of tr = [] -> sampled 0 tr.
Proof. intros Ht. unfold sampled. by rewrite values_none. Qed.

Lemma sampled_never {X} (m : host_prog X) : never record_of m -> runs_with h (fun tr _ => sampled 0 tr) m.
Proof. intros Hm. apply runs_with_traces. intros t a Ht. apply sampled_none. by eapply never_traces. Qed.

(** The statistics of the metric are those of its generator. *)
Definition is_mine (g : StatGen) : bool := bool_decide (metric_name g = metric_name g0).

Record names_apart (gens : list StatGen) : Prop := {
  mine_only : filter (fun g => is_mine g = true) gens = [g0];
  mine_counted g d n : g ∈ gens -> stat_name g d = Some n ->
    counted (id_of (metric_type g) n) = is_mine g
}.

Definition stat_ok (st : SimpleStat) : Prop :=
  counted (metric_id_ st) = true ->
  stat_recurrent st = false /\ value_fn_ st = extractor_ g0 /\ type_ st = metric_type g0.

Definition mine (stats : list SimpleStat) : nat :=
  length (filter (fun st => counted (metric_id_ st) = true) stats).

Lemma record_sampled st r :
  stat_ok st ->
  runs_with h (fun tr _ => sampled (if counted (metric_id_ st) then 1 else 0) tr) (record st r).
Proof.
  intros Hst. apply runs_with_traces. intros tr r' Ht. unfold record in Ht.
  apply traces_bind_done in Ht as ([v r1] & t1 & t2 & -> & H1 & H2).
  assert (observe record_of t1 = []) as Hsilent.
  { eapply never_traces; [|exact H1]. destruct (value_fn_ st); simpl; try done.
    by destruct (duration r). }
  assert (extractor_ g0 = value_fn_ st -> value_fn_ st = OneRequest -> v = 1) as Hone.
  { intros _ He. rewrite He in H1. by destruct H1 as [_ [= -> _]]. }
  change (if counted (metric_id_ st) then 1%nat else 0%nat)
    with (0 + if counted (metric_id_ st) then 1 else 0)%nat.
  apply sampled_app; [by apply sampled_none|]. unfold sampled, values.
  destruct (counted (metric_id_ st)) eqn:Hc.
  - destruct (Hst Hc) as (_ & He & Hty). rewrite decide_False in H2.
    + destruct H2 as ([] & t3 & -> & -> & _). cbn. rewrite Hc. cbn. split; [done|].
      intros Hx. by rewrite Hone by congruence.
    + intros [Ht Hz]. destruct (always_sampled _ g0_ok); [|congruence].
      rewrite Hone in Hz by congruence. done.
  - case_decide; [by destruct H2 as [-> _]|]. destruct H2 as ([] & t3 & -> & -> & _). cbn. by rewrite Hc.
Qed.

Lemma record_all_sampled stats (e : bool) r :
  Forall stat_ok stats ->
  runs_with h (fun tr _ => sampled (if e then mine stats else 0) tr) (record_all stats e r).
Proof.
  intros Hf. revert r. induction Hf as [|st stats Hst _ IH]; intros r; cbn [record_all].
  { apply runs_with_ret. destruct e; by apply sampled_none. }
  eapply (runs_with_bind h (fun tr _ =>
    sampled (if e then if counted (metric_id_ st) then 1 else 0 else 0) tr)).
  - destruct e; cbn [orb]; [by apply record_sampled|].
    destruct (stat_recurrent st) eqn:Hr; [|apply runs_with_ret; by apply sampled_none].
    eapply runs_with_mono; [|by apply record_sampled]. intros t r1.
    destruct (counted (metric_id_ st)) eqn:Hc; [|done]. destruct (Hst Hc). congruence.
  - intros t r1 H1. eapply runs_with_mono; [|apply IH]. intros t' r2 H2.
    pose proof (sampled_app _ _ _ _ H1 H2) as H. destruct e; [|done].
    unfold mine in *. rewrite filter_cons. destruct (counted (metric_id_ st)); by case_decide.
Qed.

Lemma mine_is_g0 gens g : names_apart gens -> g ∈ gens -> is_mine g = true -> g = g0.
Proof.
  intros [Hf _] Hg Hm. apply list_elem_of_singleton. rewrite <- Hf. by apply list_elem_of_filter.
Qed.

Lemma fresh_mine gens p d stats :
  (forall g n, g ∈ gens -> stat_name g d = Some n -> counted (id_of (metric_type g) n) = is_mine g) ->
  (forall g, g ∈ gens -> is_mine g = true -> g = g0) ->
  fresh id_of gens p d = Some stats ->
  Forall stat_ok stats /\
  mine stats = if decide (is_request p) then length (filter (fun g => is_mine g = true) gens) else 0%nat.
Proof.
  intros Hc Hm. revert stats. induction gens as [|g gens IH]; intros stats; cbn [fresh].
  { intros [= <-]. split; [constructor|]. by case_decide. }
  assert (forall stats, fresh id_of gens p d = Some stats -> Forall stat_ok stats /\
    mine stats = if decide (is_request p) then length (filter (fun g => is_mine g = true) gens)
                 else 0%nat) as IH'.
  { intros l. apply IH; intros; [apply Hc|apply Hm]; by try right. }
  clear IH. rewrite filter_cons.
  assert (is_mine g = true -> matchesProtocol g p = bool_decide (is_request p)) as Hp.
  { intros Hg. rewrite (Hm g) by (by try left). unfold matchesProtocol.
    rewrite (of_requests _ g0_ok). by destruct p. }
  destruct (matchesProtocol g p) eqn:Ep; cbn [negb].
  - destruct (stat_name g d) as [n|] eqn:En; [|done]. cbn [mbind option_bind].
    destruct (fresh id_of gens p d) as [l|]; [|done]. intros [= <-]. destruct (IH' l eq_refl) as [Hl Hn].
    pose proof (Hc g n ltac:(by left) En) as Hid. split.
    + constructor; [|done]. intros Hx. cbn in *. rewrite Hid in Hx. rewrite (Hm g) by (by try left).
      by rewrite (at_end _ g0_ok).
    + unfold mine in *. rewrite filter_cons. cbn [metric_id_]. rewrite Hid.
      destruct (is_mine g) eqn:Hg; [|by rewrite !(decide_False (P := false = true))].
      rewrite !(decide_True (P := true = true)) by done. simpl. rewrite Hn.
      specialize (Hp eq_refl). symmetry in Hp. apply bool_decide_eq_true in Hp. by rewrite !decide_True.
  - intros Hf. destruct (IH' _ Hf) as [Hl Hn]. split; [done|]. rewrite Hn.
    destruct (is_mine g) eqn:Hg; [|done]. specialize (Hp eq_refl). symmetry in Hp.
    apply bool_decide_eq_false in Hp. by rewrite !decide_False.
Qed.

(** ** Reports *)

(** What a root needs for its metrics to be counted. *)
Record counting (ctx : PluginRootContext) : Prop := {
  counting_cache : coherent id_of ctx;
  counting_names : names_apart (stats_ ctx);
  counting_active : initialized_ ctx = true
}.

Lemma report_stats_sampled r (e : bool) ctx :
  counting ctx -> label_of (istio_dimensions_ ctx) (request_protocol r) ->
  runs_with h (fun tr p =>
      sampled (if e then if decide (is_request (request_protocol r)) then 1 else 0 else 0) tr /\
      request_protocol (fst p) = request_protocol r /\ counting (snd p) /\
      request_queue_ (snd p) = request_queue_ ctx)
    (report_stats r e ctx).
Proof.
  intros [Hc Hn Hi] Hl s [r' ctx'] Hr. pose proof (run_report_stats h id_of r e ctx s Hc Hl) as H.
  cbv zeta in H. destruct (fresh _ _ _ _) as [stats|] eqn:Ef; [|by destruct (H _ Hr)].
  destruct (fresh_mine _ _ _ _ (fun g n => mine_counted _ Hn g _ n)
    (fun g Hg Hm => mine_is_g0 _ _ Hn Hg Hm) Ef) as [Hok Hm].
  rewrite (mine_only _ Hn) in Hm. destruct H as [Hrec H].
  destruct (result (run h (record_all stats e r) s)) as [r1| |] eqn:Es; [|by rewrite Hr in H..].
  destruct H as (ctx1 & Hr1 & Hc1 & Hs1). rewrite Hr in Hr1. injection Hr1 as <- <-.
  pose proof (record_all_sampled stats e r Hok _ _ Es) as Hv. cbn beta in Hv. rewrite Hm in Hv.
  destruct (returns_run _ _ _ _ _ (report_stats_root r e ctx) Hr) as [Hi' Hq].
  split; [|split; [|split; [|done] ] ].
  - unfold sampled, values in *. rewrite Hrec. exact Hv.
  - refine (returns_run _ _ _ _ _ (record_all_protocol stats e r) Es).
  - simpl in *. split; [done|by rewrite Hs1|congruence].
Qed.

Lemma report_sampled r (e : bool) ctx :
  counting ctx ->
  runs_with h (fun tr p =>
      sampled (if e then if decide (request_protocol r = TCP) then 0 else 1 else 0) tr /\
      (request_protocol (fst p) = TCP <-> request_protocol r = TCP) /\ counting (snd p) /\
      request_queue_ (snd p) = request_queue_ ctx)
    (report r e ctx).
Proof.
  intros Hctx. unfold report. rewrite (counting_active _ Hctx). cbn [negb].
  apply (runs_with_bind h (fun t o => observe record_of t = [] /\
    match o with
    | Some (r', d) => next_protocol e (request_protocol r) (request_protocol r') /\
                      label_of d (request_protocol r')
    | None => e = false
    end)).
  { apply runs_with_traces. intros t o Ht. split.
    - apply (never_traces _ _ _ _ (prepare_silent r e ctx) Ht).
    - apply (returns_traces _ _ _ _ (prepare_next r e ctx) Ht). }
  intros t [[r1 d]|] [Ht Ho]; cbn beta match in Ho.
  - destruct Ho as [Hp Hl]. eapply runs_with_mono; [|apply report_stats_sampled; [|exact Hl] ].
    + intros t' [r2 ctx2] (Hv & Hr2 & H). simpl in Hr2, H |- *. rewrite Hr2. unfold next_protocol in Hp.
      split; [|split; [destruct (decide (request_protocol r = TCP)); tauto|done] ].
      change (if e then _ else _) with (0 + if e then if decide (request_protocol r = TCP) then 0 else 1 else 0)%nat.
      apply sampled_app; [by apply sampled_none|]. destruct e; [|done].
      destruct (decide (request_protocol r = TCP)).
      * by rewrite decide_False in Hv by (by rewrite Hp; intros [?|?]).
      * by rewrite decide_True in Hv by (by apply Hp).
    + by destruct Hctx.
  - subst e. apply runs_with_ret. rewrite app_nil_r. split; [by apply sampled_none|done].
Qed.
(** ** Histories *)

(** [tcp] are the streams of TCP that there are. *)
Definition tcp_streams (tcp : gset Z) (m : gmap Z RequestInfo) : Prop :=
  forall id r, m !! id = Some r -> (request_protocol r = TCP <-> id ∈ tcp).

Record world_counting (tcp : gset Z) (w : world) : Prop := {
  root_counting : counting (root w);
  streams_tcp : tcp_streams tcp (streams w)
}.

(** A stream's protocol changes, or it is created. *)
Lemma tcp_streams_change (tcp tcp' : gset Z) m id r :
  tcp_streams tcp m -> (request_protocol r = TCP <-> id ∈ tcp') ->
  (forall id', id' <> id -> id' ∈ tcp' <-> id' ∈ tcp) -> tcp_streams tcp' (<[id := r]> m).
Proof.
  intros Hw Hr Ho id' r'. rewrite lookup_insert_Some.
  intros [[<- <-]|[Hn Hl] ]; [done|]. rewrite (Ho id') by done. by apply Hw.
Qed.

Lemma tcp_streams_set tcp m id r :
  tcp_streams tcp m -> (request_protocol r = TCP <-> id ∈ tcp) -> tcp_streams tcp (<[id := r]> m).
Proof. intros Hw Hr. by apply (tcp_streams_change tcp). Qed.

Lemma counting_queue ctx q : counting ctx -> counting (ctx <| request_queue_ := q |>).
Proof. by intros [? ? ?]. Qed.

Lemma report_stream_sampled tcp id (e : bool) w :
  world_counting tcp w ->
  runs_with h (fun tr w' =>
      sampled (if e then if decide (id ∈ tcp) then 0 else 1 else 0) tr /\ world_counting tcp w')
    (report_stream id e w).
Proof.
  intros [Hr Hs]. unfold report_stream, request_info_.
  destruct (streams w !! id) as [r|] eqn:Er; [|by intros s a]. rewrite bind_ret.
  pose proof (Hs _ _ Er) as Hp.
  eapply runs_with_bind; [by apply report_sampled|]. intros t [r1 ctx1] (Hv & Hp1 & Hc & _).
  apply runs_with_ret. rewrite app_nil_r. simpl in *. split.
  - destruct e; [|done]. destruct (decide (id ∈ tcp)).
    + by rewrite decide_True in Hv by tauto.
    + by rewrite decide_False in Hv by tauto.
  - split; [done|]. apply (tcp_streams_set tcp); [done|tauto].
Qed.

Lemma tick_all_sampled tcp queue w :
  world_counting tcp w ->
  runs_with h (fun tr w' => sampled 0 tr /\ world_counting tcp w') (tick_all queue w).
Proof.
  revert w. induction queue as [|[id p] queue IH]; intros w Hw; cbn [tick_all].
  { apply runs_with_ret. split; [by apply sampled_none|done]. }
  apply (runs_with_bind h (fun t _ => sampled 0 t)); [apply sampled_never; by intros b|].
  assert (forall (t : list host_event) m, sampled 0 t ->
    runs_with h (fun tr w' => sampled 0 tr /\ world_counting tcp w') m ->
    runs_with h (fun tr w' => sampled 0 (t ++ tr) /\ world_counting tcp w') m) as Hskip.
  { intros t m Ht. apply runs_with_mono. intros t' w' [H ?]. split; [|done].
    by apply (sampled_app 0 0). }
  intros t [] Ht; cbn [negb]; apply Hskip; try done; [|by apply IH].
  apply (runs_with_bind h (fun t _ => sampled 0 t)); [apply sampled_never; by intros []|].
  intros t1 _ Ht1. apply Hskip; [done|].
  eapply runs_with_bind; [by apply (report_stream_sampled tcp _ false)|].
  intros t2 w2 [Ht2 Hw2]. apply Hskip; [done|]. by apply IH.
Qed.

Lemma quiet_counting tcp ev w :
  quiet_event ev -> world_counting tcp w ->
  returns (world_counting (next_tcp tcp ev)) (handle ev w).
Proof.
  intros Hq [Hr Hs]. destruct ev as [id|id|id|id|id|id size|id size|id|]; try done; cbn [handle next_tcp].
  - split; [done|]. apply (tcp_streams_change tcp); [done|split; first [done|set_solver]|set_solver].
  - split; [done|]. intros id' r'. simpl. rewrite lookup_delete_Some. intros [Hn Hl].
    rewrite (Hs _ _ Hl). set_solver.
  - unfold onRequestHeaders, request_info_. destruct (streams w !! id) as [r|]; [|done]. rewrite bind_ret.
    eapply (returns_bind (fun p => world_counting (tcp ∖ {[id]}) (snd p))); [|by intros [st w'] ].
    eapply (returns_bind (fun r' => request_protocol r' <> TCP)).
    { simpl. intros [t|]; simpl; [|done]. by case_decide. }
    intros r1 H1. apply (returns_bind (fun _ => True)); [apply returns_true|]. intros b _.
    eapply (returns_bind (fun r' => request_protocol r' <> TCP)).
    { destruct b; [|done]. by apply returns_fill. }
    intros r2 H2. split; [done|]. apply (tcp_streams_change tcp); [done|split; first [done|set_solver]|set_solver].
  - split; [by apply counting_queue|done].
  - unfold onNewConnection, request_info_. destruct (streams w !! id) as [r|]; [|done]. simpl.
    split; [by apply counting_queue|].
    apply (tcp_streams_change tcp); [done|split; first [done|set_solver]|set_solver].
  - unfold onDownstreamData, request_info_. destruct (streams w !! id) as [r|] eqn:Er; [|done]. simpl.
    split; [done|]. apply tcp_streams_set; [done|exact (Hs _ _ Er)].
  - unfold onUpstreamData, request_info_. destruct (streams w !! id) as [r|] eqn:Er; [|done]. simpl.
    split; [done|]. apply tcp_streams_set; [done|exact (Hs _ _ Er)].
Qed.

Lemma handle_sampled tcp ev w :
  world_counting tcp w ->
  runs_with h (fun tr w' => sampled (logs_request tcp ev) tr /\ world_counting (next_tcp tcp ev) w')
    (handle ev w).
Proof.
  intros Hw. destruct (quiet_event ev) eqn:Hq.
  - replace (logs_request tcp ev) with 0%nat by by destruct ev.
    apply runs_with_traces. intros t w' Ht. split.
    + apply sampled_none. eapply never_traces; [|exact Ht]. apply handle_silent. by rewrite Hq.
    + refine (returns_traces _ _ _ _ (quiet_counting tcp ev w _ Hw) Ht). by rewrite Hq.
  - destruct ev as [| | | | | | |id|]; try done; cbn [handle next_tcp logs_request].
    + unfold onLog, request_info_. cbn zeta. set (w1 := w <| root := _ |>).
      assert (world_counting tcp w1) as [Hr1 Hs1] by (destruct Hw; split; [by apply counting_queue|done]).
      destruct (streams w1 !! id) as [r|] eqn:Er; [|by intros s a]. rewrite bind_ret.
      apply (report_stream_sampled tcp id true). split; [done|].
      apply tcp_streams_set; [done|]. rewrite <- (Hs1 _ _ Er). by case_decide.
    + by apply tick_all_sampled.
Qed.

Lemma handle_all_sampled tcp evs w :
  world_counting tcp w ->
  runs_with h (fun tr _ => sampled (logged_requests tcp evs) tr) (handle_all evs w).
Proof.
  revert tcp w. induction evs as [|ev evs IH]; intros tcp w Hw; cbn [handle_all logged_requests].
  { apply runs_with_ret. by apply sampled_none. }
  eapply runs_with_bind; [by apply (handle_sampled tcp)|]. intros t w1 [Ht Hw1].
  eapply runs_with_mono; [|by apply IH]. intros t' w2. by apply sampled_app.
Qed.
End samples.
End protocols.

(** ** Theorems *)

Section request_theorems.
Context `{A : AbslStrings} `{F : Flatbuffers} `{U : UnorderedMap}.
Context {S : Type} (h : handler HostCall S) (id_of : MetricType -> string -> Z) `{!NamingHost h id_of}.

(** C8: every request is counted once.  Take a metric that is recorded at the end of
    the requests of HTTP and gRPC, that is the counter of requests or no counter
    (another counter does not record a zero), and whose names the host does not give the ids
    of others'.  Over any history of streams that begin with it, with any ticks,
    reports and cached statistics in between, there are as many samples on the
    metric as requests were logged, and each sample of a metric that counts
    requests is 1. *)
Theorem requests_counted_once (g0 : StatGen) (counted : Z -> bool) evs w s w' :
  per_request g0 -> names_apart id_of g0 counted (stats_ (root w)) ->
  metrics_ (root w) = ∅ -> initialized_ (root w) = true -> streams w = ∅ ->
  result (run h (handle_all evs w) s) = Done w' ->
  let samples := values counted (trace (run h (handle_all evs w) s)) in
  length samples = logged_requests ∅ evs /\
  (extractor_ g0 = OneRequest -> samples = replicate (logged_requests ∅ evs) 1).
Proof.
  intros Hg Hn Hm Hi Hs Hr. refine (handle_all_sampled h id_of g0 counted Hg ∅ evs w _ s w' Hr).
  split; [split; [by apply coherent_empty|done..]|]. intros id r. by rewrite Hs, lookup_empty.
Qed.
End request_theorems.

(** ** Witnesses *)

#[local] Existing Instance flat_example.
#[local] Instance requests_absl : AbslStrings := absl_reference.
#[local] Existing Instance map_order.
#[local] Existing Instance no_time.
#[local] Existing Instance example_json.

(** A host whose ids are those of the names without their tags. *)
Fixpoint base_name (n : string) : string :=
  match n with
  | EmptyString => EmptyString
  | String c n' => if has_char ";"%char n then base_name n' else n
  end.

Definition base_id (type : MetricType) (n : string) : Z := Z.pos (encode (base_name n)).

Definition base_host : handler HostCall Z :=
  fun X e s =>
    match e in HostCall X return X * Z with
    | ResolveFullName t n => (base_id t n, s)
    | e => config_host "{...}" _ e s
    end.

#[local] Instance base_host_names : NamingHost base_host base_id.
Proof. intros t n s. reflexivity. Qed.

Lemma base_name_plain n : has_char ";"%char n = false -> base_name n = n.
Proof. destruct n as [|c n]; [done|]. cbn [base_name]. by intros ->. Qed.

Lemma base_name_skip x y : base_name (x +:+ ";" +:+ y) = base_name y.
Proof.
  induction x as [|c x IH]; [done|].
  change (String c x +:+ ";" +:+ y) with (String c (x +:+ ";" +:+ y)). cbn [base_name].
  rewrite IH. change (String c (x +:+ ";" +:+ y)) with (String c x +:+ ";" +:+ y).
  by rewrite !has_char_app, orb_true_r.
Qed.

Lemma base_name_full vs tags indexes d name n :
  has_char ";"%char name = false -> full_name ";.;" vs tags indexes d name = Some n -> base_name n = name.
Proof.
  intros Hn. revert indexes n. induction tags as [|tag tags IH]; intros indexes n; cbn [full_name].
  { intros [= <-]. by apply base_name_plain. }
  destruct indexes as [|i indexes]; [done|].
  intros (v & _ & (m & Hm & [= <-])%bind_Some)%bind_Some.
  trans (base_name ((tag +:+ vs +:+ v +:+ ";.") +:+ ";" +:+ m)).
  - by rewrite <- !app_assoc_s.
  - rewrite base_name_skip. by eapply IH.
Qed.

(** Generators with the default separator and names of their own. *)
Lemma base_names_apart gens g0 :
  filter (fun g => is_mine g0 g = true) gens = [g0] ->
  Forall (fun g => field_separator g = ";.;" /\ has_char ";"%char (metric_name g) = false) gens ->
  names_apart base_id g0 (fun id => bool_decide (id = Z.pos (encode (metric_name g0)))) gens.
Proof.
  intros Hf Hg. split; [done|]. intros g d n Hin Hn. rewrite Forall_forall in Hg.
  destruct (Hg g Hin) as [Hs Hc]. unfold stat_name in Hn. rewrite Hs in Hn.
  unfold base_id, is_mine. rewrite (base_name_full _ _ _ _ _ _ Hc Hn). apply bool_decide_ext.
  split; [|by intros ->]. intros [= He]. by apply (inj encode).
Qed.

(** The plugin as configured, and its counter of requests. *)
Definition configured : world :=
  done_or example_world (result (run base_host (life false [Configure 0]) 0)).

Definition requests_total : StatGen :=
  default sent_bytes_gen (list_find (fun g => extractor_ g = OneRequest) (stats_ (root configured)) ≫= fun p => Some (snd p)).

(** Two requests, one of them long, and a connection. *)
Definition mixed : list stats_event :=
  [Create 1; RequestHeaders 1; Create 2; NewConnection 2; ResponseHeaders 1; Tick; UpstreamData 2 5;
   Create 3; RequestHeaders 3; Log 3; Tick; Log 1; Log 2; Destroy 1].

Definition request_id (id : Z) : bool := bool_decide (id = Z.pos (encode (metric_name requests_total))).

Definition mixed_run := run base_host (handle_all mixed configured) 0.
Definition mixed_world : world := done_or configured (result mixed_run).

Lemma requests_counted_once_witness :
  logged_requests ∅ mixed = 2%nat /\ values request_id (trace mixed_run) = [1; 1].
Proof.
  split; [vm_compute; reflexivity|].
  refine (proj2 (requests_counted_once base_host base_id requests_total request_id mixed configured 0
    mixed_world _ _ _ _ _ _) _).
  - split; [vm_compute; reflexivity|vm_compute; reflexivity|left; vm_compute; reflexivity].
  - apply base_names_apart; [vm_compute; reflexivity|].
    apply (bool_decide_eq_true_1 (Forall _ _)). vm_compute. reflexivity.
  - vm_compute. reflexivity.
  - vm_compute. reflexivity.
  - vm_compute. reflexivity.
  - apply is_done_or. vm_compute. reflexivity.
  - vm_compute. reflexivity.
Defined.
