(* ===== verification/StatsNames.v ===== *)
(** * The telemetry of Istio: the names of metrics

    A statistic names its metric by the text that [StatGen::resolve] builds, and
    the tags are read back from it by regular expressions,
    [tag=\.=(.+?);\.;], in the proxy's own configuration
    ([stats/testdata/client.yaml]).  The text has the values as they are: a tag is
    read back when no value holds a separator, and one that does forges the tags
    that come after it. *)

From stdpp Require Import base tactics numbers list strings gmap.
From Stdlib Require Import ZArith Lia Ascii.
From S2P Require Import Prelude HostApi Absl Json ResponseFlags Context Stats StatsConfig.
From S2P Require Import StatsRequests.
Local Open Scope Z_scope.
Local Open Scope wasm_scope.

(** ** Reading a tag *)

(** What follows the first [pat] in [s], and what precedes it. *)
Fixpoint after (pat s : string) : option string :=
  if is_prefix pat s then Some (substr_drop (String.length pat) s)
  else match s with EmptyString => None | String _ s' => after pat s' end.

Fixpoint before (pat s : string) : option string :=
  if is_prefix pat s then Some EmptyString
  else match s with EmptyString => None | String c s' => String c <$> before pat s' end.

(** The first match of [tag=\.=(.*?);\.;].  The test data ([stats/testdata/client.yaml])
    use it for the canonical revisions and the gRPC status; the regex of the other tags
    has [.+?], which differs on an empty value only. *)
Definition read_tag (tag n : string) : option string :=
  s ← after (tag +:+ default_value_separator) n; before default_field_separator s.

(** No character of a separator but the dot. *)
Definition plain (s : string) : bool := negb (has_char ";" s) && negb (has_char "=" s).

Lemma plain_cons c s : plain (String c s) = true <-> c <> ";"%char /\ c <> "="%char /\ plain s = true.
Proof.
  unfold plain. cbn [has_char]. do 2 case_decide; subst; cbn; rewrite ?andb_true_iff; naive_solver.
Qed.

(** ** Searching past what does not match *)

(** A text up to the first character of a separator. *)
Lemma plain_prefix b x c r :
  plain b = true -> plain x = true -> c = ";"%char \/ c = "="%char ->
  is_prefix (b +:+ "=.=") (x +:+ String c r) = true ->
  b = x /\ c = "="%char /\ is_prefix ".=" r = true.
Proof.
  intros Hb Hx Hc. revert b Hb. induction x as [|a x IH]; intros b Hb.
  - destruct b as [|d b]; cbn.
    + case_decide; [|done]. subst c. done.
    + apply plain_cons in Hb as (H1 & H2 & _). case_decide; [|done]. naive_solver.
  - apply plain_cons in Hx as (H1 & H2 & Hx). destruct b as [|d b]; cbn.
    + by rewrite decide_False by congruence.
    + apply plain_cons in Hb as (_ & _ & Hb). case_decide; [|done]. subst d.
      intros Hp. by destruct (IH Hx b Hb Hp) as (-> & ? & ?).
Qed.

Lemma after_prefix p r : after p (p +:+ r) = Some r.
Proof.
  assert (forall s, is_prefix p s = true -> after p s = Some (substr_drop (String.length p) s)) as Ha.
  { intros [|c s] Hp; cbn [after]; by rewrite Hp. }
  rewrite Ha; [by rewrite substr_drop_app|]. apply is_prefix_iff. eauto.
Qed.

Section search.
Context (b : string) (b_plain : plain b = true) (b_nonempty : b <> EmptyString).

(** A plain text and a separator's first character are skipped, unless the tag
    ends the text and the rest of [=.=] comes after it. *)
Lemma after_skip x c r :
  plain x = true -> c = ";"%char \/ c = "="%char ->
  (c = "="%char -> is_suffix b x = true -> is_prefix ".=" r = false) ->
  after (b +:+ "=.=") (x +:+ String c r) = after (b +:+ "=.=") r.
Proof using b_plain b_nonempty.
  intros Hx Hc. assert (forall y, plain y = true -> is_prefix (b +:+ "=.=") (y +:+ String c r) = true ->
    b = y /\ c = "="%char /\ is_prefix ".=" r = true) as Hp.
  { intros y Hy. by apply plain_prefix. }
  induction x as [|a x IH]; intros Hs.
  - cbn [String.append after]. destruct (is_prefix (b +:+ _) _) eqn:E; [|done].
    destruct (Hp EmptyString eq_refl E) as [Hb _]. congruence.
  - pose proof Hx as (_ & _ & Hx')%plain_cons. cbn [String.append after].
    destruct (is_prefix (b +:+ _) _) eqn:E.
    + destruct (Hp (String a x) Hx E) as (Hb & Hc' & Hr). rewrite Hs in Hr; [done..|].
      apply is_suffix_iff. by exists EmptyString.
    + apply IH; [done|]. intros Hc' Hb. apply Hs; [done|].
      apply is_suffix_iff in Hb as [t ->]. apply is_suffix_iff. by exists (String a t).
Qed.

(** A tag with its value. *)
Definition field (tag v : string) : string := tag +:+ "=.=" +:+ v +:+ ";.;".

Lemma after_field tag v r :
  plain tag = true -> plain v = true -> is_suffix b tag = false ->
  after (b +:+ "=.=") (field tag v +:+ r) = after (b +:+ "=.=") r.
Proof using b_plain b_nonempty.
  intros Ht Hv Hs. unfold field. rewrite <- !app_assoc_s.
  change ("=.=" +:+ v +:+ ";.;" +:+ r) with (String "=" ("." +:+ String "=" (v +:+ String ";" ("." +:+ String ";" r)))).
  rewrite after_skip; [|done|by right|congruence].
  rewrite after_skip; [|done|by right|].
  - rewrite after_skip; [|done|by left|done]. by rewrite after_skip; [|done|by left|].
  - intros _ _. destruct v as [|c1 [|c2 v]]; [done|cbn; by case_decide|].
    apply plain_cons in Hv as (_ & _ & (_ & Hc & _)%plain_cons). cbn.
    repeat case_decide; congruence.
Qed.

Lemma after_here v r : after (b +:+ "=.=") (field b v +:+ r) = Some (v +:+ ";.;" +:+ r).
Proof using Type.
  unfold field. rewrite <- !app_assoc_s. rewrite (app_assoc_s b). apply after_prefix.
Qed.
End search.

Lemma before_plain v r : plain v = true -> before ";.;" (v +:+ ";.;" +:+ r) = Some v.
Proof.
  induction v as [|c v IH]; intros Hv; [done|]. apply plain_cons in Hv as (Hc & _ & Hv).
  change (String c v +:+ ?y) with (String c (v +:+ y)). cbn [before].
  replace (is_prefix ";.;" (String c (v +:+ ";.;" +:+ r))) with false.
  - by rewrite IH.
  - cbn [is_prefix]. by rewrite decide_False by congruence.
Qed.

(** ** A name as a list of fields *)

Definition fields_text (fields : list (string * string)) (r : string) : string :=
  foldr (fun p t => field (fst p) (snd p) +:+ t) r fields.

(** Reading past fields that are plain and whose tags do not end in the one read. *)
Lemma read_field b v fields r :
  plain b = true -> b <> EmptyString -> plain v = true ->
  Forall (fun p => plain (fst p) = true /\ plain (snd p) = true /\ is_suffix b (fst p) = false) fields ->
  read_tag b (fields_text fields (field b v +:+ r)) = Some v.
Proof.
  intros Hb Hne Hv Hf. unfold read_tag, default_value_separator, default_field_separator.
  induction Hf as [|[tag w] fields (Ht & Hw & Hs) _ IH]; cbn [fields_text foldr fst snd].
  - rewrite after_here. by apply before_plain.
  - by rewrite after_field.
Qed.

Lemma full_name_fields tags indexes d name n :
  full_name ";.;" "=.=" tags indexes d name = Some n ->
  exists vs, mapM (fun i => d !! i) (take (length tags) indexes) = Some vs /\
    length vs = length tags /\ n = fields_text (zip tags vs) name.
Proof.
  revert indexes n. induction tags as [|tag tags IH]; intros indexes n; cbn [full_name].
  { intros [= <-]. by exists []. }
  destruct indexes as [|i indexes]; [done|].
  intros (v & Hv & (m & (vs & Hm & Hl & ->)%IH & [= <-])%bind_Some)%bind_Some.
  exists (v :: vs). cbn [length take]. split_and!.
  - cbn [mapM]. rewrite Hv. cbn. by rewrite Hm.
  - cbn. by rewrite Hl.
  - cbn [zip zip_with fields_text foldr fst snd]. unfold field. by rewrite <- !app_assoc_s.
Qed.

Lemma fields_text_app l1 l2 r : fields_text (l1 ++ l2) r = fields_text l1 (fields_text l2 r).
Proof. unfold fields_text. by rewrite foldr_app. Qed.

(** Tags that can be told apart when they are searched for in order. *)
Fixpoint readable (tags : list string) : bool :=
  match tags with
  | [] => true
  | tag :: tags =>
      plain tag && negb (bool_decide (tag = EmptyString)) &&
      forallb (fun b => negb (is_suffix b tag)) tags && readable tags
  end.

Lemma readable_lookup tags k b :
  readable tags = true -> tags !! k = Some b ->
  plain b = true /\ b <> EmptyString /\
  Forall (fun tag => plain tag = true /\ is_suffix b tag = false) (take k tags).
Proof.
  revert k. induction tags as [|tag tags IH]; intros [|k]; [done..| |]; cbn [readable lookup list_lookup].
  - rewrite !andb_true_iff, negb_true_iff, bool_decide_eq_false. intros [[[H1 H2] _] _] [= <-]. done.
  - rewrite !andb_true_iff. intros [[[H1 _] H3] H4] Hk. destruct (IH k H4 Hk) as (Hb & Hne & Hf).
    split_and!; [done..|]. cbn [take]. constructor; [|done]. split; [done|].
    rewrite forallb_forall in H3. apply negb_true_iff, H3. apply list_elem_of_In.
    by eapply list_elem_of_lookup_2.
Qed.

(** The generator has the separators that the regular expressions expect. *)
Record reads_back (g : StatGen) : Prop := {
  default_fields : field_separator g = default_field_separator;
  default_values : value_separator g = default_value_separator;
  readable_tags : readable (metric_tags g) = true
}.

(** The name up to a tag, and that tag's field. *)
Lemma name_split g d n k tag i :
  reads_back g -> stat_name g d = Some n -> metric_tags g !! k = Some tag -> indexes_ g !! k = Some i ->
  exists pre v rest, d !! i = Some v /\ n = fields_text pre (field tag v +:+ rest) /\
    pre.*1 = take k (metric_tags g) /\
    Forall (fun p => exists j, j ∈ take k (indexes_ g) /\ d !! j = Some (snd p)) pre.
Proof.
  intros [Hf Hs _] Hn Ht Hi. unfold stat_name in Hn. rewrite Hf, Hs in Hn. clear Hf Hs.
  revert Hn Ht Hi. generalize (metric_tags g), (indexes_ g), (metric_name g). intros tags indexes name.
  revert k indexes n. induction tags as [|t tags IH]; intros k indexes n.
  { intros _ Ht. by rewrite lookup_nil in Ht. }
  destruct indexes as [|j indexes]; cbn [full_name]; [done|].
  intros (w & Hw & (m & Hm & [= <-])%bind_Some)%bind_Some.
  destruct k as [|k]; cbn [lookup list_lookup].
  - intros [= ->] [= ->]. exists [], w, m. split; [done|]. split; [|by split].
    cbn [fields_text foldr]. unfold field. by rewrite <- !app_assoc_s.
  - intros Ht Hi. destruct (IH k indexes m Hm Ht Hi) as (pre & v & rest & Hv & -> & Hp & Hf).
    exists ((t, w) :: pre), v, rest. split; [done|]. split.
    + cbn [fields_text foldr fst snd]. unfold field. by rewrite <- !app_assoc_s.
    + split; [by rewrite fmap_cons, Hp|]. constructor.
      * exists j. split; [by left|done].
      * eapply Forall_impl; [exact Hf|]. intros p (j' & Hj & ?). exists j'. split; [by right|done].
Qed.

(** Fields that are skipped when a later tag is read. *)
Lemma skipped g k b pre :
  reads_back g -> metric_tags g !! k = Some b -> forall m, (m <= k)%nat -> pre.*1 = take m (metric_tags g) ->
  (forall p, p ∈ pre -> plain (snd p) = true) ->
  plain b = true /\ b <> EmptyString /\
  Forall (fun p => plain (fst p) = true /\ plain (snd p) = true /\ is_suffix b (fst p) = false) pre.
Proof.
  intros [_ _ Hr] Hk m Hm Hp Hv. destruct (readable_lookup _ _ _ Hr Hk) as (Hb & Hne & Hf).
  split_and!; [done..|]. apply Forall_forall. intros p Hin. rewrite Forall_forall in Hf.
  destruct (Hf (fst p)) as [H1 H2]; [|by auto].
  assert (fst p ∈ take m (metric_tags g)) as (i & Hi)%list_elem_of_lookup
    by (rewrite <- Hp; by apply list_elem_of_fmap_2).
  apply lookup_take_Some in Hi as [Hi Hl]. apply list_elem_of_lookup. exists i.
  apply lookup_take_Some. split; [done|lia].
Qed.

Lemma read_name g (d : IstioDimensions) n k tag i :
  reads_back g -> stat_name g d = Some n -> metric_tags g !! k = Some tag -> indexes_ g !! k = Some i ->
  (forall j v, j ∈ take (S k) (indexes_ g) -> d !! j = Some v -> plain v = true) ->
  read_tag tag n = d !! i.
Proof.
  intros Hg Hn Ht Hi Hv. destruct (name_split _ _ _ _ _ _ Hg Hn Ht Hi) as (pre & v & rest & Hd & -> & Hp & Hf).
  destruct (skipped g k tag pre Hg Ht k ltac:(done) Hp) as (Hb & Hne & Hs).
  { intros p Hin. rewrite Forall_forall in Hf. destruct (Hf p Hin) as (j & Hj & Hjd).
    apply (Hv j); [|done]. rewrite (take_S_r _ _ _ Hi). apply elem_of_app. by left. }
  rewrite Hd. apply read_field; [done..| |done].
  apply (Hv i); [|done]. rewrite (take_S_r _ _ _ Hi). apply elem_of_app. right. by left.
Qed.

(** ** Theorems *)

(** C20: tags are read back, and tell names apart.  A generator with the default
    separators, whose tags do not end in one another, names its metric so that
    each tag is read back as the dimension at its position, when that and those
    before it hold no character of a separator; hence two vectors of such
    dimensions name the same metric exactly when they agree on all its tags. *)
Theorem tags_read_back g (d d' : IstioDimensions) n n' :
  reads_back g -> length (metric_tags g) = length (indexes_ g) ->
  stat_name g d = Some n -> stat_name g d' = Some n' ->
  (forall i v, i ∈ indexes_ g -> d !! i = Some v \/ d' !! i = Some v -> plain v = true) ->
  (forall k tag i, metric_tags g !! k = Some tag -> indexes_ g !! k = Some i -> read_tag tag n = d !! i) /\
  (n = n' <-> forall i, i ∈ indexes_ g -> d !! i = d' !! i).
Proof.
  intros Hg Hl Hn Hn' Hv.
  assert (forall e m, stat_name g e = Some m -> e = d \/ e = d' -> forall k tag i,
    metric_tags g !! k = Some tag -> indexes_ g !! k = Some i -> read_tag tag m = e !! i) as Hr.
  { intros e m Hm He k tag i Ht Hi. eapply read_name; [done..|]. intros j v Hj Hjv.
    apply (Hv j v); [|by destruct He; subst; auto]. apply list_elem_of_lookup in Hj as [p Hp].
    apply lookup_take_Some in Hp as [Hp _]. by eapply list_elem_of_lookup_2. }
  split; [intros k tag i; by apply Hr; auto|]. split.
  - intros <- i (k & Hk)%list_elem_of_lookup.
    destruct (lookup_lt_is_Some_2 (metric_tags g) k) as [tag Ht].
    { rewrite Hl. by eapply lookup_lt_Some. }
    rewrite <- (Hr d n Hn ltac:(auto) k tag i Ht Hk). by apply (Hr d' n Hn' ltac:(auto) k tag i).
  - intros Hd. enough (stat_name g d = stat_name g d') by congruence. clear -Hd. unfold stat_name.
    revert Hd. generalize (metric_tags g), (indexes_ g). intros tags indexes Hd.
    revert indexes Hd. induction tags as [|tag tags IH]; intros [|i indexes] Hd; try done.
    cbn [full_name]. rewrite (Hd i) by by left. rewrite IH; [done|]. intros j Hj. apply Hd. by right.
Qed.

(** C33: a value that holds the separators forges the tags after it.  Values are not
    escaped: if the dimension of a tag is a text, the separator of fields, a
    later tag, the separator of values and another text, then that tag is read
    back as the other text, whatever its own dimension is. *)
Theorem tag_forged g (d : IstioDimensions) n k tag i v k' b x :
  reads_back g -> stat_name g d = Some n -> metric_tags g !! k = Some tag -> indexes_ g !! k = Some i ->
  (forall j w, j ∈ take k (indexes_ g) -> d !! j = Some w -> plain w = true) ->
  d !! i = Some (v +:+ field_separator g +:+ b +:+ value_separator g +:+ x) ->
  plain v = true -> plain x = true -> metric_tags g !! k' = Some b -> (k < k')%nat ->
  read_tag b n = Some x.
Proof.
  intros Hg Hn Ht Hi Hv Hd Hpv Hpx Hb' Hlt.
  destruct (name_split _ _ _ _ _ _ Hg Hn Ht Hi) as (pre & w & rest & Hd' & -> & Hp & Hf).
  rewrite Hd in Hd'. injection Hd' as <-.
  destruct (skipped g k' b (pre ++ [(tag, v)]) Hg Hb' (S k) ltac:(done)) as (Hb & Hne & Hs).
  - rewrite fmap_app, Hp. by rewrite (take_S_r _ _ _ Ht).
  - intros p [Hin|Hin%list_elem_of_singleton]%elem_of_app; [|by subst].
    rewrite Forall_forall in Hf. destruct (Hf p Hin) as (j & Hj & Hjd). by apply (Hv j).
  - pose proof (read_field b x _ rest Hb Hne Hpx Hs) as H. rewrite fields_text_app in H.
    rewrite <- H. f_equal. f_equal. rewrite (default_fields _ Hg), (default_values _ Hg).
    cbn [fields_text foldr fst snd]. unfold field, default_field_separator, default_value_separator.
    by rewrite <- !app_assoc_s.
Qed.

(** ** Witnesses *)

#[local] Existing Instance flat_example.
#[local] Existing Instance requests_absl.
#[local] Existing Instance map_order.
#[local] Existing Instance no_time.
#[local] Existing Instance example_json.

(** The dimensions of the last request of a run. *)
Definition dimensions_of (w : world) : IstioDimensions := istio_dimensions_ (root w).
Definition name_of (w : world) : string := default "" (stat_name requests_total (dimensions_of w)).

Lemma requests_total_reads_back : reads_back requests_total.
Proof. split; vm_compute; reflexivity. Qed.

Definition other_dimensions : IstioDimensions := <[Label.response_code := "503"]> (dimensions_of mixed_world).

Lemma tags_read_back_witness :
  read_tag "reporter" (name_of mixed_world) = Some "destination" /\
  stat_name requests_total (dimensions_of mixed_world) <> stat_name requests_total other_dimensions.
Proof.
  destruct (tags_read_back requests_total (dimensions_of mixed_world) other_dimensions
    (name_of mixed_world) (default "" (stat_name requests_total other_dimensions))) as [H1 H2].
  - apply requests_total_reads_back.
  - vm_compute. reflexivity.
  - vm_compute. reflexivity.
  - vm_compute. reflexivity.
  - assert (Forall (fun v => plain v = true) (dimensions_of mixed_world) /\
      Forall (fun v => plain v = true) other_dimensions) as [H H'].
    { split; apply (bool_decide_eq_true_1 (Forall _ _)); vm_compute; reflexivity. }
    intros i v _ [Hv|Hv]; rewrite Forall_forall in H, H';
      [apply H|apply H']; by eapply list_elem_of_lookup_2.
  - split.
    + rewrite (H1 0%nat "reporter" Label.reporter); vm_compute; reflexivity.
    + vm_compute. discriminate.
Defined.

(** A request to a host whose name holds the separators. *)
Definition forging_host : handler HostCall Z :=
  fun X e s =>
    match e in HostCall X return X * Z with
    | GetString path =>
        (if decide (path = ["request"; "host"]) then Some "shop;.;response_code=.=200"
         else if decide (path = ["cluster_name"]) then Some "inbound|80||" else None, s)
    | GetInt64 _ => (Some 500, s)
    | e => base_host _ e s
    end.

Definition forged_world : world :=
  done_or configured (result (run forging_host (handle_all [Create 1; RequestHeaders 1; Log 1] configured) 0)).

Lemma tag_forged_witness :
  dimensions_of forged_world !! Label.response_code = Some "500" /\
  read_tag "response_code" (name_of forged_world) = Some "200".
Proof.
  split; [vm_compute; reflexivity|].
  apply (tag_forged requests_total (dimensions_of forged_world) _ 14 "destination_service"
    Label.destination_service "shop" 22 "response_code" "200").
  - apply requests_total_reads_back.
  - vm_compute. reflexivity.
  - vm_compute. reflexivity.
  - vm_compute. reflexivity.
  - intros j v Hj Hv. assert (Forall (fun v => plain v = true) (take 14 (dimensions_of forged_world))) as H
      by (apply (bool_decide_eq_true_1 (Forall _ _)); vm_compute; reflexivity).
    assert (Forall (fun j => j < 14)%nat (take 14 (indexes_ requests_total))) as Hlt
      by (apply (bool_decide_eq_true_1 (Forall _ _)); vm_compute; reflexivity).
    rewrite Forall_forall in H. apply H. apply list_elem_of_lookup. exists j.
    apply lookup_take_Some. split; [done|]. exact (proj1 (Forall_forall _ _) Hlt j Hj).
  - vm_compute. reflexivity.
  - vm_compute. reflexivity.
  - vm_compute. reflexivity.
  - vm_compute. reflexivity.
  - lia.
Defined.
