(* ===== verification/StatsDefaults.v ===== *)
(** * The telemetry of Istio: the default configuration

    A configuration that neither defines nor overrides metrics makes the standard
    ones, each with the first of the standard labels as tags; and from there on
    the counter of requests counts the requests. *)

From stdpp Require Import base tactics numbers list strings gmap.
From Stdlib Require Import ZArith Lia Ascii.
From S2P Require Import Prelude HostApi Absl Json Expressions ResponseFlags Context Stats StatsFlow.
From S2P Require Import StatsConfig StatsRequests.
Local Open Scope Z_scope.
Local Open Scope wasm_scope.

(** ** Specification *)

(** A standard metric, with the separators of the configuration. *)
Definition standard_stat (fs vs : string) (factory : MetricFactory) : StatGen := {|
  recurrent_ := factory_recurrent factory;
  protocols_ := factory_protocols factory;
  indexes_ := seq 0 (factory_count_labels factory);
  extractor_ := factory_extractor factory;
  metric_type := factory_type factory;
  metric_name := "istio_" +:+ factory_name factory;
  metric_tags := take (factory_count_labels factory) STD_ISTIO_DIMENSIONS;
  field_separator := fs;
  value_separator := vs
|}.

Section defaults.
Context `{J : NlohmannJson} `{A : AbslStrings} `{F : Flatbuffers} `{U : UnorderedMap} `{T : AbslTime}.

(** The document has none of the two arrays. *)
Definition no_overrides (j : json) : Prop := find j "definitions" = None /\ find j "metrics" = None.

Definition separators (j : json) : string * string :=
  (value_or (JsonGetField JsonValueAs_string j "field_separator") default_field_separator,
   value_or (JsonGetField JsonValueAs_string j "value_separator") default_value_separator).

(** ** The locals of the configuration *)

(** Seeding from the front is inserting from the back. *)
Lemma seed_factories factories l :
  Locals.factories (foldl seed l factories) =
  foldr (fun f m => <[factory_name f := f]> m) (Locals.factories l) (rev factories).
Proof.
  revert l. induction factories as [|f factories IH]; intros l; [done|]. cbn [foldl rev].
  by rewrite IH, foldr_app.
Qed.

Lemma seeded_factories ctx :
  Locals.factories (seeded ctx) = list_to_map ((fun f => (factory_name f, f)) <$> rev defaultMetrics).
Proof.
  unfold seeded. rewrite seed_factories. generalize (rev defaultMetrics). intros factories.
  induction factories as [|f factories IH]; [done|]. cbn [foldr fmap list_fmap list_to_map fst snd].
  by rewrite IH.
Qed.

Lemma seeded_kept ctx :
  Forall (fun f => kept_tags (seeded ctx) (factory_name f) =
    zip (take (factory_count_labels f) STD_ISTIO_DIMENSIONS) (seq 0 (factory_count_labels f)))
    defaultMetrics.
Proof. repeat constructor; vm_compute; reflexivity. Qed.

Lemma seeded_iteration ctx :
  iteration (Locals.factories (seeded ctx)) ≡ₚ (fun f => (factory_name f, f)) <$> defaultMetrics.
Proof.
  rewrite iteration_perm, seeded_factories.
  rewrite map_to_list_to_map; [apply fmap_Permutation; symmetry; apply Permutation_rev|].
  apply (bool_decide_eq_true_1 (NoDup _)). vm_compute. reflexivity.
Qed.

(** The statistic that a factory gives. *)
Definition stat_of (l : Locals.locals) (sp fs vs : string) (nf : string * MetricFactory) : StatGen := {|
  recurrent_ := factory_recurrent (snd nf);
  protocols_ := factory_protocols (snd nf);
  indexes_ := (kept_tags l (fst nf)).*2;
  extractor_ := factory_extractor (snd nf);
  metric_type := factory_type (snd nf);
  metric_name := sp +:+ factory_name (snd nf);
  metric_tags := (kept_tags l (fst nf)).*1;
  field_separator := fs;
  value_separator := vs
|}.

Lemma make_stats_eq factories l sp fs vs :
  make_stats factories l sp fs vs = mret (stat_of l sp fs vs <$> factories).
Proof.
  induction factories as [|[name f] factories IH]; cbn [make_stats]; [done|].
  unfold make_StatGen. rewrite decide_False by (intros Hl; by rewrite !length_fmap in Hl). rewrite bind_ret, IH. done.
Qed.

Lemma standard_stats ctx fs vs :
  stat_of (seeded ctx) "istio_" fs vs <$> iteration (Locals.factories (seeded ctx)) ≡ₚ
  standard_stat fs vs <$> defaultMetrics.
Proof.
  assert (Forall (fun f => stat_of (seeded ctx) "istio_" fs vs (factory_name f, f) = standard_stat fs vs f)
    defaultMetrics) as Hf.
  { assert (Forall (fun f => factory_count_labels f <= length STD_ISTIO_DIMENSIONS)%nat defaultMetrics) as Hn
      by (apply (bool_decide_eq_true_1 (Forall _ _)); vm_compute; reflexivity).
    pose proof (conj (seeded_kept ctx) Hn) as H%Forall_and. eapply Forall_impl; [exact H|].
    intros f [Hk Hl]. unfold stat_of, standard_stat. cbn [fst snd]. rewrite Hk.
    rewrite fst_zip, snd_zip; [done|..]; rewrite length_take, length_seq; lia. }
  rewrite seeded_iteration, <- list_fmap_compose. apply reflexive_eq.
  exact (Forall_fmap_ext_1 _ _ _ Hf).
Qed.

Lemma process_plain j ctx : no_overrides j -> process j ctx = mret (seeded ctx).
Proof.
  intros [Hd Hm]. unfold process, JsonArrayIterate. rewrite Hd, bind_ret. by rewrite Hm, bind_ret.
Qed.

(** What the configuration makes of the root. *)
Record configured_plain (j : json) (ctx ctx' : PluginRootContext) : Prop := {
  plain_stats : stats_ ctx' ≡ₚ
    standard_stat (fst (separators j)) (snd (separators j)) <$> defaultMetrics;
  plain_expressions : expressions_ ctx' = [] /\ int_expressions_ ctx' = [];
  plain_dimensions : length (istio_dimensions_ ctx') = count_standard_labels;
  plain_cache : metrics_ ctx' = metrics_ ctx
}.

Lemma configured_plain_from j ctx1 ctx2 ctx' :
  metrics_ ctx1 = metrics_ ctx2 -> configured_plain j ctx1 ctx' -> configured_plain j ctx2 ctx'.
Proof. intros Hm [H1 H2 H3 H4]. split; [done..|]. by rewrite H4. Qed.

Lemma initialize_plain j ctx :
  no_overrides j ->
  returns (fun p => fst p = true /\ configured_plain j ctx (snd p)) (initializeDimensions j ctx).
Proof.
  intros Hj. unfold initializeDimensions.
  eapply (returns_bind (fun c => expressions_ c = [] /\ int_expressions_ c = [] /\ metrics_ c = metrics_ ctx)).
  { unfold cleanupExpressions.
    do 2 (apply (returns_bind (fun _ => True)); [apply returns_true|]; intros ? _). done. }
  intros c (He & Hi & Hm). rewrite process_plain by done. rewrite bind_ret. cbn zeta.
  rewrite make_stats_eq, bind_ret. intros build [].
  split; [reflexivity|]. change (Locals.this (seeded c)) with c. split.
  - apply standard_stats.
  - by split.
  - change (length (local_dimensions c) = count_standard_labels). rewrite local_dimensions_length.
    unfold bound. rewrite He. apply Nat.add_0_r.
  - exact Hm.
Qed.

(** ** The whole configuration *)

Lemma delete_all_silent tokens : never record_of (delete_all tokens).
Proof. induction tokens as [|t tokens IH]; [done|]. intros []. by split. Qed.

Lemma cleanup_silent ctx : never record_of (cleanupExpressions ctx).
Proof. do 2 (apply never_bind; [apply delete_all_silent|intros ?]). done. Qed.

Lemma local_node_silent : never record_of extractLocalNodeFlatBuffer.
Proof. unfold extractLocalNodeFlatBuffer, get_pairs. never_tac. Qed.

Section host.
Context {S : Type} (h : handler HostCall S).
(** The text of the configuration, and its document. *)
Context (size : Z) (text : string) (j : json).
Hypothesis text_answer : forall s, fst (h _ (GetBuffer PluginConfiguration 0 size) s) = Some text.
Hypothesis text_parsed : JsonParse text = Some j.
Hypothesis text_plain : no_overrides j.

(** The ids of a metric that are not those of the version that Istio reports. *)
Context (counted : Z -> bool).
Hypothesis build_apart : forall fields s, counted (fst (h _ (ResolveMetric "istio_build" fields) s)) = false.

Lemma never_values {X} (m : host_prog X) :
  never record_of m -> runs_with h (fun tr _ => values counted tr = []) m.
Proof. intros Hm. apply runs_with_traces. intros t a Ht. apply values_none. by eapply never_traces. Qed.

Lemma bind_values {X Y} (m : host_prog X) (f : X -> host_prog Y) :
  runs_with h (fun tr _ => values counted tr = []) m ->
  (forall x, runs_with h (fun tr _ => values counted tr = []) (f x)) ->
  runs_with h (fun tr _ => values counted tr = []) (m ≫= f).
Proof.
  intros Hm Hf. eapply runs_with_bind; [exact Hm|]. intros t x Ht. cbn beta in Ht.
  eapply runs_with_mono; [|apply Hf]. intros t' y Ht'. by rewrite values_app, Ht, Ht'.
Qed.

Lemma build_values {X} fields (x : X) :
  runs_with h (fun tr _ => values counted tr = [])
    (build ← trigger (ResolveMetric "istio_build" fields); _ ← trigger (RecordMetric build 1); mret x).
Proof.
  specialize (build_apart fields). intros s a _. cbn. specialize (build_apart s).
  destruct (h _ _ s) as [id s1]. destruct (h _ _ s1) as [[] s2]. simpl in *. cbn. by rewrite build_apart.
Qed.

Lemma initialize_values ctx :
  runs_with h (fun tr _ => values counted tr = []) (initializeDimensions j ctx).
Proof.
  unfold initializeDimensions. apply bind_values; [apply never_values, cleanup_silent|]. intros c.
  rewrite process_plain by done. rewrite bind_ret. cbn zeta. rewrite make_stats_eq, bind_ret.
  apply build_values.
Qed.

Lemma onConfigure_values ctx :
  runs_with h (fun tr _ => values counted tr = []) (onConfigure size ctx).
Proof.
  unfold onConfigure, configure. apply bind_values; [|intros [ok c]; by apply never_values].
  eapply runs_with_bind; [|intros t v Hv].
  { intros s v Hv. cbn in Hv. pose proof (text_answer s) as Ht.
    instantiate (1 := fun t v => values counted t = [] /\ v = Some text). cbn.
    destruct (h _ _ s) as [x s1]. simpl in *. by simplify_eq. }
  destruct Hv as [Hv ->]. eapply runs_with_mono.
  { intros t' a Ht'. rewrite values_app, Hv. exact Ht'. }
  apply bind_values; [apply never_values, local_node_silent|]. intros node. cbn [deref].
  rewrite bind_ret, text_parsed.
  apply bind_values; [apply initialize_values|]. intros [ok1 c]. destruct ok1; by apply never_values.
Qed.

(** The configuration, once its text is there. *)
Lemma onConfigure_plain ctx :
  runs h (fun p => initialized_ (snd p) = true /\ configured_plain j ctx (snd p)) (onConfigure size ctx).
Proof.
  unfold onConfigure, configure.
  apply (runs_bind h (fun p => fst p = true /\ configured_plain j ctx (snd p))).
  2: { intros [ok c] [Hok [H1 H2 H3 H4] ]. apply runs_ret. split; [done|]. by split. }
  apply (runs_bind h (eq (Some text))).
  { intros s v. specialize (text_answer s). cbn. destruct (h _ _ s). simpl in *. by intros [= <-]. }
  intros ? <-. apply returns_runs.
  apply (returns_bind (fun _ => True)); [apply returns_true|]. intros node _.
  cbn [deref]. rewrite bind_ret, text_parsed.
  eapply returns_bind; [by apply initialize_plain|]. intros [ok1 c] [Hok Hc]. simpl in Hok. subst ok1.
  intros []. split; [done|]. by eapply configured_plain_from; [|exact Hc].
Qed.

(** ** The counter of requests *)

Definition requests_factory : MetricFactory :=
  default_metric "requests_total" Counter OneRequest http_and_grpc count_standard_labels false.

Lemma names_apart_perm id_of g0 gens gens' :
  gens ≡ₚ gens' -> names_apart id_of g0 counted gens' -> names_apart id_of g0 counted gens.
Proof.
  intros Hp [Hm Hc]. split.
  - apply Permutation_singleton_r. by rewrite Hp, Hm.
  - intros g d n Hg. apply Hc. by rewrite <- Hp.
Qed.

Lemma standard_apart id_of vs :
  (forall t n, counted (id_of t n) = bool_decide (base_name n = "istio_requests_total")) ->
  names_apart id_of (standard_stat default_field_separator vs requests_factory) counted
    (standard_stat default_field_separator vs <$> defaultMetrics).
Proof.
  intros Hid. split; [reflexivity|]. intros g d n Hg Hn. rewrite Hid.
  assert (Forall (fun g => field_separator g = default_field_separator /\ has_char ";"%char (metric_name g) = false)
    (standard_stat default_field_separator vs <$> defaultMetrics)) as Hall by (repeat constructor).
  rewrite Forall_forall in Hall. destruct (Hall g Hg) as [Hs Hc].
  unfold stat_name in Hn. rewrite Hs in Hn. unfold is_mine. by rewrite (base_name_full _ _ _ _ _ _ Hc Hn).
Qed.

Lemma life_streams evs w s : run h (handle_life (Stream <$> evs) w) s = run h (handle_all evs w) s.
Proof.
  revert w s. induction evs as [|ev evs IH]; intros w s; [done|].
  cbn [fmap list_fmap handle_life handle_all handle_root]. rewrite !run_bind.
  destruct (result (run h (handle ev w) s)); [|done..]. cbv zeta. by rewrite IH.
Qed.

Lemma life_sampled id_of `{!NamingHost h id_of} outbound evs :
  (forall t n, counted (id_of t n) = bool_decide (base_name n = "istio_requests_total")) ->
  fst (separators j) = default_field_separator ->
  runs_with h (fun tr _ => values counted tr = replicate (logged_requests ∅ evs) 1)
    (life outbound (Configure size :: (Stream <$> evs))).
Proof.
  intros Hid Hs. unfold life.
  apply (runs_with_bind h (fun t ctx => values counted t = [] /\ metrics_ ctx = ∅)).
  { apply runs_with_traces. intros t ctx Ht. split.
    - apply values_none. eapply never_traces; [|exact Ht]. unfold new_root. never_tac.
    - assert (returns (fun c => metrics_ c = ∅) (new_root outbound)) as Hn by (by intros hits misses).
      by apply (returns_traces _ _ _ _ Hn Ht). }
  intros t0 ctx0 [Ht0 Hm]. cbn [handle_life handle_root].
  apply (runs_with_bind h (fun t w => values counted t = [] /\ streams w = ∅ /\
    initialized_ (root w) = true /\ configured_plain j ctx0 (root w))).
  { eapply (runs_with_bind h (fun t p => values counted t = [] /\ initialized_ (snd p) = true /\
      configured_plain j ctx0 (snd p))).
    - intros s p Hp. split; [by eapply onConfigure_values|by eapply onConfigure_plain].
    - intros t [ok ctx] [Ht [Hi Hc] ]. apply runs_with_ret. by rewrite app_nil_r. }
  intros t1 w (Ht1 & Hw & Hi & [Hst _ _ Hmet]) s w' Hr. rewrite life_streams in *.
  rewrite !values_app, Ht0, Ht1. cbn [app].
  refine (proj2 (handle_all_sampled h id_of (standard_stat default_field_separator (snd (separators j)) requests_factory)
    counted _ ∅ evs w _ s w' Hr) eq_refl).
  - split; [done|done|by left].
  - split; [split; [apply coherent_empty; by rewrite Hmet| |done] |].
    + rewrite Hs in Hst. eapply names_apart_perm; [exact Hst|by apply standard_apart].
    + intros id r. by rewrite Hw, lookup_empty.
Qed.
End host.
End defaults.

(** ** Theorems *)

Section default_theorems.
Context `{J : NlohmannJson} `{A : AbslStrings} `{F : Flatbuffers} `{U : UnorderedMap} `{T : AbslTime}.
Context {S : Type} (h : handler HostCall S) (size : Z) (text : string) (j : json).
Hypothesis text_answer : forall s, fst (h _ (GetBuffer PluginConfiguration 0 size) s) = Some text.
Hypothesis text_parsed : JsonParse text = Some j.
Hypothesis text_plain : no_overrides j.

(** C22: the default telemetry.  A configuration that neither defines nor overrides
    metrics makes exactly the ten standard ones, whatever there was before: each
    with its type, protocols and value, named after the prefix of Istio, and
    tagged with as many of the standard labels as it has, in their order; with no
    expression left, and a vector of dimensions of the standard size. *)
Theorem default_statistics ctx s ok ctx' :
  result (run h (onConfigure size ctx) s) = Done (ok, ctx') ->
  initialized_ ctx' = true /\
  stats_ ctx' ≡ₚ standard_stat (fst (separators j)) (snd (separators j)) <$> defaultMetrics /\
  expressions_ ctx' = [] /\ int_expressions_ ctx' = [] /\
  length (istio_dimensions_ ctx') = count_standard_labels.
Proof.
  intros Hr. by destruct (onConfigure_plain h size text j text_answer text_parsed text_plain ctx s _ Hr)
    as [Hi [H1 [H2 H3] H4 H5] ].
Qed.

(** C9: the default telemetry counts the requests.  From the plugin's construction,
    through a configuration that overrides nothing, to the end of any history of
    streams, [istio_requests_total], whatever its tags, is recorded once for
    each request that was logged, with the value 1. *)
Theorem default_requests_counted (id_of : MetricType -> string -> Z) `{!NamingHost h id_of} (counted : Z -> bool)
    outbound evs s w :
  (forall t n, counted (id_of t n) = bool_decide (base_name n = "istio_requests_total")) ->
  (forall fields s, counted (fst (h _ (ResolveMetric "istio_build" fields) s)) = false) ->
  fst (separators j) = default_field_separator ->
  let r := run h (life outbound (Configure size :: (Stream <$> evs))) s in
  result r = Done w -> values counted (trace r) = replicate (logged_requests ∅ evs) 1.
Proof.
  intros Hid Hb Hs r Hr.
  exact (life_sampled h size text j text_answer text_parsed text_plain counted Hb id_of outbound evs Hid Hs s w Hr).
Qed.
End default_theorems.

(** ** Witnesses *)

Section default_witnesses.
#[local] Existing Instance flat_example.
#[local] Instance defaults_absl : AbslStrings := absl_reference.
#[local] Existing Instance map_order.
#[local] Existing Instance no_time.
#[local] Instance plain_json : NlohmannJson := one_document "{}" (JObject []).

(** The host of the example, with nothing in the configuration. *)
Definition plain_host : handler HostCall Z :=
  fun X e s =>
    match e in HostCall X return X * Z with
    | GetBuffer PluginConfiguration _ _ => (Some "{}", s)
    | e => base_host _ e s
    end.

#[local] Instance plain_host_names : NamingHost plain_host base_id.
Proof. intros t n s. reflexivity. Qed.

(** From a root that was configured with more. *)
Definition plain_configured := run plain_host (onConfigure 0 (root configured)) 0.
Definition plain_root : bool * PluginRootContext := done_or (false, root configured) (result plain_configured).

Lemma default_statistics_witness :
  length (stats_ (root configured)) = 11%nat /\ length (stats_ (snd plain_root)) = 10%nat /\
  stats_ (snd plain_root) ≡ₚ standard_stat ";.;" "=.=" <$> defaultMetrics.
Proof.
  split; [vm_compute; reflexivity|]. split; [vm_compute; reflexivity|].
  refine (proj1 (proj2 (default_statistics plain_host 0 "{}" (JObject []) _ _ _ (root configured) 0
    (fst plain_root) (snd plain_root) _))).
  - intros s. reflexivity.
  - reflexivity.
  - split; reflexivity.
  - rewrite <- surjective_pairing. apply is_done_or. vm_compute. reflexivity.
Defined.

Definition counts_requests (id : Z) : bool := bool_decide (id = Z.pos (encode "istio_requests_total")).

Definition plain_life := run plain_host (life true (Configure 0 :: (Stream <$> mixed))) 0.

Lemma default_requests_counted_witness :
  logged_requests ∅ mixed = 2%nat /\ values counts_requests (trace plain_life) = [1; 1].
Proof.
  split; [vm_compute; reflexivity|].
  refine (default_requests_counted plain_host 0 "{}" (JObject []) _ _ _ base_id counts_requests true mixed 0
    (done_or example_world (result plain_life)) _ _ _ _).
  - intros s. reflexivity.
  - reflexivity.
  - split; reflexivity.
  - intros t n. apply bool_decide_ext. unfold base_id. split; [intros [= He]; by apply (inj encode)|by intros ->].
  - intros fields s. reflexivity.
  - reflexivity.
  - apply is_done_or. vm_compute. reflexivity.
Defined.
End default_witnesses.
