(* ===== verification/StatsWhole.v ===== *)
(** * The telemetry of Istio: a configuration as a whole

    What the two arrays of a configuration say, for every document and whatever
    expressions the host rejects, and that the statistics of the plugin are what
    they say: the metrics that are defined and not dropped, each with the tags that
    the last entry about them gave. *)

From stdpp Require Import base tactics numbers list strings gmap fin_maps sorting.
From Stdlib Require Import ZArith Lia.
From S2P Require Import Prelude HostApi Absl Json Expressions ResponseFlags Context Stats StatsConfig.
From S2P Require Import StatsTags StatsRequests StatsDefaults.
Local Open Scope Z_scope.
Local Open Scope wasm_scope.

(** ** Specification *)

(** Where the value of a tag comes from: a standard label, or an expression. *)
Inductive source :=
| Standard (i : nat)
| Input (expr : string).

(** The elements of an array of the document. *)
Definition elements (j : json) (field : string) : list json :=
  match find j field with Some (JArray elems) => elems | _ => [] end.

(** The dimensions are no object: the entry ends the array before anything is done with it. *)
Definition entry_void (metric : json) : bool :=
  match find metric "dimensions" with None => false | Some (JObject _) => false | Some _ => true end.

Section specification.
Context `{A : AbslStrings}.
(** The expressions that the host compiles. *)
Context (accepts : string -> bool).

Definition text_of (field : string) (x : json) : string :=
  value_or (JsonGetField JsonValueAs_string x field) "".

(** A definition that can be processed. *)
Definition definition_ok (definition : json) : bool :=
  bool_decide (text_of "name" definition <> EmptyString) &&
  (bool_decide (text_of "value" definition <> EmptyString) && accepts (text_of "value" definition)).

(** The definitions that are processed. *)
Definition definitions_of (j : json) : list json := take_ok definition_ok (elements j "definitions").

(** The definition of a metric is the last one with its name. *)
Definition definition_of (definitions : list json) (factory : string) : option json :=
  foldl (fun o d => if decide (text_of "name" d = factory) then Some d else o) None definitions.

(** The standard metric of a name. *)
Definition standard_of (factory : string) : option MetricFactory :=
  (list_to_map ((fun f => (factory_name f, f)) <$> defaultMetrics) : gmap string MetricFactory) !! factory.

(** The metric is defined, or standard. *)
Definition declared (definitions : list json) (factory : string) : bool :=
  match definition_of definitions factory with
  | Some _ => true
  | None => match standard_of factory with Some _ => true | None => false end
  end.

Definition entry_drops (metric : json) : bool := value_or (JsonGetField JsonValueAs_bool metric "drop") false.

Definition drops (factory : string) (metric : json) : bool :=
  (selects (text_of "name" metric) factory && entry_drops metric)%bool.

Definition dropped (metrics : list json) (factory : string) : bool := existsb (drops factory) metrics.

(** The metric is there after these definitions and entries. *)
Definition present (definitions metrics : list json) (factory : string) : bool :=
  (declared definitions factory && negb (dropped metrics factory))%bool.

(** The entry is about a metric that is there. *)
Definition reaches (definitions metrics : list json) (metric : json) : bool :=
  existsb (fun factory => present definitions metrics factory && selects (text_of "name" metric) factory)%bool
    ((factory_name <$> defaultMetrics) ++ (text_of "name" <$> definitions)).

(** The entries that are processed after [metrics], and the one that fails in the
    middle of a metric and ends the array, if there is one. *)
Fixpoint entries_from (definitions metrics elems : list json) : list json * option json :=
  match elems with
  | [] => (metrics, None)
  | m :: elems =>
      if entry_void m then (metrics, None)
      else if (negb (entry_drops m) && malformed m && reaches definitions metrics m)%bool then (metrics, Some m)
      else entries_from definitions (metrics ++ [m]) elems
  end.

Definition entries_of (j : json) : list json * option json :=
  entries_from (definitions_of j) [] (elements j "metrics").

(** The standard labels of a standard metric. *)
Definition standard_label (factory tag : string) : option source :=
  f ← standard_of factory;
  '(i, _) ← list_find (fun t => t = tag) (take (factory_count_labels f) STD_ISTIO_DIMENSIONS);
  Some (Standard i).

(** What an entry makes of a tag. *)
Definition entry_tag (factory tag : string) (s : option source) (metric : json) : option source :=
  if selects (text_of "name" metric) factory then
    match overrides metric tag with
    | Some e => if accepts e then Some (Input e) else None
    | None => if removes metric tag then None else s
    end
  else s.

Definition tag_source (metrics : list json) (factory tag : string) : option source :=
  foldl (entry_tag factory tag) (standard_label factory tag) metrics.

(** The factory that the definitions give to a metric; [tr] are the calls to the host. *)
Definition made (tr : list host_event) (definitions : list json) (factory : string) (f : MetricFactory) : Prop :=
  factory_name f = factory /\
  match definition_of definitions factory with
  | Some d =>
      factory_type f = type_of (value_or (JsonGetField JsonValueAs_string_view d "type") "") /\
      factory_protocols f = http_and_grpc /\ factory_recurrent f = false /\
      exists token, factory_extractor f = IntExpression token /\
        Ev (CreateExpression (text_of "value" d)) (Ok, token) ∈ tr
  | None => standard_of factory = Some f
  end.
End specification.

(** ** The fold of an iteration *)

(** An invariant of what was visited, the calls that were made and the state: an element
    that is not well formed ends the iteration. *)
Section iterate.
Context {X St : Type} (visitor : X -> St -> host_prog (bool * St)%type) (ok_x : X -> bool) (P : host_event -> Prop).
Context (I : list X -> list host_event -> St -> Prop).
Hypothesis step : forall xs tr st x tr' b st', I xs tr st ->
  traces (visitor x st) tr' (Done (b, st')) -> Forall P tr' ->
  b = ok_x x /\ I (if ok_x x then xs ++ [x] else xs) (tr ++ tr') st'.

Lemma iterate_prefix elems xs tr st tr' b st' :
  I xs tr st -> traces (iterate visitor elems st) tr' (Done (b, st')) -> Forall P tr' ->
  I (xs ++ take_ok ok_x elems) (tr ++ tr') st'.
Proof.
  revert xs tr st tr'. induction elems as [|x elems IH]; intros xs tr st tr' Hi; cbn [iterate].
  { intros [-> [= -> ->]] _. by rewrite !app_nil_r. }
  cbn [take_ok]. intros ([b1 st1] & t1 & t2 & -> & H1 & H2)%traces_bind_done [Hc1 Hc2]%Forall_app.
  destruct (step _ _ _ _ _ _ _ Hi H1 Hc1) as [-> Hi1]. destruct (ok_x x).
  - specialize (IH _ _ _ _ Hi1 H2 Hc2). by rewrite <- !app_assoc in IH.
  - destruct H2 as [-> [= -> ->] ]. by rewrite !app_nil_r.
Qed.
End iterate.

Section whole.
Context `{A : AbslStrings} `{F : Flatbuffers} `{U : UnorderedMap} `{J : NlohmannJson} `{T : AbslTime}.
Context (accepts : string -> bool).

(** ** Definitions *)

(** Definitions change the factories only, and the expressions of values. *)
Record after_definitions (l0 : Locals.locals) (definitions : list json) (tr : list host_event)
    (l : Locals.locals) : Prop := {
  defined_made factory f : Locals.factories l !! factory = Some f -> made tr definitions factory f;
  defined_all factory : is_Some (Locals.factories l !! factory) <-> declared definitions factory = true;
  defined_tags : Locals.metric_tags l = Locals.metric_tags l0;
  defined_indexes : Locals.metric_indexes l = Locals.metric_indexes l0;
  defined_inputs : input_expressions_ (Locals.this l) = input_expressions_ (Locals.this l0);
  defined_expressions : expressions_ (Locals.this l) = expressions_ (Locals.this l0)
}.

Lemma made_mono tr tr' definitions factory f : tr ⊆ tr' -> made tr definitions factory f -> made tr' definitions factory f.
Proof.
  unfold made. intros Hsub [Hn Hm]. split; [done|]. destruct (definition_of definitions factory); [|done].
  destruct Hm as (Ht & Hp & Hr & token & He & Hin). do 3 (split; [done|]). exists token. by auto.
Qed.

Lemma definition_of_snoc definitions d factory :
  definition_of (definitions ++ [d]) factory =
  if decide (text_of "name" d = factory) then Some d else definition_of definitions factory.
Proof. unfold definition_of. by rewrite foldl_app. Qed.

Lemma after_definitions_mono l0 ds tr tr' l :
  after_definitions l0 ds tr l -> after_definitions l0 ds (tr ++ tr') l.
Proof.
  intros [H1 H2 H3 H4 H5 H6]. split; try done. intros factory f Hf. eapply made_mono; [|by apply H1].
  intros e He. apply elem_of_app. by left.
Qed.

Lemma definition_step l0 ds tr l d tr' b l' :
  after_definitions l0 ds tr l ->
  traces (visit_definition d l) tr' (Done (b, l')) -> Forall (answered accepts) tr' ->
  b = definition_ok accepts d /\
  after_definitions l0 (if definition_ok accepts d then ds ++ [d] else ds) (tr ++ tr') l'.
Proof.
  intros Hl. unfold visit_definition, definition_ok. fold (text_of "name" d) (text_of "value" d).
  destruct (decide (text_of "name" d = EmptyString \/ text_of "value" d = EmptyString)) as [He|He].
  { intros [-> [= -> ->]] _. rewrite app_nil_r.
    destruct He as [-> | ->]; repeat (rewrite bool_decide_eq_false_2 by tauto); [done|]. by rewrite andb_false_r. }
  rewrite !bool_decide_eq_true_2 by tauto. cbn [andb]. unfold addIntExpression.
  intros ([o ctx] & t1 & t2 & -> & Ht & H)%traces_bind_done [Hc1 Hc2]%Forall_app.
  destruct Ht as ([r token] & t3 & -> & Ht). apply Forall_cons in Hc1 as [Hr _]. cbn in Hr.
  cbn -[decide] in Ht. destruct (decide (r <> Ok)) as [Hn|Hn%dec_stable].
  { destruct Ht as [-> [= -> ->] ]. destruct H as [-> [= -> ->] ].
    replace (accepts _) with false by (symmetry; apply not_true_iff_false; tauto).
    split; [done|]. apply after_definitions_mono. by destruct l. }
  subst r. rewrite (proj1 Hr eq_refl). destruct Ht as [-> [= -> ->] ]. destruct H as [-> [= -> ->] ].
  destruct Hl as [H1 H2 H3 H4 H5 H6]. split; [done|]. split; simpl; [| |done..].
  - intros factory f. unfold made. rewrite definition_of_snoc. case_decide as Hf.
    + subst factory. rewrite lookup_insert_eq. intros [= <-]. do 4 (split; [done|]). exists token.
      split; [done|]. set_solver.
    + rewrite lookup_insert_ne by done. intros Hl. eapply made_mono; [|by apply H1]. set_solver.
  - intros factory. unfold declared. rewrite definition_of_snoc. case_decide as Hf.
    + subst factory. rewrite lookup_insert_eq. split; eauto.
    + rewrite lookup_insert_ne by done. apply H2.
Qed.

Lemma seeded_standard ctx factory : Locals.factories (seeded ctx) !! factory = standard_of factory.
Proof. unfold standard_of. rewrite seeded_factories. f_equal. Qed.

Lemma seeded_after ctx : after_definitions (seeded ctx) [] [] (seeded ctx).
Proof.
  pose proof (seeded_standard ctx) as Hs.
  split; [| |done..].
  - intros factory f Hf. rewrite Hs in Hf. split; [|done]. unfold standard_of in Hf.
    apply elem_of_list_to_map_2, list_elem_of_fmap in Hf as (g & [= -> ->] & _). done.
  - intros factory. rewrite Hs. unfold declared. simpl. destruct (standard_of factory).
    + split; eauto.
    + split; [by intros [? ?]|done].
Qed.

(** ** Entries *)

(** A tag is where its source says. *)
Definition holds (inputs : gmap string nat) (s : option source) (o : option (option nat)) : Prop :=
  match s with
  | None => mjoin o = None
  | Some (Standard i) => o = Some (Some i)
  | Some (Input e) => exists k, inputs !! e = Some k /\ o = Some (Some (count_standard_labels + k)%nat)
  end.

Lemma holds_more inputs inputs' s o : inputs ⊆ inputs' -> holds inputs s o -> holds inputs' s o.
Proof.
  intros Hsub. destruct s as [[i|e]|]; [done| |done]. intros (k & Hk & ->). exists k.
  split; [by eapply lookup_weaken|done].
Qed.

Lemma index_of_tag (tags : list string) tag :
  (list_to_map (imap (fun i tag => (tag, Some i)) tags) : gmap string (option nat)) !! tag =
  (fun p => Some (fst p)) <$> list_find (fun t => t = tag) tags.
Proof.
  assert (forall n, (list_to_map (imap (fun i tag => (tag, Some (n + i)%nat)) tags) : gmap string (option nat)) !! tag =
    (fun p => Some (n + fst p)%nat) <$> list_find (fun t => t = tag) tags) as H; [|exact (H 0%nat)].
  induction tags as [|t tags IH]; intros n; [done|]. rewrite imap_cons. cbn [list_to_map foldr fst snd].
  cbn [list_find]. case_decide as Ht.
  - subst t. rewrite lookup_insert_eq. simpl. by rewrite Nat.add_0_r.
  - rewrite lookup_insert_ne by done. rewrite <- option_fmap_compose.
    rewrite (imap_ext _ (fun i tag => (tag, Some (S n + i)%nat))) by (intros; simpl; by rewrite Nat.add_succ_r).
    rewrite IH. destruct (list_find _ tags) as [[i x]|]; [|done]. simpl. by rewrite Nat.add_succ_r.
Qed.

Lemma seed_indexes factories l :
  Locals.metric_indexes (foldl seed l factories) =
  foldr (fun f m => <[factory_name f :=
           list_to_map (imap (fun i tag => (tag, Some i)) (take (factory_count_labels f) STD_ISTIO_DIMENSIONS))]> m)
    (Locals.metric_indexes l) (rev factories).
Proof.
  revert l. induction factories as [|f factories IH]; intros l; [done|]. cbn [foldl rev].
  by rewrite IH, foldr_app.
Qed.

Lemma seeded_indexes ctx :
  Locals.metric_indexes (seeded ctx) =
  (fun f => list_to_map (imap (fun i tag => (tag, Some i)) (take (factory_count_labels f) STD_ISTIO_DIMENSIONS))) <$>
    Locals.factories (seeded ctx).
Proof.
  unfold seeded. rewrite seed_indexes, seed_factories. generalize (rev defaultMetrics). intros factories.
  induction factories as [|f factories IH]; [cbn; by rewrite fmap_empty|].
  cbn [foldr]. by rewrite IH, fmap_insert.
Qed.

Lemma seeded_holds ctx factory tag :
  holds ∅ (standard_label factory tag) (tag_index (seeded ctx) factory tag).
Proof.
  unfold tag_index. rewrite seeded_indexes, lookup_fmap, seeded_standard. unfold standard_label.
  destruct (standard_of factory) as [f|]; simpl; [|by rewrite lookup_empty].
  rewrite index_of_tag. by destruct (list_find _ _) as [[i t]|].
Qed.

(** An entry that drops removes the metrics it names, and nothing else. *)
Lemma drop_factories keys name tags metric l :
  entry_drops metric = true ->
  exists fs, override_factories keys name tags metric l = mret (true, l <| Locals.factories := fs |>) /\
    forall f, fs !! f = if decide (f ∈ keys /\ selects name f = true) then None else Locals.factories l !! f.
Proof.
  unfold entry_drops. intros Hd. revert l. induction keys as [|key keys IH]; intros l; cbn [override_factories].
  { exists (Locals.factories l). split; [by destruct l|]. intros f. rewrite decide_False; [done|].
    by intros [?%elem_of_nil _]. }
  rewrite Hd. case_decide as Hn.
  - destruct (IH l) as (fs & He & Hf). exists fs. split; [done|]. intros f. rewrite Hf. apply decide_ext.
    rewrite elem_of_cons. unfold selects. rewrite orb_true_iff, !bool_decide_eq_true. naive_solver.
  - destruct (IH (l <| Locals.factories := delete key (Locals.factories l) |>)) as (fs & He & Hf).
    exists fs. split; [done|]. intros f. rewrite Hf. simpl.
    assert (selects name key = true) as Hs.
    { unfold selects. rewrite orb_true_iff, !bool_decide_eq_true.
      destruct (decide (name = EmptyString)); [by left|]. right. apply dec_stable. tauto. }
    destruct (decide (f = key)) as [->|Hne].
    + rewrite lookup_delete_eq. rewrite (decide_True (P := key ∈ key :: keys /\ _)) by (split; [by left|done]).
      by case_decide.
    + rewrite lookup_delete_ne by done. apply decide_ext. rewrite elem_of_cons. naive_solver.
Qed.

(** The state after the entries that were processed for each metric. *)
Record after_entries (l0 : Locals.locals) (metrics : string -> list json) (l : Locals.locals) : Prop := {
  visited_factories factory :
    Locals.factories l !! factory = if dropped (metrics factory) factory then None else Locals.factories l0 !! factory;
  visited_exact : inputs_exact (Locals.this l);
  visited_accepted : inputs_accepted accepts (Locals.this l);
  visited_indexed factory : indexed l factory;
  visited_tags factory tag : is_Some (Locals.factories l !! factory) ->
    holds (input_expressions_ (Locals.this l)) (tag_source accepts (metrics factory) factory tag)
      (tag_index l factory tag)
}.

Lemma after_entries_ext l0 ms ms' l :
  (forall f, ms f = ms' f) -> after_entries l0 ms l -> after_entries l0 ms' l.
Proof. intros He [H1 H2 H3 H4 H5]. split; try done; intros f; rewrite <- He; auto. Qed.

Lemma dropped_snoc metrics m factory :
  dropped (metrics ++ [m]) factory = (dropped metrics factory || drops factory m)%bool.
Proof. unfold dropped. rewrite existsb_app. cbn [existsb]. by rewrite orb_false_r. Qed.

Lemma tag_source_snoc metrics m factory tag :
  tag_source accepts (metrics ++ [m]) factory tag =
  entry_tag accepts factory tag (tag_source accepts metrics factory tag) m.
Proof. unfold tag_source. by rewrite foldl_app. Qed.

Lemma dropping_entry l0 ms m l fs :
  entry_drops m = true ->
  (forall f, fs !! f = if decide (f ∈ (iteration (Locals.factories l)).*1 /\ selects (text_of "name" m) f = true)
                       then None else Locals.factories l !! f) ->
  after_entries l0 (fun _ => ms) l -> after_entries l0 (fun _ => ms ++ [m]) (l <| Locals.factories := fs |>).
Proof.
  intros Hd Hfs [H1 H2 H2' H3 H4].
  assert (forall f, fs !! f = if selects (text_of "name" m) f then None else Locals.factories l !! f) as Hf.
  { intros f. rewrite Hfs. case_decide as Hs; rewrite factory_key in Hs.
    - by destruct Hs as [_ ->].
    - destruct (selects _ f) eqn:Es; [|done]. destruct (Locals.factories l !! f) eqn:El; [|done]. naive_solver. }
  split; simpl; [|done..|].
  - intros f. rewrite Hf, dropped_snoc, H1. unfold drops. rewrite Hd, andb_true_r.
    by destruct (dropped ms f), (selects _ f).
  - intros f tag. rewrite Hf, tag_source_snoc. unfold entry_tag.
    destruct (selects _ f); [by intros [? ?]|]. apply H4.
Qed.

(** An entry is processed for the metrics that are there and that it affects. *)
Definition processed (m : json) (affected : string -> Prop) (l : Locals.locals) (ms ms' : list json) (f : string) : Prop :=
  ms' = ms ++ [m] /\ (is_Some (Locals.factories l !! f) -> affected f <-> selects (text_of "name" m) f = true) \/
  ms' = ms /\ ~ affected f.

Lemma keeping_entry l0 ms ms' m affected l l' :
  entry_drops m = false -> entry_step accepts m affected l l' ->
  (forall f, processed m affected l ms (ms' f) f) ->
  after_entries l0 (fun _ => ms) l -> after_entries l0 ms' l'.
Proof.
  intros Hd [[G0 G0' G1] G2 G3 G4 G5] Hp [H1 H2 H2' H3 H4]. split; [|auto..|].
  - intros f. rewrite G2, H1. destruct (Hp f) as [[-> _]|[-> _] ]; [|done].
    rewrite dropped_snoc. unfold drops. by rewrite Hd, andb_false_r, orb_false_r.
  - intros f tag Hf. rewrite G2 in Hf. specialize (H4 f tag Hf).
    assert (~ affected f -> holds (input_expressions_ (Locals.this l')) (tag_source accepts ms f tag) (tag_index l' f tag)) as Hn.
    { intros Hn. rewrite (same_tags_index l l' f tag) by auto. by eapply holds_more. }
    destruct (Hp f) as [[-> Ha]|[-> Ha] ]; [|auto]. rewrite tag_source_snoc. unfold entry_tag. specialize (Ha Hf).
    destruct (selects (text_of "name" m) f); [|by apply Hn; rewrite Ha].
    specialize (G3 f tag (proj2 Ha eq_refl)). unfold position, placed in G3.
    destruct (overrides m tag) as [e|].
    + destruct (accepts e); [exact G3|]. simpl. by rewrite G3.
    + rewrite G3. destruct (removes m tag); [|by eapply holds_more]. simpl. by destruct (tag_index l f tag).
Qed.

(** ** The array of entries *)

Lemma present_spec l0 ds ms l f :
  (forall f, is_Some (Locals.factories l0 !! f) <-> declared ds f = true) -> after_entries l0 (fun _ => ms) l ->
  is_Some (Locals.factories l !! f) <-> present ds ms f = true.
Proof.
  intros Hd Hl. unfold present. rewrite (visited_factories _ _ _ Hl f), andb_true_iff, <- Hd.
  destruct (dropped ms f); simpl; [|tauto]. split; [by intros [? ?]|naive_solver].
Qed.

Lemma declared_name ds f : declared ds f = true -> f ∈ (factory_name <$> defaultMetrics) ++ (text_of "name" <$> ds).
Proof.
  unfold declared. rewrite elem_of_app. destruct (definition_of ds f) as [d|] eqn:Ed.
  - intros _. right. induction ds as [|x ds IH] using rev_ind; [done|]. rewrite definition_of_snoc in Ed.
    rewrite fmap_app, elem_of_app. case_decide; [right; subst f; by left|]. left. by apply IH.
  - destruct (standard_of f) as [x|] eqn:Es; [|done]. intros _. left. unfold standard_of in Es.
    apply elem_of_list_to_map_2, list_elem_of_fmap in Es as (g & [= -> ->] & Hg).
    apply list_elem_of_fmap. eauto.
Qed.

Lemma reaches_spec l0 ds ms m l :
  (forall f, is_Some (Locals.factories l0 !! f) <-> declared ds f = true) -> after_entries l0 (fun _ => ms) l ->
  existsb (selects (text_of "name" m)) (iteration (Locals.factories l)).*1 = reaches ds ms m.
Proof.
  intros Hd Hl. unfold reaches. apply Bool.eq_iff_eq_true. rewrite !existsb_exists. split; intros (f & Hf & Hs).
  - apply list_elem_of_In, factory_key in Hf. apply (present_spec l0 ds ms l f Hd Hl) in Hf as Hp.
    exists f. rewrite Hp, Hs. split; [|done]. apply list_elem_of_In, declared_name.
    by apply andb_true_iff in Hp as [? _].
  - apply andb_true_iff in Hs as [Hp Hs]. exists f. split; [|done].
    by apply list_elem_of_In, factory_key, (present_spec l0 ds ms l f Hd Hl).
Qed.

(** The victim of an entry that fails is a metric that it is about. *)
Definition fails_in (ds : list json) (p : list json * option json) (victim : string) : Prop :=
  forall m, snd p = Some m -> present ds (fst p) victim = true /\ selects (text_of "name" m) victim = true.

(** The entries that were processed for a metric. *)
Definition processed_for (p : list json * option json) (victim factory : string) : list json :=
  fst p ++ if decide (factory = victim) then option_list (snd p) else [].

(** The entry that fails drops nothing. *)
Lemma entries_not_dropping ds ms elems m : snd (entries_from ds ms elems) = Some m -> entry_drops m = false.
Proof.
  revert ms. induction elems as [|x elems IH]; intros ms; cbn [entries_from]; [done|].
  destruct (entry_void x); [done|]. destruct (entry_drops x) eqn:Ed; cbn [negb andb]; [apply IH|].
  destruct (malformed x && reaches ds ms x)%bool; [by intros [= <-]|apply IH].
Qed.

Lemma processed_dropped j victim f :
  dropped (processed_for (entries_of accepts j) victim f) f = dropped (fst (entries_of accepts j)) f.
Proof.
  unfold processed_for. destruct (snd (entries_of accepts j)) as [m|] eqn:Em; case_decide; simpl;
    rewrite ?app_nil_r; try done.
  rewrite dropped_snoc. unfold drops. unfold entries_of in Em. apply entries_not_dropping in Em as ->.
  by rewrite andb_false_r, orb_false_r.
Qed.

Lemma entry_visited l0 ds ms m l tr b l' :
  (forall f, is_Some (Locals.factories l0 !! f) <-> declared ds f = true) -> after_entries l0 (fun _ => ms) l ->
  entry_void m = false ->
  traces (visit_metric m l) tr (Done (b, l')) -> Forall (answered accepts) tr ->
  if (negb (entry_drops m) && malformed m && reaches ds ms m)%bool then
    b = false /\ exists victim, fails_in ds (ms, Some m) victim /\ after_entries l0 (processed_for (ms, Some m) victim) l'
  else b = true /\ after_entries l0 (fun _ => ms ++ [m]) l'.
Proof.
  intros Hds Hl Hv Ht Hc.
  assert (match find m "dimensions" with None => True | Some (JObject _) => True | Some _ => False end) as Hv'
    by (unfold entry_void in Hv; by destruct (find m "dimensions") as [[]|]).
  destruct (entry_drops m) eqn:Hd; cbn [negb andb].
  - destruct (visit_metric_eq m Hv') as (tags & _ & He). rewrite He in Ht. fold (text_of "name" m) in Ht.
    destruct (drop_factories (iteration (Locals.factories l)).*1 (text_of "name" m) tags m l Hd) as (fs & Hx & Hfs).
    rewrite Hx in Ht. destruct Ht as [_ [= -> ->] ]. split; [done|]. by apply dropping_entry.
  - destruct (visit_metric_spec accepts m l tr b l' (visited_accepted _ _ _ Hl) Hd Ht Hc Hv') as (affected & Hs & Ha).
    unfold affects in Ha. fold (text_of "name" m) in Ha. rewrite (reaches_spec l0 ds ms m l Hds Hl) in Ha.
    destruct (malformed m && reaches ds ms m)%bool.
    + destruct Ha as (-> & v & Hk & Hsel & Ha). split; [done|]. exists v. split.
      * intros x [= <-]. split; [|done]. by apply (present_spec l0 ds ms l v Hds Hl), factory_key.
      * eapply keeping_entry; [done|exact Hs| |exact Hl]. intros f. unfold processed, processed_for. simpl.
        case_decide as Hf; [left; subst f; split; [done|]; by rewrite Ha|right]. by rewrite app_nil_r, Ha.
    + destruct Ha as [-> Ha]. split; [done|]. eapply keeping_entry; [done|exact Hs| |exact Hl].
      intros f. left. split; [done|]. intros Hf. rewrite Ha, factory_key. tauto.
Qed.

Lemma entries_visited l0 ds elems ms l tr b l' :
  (forall f, is_Some (Locals.factories l0 !! f) <-> declared ds f = true) -> after_entries l0 (fun _ => ms) l ->
  traces (iterate visit_metric elems l) tr (Done (b, l')) -> Forall (answered accepts) tr ->
  exists victim, fails_in ds (entries_from ds ms elems) victim /\
    after_entries l0 (processed_for (entries_from ds ms elems) victim) l'.
Proof.
  intros Hds. revert ms l tr.
  assert (forall ms l, after_entries l0 (fun _ => ms) l ->
    exists victim, fails_in ds (ms, None) victim /\ after_entries l0 (processed_for (ms, None) victim) l) as Hend.
  { intros ms l Hl. exists "". split; [done|]. eapply after_entries_ext; [|exact Hl]. intros f.
    unfold processed_for. simpl. by case_decide; rewrite app_nil_r. }
  induction elems as [|m elems IH]; intros ms l tr Hl; cbn [iterate entries_from].
  { intros [_ [= -> ->]] _. by apply Hend. }
  intros ([b1 l1] & t1 & t2 & -> & H1 & H2)%traces_bind_done [Hc1 Hc2]%Forall_app.
  destruct (entry_void m) eqn:Hv.
  { assert (visit_metric m l = mret (false, l)) as Hm.
    { unfold entry_void in Hv. unfold visit_metric, JsonObjectIterate. by destruct (find m "dimensions") as [[]|]. }
    rewrite Hm in H1. destruct H1 as [-> [= -> ->] ]. destruct H2 as [-> [= -> ->] ]. by apply Hend. }
  pose proof (entry_visited _ _ _ _ _ _ _ _ Hds Hl Hv H1 Hc1) as He.
  destruct (negb (entry_drops m) && malformed m && reaches ds ms m)%bool.
  - destruct He as [-> He]. by destruct H2 as [-> [= -> ->] ].
  - destruct He as [-> He]. by eapply IH.
Qed.

(** ** The configuration *)

Lemma process_spec j ctx tr l :
  expressions_ ctx = [] -> input_expressions_ ctx = ∅ ->
  traces (process j ctx) tr (Done l) -> Forall (answered accepts) tr ->
  let ds := definitions_of accepts j in
  exists l0 victim, after_definitions (seeded ctx) ds tr l0 /\
    fails_in ds (entries_of accepts j) victim /\ after_entries l0 (processed_for (entries_of accepts j) victim) l.
Proof.
  intros Hx Hi. cbv zeta. set (ds := definitions_of accepts j). unfold process.
  intros ([b0 l0] & t1 & t2 & -> & H1 & H2)%traces_bind_done [Hc1 Hc2]%Forall_app.
  apply traces_bind_done in H2 as ([b1 l1] & t3 & t4 & -> & H2 & [-> [= ->] ]).
  rewrite app_nil_r in *. exists l0.
  assert (after_definitions (seeded ctx) ds t1 l0) as Hd.
  { unfold ds, definitions_of, elements. unfold JsonArrayIterate in H1.
    destruct (find j "definitions") as [[]|]; try (destruct H1 as [-> [= -> ->] ]; apply seeded_after).
    apply (iterate_prefix visit_definition (definition_ok accepts) (answered accepts) (after_definitions (seeded ctx))
      (definition_step _) _ [] [] _ _ _ _ (seeded_after ctx) H1 Hc1). }
  pose proof Hd as [D1 D2 D3 D4 D5 D6].
  change (input_expressions_ (Locals.this (seeded ctx))) with (input_expressions_ ctx) in D5.
  change (expressions_ (Locals.this (seeded ctx))) with (expressions_ ctx) in D6.
  assert (after_entries l0 (fun _ => []) l0) as Hl.
  { split; [done| | | |].
    - intros e k. rewrite D5, D6, Hi, Hx. by rewrite lookup_empty, lookup_nil.
    - intros e k. by rewrite D5, Hi, lookup_empty.
    - intros f. eapply same_tags_indexed; [|apply (seeded_indexed ctx)]. by split; [rewrite D4|rewrite D3].
    - intros f tag _. rewrite D5, Hi. unfold tag_index. rewrite D4. apply (seeded_holds ctx). }
  assert (exists victim, fails_in ds (entries_of accepts j) victim /\
    after_entries l0 (processed_for (entries_of accepts j) victim) l1) as (victim & Hv & Hl').
  { unfold entries_of, elements. unfold JsonArrayIterate in H2. fold ds.
    assert (traces (iterate visit_metric match find j "metrics" with Some (JArray elems) => elems | _ => [] end l0) t3
      (Done (match find j "metrics" with Some (JArray _) | None => b1 | _ => true end, l1))) as H3
      by (by destruct (find j "metrics") as [[]|]; try destruct H2 as [-> [= -> ->] ]).
    by eapply entries_visited. }
  exists victim. split; [by apply after_definitions_mono|done].
Qed.

(** The position that a source has in the dimensions of the plugin. *)
Definition at_source (ctx : PluginRootContext) (s : option source) (i : nat) : Prop :=
  match s with
  | None => False
  | Some (Standard n) => i = n
  | Some (Input e) => exists k, i = (count_standard_labels + k)%nat /\ snd <$> expressions_ ctx !! k = Some e
  end.

(** The statistic of a metric is what the configuration declares, when the entry that
    fails does so in [victim]. *)
Record as_declared (tr : list host_event) (j : json) (victim : string) (ctx : PluginRootContext) (factory : string)
    (g : StatGen) : Prop := {
  declared_made : exists f, made tr (definitions_of accepts j) factory f /\
    metric_type g = factory_type f /\ extractor_ g = factory_extractor f /\
    protocols_ g = factory_protocols f /\ recurrent_ g = factory_recurrent f;
  declared_separators : (field_separator g, value_separator g) = separators j;
  declared_tags tag i : (tag, i) ∈ zip (metric_tags g) (indexes_ g) <->
    at_source ctx (tag_source accepts (processed_for (entries_of accepts j) victim factory) factory tag) i
}.

Lemma zip_kept (kept : list (string * nat)) : zip kept.*1 kept.*2 = kept.
Proof. by rewrite zip_fst_snd. Qed.

Lemma kept_at_source l0 metrics l factory tag i :
  after_entries l0 metrics l -> is_Some (Locals.factories l !! factory) ->
  (tag, i) ∈ kept_tags l factory <-> at_source (Locals.this l) (tag_source accepts (metrics factory) factory tag) i.
Proof.
  intros [_ Hx _ Hi Ht] Hf. rewrite kept_tags_spec by done. specialize (Ht factory tag Hf).
  destruct (tag_source accepts (metrics factory) factory tag) as [[n|e]|]; simpl in *.
  - rewrite Ht. naive_solver.
  - destruct Ht as (k & Hk & ->). apply Hx in Hk as Hk'. split; [intros [= <-]; eauto|].
    intros (k' & -> & Hk''%Hx). congruence.
  - split; [|done]. intros Hs. by rewrite Hs in Ht.
Qed.

Lemma initialize_traces j ctx tr ok ctx' :
  traces (initializeDimensions j ctx) tr (Done (ok, ctx')) -> Forall (answered accepts) tr ->
  exists c l tr', tr' ⊆ tr /\ Forall (answered accepts) tr' /\
    expressions_ c = [] /\ input_expressions_ c = ∅ /\ traces (process j c) tr' (Done l) /\
    expressions_ ctx' = expressions_ (Locals.this l) /\
    stats_ ctx' = stat_of l "istio_" (fst (separators j)) (snd (separators j)) <$> iteration (Locals.factories l).
Proof.
  unfold initializeDimensions.
  intros (c & t1 & t2 & -> & H1 & H2)%traces_bind_done [_ Hc]%Forall_app.
  apply traces_bind_done in H2 as (l & t3 & t4 & -> & H2 & H3). apply Forall_app in Hc as [Hc _].
  cbn zeta in H3. rewrite make_stats_eq, bind_ret in H3.
  destruct H3 as (build & t5 & -> & [] & t6 & -> & -> & [= -> ->]).
  assert (returns (fun c => expressions_ c = [] /\ input_expressions_ c = ∅) (cleanupExpressions ctx)) as Hr.
  { unfold cleanupExpressions.
    do 2 (apply (returns_bind (fun _ => True)); [apply returns_true|]; intros ? _). done. }
  destruct (returns_traces _ _ _ _ Hr H1) as [He Hi].
  exists c, l, t3. split; [|done]. intros e Hin. rewrite !elem_of_app. tauto.
Qed.
(** The statistics of factories that have the names of their keys. *)
Definition keyed (l : Locals.locals) : Prop := map_Forall (fun name f => factory_name f = name) (Locals.factories l).

Lemma prefix_inj (p x y : string) : p +:+ x = p +:+ y -> x = y.
Proof. induction p as [|c p IH]; [done|]. simpl. by intros [= H%IH]. Qed.

Lemma in_stats l fs vs g factory :
  keyed l ->
  g ∈ stat_of l "istio_" fs vs <$> iteration (Locals.factories l) /\ metric_name g = "istio_" +:+ factory <->
  exists f, Locals.factories l !! factory = Some f /\ g = stat_of l "istio_" fs vs (factory, f).
Proof.
  intros Hk. rewrite list_elem_of_fmap. setoid_rewrite iteration_perm. split.
  - intros [([name f] & -> & Hf%elem_of_map_to_list) Hn%prefix_inj]. simpl in Hn.
    rewrite (Hk _ _ Hf) in Hn. subst name. eauto.
  - intros (f & Hf & ->). split; [exists (factory, f); by rewrite elem_of_map_to_list|].
    simpl. by rewrite (Hk _ _ Hf).
Qed.

Lemma stats_names l fs vs :
  keyed l -> NoDup (metric_name <$> (stat_of l "istio_" fs vs <$> iteration (Locals.factories l))).
Proof.
  intros Hk. rewrite <- list_fmap_compose.
  assert (metric_name ∘ stat_of l "istio_" fs vs <$> iteration (Locals.factories l) =
          String.append "istio_" <$> (iteration (Locals.factories l)).*1) as ->.
  { rewrite <- list_fmap_compose. apply Forall_fmap_ext_1, Forall_forall. intros [name f].
    rewrite iteration_perm, elem_of_map_to_list. intros Hf. simpl. by rewrite (Hk _ _ Hf). }
  apply NoDup_fmap_2; [intros x y; apply prefix_inj|].
  rewrite iteration_perm. apply NoDup_fst_map_to_list.
Qed.
End whole.

(** ** Theorems *)

Section whole_theorems.
Context `{A : AbslStrings} `{F : Flatbuffers} `{U : UnorderedMap} `{J : NlohmannJson} `{T : AbslTime}.

(** C10: every configuration makes the metrics that it declares.  Whatever the document
    is and whatever expressions the host rejects, the statistics of the plugin are those
    of the standard and the defined metrics that no entry drops, one each, whatever
    was there before.  The definitions that count are those before the first one
    without a name, without a value or with a value that the host rejects.  The entries
    that count are those before the first one whose dimensions are no object or that
    fails: one that has a tag to remove or a dimension that is no string, does not
    drop, and is about a metric that is there.  That entry is processed for one such
    metric only, up to the failure.  Each statistic has the type, the value and the
    protocols of its last definition, or of the standard metric; and its tags are the
    standard labels and the expressions that the entries about it, one after the other,
    left: a later expression replaces an earlier one, and a tag that is removed, or whose
    expression is rejected, is gone until a later entry gives it an expression. *)
Theorem configuration_as_declared accepts j ctx tr ok ctx' :
  traces (initializeDimensions j ctx) tr (Done (ok, ctx')) -> Forall (answered accepts) tr ->
  let definitions := definitions_of accepts j in
  let entries := entries_of accepts j in
  NoDup (metric_name <$> stats_ ctx') /\
  exists victim, fails_in definitions entries victim /\ forall factory,
    ((exists g, g ∈ stats_ ctx' /\ metric_name g = "istio_" +:+ factory) <->
     present definitions (fst entries) factory = true) /\
    forall g, g ∈ stats_ ctx' -> metric_name g = "istio_" +:+ factory ->
      as_declared accepts tr j victim ctx' factory g.
Proof.
  intros Ht Hc. destruct (initialize_traces accepts _ _ _ _ _ Ht Hc)
    as (c & l & tr' & Hsub & Hc' & Hx & Hi & Hp & Hx' & Hs).
  destruct (process_spec accepts j c tr' l Hx Hi Hp Hc') as (l0 & victim & Hdef & Hv & Hent).
  cbv zeta. set (ds := definitions_of accepts j) in *. set (es := entries_of accepts j) in *.
  assert (forall f, dropped (processed_for es victim f) f = dropped (fst es) f) as Hdr by (by apply processed_dropped).
  assert (forall f fac, Locals.factories l !! f = Some fac -> made tr' ds f fac) as Hm.
  { intros f fac. rewrite (visited_factories _ _ _ _ Hent). destruct (dropped _ f); [done|].
    apply (defined_made _ _ _ _ Hdef). }
  assert (keyed l) as Hk by (intros f fac Hf; by destruct (Hm _ _ Hf)).
  rewrite Hs. split; [by apply stats_names|]. exists victim. split; [done|]. intros factory.
  assert (forall g, g ∈ stats_ ctx' /\ metric_name g = "istio_" +:+ factory <->
    exists f, Locals.factories l !! factory = Some f /\
      g = stat_of l "istio_" (fst (separators j)) (snd (separators j)) (factory, f)) as Hin
    by (intros g; rewrite Hs; by apply in_stats).
  rewrite <- Hs. split.
  - setoid_rewrite Hin. unfold present.
    rewrite andb_true_iff, <- (defined_all _ _ _ _ Hdef factory), (visited_factories _ _ _ _ Hent), Hdr.
    destruct (dropped _ factory); [naive_solver|]. split; [naive_solver|].
    intros [[f Hf] _]. eauto.
  - intros g Hg Hn. destruct (proj1 (Hin g) (conj Hg Hn)) as (f & Hf & ->). split.
    + exists f. split; [|done]. eapply made_mono; [exact Hsub|by apply Hm].
    + symmetry. apply surjective_pairing.
    + intros tag i. simpl. rewrite zip_kept, (kept_at_source _ _ _ _ _ _ _ Hent) by eauto.
      unfold at_source. by rewrite Hx'.
Qed.
End whole_theorems.

(** ** Witnesses *)

Section whole_witnesses.
#[local] Existing Instance flat_example.
#[local] Instance whole_absl : AbslStrings := absl_reference.
#[local] Existing Instance map_order.
#[local] Existing Instance no_time.

(** Entries about all metrics and one that drops: the third takes the first's expression
    back, and brings back a label that it had removed.  A rejected value ends the
    definitions, and a rejected expression removes the tag.  The fourth entry fails in
    the only metric that it names, at the second of its three dimensions. *)
Definition whole_document : json := JObject [
  ("definitions", JArray [
     JObject [("name", JString "sizes"); ("value", JString "request.size")];
     JObject [("name", JString "late"); ("value", JString "(")];
     JObject [("name", JString "later"); ("value", JString "request.size")]]);
  ("metrics", JArray [
     JObject [("dimensions", JObject [("host", JString "request.host"); ("reporter", JString "a")]);
              ("tags_to_remove", JArray [JString "response_flags"])];
     JObject [("name", JString "request_bytes"); ("drop", JBool true)];
     JObject [("dimensions", JObject [("response_flags", JString "request.host"); ("source_app", JString "(")]);
              ("tags_to_remove", JArray [JString "host"])];
     JObject [("name", JString "requests_total");
              ("dimensions", JObject [("zone", JString "c"); ("mesh", JNull); ("area", JString "b")])];
     JObject [("drop", JBool true)]])].

#[local] Instance whole_json : NlohmannJson := one_document "{...}" whole_document.

Definition accepts_text (e : string) : bool := negb (bool_decide (e = "(")).

Definition choosy_host : handler HostCall Z := fun X e s =>
  match e in HostCall X return X * Z with
  | CreateExpression text => if accepts_text text then ((Ok, s + 1), s + 1) else ((OtherResult 2, 0), s)
  | e => config_host "{...}" _ e s
  end.

Definition whole_run := run choosy_host (initializeDimensions whole_document example_root) 0.
Definition whole_end : bool * PluginRootContext := done_or (false, example_root) (result whole_run).
Definition whole_entries := entries_of accepts_text whole_document.

(** What the document declares of [requests_total] and of another metric. *)
Definition example_source (factory tag : string) : option source :=
  tag_source accepts_text (processed_for whole_entries "requests_total" factory) factory tag.

Example whole_sources :
  example_source "requests_total" "host" = None /\
  example_source "requests_total" "reporter" = Some (Input "a") /\
  example_source "requests_total" "response_flags" = Some (Input "request.host") /\
  example_source "requests_total" "source_app" = None /\
  example_source "requests_total" "source_version" = Some (Standard 5) /\
  example_source "requests_total" "area" = Some (Input "b") /\
  example_source "requests_total" "zone" = None /\ example_source "response_bytes" "area" = None.
Proof. repeat split; vm_compute; reflexivity. Qed.

Lemma whole_fails : exists m, snd whole_entries = Some m /\ text_of "name" m = "requests_total".
Proof. eexists. split; vm_compute; reflexivity. Qed.

Lemma selects_only name factory : name <> EmptyString -> selects name factory = true -> factory = name.
Proof.
  unfold selects. intros Hn. rewrite bool_decide_eq_false_2 by done. by intros ->%bool_decide_eq_true.
Qed.

Lemma configuration_as_declared_witness :
  length (stats_ (snd whole_end)) = 10%nat /\ NoDup (metric_name <$> stats_ (snd whole_end)) /\
  (exists g, g ∈ stats_ (snd whole_end) /\ metric_name g = "istio_sizes") /\
  ~ (exists g, g ∈ stats_ (snd whole_end) /\ metric_name g = "istio_request_bytes") /\
  ~ (exists g, g ∈ stats_ (snd whole_end) /\ metric_name g = "istio_late") /\
  forall g, g ∈ stats_ (snd whole_end) -> metric_name g = "istio_requests_total" ->
    as_declared accepts_text (trace whole_run) whole_document "requests_total" (snd whole_end) "requests_total" g.
Proof.
  split; [vm_compute; reflexivity|].
  assert (is_done (result whole_run) = true) as Hr%(is_done_or (false, example_root)) by (vm_compute; reflexivity).
  change (done_or _ _) with whole_end in Hr. rewrite (surjective_pairing whole_end) in Hr.
  destruct (configuration_as_declared accepts_text whole_document example_root (trace whole_run)
    (fst whole_end) (snd whole_end)) as (Hn & victim & Hv & Hs).
  - apply run_done_traces. exact Hr.
  - vm_compute. repeat constructor; by intros.
  - assert (victim = "requests_total") as ->.
    { unfold fails_in in Hv. change (entries_of accepts_text whole_document) with whole_entries in Hv.
      destruct whole_fails as (m & Hm & Ht). destruct (Hv m Hm) as [_ Hsel]. rewrite Ht in Hsel. by apply selects_only in Hsel. }
    split; [done|]. split; [|split; [|split] ].
    + apply (proj1 (Hs "sizes")). vm_compute. reflexivity.
    + intros Hx%(proj1 (Hs "request_bytes")). by vm_compute in Hx.
    + intros Hx%(proj1 (Hs "late")). by vm_compute in Hx.
    + apply (proj2 (Hs "requests_total")).
Defined.
End whole_witnesses.
